(* ===== verification/_CoqProject ===== *)
-Q . S2P
Prelude.v
Concrete.v
Expiring.v
AuthToken.v
AuthChallenge.v
Storage.v
Credentials.v
CredentialsFacts.v
CredentialsProps.v
Text.v
Http.v
Gate.v
Routes.v
RoutesProps.v
Egress.v
EgressProps.v
Streams.v
Framer.v
FramerProps.v
StreamsProps.v
Tasks.v
TasksFacts.v
TasksProps.v
StorageWitness.v
AuthWitness.v
Devices.v
Notify.v
NotifyProps.v
Slots.v
SlotsProps.v
Attestation.v
AttestationProps.v
Attest.v
AttestProps.v
AttestationWitness.v
Serve.v
ServeProps.v
ServiceProps.v
Backend.v
BackendProps.v
Anchor.v
AnchorProps.v
MemoryRoots.v
PoolProps.v
AnchorWitness.v
Ber.v
BerProps.v
Policy.v
PolicyProps.v
Nsm.v
Keys.v
Boot.v
BootProps.v
KeysProps.v
NsmProps.v
Logs.v
LogsProps.v
Forward.v
ForwardProps.v
Settings.v
SettingsProps.v
Pinpoint.v
PinpointProps.v
Sandbox.v
SandboxProps.v
S3.v
S3Props.v
Held.v
Acme.v
AcmeProps.v
Nbd.v
Start.v
StartProps.v
Worker.v
Passkey.v
Client.v
ClientProps.v
Verifier.v
VerifierProps.v
