(* ===== verification/Prelude.v ===== *)
(** * enclave-runtime: a verification development

    enclave-runtime runs a WebAssembly guest in a Nitro enclave for many tenants.
    The parent instance carries its packets, its disk and its clock and is not
    trusted.  A client approves an interaction with a passkey; the gate lets the
    request through to a guest that sees the tenant's own files; the answer is
    held back until what the guest wrote is anchored in an object store the
    parent cannot rewind, and a proof signed by the security module binds it to
    the request.  This development translates that code into Rocq and proves what
    each part promises to the next.  Source paths are under src/runtime/src/
    unless they begin with crates/.

    ** How the parts interact

    [main] starts the parts (Start) over the parent's disk (Nbd); a boot (Boot) decides with the key source (Keys) and
    the security module (Nsm) whether this enclave may have the filesystem's
    secret, and opens the control pool over its anchor chain (Anchor) in the
    object store (Backend).  The pool manager (Storage) makes and opens a pool
    for each tenant.  A request goes through the service closure (Serve): to the
    public routes (Routes) that register passkeys (Credentials) and mint tokens
    (AuthToken) from answered challenges (AuthChallenge); or through the gate
    (Gate), which spends the token, to the tenant's slot (Slots) and a fresh
    instance of the guest (Sandbox, Settings), whose body is released after the
    anchor.  A guest can enqueue work (Tasks), hold connections (Streams, Framer),
    send requests (Egress) and raise wakes (Notify) for enrolled devices
    (Devices), which the forwarder sends through the push service (Pinpoint);
    the worker (Worker) runs due work, a supervisor (Held) holds the connections.
    The serving certificate and its sealed cache are Acme.
    What a guest prints goes to the log queue (Logs) and to CloudWatch (Forward).
    Attest and Attestation are the two ends of a proof; Client and Verifier are
    the command-line programs that read one, Passkey the authenticator they hold.

    ** The files, in order

    - Prelude: results, the state-and-error monad [M] with its inversion lemmas,
      strings, bytes, machine integers, ordered maps, the hint database [runtime].
      Concrete: parameters that evaluate, for the witnesses.
    - Expiring, AuthToken, AuthChallenge: auth/token.rs, auth/challenge.rs; the
      tables against the history of calls.
    - Storage, StorageWitness: the pool manager of zfs.rs, the tenants' files,
      restarts. Anchor, AnchorProps, PoolProps, AnchorWitness: the chain of signed
      anchors and a pool's handle, zfs.rs; Backend, BackendProps: the object store
      in memory, store/; MemoryRoots: that store as an instance of the interface
      [Roots] the chain is proved against.
    - Credentials, CredentialsFacts, CredentialsProps: auth/credential.rs, as an
      instance of the class [CredentialStore] the gate is proved against.
    - Text, Http: what components use of [str] and of hyper's requests.
    - Gate, Routes, RoutesProps, AuthWitness: auth/gate.rs, auth/routes.rs.
    - Egress, EgressProps: serve/egress.rs. Streams, Framer and their properties:
      stream.rs. Tasks, TasksFacts, TasksProps: tasks.rs.
    - Devices, Notify, NotifyProps: notify/device.rs, notify/mod.rs. Pinpoint,
      PinpointProps: notify/pinpoint.rs.
    - Slots, SlotsProps: serve/pool.rs, serve/progress.rs, the watchdog. Serve,
      ServeProps, ServiceProps: serve/http.rs, serve/client.rs.
    - Attestation, AttestationProps, AttestationWitness: the crate
      crates/nitro-attestation. Attest, AttestProps: serve/attest.rs.
    - Ber, BerProps, Policy, PolicyProps, Keys, KeysProps: keys/. Nsm, NsmProps:
      crates/nitro-nsm, guest.rs. Boot, BootProps: boot.rs, store/crypto/keys.rs,
      mount.rs.
    - Logs, LogsProps: guest_io.rs. Forward, ForwardProps: guest_io/cloudwatch.rs.
    - Settings, SettingsProps: env.rs. Sandbox, SandboxProps: clock.rs, random.rs,
      run.rs. S3, S3Props: store/backend/aws.rs, another instance of [Roots].
    - Held: the life of one connection, stream.rs. Worker: the worker of tasks.rs
      with run_background of serve/http.rs. Nbd: the disk's attachment, zfs.rs.
      Acme, AcmeProps: serve/acme.rs, serve/tls.rs. Start, StartProps: main.rs,
      flag.rs.
    - Passkey: auth/authenticator.rs. Client, ClientProps: bin/passkey-client.rs.
      Verifier, VerifierProps: crates/nitro-attestation/src/bin/nitro-attest.rs.

    ** How the code is modelled

    A handler is a function in [M S E A]: it reads and writes a state and returns
    Rust's [Result], keeping the writes made before an error.  A mutex held
    for a call makes the call one step; where the code lets go of a lock between
    two halves (a credential's lookup, a task's turn, a delivery) the halves are
    separate steps and the theorems quantify over what comes between.  Instants
    that the code reads are arguments.  Integers are [Z] with the wrap-around or
    the check of the Rust operation written out.  Records keep the fields'
    names; a field or function whose name two files share is qualified by its
    file.

    The outside is in parameters: type classes for libraries (hashes,
    signatures, CBOR, JSON, X.509, CMS, AES, WebAuthn, AWS) with the documented
    laws a theorem needs in a class of their own, named after it and [Laws];
    scripts of outcomes, over all of which the theorems quantify, for the file
    system, zpool and the network; arguments for what a guest does.  Every class
    of laws has an instance that evaluates, on which the witnesses run the
    theorems.  Error texts that carry details are abbreviated.

    ** What the theorems show

    - Who may act: a guest runs as a tenant only behind an assertion by one of the
      tenant's credentials, once ([guest_needs_assertion], [guest_behind_gate],
      [redeem_refines_history]); credentials are registered once and revoked for
      good; registrations answer their request.
    - What lasts: a complete answer was anchored ([answer_is_durable],
      [anchored_survives_restart]); publishing keeps a pool bootable and a boot
      opens only what the newest anchor vouches for ([anchor_keeps_bootable],
      [open_spec], [chain_tip_spec]); retained versions survive and are found
      ([retained_version_survives], [retained_read_finds_the_oldest]); tenants'
      regions are disjoint; no task is lost, none attempted twice at once, and
      what one leaves is what its report anchored ([task_run_durable]).
    - Who has the secret: boots of one filesystem agree ([boots_agree],
      [boot_spec]); a secret leaves the service only under a key and policy that
      were checked ([secret_under_checked_key], [minted_key_opens]); the guest is
      measured before ([measured_guest_is_the_pair]); the reader of the service's
      envelope against the grammar of BER ([to_der_spec]).
    - What a proof binds: [proof_is_the_runtimes], [proof_names_request],
      [connection_bound]; who reads one acts only on it
      ([approval_goes_to_the_identified], [ok_means_identified]).
    - What leaves: egress reaches public addresses only ([admits_public]); a wake
      carries labels ([wake_carries_labels]), is one request at most and prunes a
      device only on an answer that it is gone ([wake_spec]); log records are
      delivered once, in order, within the service's limits, none lost but for a
      cause that the model names, by a loop that sleeps ([logs_refine],
      [forwarded_once], [loop_sleeps]); a held connection hands the guest what the
      arrived bytes say, in order ([held_in_order]).
    - What starts: what was measured, on the secret of the key source that the start
      opened ([starts_what_was_measured]).
    - What a guest is given: the settings of its own file ([settings_read_back],
      [settings_well_formed]), the hardware's time ([guest_time]), the device's random bytes
      ([get_random_ends]).

    Each property has a witness that applies it to concrete values, in the
    component's Witness file or module at the end of its last file; the Examples beside
    them record where the code departs from what its comments say.

    ** Bounds and fuel

    [Anchor.CHAIN_FUEL], 66, doubles past any 64-bit sequence number and is proved
    enough ([chain_tip_spec]).  [Ber.transcode] recurses on the length of its
    input, every round consuming a byte; [Nsm.fill_random] on the bytes asked
    for, every round giving one; [Settings.sections] on the file's length, more
    fuel changing nothing ([settings_well_formed]); [Settings.leb128_out] on ten
    bytes, which hold 64 bits; [Forward.seal_batches] on the records gathered;
    listings and sweeps on the map's size, proved to end ([listing_complete]).

    ** Not modelled

    wasmtime, hyper, rustls, rustls-acme's state machine, tokio, clap and the AWS
    SDK (libraries: parameters where their answers matter); net.rs, linker.rs and
    state.rs (wiring of libraries); the accept loop and the drain when it ends;
    the emulator's settings that only a testing build has, where they change no
    decision here; the transport and signing of notify/transport.rs; the threads
    that copy the disk's bytes; deadlines that abort a task at shutdown; the test
    doubles other than the security module's and the memory store; what the
    command-line programs print and dump; the example guests, which are
    programs the runtime runs.
    *)
From stdpp Require Export base tactics countable numbers pretty sorting strings gmap list.
From Stdlib Require Strings.Byte.

#[export] Set Default Goal Selector "!".

(** ** Scopes *)
Declare Scope runtime_scope.
Delimit Scope runtime_scope with rt.
Open Scope runtime_scope.
Open Scope string_scope.
Open Scope list_scope.
Open Scope Z_scope.

(** ** Results and the state-and-error monad

    [result E A] is Rust's [Result<A, E>].  [M S E A] is a handler that reads
    and writes a state [S] and returns a [Result]; like the Rust code it keeps
    the writes made before an error. *)
Inductive result (E A : Type) : Type :=
  | Ok (a : A)
  | Err (e : E).
Arguments Ok {E A} a.
Arguments Err {E A} e.

#[export] Instance result_eq_dec `{EqDecision E, EqDecision A} : EqDecision (result E A).
Proof. solve_decision. Defined.

Definition is_ok {E A} (r : result E A) : bool := match r with Ok _ => true | Err _ => false end.
Definition to_option {E A} (r : result E A) : option A := match r with Ok a => Some a | Err _ => None end.
Definition map_err {E E' A} (f : E → E') (r : result E A) : result E' A :=
  match r with Ok a => Ok a | Err e => Err (f e) end.
Definition ok_or {E A} (o : option A) (e : E) : result E A :=
  match o with Some a => Ok a | None => Err e end.

#[export] Instance result_ret E : MRet (result E) := λ A a, Ok a.
#[export] Instance result_bind E : MBind (result E) :=
  λ A B f r, match r with Ok a => f a | Err e => Err e end.
#[export] Instance result_fmap E : FMap (result E) :=
  λ A B f r, match r with Ok a => Ok (f a) | Err e => Err e end.

(** Rust's [ensure!] in pure code. *)
Definition check {E} (b : bool) (e : E) : result E () := if b then Ok tt else Err e.

Definition M (S E A : Type) : Type := S → result E A * S.
#[export] Instance M_ret S E : MRet (M S E) := λ A a s, (Ok a, s).
#[export] Instance M_bind S E : MBind (M S E) :=
  λ A B f m s, match m s with (Ok a, s') => f a s' | (Err e, s') => (Err e, s') end.
#[export] Instance M_fmap S E : FMap (M S E) :=
  λ A B f m s, match m s with (Ok a, s') => (Ok (f a), s') | (Err e, s') => (Err e, s') end.

Definition fail {S E A} (e : E) : M S E A := λ s, (Err e, s).
Definition ensure {S E} (b : bool) (e : E) : M S E () := λ s, (check b e, s).
Definition get {S E} : M S E S := λ s, (Ok s, s).
Definition gets {S E A} (f : S → A) : M S E A := λ s, (Ok (f s), s).
Definition put {S E} (s : S) : M S E () := λ _, (Ok tt, s).
Definition modify {S E} (f : S → S) : M S E () := λ s, (Ok tt, f s).
Definition lift {S E A} (r : result E A) : M S E A := λ s, (r, s).
Definition unwrap {S E A} (o : option A) (e : E) : M S E A := lift (ok_or o e).
(** A call whose outcome the caller inspects instead of propagating with [?]. *)
Definition attempt {S E E' A} (m : M S E A) : M S E' (result E A) :=
  λ s, let '(r, s') := m s in (Ok r, s').

Ltac unfold_m :=
  unfold mbind, mret, fmap, M_bind, M_ret, M_fmap, result_bind, result_ret, result_fmap,
    fail, ensure, get, gets, put, modify, lift, unwrap, attempt, check, ok_or in *.

(** Runs a handler symbolically: unfold the monad and split every branch. *)
Ltac run_m := unfold_m; cbn beta iota zeta in *; repeat (case_match; simplify_eq/=); try done.

(** Folds a handler over a list, stopping at the first error: a Rust [for] loop
    whose body uses [?]. *)
Fixpoint forM {S E A} (f : A → M S E ()) (l : list A) : M S E () :=
  match l with
  | [] => mret tt
  | x :: l => _ ← f x; forM f l
  end.

(** A loop invariant [I] on the elements left, and [C], what any exit leaves. *)
Lemma forM_inv {S E A} (f : A → M S E ()) (I : list A → S → Prop) (C : S → Prop) l s r s' :
  (∀ l s, I l s → C s) →
  (∀ x l s r s', I (x :: l) s → f x s = (r, s') → C s' ∧ (r = Ok tt → I l s')) →
  I l s → forM f l s = (r, s') → C s' ∧ (r = Ok tt → I [] s').
Proof.
  intros HC Hf. revert s. induction l as [|x l IH]; intros s Hs H; simpl in H.
  - injection H as <- <-. split; [by eapply HC|done].
  - unfold mbind, M_bind in H. destruct (f x s) as [[[]|e] s1] eqn:E1;
      destruct (Hf _ _ _ _ _ Hs E1) as [Hc Hi]; [eauto|]. by injection H as <- <-.
Qed.

(** Inversion of a run, one bind at a time. *)
Lemma mbind_inv {S E A B} (m : M S E A) (f : A → M S E B) s r s' :
  (m ≫= f) s = (r, s') →
  (∃ a s1, m s = (Ok a, s1) ∧ f a s1 = (r, s')) ∨ (∃ e, m s = (Err e, s') ∧ r = Err e).
Proof. unfold_m. destruct (m s) as [[a|e] s1]; intros H; [left|right]; naive_solver. Qed.
Lemma mbind_ok {S E A B} (m : M S E A) (f : A → M S E B) s a s1 :
  m s = (Ok a, s1) → (m ≫= f) s = f a s1.
Proof. intros H. unfold_m. by rewrite H. Qed.
Lemma ensure_inv {S E} b (e : E) (s : S) r s' :
  ensure b e s = (r, s') → s' = s ∧ r = if b then Ok tt else Err e.
Proof. unfold ensure, check. destruct b; by intros [= <- <-]. Qed.
Lemma unwrap_inv {S E A} (o : option A) (e : E) (s : S) r s' :
  unwrap o e s = (r, s') → s' = s ∧ r = match o with Some a => Ok a | None => Err e end.
Proof. unfold unwrap, lift, ok_or. destruct o; by intros [= <- <-]. Qed.
Lemma lift_inv {S E A} (x : result E A) (s : S) r s' : lift x s = (r, s') → x = r ∧ s' = s.
Proof. by intros [= <- <-]. Qed.

Lemma get_inv {S E} (s a s' : S) : (get : M S E S) s = (Ok a, s') → a = s ∧ s' = s.
Proof. by intros [= <- <-]. Qed.
Lemma gets_inv {S E A} (f : S → A) (s s' : S) a : (gets f : M S E A) s = (Ok a, s') → a = f s ∧ s' = s.
Proof. by intros [= <- <-]. Qed.
Lemma ret_inv {S E A} (x : A) (s s' : S) a : (mret x : M S E A) s = (Ok a, s') → a = x ∧ s' = s.
Proof. by intros [= <- <-]. Qed.
Lemma modify_inv {S E} (f : S → S) (s s' : S) a : (modify f : M S E ()) s = (Ok a, s') → s' = f s.
Proof. by intros [= <- <-]. Qed.

(** [step H as a s' H1]: one bind of the run [H], the error case set aside. *)
Ltac inv_bind H :=
  let a := fresh "a" in let s := fresh "s" in let e := fresh "e" in
  let H1 := fresh "Hrun" in
  apply mbind_inv in H as [(a & s & H1 & H)|(e & H1 & H)];
    [|first [discriminate H|subst]].
(** Reads the steps whose result is evident: state access and guards. *)
Ltac inv_pure :=
  repeat match goal with
  | H : get _ = (Ok _, _) |- _ => apply get_inv in H as [-> ->]
  | H : gets _ _ = (Ok _, _) |- _ => apply gets_inv in H as [-> ->]
  | H : mret _ _ = (Ok _, _) |- _ => apply ret_inv in H as [? ->]; simplify_eq
  | H : modify _ _ = (Ok _, _) |- _ => apply modify_inv in H as ->
  | H : (mret _) _ = _ |- _ => unfold mret, M_ret in H; simplify_eq
  | H : M_ret _ _ _ _ _ = _ |- _ => unfold M_ret in H; simplify_eq
  | H : fail _ _ = _ |- _ => unfold fail in H; simplify_eq
  | H : get _ = _ |- _ => unfold get in H; simplify_eq
  | H : gets _ _ = _ |- _ => unfold gets in H; simplify_eq
  | H : put _ _ = _ |- _ => unfold put in H; simplify_eq
  | H : modify _ _ = _ |- _ => unfold modify in H; simplify_eq
  | H : lift _ _ = _ |- _ => unfold lift in H; simplify_eq
  | H : ensure ?b _ _ = _ |- _ =>
      apply ensure_inv in H as [-> H]; destruct b eqn:?; simplify_eq
  | H : unwrap ?o _ _ = _ |- _ =>
      apply unwrap_inv in H as [-> H]; destruct o eqn:?; simplify_eq
  end.

(** The values of unit-typed steps. *)
Ltac units := repeat match goal with u : unit |- _ => destruct u end.

(** [preserves I m]: whatever it returns, [m] keeps the invariant [I]. *)
Definition preserves {S E A} (I : S → Prop) (m : M S E A) : Prop := ∀ s, I s → I (m s).2.

Section preserves.
Context {S E : Type} (I : S → Prop).
Lemma preserves_ret {A} (a : A) : preserves I (mret a : M S E A).
Proof. by intros s. Qed.
Lemma preserves_fail {A} (e : E) : preserves I (fail e : M S E A).
Proof. by intros s. Qed.
Lemma preserves_lift {A} (r : result E A) : preserves I (lift r).
Proof. by intros s. Qed.
Lemma preserves_gets {A} (f : S → A) : preserves I (gets f : M S E A).
Proof. by intros s. Qed.
Lemma preserves_modify (f : S → S) : (∀ s, I s → I (f s)) → preserves I (modify f : M S E ()).
Proof. intros Hf s. apply Hf. Qed.
Lemma preserves_bind {A B} (m : M S E A) (f : A → M S E B) :
  preserves I m → (∀ a, preserves I (f a)) → preserves I (m ≫= f).
Proof.
  intros Hm Hf s Hs. specialize (Hm s Hs). unfold_m.
  destruct (m s) as [[a|e] s']; simpl in *; [by apply Hf|done].
Qed.
(** A continuation after [?] on a pure result may use that it was [Ok]. *)
Lemma preserves_lift_bind {A B} (r : result E A) (f : A → M S E B) :
  (∀ a, r = Ok a → preserves I (f a)) → preserves I (lift r ≫= f).
Proof. intros Hf s Hs. unfold_m. destruct r; [by apply Hf|done]. Qed.
(** A continuation that reads the state may use that the state satisfies [I]. *)
Lemma preserves_get {A} (f : S → M S E A) :
  (∀ s, I s → I (f s s).2) → preserves I (get ≫= f).
Proof. intros Hf s. apply Hf. Qed.
Lemma preserves_if {A} (b : bool) (m1 m2 : M S E A) :
  preserves I m1 → preserves I m2 → preserves I (if b then m1 else m2).
Proof. by destruct b. Qed.
Lemma preserves_attempt {E' A} (m : M S E A) : preserves I m → preserves I (attempt (E':=E') m).
Proof. intros Hm s Hs. specialize (Hm s Hs). unfold attempt. by destruct (m s). Qed.
Lemma preserves_forM {A} (f : A → M S E ()) (l : list A) :
  (∀ x, preserves I (f x)) → preserves I (forM f l).
Proof.
  intros Hf. induction l as [|x l IH]; [apply preserves_ret|].
  apply preserves_bind; [apply Hf|done].
Qed.
End preserves.
Lemma preserves_ok {S E A} (I : S → Prop) (m : M S E A) s r s' :
  preserves I m → I s → m s = (r, s') → I s'.
Proof. intros Hm Hs Hr. specialize (Hm s Hs). by rewrite Hr in Hm. Qed.

Create HintDb preserves.
#[export] Hint Resolve preserves_ret preserves_fail preserves_lift preserves_gets
  preserves_attempt preserves_forM : preserves.
(** Goes through a handler bind by bind. *)
Ltac solve_preserves :=
  repeat first
    [ progress intros
    | solve [eauto with preserves]
    | apply preserves_bind
    | apply preserves_if
    | match goal with |- preserves _ (match ?x with _ => _ end) => destruct x eqn:? end ].

(** From the invariant after a run to preservation by the handler. *)
Ltac by_preserves :=
  lazymatch goal with |- ?I (?m ?z).2 =>
    let Hp := fresh "Hp" in assert (preserves I m) as Hp; [|by apply Hp] end.

(** ** Bytes *)
Abbreviation byte := Corelib.Init.Byte.byte.
Abbreviation bytes := (list byte).

#[export] Instance byte_eq_dec : EqDecision byte := Byte.byte_eq_dec.
#[export] Program Instance byte_countable : Countable byte :=
  inj_countable Byte.to_N Byte.of_N Byte.of_to_N.

Definition str_bytes (s : string) : bytes := String.list_byte_of_string s.
Definition bytes_str (b : bytes) : string := String.string_of_list_byte b.
Lemma bytes_str_bytes s : bytes_str (str_bytes s) = s.
Proof. apply String.string_of_list_byte_of_string. Qed.
Lemma str_bytes_str b : str_bytes (bytes_str b) = b.
Proof. apply String.list_byte_of_string_of_list_byte. Qed.
#[export] Instance str_bytes_inj : Inj (=) (=) str_bytes.
Proof. intros s1 s2 H. by rewrite <-(bytes_str_bytes s1), H, bytes_str_bytes. Qed.

Definition strlen (s : string) : Z := Z.of_nat (String.length s).
Definition len {A} (l : list A) : Z := Z.of_nat (length l).
Lemma len_app {A} (x y : list A) : len (x ++ y) = len x + len y.
Proof. unfold len. rewrite length_app. lia. Qed.
Lemma len_snoc {A} (l : list A) x : len (l ++ [x]) = len l + 1.
Proof. by rewrite len_app. Qed.
Definition byteZ (b : byte) : Z := Z.of_N (Byte.to_N b).
Definition Zbyte (z : Z) : byte := default Byte.x00 (Byte.of_N (Z.to_N (z mod 256))).

Lemma byteZ_range b : 0 ≤ byteZ b < 256.
Proof. unfold byteZ. pose proof (Byte.to_N_bounded b). lia. Qed.
Lemma Zbyte_byteZ b : Zbyte (byteZ b) = b.
Proof.
  unfold Zbyte. rewrite Z.mod_small by apply byteZ_range.
  unfold byteZ. by rewrite N2Z.id, Byte.of_to_N.
Qed.
Lemma byteZ_Zbyte z : byteZ (Zbyte z) = z mod 256.
Proof.
  unfold Zbyte, byteZ.
  destruct (Byte.of_N (Z.to_N (z mod 256))) as [b|] eqn:E; simpl.
  - apply Byte.to_of_N in E. rewrite E. rewrite Z2N.id; [done|]. apply Z.mod_pos_bound. lia.
  - apply Byte.of_N_None_iff in E. pose proof (Z.mod_pos_bound z 256). lia.
Qed.

(** ** Machine integers: [u64] and [u32] values are [Z]s in range *)
Definition u64_max : Z := 18446744073709551615.
Definition u32_max : Z := 4294967295.
Definition is_u64 (z : Z) : Prop := 0 ≤ z ≤ u64_max.
Definition is_u32 (z : Z) : Prop := 0 ≤ z ≤ u32_max.
Definition saturating_add (a b : Z) : Z := Z.min u64_max (a + b).
Definition saturating_sub (a b : Z) : Z := Z.max 0 (a - b).
Definition checked_add (a b : Z) : option Z := if a + b <=? u64_max then Some (a + b) else None.
Definition wrapping_add (a b : Z) : Z := (a + b) mod 2 ^ 64.

Lemma saturating_add_range a b : is_u64 a → is_u64 b → is_u64 (saturating_add a b).
Proof. unfold is_u64, saturating_add, u64_max. lia. Qed.
Lemma saturating_add_ge a b : is_u64 a → 0 ≤ b → a ≤ saturating_add a b.
Proof. unfold is_u64, saturating_add. lia. Qed.

(** ** Hexadecimal, as [hex::encode] and [hex::decode] write and read it *)
Definition hex_digit (n : Z) : Ascii.ascii :=
  Ascii.ascii_of_N (Z.to_N (if n <? 10 then 48 + n else 87 + n)).
Definition hex_value (c : Ascii.ascii) : option Z :=
  let n := Z.of_N (Ascii.N_of_ascii c) in
  if (48 <=? n) && (n <=? 57) then Some (n - 48)
  else if (97 <=? n) && (n <=? 102) then Some (n - 87)
  else if (65 <=? n) && (n <=? 70) then Some (n - 55)
  else None.
Fixpoint hex_encode (b : bytes) : string :=
  match b with
  | [] => ""
  | x :: b => String (hex_digit (byteZ x / 16)) (String (hex_digit (byteZ x mod 16)) (hex_encode b))
  end.
Fixpoint hex_decode (s : string) : option bytes :=
  match s with
  | "" => Some []
  | String h (String l s) =>
      h ← hex_value h; l ← hex_value l; b ← hex_decode s; Some (Zbyte (16 * h + l) :: b)
  | String _ "" => None
  end.

Lemma hex_value_digit n : 0 ≤ n < 16 → hex_value (hex_digit n) = Some n.
Proof.
  intros Hn. assert (n ∈ seqZ 0 16) as Hin by (apply elem_of_seqZ; lia).
  assert (Forall (λ n, hex_value (hex_digit n) = Some n) (seqZ 0 16)) as Hall
    by (vm_compute; repeat constructor).
  rewrite Forall_forall in Hall. exact (Hall n Hin).
Qed.
Lemma hex_decode_encode b : hex_decode (hex_encode b) = Some b.
Proof.
  induction b as [|x b IH]; [done|]. cbn [hex_encode hex_decode].
  pose proof (byteZ_range x).
  rewrite !hex_value_digit by (try apply Z.mod_pos_bound; try split;
    try apply Z.div_pos; try apply Z.div_lt_upper_bound; lia).
  simpl. rewrite IH. simpl. rewrite <-Z.div_mod by lia. by rewrite Zbyte_byteZ.
Qed.
#[export] Instance hex_encode_inj : Inj (=) (=) hex_encode.
Proof.
  intros b1 b2 H. apply (f_equal hex_decode) in H.
  rewrite !hex_decode_encode in H. by simplify_eq.
Qed.
Lemma hex_encode_length b : String.length (hex_encode b) = (2 * length b)%nat.
Proof. induction b as [|x b IH]; [done|]. cbn [hex_encode String.length length]. lia. Qed.

(** ** Strings *)
Lemma string_app_length (a b : string) :
  String.length (a +:+ b) = (String.length a + String.length b)%nat.
Proof. induction a as [|c a IH]; [done|]. simpl. by rewrite IH. Qed.
Lemma string_app_inj_len (a b c d : string) :
  String.length a = String.length c → a +:+ b = c +:+ d → a = c ∧ b = d.
Proof.
  revert c. induction a as [|x a IH]; intros [|y c] Hl H; simplify_eq/=; [done|].
  destruct (IH c) as [-> ->]; [lia|done|done].
Qed.
Lemma string_app_nil_r s : s +:+ "" = s.
Proof. induction s as [|c s IH]; [done|]. change (String c (s +:+ "") = String c s). by rewrite IH. Qed.
Lemma string_app_assoc (a b c : string) : a +:+ (b +:+ c) = (a +:+ b) +:+ c.
Proof. induction a as [|x a IH]; [done|]. change (String x (a +:+ (b +:+ c)) = String x ((a +:+ b) +:+ c)). by rewrite IH. Qed.
Fixpoint all_chars (p : Ascii.ascii → bool) (s : string) : bool :=
  match s with "" => true | String c s => p c && all_chars p s end.
Lemma all_chars_app p a b : all_chars p (a +:+ b) = all_chars p a && all_chars p b.
Proof. induction a as [|c a IH]; [done|]. simpl. rewrite IH. by rewrite andb_assoc. Qed.
Lemma all_chars_impl (p q : Ascii.ascii → bool) s :
  (∀ c, p c = true → q c = true) → all_chars p s = true → all_chars q s = true.
Proof.
  intros Hpq. induction s as [|c s IH]; [done|]. simpl.
  intros [Hc Hs]%andb_true_iff. by rewrite (Hpq _ Hc), IH.
Qed.
Definition char_code (c : Ascii.ascii) : Z := Z.of_N (Ascii.N_of_ascii c).
Definition is_between (lo hi : Z) (c : Ascii.ascii) : bool :=
  (lo <=? char_code c) && (char_code c <=? hi).
Definition is_ascii_digit (c : Ascii.ascii) : bool := is_between 48 57 c.
Definition is_ascii_upper (c : Ascii.ascii) : bool := is_between 65 90 c.
Definition is_ascii_lower (c : Ascii.ascii) : bool := is_between 97 122 c.
Definition is_ascii_alphanumeric (c : Ascii.ascii) : bool :=
  is_ascii_digit c || is_ascii_upper c || is_ascii_lower c.
Definition to_upper_char (c : Ascii.ascii) : Ascii.ascii :=
  if is_ascii_lower c then Ascii.ascii_of_N (Z.to_N (char_code c - 32)) else c.
Definition to_lower_char (c : Ascii.ascii) : Ascii.ascii :=
  if is_ascii_upper c then Ascii.ascii_of_N (Z.to_N (char_code c + 32)) else c.
Fixpoint string_map (f : Ascii.ascii → Ascii.ascii) (s : string) : string :=
  match s with "" => "" | String c s => String (f c) (string_map f s) end.
Definition to_ascii_uppercase : string → string := string_map to_upper_char.
Definition to_ascii_lowercase : string → string := string_map to_lower_char.

(** [str::strip_prefix], [str::starts_with], [str::ends_with]. *)
Fixpoint strip_prefix (p s : string) : option string :=
  match p, s with
  | "", _ => Some s
  | String c p, String d s => if decide (c = d) then strip_prefix p s else None
  | String _ _, "" => None
  end.
Definition starts_with (p s : string) : bool := bool_decide (is_Some (strip_prefix p s)).
Definition string_rev (s : string) : string := bytes_str (rev (str_bytes s)).
Definition strip_suffix (p s : string) : option string :=
  string_rev <$> strip_prefix (string_rev p) (string_rev s).
Definition ends_with (p s : string) : bool := bool_decide (is_Some (strip_suffix p s)).
Lemma strip_prefix_Some p s r : strip_prefix p s = Some r ↔ s = p +:+ r.
Proof.
  revert s. induction p as [|c p IH]; intros s; simpl.
  - split; [by intros [= ->] | by intros ->].
  - destruct s as [|d s]; [done|]. case_decide; subst; rewrite ?IH.
    + split; [by intros -> | by intros [= ->]].
    + split; [done | by intros [= ??]].
Qed.
Lemma str_bytes_app a b : str_bytes (a +:+ b) = str_bytes a ++ str_bytes b.
Proof. unfold str_bytes, String.list_byte_of_string. induction a as [|c a IH]; [done|]. simpl. by rewrite IH. Qed.
Lemma bytes_str_app a b : bytes_str (a ++ b) = bytes_str a +:+ bytes_str b.
Proof. apply (inj str_bytes). by rewrite str_bytes_app, !str_bytes_str. Qed.
Lemma string_rev_app a b : string_rev (a +:+ b) = string_rev b +:+ string_rev a.
Proof. unfold string_rev. by rewrite str_bytes_app, rev_app_distr, bytes_str_app. Qed.
Lemma string_rev_involutive s : string_rev (string_rev s) = s.
Proof. unfold string_rev. by rewrite str_bytes_str, rev_involutive, bytes_str_bytes. Qed.
Lemma strip_suffix_Some p s r : strip_suffix p s = Some r ↔ s = r +:+ p.
Proof.
  unfold strip_suffix. rewrite fmap_Some. split.
  - intros (x & Hx%strip_prefix_Some & ->).
    by rewrite <-(string_rev_involutive s), Hx, string_rev_app, string_rev_involutive.
  - intros ->. exists (string_rev r). by rewrite string_rev_involutive, strip_prefix_Some, string_rev_app.
Qed.
Lemma ends_with_iff p s : ends_with p s = true ↔ ∃ r, s = r +:+ p.
Proof.
  unfold ends_with. rewrite bool_decide_eq_true. split.
  - intros [r Hr%strip_suffix_Some]. eauto.
  - intros [r Hr]. exists r. by apply strip_suffix_Some.
Qed.

(** ** Total orders: Rust's [Ord]

    [BTreeMap] and [BTreeSet] iterate in this order. *)
Class Ord A := cmp : A → A → comparison.
Class OrdLaws A `{Ord A} := {
  cmp_eq (x y : A) : cmp x y = Eq ↔ x = y;
  cmp_antisym (x y : A) : cmp y x = CompOpp (cmp x y);
  cmp_lt_trans (x y z : A) : cmp x y = Lt → cmp y z = Lt → cmp x z = Lt;
}.
Definition ord_le `{Ord A} (x y : A) : Prop := cmp x y ≠ Gt.
Definition ord_lt `{Ord A} (x y : A) : Prop := cmp x y = Lt.
#[export] Instance ord_le_dec `{Ord A} (x y : A) : Decision (ord_le x y).
Proof. unfold ord_le. apply _. Defined.
#[export] Instance ord_lt_dec `{Ord A} (x y : A) : Decision (ord_lt x y).
Proof. unfold ord_lt. apply _. Defined.
Definition leb `{Ord A} (x y : A) : bool := match cmp x y with Gt => false | _ => true end.

Section ord.
Context `{OrdLaws A}.
Lemma cmp_refl (x : A) : cmp x x = Eq.
Proof. by apply cmp_eq. Qed.
Lemma ord_le_lt_eq (x y : A) : ord_le x y ↔ ord_lt x y ∨ x = y.
Proof. unfold ord_le, ord_lt. rewrite <-cmp_eq. destruct (cmp x y); naive_solver. Qed.
Lemma ord_lt_irrefl (x : A) : ¬ ord_lt x x.
Proof. unfold ord_lt. by rewrite cmp_refl. Qed.
Lemma ord_not_le (x y : A) : ¬ ord_le x y ↔ ord_lt y x.
Proof. unfold ord_le, ord_lt. rewrite (cmp_antisym x y). destruct (cmp x y); naive_solver. Qed.
#[export] Instance ord_le_total : Total (@ord_le A _).
Proof.
  intros x y. unfold ord_le. rewrite (cmp_antisym x y).
  destruct (cmp x y); simpl; auto.
Qed.
#[export] Instance ord_le_trans : Transitive (@ord_le A _).
Proof.
  intros x y z. rewrite !ord_le_lt_eq. intros [Hxy| ->] [Hyz| ->]; eauto.
  left. by eapply cmp_lt_trans.
Qed.
#[export] Instance ord_le_refl : Reflexive (@ord_le A _).
Proof. intros x. unfold ord_le. by rewrite cmp_refl. Qed.
#[export] Instance ord_le_antisym : AntiSymm (=) (@ord_le A _).
Proof.
  intros x y. unfold ord_le. rewrite (cmp_antisym x y).
  destruct (cmp x y) eqn:E; simpl; try done. intros _ _. by apply cmp_eq.
Qed.
End ord.

#[export] Instance Z_ord : Ord Z := Z.compare.
#[export] Instance Z_ord_laws : OrdLaws Z.
Proof.
  split; unfold cmp, Z_ord.
  - apply Z.compare_eq_iff.
  - intros. apply Z.compare_antisym.
  - intros x y z. rewrite !Z.compare_lt_iff. lia.
Qed.
Lemma ord_le_Z (x y : Z) : ord_le x y ↔ x ≤ y.
Proof. unfold ord_le, cmp, Z_ord. apply Z.compare_le_iff. Qed.
#[export] Instance bool_ord : Ord bool := λ a b,
  match a, b with false, true => Lt | true, false => Gt | _, _ => Eq end.
#[export] Instance bool_ord_laws : OrdLaws bool.
Proof.
  split; unfold cmp, bool_ord.
  - by intros [] [].
  - by intros [] [].
  - by intros [] [] [].
Qed.

(** An order on [A] pulled back along an injection. *)
Definition ord_on {A B} `{Ord B} (f : A → B) : Ord A := λ x y, cmp (f x) (f y).
Lemma ord_on_laws {A B} `{OrdLaws B} (f : A → B) `{!Inj (=) (=) f} : @OrdLaws A (ord_on f).
Proof.
  split; unfold cmp, ord_on; intros.
  - rewrite cmp_eq. split; [by apply (inj f) | by intros ->].
  - apply cmp_antisym.
  - by eapply cmp_lt_trans.
Qed.
#[export] Instance byte_ord : Ord byte := ord_on byteZ.
#[export] Instance byteZ_inj : Inj (=) (=) byteZ.
Proof. intros a b H. by rewrite <-(Zbyte_byteZ a), H, Zbyte_byteZ. Qed.
#[export] Instance byte_ord_laws : OrdLaws byte := ord_on_laws byteZ.

#[export] Instance prod_ord `{Ord A, Ord B} : Ord (A * B) := λ x y,
  match cmp (fst x) (fst y) with Eq => cmp (snd x) (snd y) | c => c end.
#[export] Instance prod_ord_laws `{OrdLaws A, OrdLaws B} : OrdLaws (A * B).
Proof.
  split; unfold cmp, prod_ord.
  - intros [a b] [a' b']; simpl. destruct (cmp a a') eqn:E.
    + apply cmp_eq in E as ->. rewrite cmp_eq. naive_solver.
    + split; [done|]. intros [= -> ->]. by rewrite cmp_refl in E.
    + split; [done|]. intros [= -> ->]. by rewrite cmp_refl in E.
  - intros [a b] [a' b']; simpl. rewrite (cmp_antisym a a').
    destruct (cmp a a'); simpl; [apply cmp_antisym|done|done].
  - intros [a b] [a' b'] [a'' b'']; simpl.
    destruct (cmp a a') eqn:E1; intros H3; try done;
      destruct (cmp a' a'') eqn:E2; intros H4; try done.
    + apply cmp_eq in E1 as ->. rewrite E2. by eapply cmp_lt_trans.
    + apply cmp_eq in E1 as ->. by rewrite E2.
    + apply cmp_eq in E2 as ->. by rewrite E1.
    + by rewrite (cmp_lt_trans _ _ _ E1 E2).
Qed.

(** The order of pairs is lexicographic. *)
Lemma ord_le_prod `{OrdLaws A, OrdLaws B} (a a' : A) (b b' : B) :
  ord_le (a, b) (a', b') ↔ ord_lt a a' ∨ a = a' ∧ ord_le b b'.
Proof.
  unfold ord_le, ord_lt.
  change (cmp (a, b) (a', b')) with (match cmp a a' with Eq => cmp b b' | c => c end). rewrite <-(cmp_eq a a').
  destruct (cmp a a'); naive_solver.
Qed.
Lemma ord_lt_prod `{OrdLaws A, OrdLaws B} (a a' : A) (b b' : B) :
  ord_lt (a, b) (a', b') ↔ ord_lt a a' ∨ a = a' ∧ ord_lt b b'.
Proof.
  unfold ord_lt.
  change (cmp (a, b) (a', b')) with (match cmp a a' with Eq => cmp b b' | c => c end). rewrite <-(cmp_eq a a').
  destruct (cmp a a'); naive_solver.
Qed.
Lemma leb_true `{Ord A} (x y : A) : leb x y = true ↔ ord_le x y.
Proof. unfold leb, ord_le. destruct (cmp x y); naive_solver. Qed.
Lemma leb_false `{OrdLaws A} (x y : A) : leb x y = false ↔ ord_lt y x.
Proof. rewrite <-not_true_iff_false, leb_true. apply ord_not_le. Qed.
Lemma ord_lt_trans `{OrdLaws A} (x y z : A) : ord_lt x y → ord_lt y z → ord_lt x z.
Proof. apply cmp_lt_trans. Qed.
Lemma ord_lt_asym `{OrdLaws A} (x y : A) : ord_lt x y → ¬ ord_lt y x.
Proof. intros H1 H2. apply (ord_lt_irrefl x). by eapply ord_lt_trans. Qed.
Lemma ord_le_ne `{OrdLaws A} (x y : A) : ord_le x y → x ≠ y → ord_lt x y.
Proof. intros [|]%ord_le_lt_eq ?; done. Qed.
Lemma ord_lt_Z (x y : Z) : ord_lt x y ↔ x < y.
Proof. unfold ord_lt, cmp, Z_ord. apply Z.compare_lt_iff. Qed.

#[export] Instance list_ord `{Ord A} : Ord (list A) :=
  fix go x y :=
    match x, y with
    | [], [] => Eq
    | [], _ :: _ => Lt
    | _ :: _, [] => Gt
    | a :: x, b :: y => match cmp a b with Eq => go x y | c => c end
    end.
#[export] Instance list_ord_laws `{OrdLaws A} : OrdLaws (list A).
Proof.
  split.
  - induction x as [|a x IH]; intros [|b y]; try done.
    change (cmp (a :: x) (b :: y)) with (match cmp a b with Eq => cmp x y | c => c end).
    destruct (cmp a b) eqn:E.
    + apply cmp_eq in E as ->. rewrite IH. naive_solver.
    + split; [done|]. intros [= -> ->]. by rewrite cmp_refl in E.
    + split; [done|]. intros [= -> ->]. by rewrite cmp_refl in E.
  - induction x as [|a x IH]; intros [|b y]; try done.
    change (cmp (a :: x) (b :: y)) with (match cmp a b with Eq => cmp x y | c => c end).
    change (cmp (b :: y) (a :: x)) with (match cmp b a with Eq => cmp y x | c => c end).
    rewrite (cmp_antisym a b). destruct (cmp a b); simpl; [apply IH|done|done].
  - induction x as [|a x IH]; intros [|b y] [|c z]; try done.
    change (cmp (a :: x) (b :: y)) with (match cmp a b with Eq => cmp x y | c => c end).
    change (cmp (b :: y) (c :: z)) with (match cmp b c with Eq => cmp y z | c => c end).
    change (cmp (a :: x) (c :: z)) with (match cmp a c with Eq => cmp x z | c => c end).
    destruct (cmp a b) eqn:E1; intros H1; try done;
      destruct (cmp b c) eqn:E2; intros H2; try done.
    + apply cmp_eq in E1 as ->. rewrite E2. by eapply IH.
    + apply cmp_eq in E1 as ->. by rewrite E2.
    + apply cmp_eq in E2 as ->. by rewrite E1.
    + by rewrite (cmp_lt_trans _ _ _ E1 E2).
Qed.
#[export] Instance string_ord : Ord string := ord_on str_bytes.
#[export] Instance string_ord_laws : OrdLaws string := ord_on_laws str_bytes.

(** ** Ordered iteration and minima *)
Definition sorted_elements `{Ord A} (l : list A) : list A := merge_sort ord_le l.
(** [BTreeMap::iter]: the pairs in key order. *)
Definition key_le `{Ord K} {V} (x y : K * V) : Prop := ord_le (fst x) (fst y).
#[export] Instance key_le_dec `{Ord K} {V} (x y : K * V) : Decision (key_le x y).
Proof. unfold key_le. apply _. Defined.
#[export] Instance key_le_total `{OrdLaws K} {V} : Total (@key_le K _ V).
Proof. intros x y. apply ord_le_total. Qed.
#[export] Instance key_le_trans `{OrdLaws K} {V} : Transitive (@key_le K _ V).
Proof. intros x y z. unfold key_le. apply ord_le_trans. Qed.
Definition btree_iter `{Ord K, Countable K} {V} (m : gmap K V) : list (K * V) :=
  merge_sort key_le (map_to_list m).
Lemma elem_of_btree_iter `{Ord K, Countable K} {V} (m : gmap K V) k v :
  (k, v) ∈ btree_iter m ↔ m !! k = Some v.
Proof. unfold btree_iter. by rewrite merge_sort_Permutation, elem_of_map_to_list. Qed.
Lemma btree_iter_sorted `{OrdLaws K, Countable K} {V} (m : gmap K V) :
  StronglySorted key_le (btree_iter m).
Proof. apply StronglySorted_merge_sort; apply _. Qed.
Lemma NoDup_btree_iter_fst `{Ord K, Countable K} {V} (m : gmap K V) : NoDup (btree_iter m).*1.
Proof. unfold btree_iter. rewrite merge_sort_Permutation. apply NoDup_fst_map_to_list. Qed.
Lemma list_to_map_btree `{OrdLaws K, Countable K} {V} (m : gmap K V) : list_to_map (btree_iter m) = m.
Proof.
  apply map_eq. intros k. apply option_eq. intros v.
  rewrite <- elem_of_list_to_map by apply NoDup_btree_iter_fst. apply elem_of_btree_iter.
Qed.
(** A map filled by inserting a list's entries in turn. *)
Lemma list_to_map_insert `{Countable K} {V} k (v : V) l (m : gmap K V) : k ∉ l.*1 →
  list_to_map l ∪ <[k := v]> m = list_to_map ((k, v) :: l) ∪ m.
Proof.
  intros Hk. rewrite list_to_map_cons, <- insert_union_l, insert_union_r; [done|]. by apply not_elem_of_list_to_map_1.
Qed.
Definition btree_values `{Ord K, Countable K} {V} (m : gmap K V) : list V := (btree_iter m).*2.

(** [Iterator::min_by_key]: the first of the least elements. *)
Fixpoint min_by_key {A B} `{Ord B} (f : A → B) (l : list A) : option A :=
  match l with
  | [] => None
  | x :: l =>
      match min_by_key f l with
      | Some y => if decide (ord_le (f x) (f y)) then Some x else Some y
      | None => Some x
      end
  end.
Lemma min_by_key_None {A B} `{Ord B} (f : A → B) (l : list A) : min_by_key f l = None ↔ l = [].
Proof. destruct l; simpl; [done|]. repeat case_match; naive_solver. Qed.
Lemma min_by_key_Some {A B} `{OrdLaws B} (f : A → B) (l : list A) x :
  min_by_key f l = Some x → x ∈ l ∧ (∀ y, y ∈ l → ord_le (f x) (f y)).
Proof.
  revert x. induction l as [|a l IH]; intros x; [done|]. simpl.
  destruct (min_by_key f l) as [y|] eqn:E.
  - destruct (IH y eq_refl) as [Hin Hmin].
    case_decide as Hle; intros [= <-]; split; try set_solver.
    + intros z [->|Hz]%elem_of_cons; [reflexivity|]. etrans; [exact Hle|by apply Hmin].
    + intros z [->|Hz]%elem_of_cons; [|by apply Hmin].
      apply ord_not_le in Hle. apply ord_le_lt_eq. by left.
  - apply min_by_key_None in E as ->. intros [= ->].
    split; [set_solver|]. intros z ->%list_elem_of_singleton. reflexivity.
Qed.

(** [Iterator::take_while]. *)
Fixpoint take_while {A} (p : A → bool) (l : list A) : list A :=
  match l with [] => [] | x :: l => if p x then x :: take_while p l else [] end.
Lemma elem_of_take_while {A} (p : A → bool) (l : list A) x :
  x ∈ take_while p l → x ∈ l ∧ p x = true.
Proof.
  induction l as [|a l IH]; simpl; [by intros ?%elem_of_nil|].
  destruct (p a) eqn:E; [|by intros ?%elem_of_nil].
  intros [->|Hx]%elem_of_cons; [set_solver|]. destruct (IH Hx). set_solver.
Qed.
(** On a list sorted so that [p] only ever turns false, [take_while] is a filter. *)
Lemma elem_of_take_while_sorted {A} (R : A → A → Prop) (p : A → bool) (l : list A) x :
  StronglySorted R l → (∀ a b, R a b → p b = true → p a = true) →
  x ∈ l → p x = true → x ∈ take_while p l.
Proof.
  intros Hs Hdown. induction Hs as [|a l Hs IH Hall]; [by intros ?%elem_of_nil|].
  intros Hx Hp. simpl. rewrite Forall_forall in Hall.
  apply elem_of_cons in Hx as [->|Hx].
  - rewrite Hp. set_solver.
  - rewrite (Hdown a x (Hall x Hx) Hp). set_solver.
Qed.

(** ** Maps: [HashMap::retain] *)
Definition retain `{Countable K} {V} (p : K → V → bool) (m : gmap K V) : gmap K V :=
  filter (λ kv, p kv.1 kv.2 = true) m.
Lemma lookup_retain `{Countable K} {V} (p : K → V → bool) (m : gmap K V) k v :
  retain p m !! k = Some v ↔ m !! k = Some v ∧ p k v = true.
Proof. unfold retain. by rewrite map_lookup_filter_Some. Qed.
Lemma retain_size `{Countable K} {V} (p : K → V → bool) (m : gmap K V) :
  (size (retain p m) ≤ size m)%nat.
Proof. apply map_subseteq_size, map_filter_subseteq. Qed.
Lemma size_insert_le `{Countable K} {V} (m : gmap K V) k v :
  (size (<[k:=v]> m) ≤ S (size m))%nat.
Proof. rewrite map_size_insert. case_match; unfold id; lia. Qed.
Lemma size_delete_le `{Countable K} {V} (m : gmap K V) k :
  (size (delete k m) ≤ size m)%nat.
Proof. apply map_subseteq_size, delete_subseteq. Qed.

(** ** Code outside the repository, as class parameters *)

(** SHA-256, from aws-lc: [nitro_attestation::sha256] wraps it. *)
Class Sha256 := sha256 : bytes → bytes.
Class Sha256Laws `{Sha256} := sha256_length (b : bytes) : length (sha256 b) = 32%nat.

(** A serializer (serde_json or ciborium) for the records of type [A]. *)
Class Codec A := { to_vec : A → bytes; from_slice : bytes → option A }.
Class CodecLaws A `{Codec A} := from_to_vec (a : A) : from_slice (to_vec a) = Some a.
(** A self-delimiting format (CBOR): a truncated encoding does not decode. *)
Class CodecPrefix A `{Codec A} := from_prefix (a x : A) (b : bytes) :
  b `prefix_of` to_vec a → from_slice b = Some x → x = a.

(** ** Transition systems *)
Section steps.
Context {S : Type} (init : S → Prop) (step : S → S → Prop).
Inductive reachable : S → Prop :=
  | reachable_init s : init s → reachable s
  | reachable_step s s' : reachable s → step s s' → reachable s'.
Lemma reachable_invariant (I : S → Prop) :
  (∀ s, init s → I s) → (∀ s s', reachable s → I s → step s s' → I s') → ∀ s, reachable s → I s.
Proof. intros Hi Hs s. induction 1; eauto. Qed.
End steps.

(** ** Automation *)
Create HintDb runtime.
#[export] Hint Resolve saturating_add_range saturating_add_ge byteZ_range ord_le_refl : runtime.
#[export] Hint Rewrite hex_encode_length string_app_length bytes_str_bytes str_bytes_str : runtime.

(** ** Handlers over a part of the state *)
Definition zoom {T S E A} (view : T → S) (set : S → T → T) (m : M S E A) : M T E A :=
  λ t, let '(r, s) := m (view t) in (r, set s t).
Lemma zoom_inv {T S E A} (view : T → S) (set : S → T → T) (m : M S E A) t r t' :
  zoom view set m t = (r, t') → ∃ s, m (view t) = (r, s) ∧ t' = set s t.
Proof. unfold zoom. destruct (m (view t)) as [r0 s]. intros [= <- <-]. eauto. Qed.

(** ** UTF-8 text: characters of a byte string *)
Definition is_continuation (c : Ascii.ascii) : bool := is_between 128 191 c.
(** [s.chars().count()] *)
Fixpoint char_count (s : string) : Z :=
  match s with
  | "" => 0
  | String c s => (if is_continuation c then 0 else 1) + char_count s
  end%string.
(** [s.chars().take(n).collect()] *)
Fixpoint take_chars (n : nat) (s : string) : string :=
  match s with
  | "" => ""
  | String c s' =>
      if is_continuation c then String c (take_chars n s')
      else match n with O => "" | S n => String c (take_chars n s') end
  end%string.
Lemma char_count_nonneg s : 0 ≤ char_count s.
Proof. induction s as [|c s IH]; simpl; [lia|]. destruct (is_continuation c); lia. Qed.
Lemma char_count_take_chars n s : char_count (take_chars n s) ≤ Z.of_nat n.
Proof.
  revert n. induction s as [|c s IH]; intros n; simpl; [lia|].
  destruct (is_continuation c) eqn:E; simpl; [rewrite E; apply IH|].
  destruct n as [|n]; simpl; [lia|]. rewrite E. specialize (IH n). lia.
Qed.

(** ** Little-endian words *)
Fixpoint le_word (b : bytes) : Z :=
  match b with [] => 0 | x :: b => byteZ x + 256 * le_word b end.
Lemma le_word_range b : 0 ≤ le_word b < 256 ^ Z.of_nat (length b).
Proof.
  induction b as [|x b IH]; [done|]. cbn [le_word length]. pose proof (byteZ_range x).
  rewrite Nat2Z.inj_succ, Z.pow_succ_r by lia. nia.
Qed.
(** Big-endian words of [n] bytes: [u64::to_be_bytes] and [from_be_bytes]. *)
Fixpoint be_word (b : bytes) : Z :=
  match b with [] => 0 | x :: b => byteZ x * 256 ^ Z.of_nat (length b) + be_word b end.
Fixpoint be_bytes (n : nat) (z : Z) : bytes :=
  match n with O => [] | S n => Zbyte (z / 256 ^ Z.of_nat n) :: be_bytes n z end.
Lemma be_bytes_length n z : length (be_bytes n z) = n.
Proof. induction n; simpl; by f_equal. Qed.
Lemma be_word_bytes n z : be_word (be_bytes n z) = z mod 256 ^ Z.of_nat n.
Proof.
  induction n as [|n IH]; [simpl; by rewrite Z.mod_1_r|].
  cbn [be_bytes be_word]. rewrite IH, be_bytes_length, byteZ_Zbyte.
  rewrite Nat2Z.inj_succ, Z.pow_succ_r by lia.
  rewrite (Z.mul_comm 256), Z.rem_mul_r by lia. lia.
Qed.
Lemma be_word_range b : 0 ≤ be_word b < 256 ^ Z.of_nat (length b).
Proof.
  induction b as [|x b IH]; [done|]. cbn [be_word length]. pose proof (byteZ_range x).
  rewrite Nat2Z.inj_succ, Z.pow_succ_r by lia. nia.
Qed.
Lemma be_bytes_word b : be_bytes (length b) (be_word b) = b.
Proof.
  pose proof be_word_range as Hrange.
  assert (∀ n z z', (∃ q, z' = z + q * 256 ^ Z.of_nat n) → be_bytes n z' = be_bytes n z) as Hmod.
  { induction n as [|n IH]; intros z z' [q ->]; [done|]. cbn [be_bytes]. f_equal.
    - rewrite Nat2Z.inj_succ, Z.pow_succ_r by lia.
      replace (z + q * (256 * 256 ^ Z.of_nat n)) with (z + q * 256 * 256 ^ Z.of_nat n) by ring.
      rewrite Z.div_add by lia. unfold Zbyte. by rewrite Z.mod_add by lia.
    - apply IH. exists (q * 256). rewrite Nat2Z.inj_succ, Z.pow_succ_r by lia. ring. }
  induction b as [|x b IH]; [done|]. cbn [be_word length be_bytes]. f_equal.
  - rewrite Z.div_add_l by (pose proof (Hrange b); lia).
    rewrite Z.div_small by apply Hrange. by rewrite Z.add_0_r, Zbyte_byteZ.
  - etrans; [|exact IH]. apply Hmod. exists (byteZ x). ring.
Qed.

(** ** Results that are [Ok] *)
Lemma bind_Ok {E A B} (r : result E A) (f : A → result E B) b :
  r ≫= f = Ok b ↔ ∃ a, r = Ok a ∧ f a = Ok b.
Proof. destruct r; simpl; [naive_solver|]. split; [done|naive_solver]. Qed.
Lemma ok_or_Ok {E A} (o : option A) (e : E) a : ok_or o e = Ok a ↔ o = Some a.
Proof. destruct o; naive_solver. Qed.
Lemma check_Ok {E} b (e : E) u : check b e = Ok u ↔ b = true.
Proof. destruct b, u; naive_solver. Qed.
(** Reads a chain of checks as the conjunction it decides. *)
Ltac read_ok := repeat first [setoid_rewrite bind_Ok | setoid_rewrite ok_or_Ok | setoid_rewrite check_Ok].


(** ** Slices of byte strings: [b[from..to]] *)
Definition slice (a b : nat) (l : bytes) : bytes := take (b - a) (drop a l).
Lemma slice_app_l a b (l l' : bytes) : (b ≤ length l)%nat → slice a b (l ++ l') = slice a b l.
Proof. intros H. unfold slice. destruct (decide (a ≤ length l)%nat).
  - rewrite drop_app_le by done. apply take_app_le. rewrite length_drop. lia.
  - replace (b - a)%nat with 0%nat by lia. by rewrite !take_0. Qed.
Lemma slice_app_r a b (l l' : bytes) : (length l ≤ a)%nat →
  slice a b (l ++ l') = slice (a - length l) (b - length l) l'.
Proof. intros H. unfold slice. rewrite drop_app_ge by done. f_equal. lia. Qed.
Lemma slice_all (l : bytes) n : length l = n → slice 0 n l = l.
Proof. intros <-. unfold slice. rewrite drop_0, Nat.sub_0_r. by rewrite firstn_all. Qed.
Lemma slices_app a b c (l : bytes) : (a ≤ b)%nat → (b ≤ c)%nat → slice a b l ++ slice b c l = slice a c l.
Proof.
  intros. unfold slice. replace (drop b l) with (drop (b - a) (drop a l)) by (rewrite drop_drop; f_equal; lia).
  rewrite take_take_drop. f_equal. lia.
Qed.
Lemma slice_length a b (l : bytes) : (b ≤ length l)%nat → length (slice a b l) = (b - a)%nat.
Proof. intros. unfold slice. rewrite length_take, length_drop. lia. Qed.
(** Reads a field of a concatenation whose parts have known lengths. *)
Ltac read_slice :=
  repeat match goal with
  | |- context [slice ?a ?b (?x ++ ?y)] =>
      first
        [ rewrite (slice_app_l a b x y) by (cbn; repeat match goal with H : length _ = _ |- _ => rewrite H end; lia)
        | rewrite (slice_app_r a b x y) by (cbn; repeat match goal with H : length _ = _ |- _ => rewrite H end; lia) ]
  end.
