(* ===== verification/Concrete.v ===== *)
(** * Concrete parameters

    The parameters of the model that stand for code outside the repository,
    instantiated by functions that evaluate: what the witnesses run the
    theorems on. *)
From S2P Require Import Prelude.

(** A stand-in for SHA-256 with its length: the input's first 32 bytes. *)
Module Concrete.
Definition digest (b : bytes) : bytes := take 32 (b ++ replicate 32 Byte.x00).
Lemma digest_length b : length (digest b) = 32%nat.
Proof. unfold digest. rewrite length_take, length_app, length_replicate. lia. Qed.
Definition sha : Sha256 := digest.
Lemma sha_laws : @Sha256Laws sha.
Proof. exact digest_length. Qed.

(** Any countable type has a serializer: the bits of its code, a byte each. *)
Fixpoint pos_bytes (p : positive) : bytes :=
  match p with
  | xH => []
  | xO p => Byte.x00 :: pos_bytes p
  | xI p => Byte.x01 :: pos_bytes p
  end.
Fixpoint bytes_pos (b : bytes) : positive :=
  match b with
  | [] => xH
  | Byte.x00 :: b => xO (bytes_pos b)
  | _ :: b => xI (bytes_pos b)
  end.
Lemma bytes_pos_bytes p : bytes_pos (pos_bytes p) = p.
Proof. induction p as [p IH|p IH|]; simpl; by rewrite ?IH. Qed.
Definition codec A `{Countable A} : Codec A :=
  {| to_vec a := pos_bytes (encode a); from_slice b := decode (bytes_pos b) |}.
Lemma codec_laws A `{Countable A} : @CodecLaws A (codec A).
Proof. intros a. simpl. by rewrite bytes_pos_bytes, decode_encode. Qed.
(** The same with an end mark: a self-delimiting format. *)
Definition framed_bytes (p : positive) : bytes := pos_bytes p ++ [Byte.x02].
Fixpoint read_framed (b : bytes) : option positive :=
  match b with
  | Byte.x00 :: b => xO <$> read_framed b
  | Byte.x01 :: b => xI <$> read_framed b
  | Byte.x02 :: _ => Some xH
  | _ => None
  end.
Lemma read_framed_prefix p q b : b `prefix_of` framed_bytes p → read_framed b = Some q → q = p.
Proof.
  unfold framed_bytes. revert q b.
  induction p as [p IH|p IH|]; intros q [|x b] Hb; try done; simpl in Hb;
    pose proof (prefix_cons_inv_1 _ _ _ _ Hb) as ->; apply prefix_cons_inv_2 in Hb; simpl.
  - intros (q' & Hq & ->)%fmap_Some. by rewrite (IH _ _ Hb Hq).
  - intros (q' & Hq & ->)%fmap_Some. by rewrite (IH _ _ Hb Hq).
  - by intros [= <-].
Qed.
Lemma read_framed_bytes p : read_framed (framed_bytes p) = Some p.
Proof. unfold framed_bytes. induction p as [p IH|p IH|]; simpl; by rewrite ?IH. Qed.
Definition framed A `{Countable A} : Codec A :=
  {| to_vec a := framed_bytes (encode a); from_slice b := read_framed b ≫= decode |}.
Lemma framed_laws A `{Countable A} : @CodecLaws A (framed A).
Proof. intros a. simpl. rewrite read_framed_bytes. simpl. by rewrite decode_encode. Qed.
Lemma framed_prefix A `{Countable A} : @CodecPrefix A (framed A).
Proof.
  intros a x b Hb. simpl in *. destruct (read_framed b) as [p|] eqn:E; [|done]. simpl.
  rewrite (read_framed_prefix _ _ _ Hb E), decode_encode. by intros [= <-].
Qed.
(** A run at a concrete input, its answer evaluated and its state left as it is. *)
Lemma run_split {A B} (x : A * B) (a : A) : x.1 = a → x = (a, x.2).
Proof. destruct x. by intros <-. Qed.
End Concrete.
