(* ===== verification/Expiring.v ===== *)
(** * Tables of single-use entries that expire

    [auth/token.rs], [auth/challenge.rs] and the pending registrations of
    [auth/routes.rs] each keep a capped map whose entries are swept when they
    expire and removed when they are used.  This file holds what the three
    share: the operations on the map, the history of a table as a list of
    events (newest first), and the lemmas that say the map stands for its
    history: an entry is there exactly when the last event about its key put it
    there and it has not expired. *)
From S2P Require Import Prelude.

Section expiring.
Context `{Countable K} {V : Type} (expires : V → Z).
Implicit Types (m : gmap K V) (k : K) (v : V).

(** [retain(|_, p| p.expires > now)] *)
Definition sweep (now : Z) m : gmap K V := retain (λ _ v, now <? expires v) m.

(** Sweep, refuse when full, insert. *)
Definition put_fresh (now cap : Z) k v m : option (gmap K V) :=
  if cap <=? Z.of_nat (size (sweep now m)) then None else Some (<[k := v]> (sweep now m)).

Lemma lookup_sweep now m k v : sweep now m !! k = Some v ↔ m !! k = Some v ∧ now < expires v.
Proof. unfold sweep. rewrite lookup_retain. by rewrite Z.ltb_lt. Qed.
Lemma sweep_size now m : (size (sweep now m) ≤ size m)%nat.
Proof. apply retain_size. Qed.
Lemma put_fresh_size now cap k v m m' :
  put_fresh now cap k v m = Some m' → Z.of_nat (size m') ≤ cap.
Proof.
  unfold put_fresh. destruct (Z.leb_spec cap (Z.of_nat (size (sweep now m)))); [done|].
  intros [= <-]. pose proof (size_insert_le (sweep now m) k v). lia.
Qed.
Lemma lookup_put_fresh now cap k v m m' k' :
  put_fresh now cap k v m = Some m' →
  m' !! k' = if decide (k = k') then Some v else sweep now m !! k'.
Proof. unfold put_fresh. case_match; [done|]. intros [= <-]. apply lookup_insert. Qed.

(** ** Histories *)
Inductive event :=
  | EPut (now : Z) k v  (** an entry was stored *)
  | ESweep (now : Z)    (** expired entries were dropped and nothing stored *)
  | ETake (now : Z) k.  (** an entry was asked for, and is gone *)
Definition time (e : event) : Z :=
  match e with EPut now _ _ | ESweep now | ETake now _ => now end.
(** What the history says the entry of [k] is, if it has one. *)
Fixpoint live (h : list event) k : option V :=
  match h with
  | [] => None
  | EPut _ k' v :: h => if decide (k' = k) then Some v else live h k
  | ETake _ k' :: h => if decide (k' = k) then None else live h k
  | ESweep _ :: h => live h k
  end.
Definition no_later (h : list event) (now : Z) : Prop := Forall (λ e, time e ≤ now) h.
Definition apply_event (e : event) m : gmap K V :=
  match e with
  | EPut now k v => <[k := v]> (sweep now m)
  | ESweep now => sweep now m
  | ETake _ k => delete k m
  end.
(** [stands_for h m]: [m] is what a table started empty holds after [h],
    whose times never decrease. *)
Fixpoint stands_for (h : list event) m : Prop :=
  match h with
  | [] => m = ∅
  | e :: h => no_later h (time e) ∧ ∃ m0, stands_for h m0 ∧ m = apply_event e m0
  end.

Lemma stands_for_live h m k v : stands_for h m → m !! k = Some v → live h k = Some v.
Proof.
  revert m. induction h as [|e h IH]; intros m; [by intros ->|].
  intros [_ (m0 & H0 & ->)]. destruct e as [now k' v'|now|now k']; simpl.
  - rewrite lookup_insert. case_decide; [done|].
    intros [Hm _]%lookup_sweep. eauto.
  - intros [Hm _]%lookup_sweep. eauto.
  - rewrite lookup_delete. case_decide; [done|]. eauto.
Qed.
Lemma live_stands_for h m k v now :
  stands_for h m → no_later h now → live h k = Some v → now < expires v → m !! k = Some v.
Proof.
  revert m. induction h as [|e h IH]; intros m; [done|].
  intros [Ht (m0 & H0 & ->)] [Hnow Hh]%Forall_cons Hl Hv.
  destruct e as [now' k' v'|now'|now' k']; simpl in *.
  - rewrite lookup_insert. case_decide; [done|].
    apply lookup_sweep. split; [eauto|lia].
  - apply lookup_sweep. split; [eauto|lia].
  - rewrite lookup_delete. case_decide; [done|]. eauto.
Qed.
(** The last put of a live entry, and that nothing took it since. *)
Lemma live_put h k v :
  live h k = Some v →
  ∃ h1 h2 now, h = h1 ++ EPut now k v :: h2 ∧
    Forall (λ e, match e with EPut _ k' _ | ETake _ k' => k' ≠ k | ESweep _ => True end) h1.
Proof.
  induction h as [|e h IH]; [done|].
  destruct e as [now k' v'|now|now k']; simpl; [case_decide| |case_decide; [done|]].
  - intros [= ->]. subst. exists [], h, now. split; [done|constructor].
  - intros (h1 & h2 & n & -> & Hall)%IH. exists (EPut now k' v' :: h1), h2, n. eauto.
  - intros (h1 & h2 & n & -> & Hall)%IH. exists (ESweep now :: h1), h2, n. eauto.
  - intros (h1 & h2 & n & -> & Hall)%IH. exists (ETake now k' :: h1), h2, n. eauto.
Qed.
End expiring.
