(* ===== verification/AuthToken.v ===== *)
(** * Interaction tokens: [auth/token.rs]

    [TokenStore] is the record of live approvals, keyed by the SHA-256 of the
    token.  Each operation takes the instant it reads from the clock.  The
    history theorems state the store against a specification with no table, no
    sweep and no cap: the list of calls made so far. *)
From S2P Require Import Prelude Expiring.

Record InteractionScope := { sc_method : string; sc_path : string; sc_query : option string }.
#[export] Instance scope_eq_dec : EqDecision InteractionScope.
Proof. solve_decision. Defined.

Definition scope_new (method path : string) (query : option string) : InteractionScope :=
  {| sc_method := to_ascii_uppercase method; sc_path := path; sc_query := query |}.

Record Granted := { g_tenant_id : bytes; g_scope : InteractionScope; g_expires : Z }.

Inductive TokenError := TokenUnknown | TokenExpired | WrongInteraction | TokenFull.
#[export] Instance token_error_eq_dec : EqDecision TokenError.
Proof. solve_decision. Defined.

(** The message each error prints in the log. *)
Definition token_error_display (e : TokenError) : string :=
  match e with
  | TokenUnknown => "no such token, or it has already been spent"
  | TokenExpired => "the token expired before it was used"
  | WrongInteraction => "the token was issued for a different interaction"
  | TokenFull => "too many outstanding tokens"
  end.

(** Durations and instants are in milliseconds. *)
Definition DEFAULT_TTL : Z := 60000.
Definition DEFAULT_CAPACITY : Z := 1024.

Record TokenStore := { granted : gmap bytes Granted; ttl : Z; capacity : Z }.
Definition set_granted (m : gmap bytes Granted) (s : TokenStore) : TokenStore :=
  {| granted := m; ttl := ttl s; capacity := capacity s |}.

Definition token_store_new (ttl capacity : Z) : TokenStore :=
  {| granted := ∅; ttl := ttl; capacity := Z.max capacity 1 |}.

Section token.
Context `{Sha256}.
Implicit Types (token tenant_id : bytes) (scope : InteractionScope) (s : TokenStore) (now : Z).

Definition issue now token tenant_id scope : M TokenStore TokenError () :=
  _ ← modify (λ s, set_granted (retain (λ _ g, now <? g_expires g) (granted s)) s);
  s ← get;
  _ ← ensure (Z.of_nat (size (granted s)) <? capacity s) TokenFull;
  modify (λ s, set_granted
    (<[sha256 token :=
         {| g_tenant_id := tenant_id; g_scope := scope; g_expires := now + ttl s |}]> (granted s)) s).

Definition redeem now token scope : M TokenStore TokenError bytes :=
  s ← get;
  _ ← modify (λ s, set_granted (delete (sha256 token) (granted s)) s);
  entry ← unwrap (granted s !! sha256 token) TokenUnknown;
  _ ← ensure (negb (g_expires entry <=? now)) TokenExpired;
  _ ← ensure (bool_decide (g_scope entry = scope)) WrongInteraction;
  mret (g_tenant_id entry).

Definition outstanding now : M TokenStore TokenError Z :=
  _ ← modify (λ s, set_granted (retain (λ _ g, now <? g_expires g) (granted s)) s);
  gets (λ s, Z.of_nat (size (granted s))).

(** ** The calls as table events *)
Lemma issue_run now token tenant_id scope s :
  issue now token tenant_id scope s =
    let g := {| g_tenant_id := tenant_id; g_scope := scope; g_expires := now + ttl s |} in
    match put_fresh g_expires now (capacity s) (sha256 token) g (granted s) with
    | Some m => (Ok tt, set_granted m s)
    | None => (Err TokenFull, set_granted (sweep g_expires now (granted s)) s)
    end.
Proof.
  unfold issue, put_fresh. unfold_m; simpl. fold (sweep g_expires now (granted s)).
  rewrite Z.leb_antisym. destruct (_ <? _); reflexivity.
Qed.

Lemma redeem_run now token scope s :
  redeem now token scope s =
    (match granted s !! sha256 token with
     | None => Err TokenUnknown
     | Some g => if g_expires g <=? now then Err TokenExpired
                 else if decide (g_scope g = scope) then Ok (g_tenant_id g)
                 else Err WrongInteraction
     end, set_granted (delete (sha256 token) (granted s)) s).
Proof.
  unfold redeem. unfold_m; simpl. destruct (granted s !! _) as [g|]; simpl; [|done].
  destruct (g_expires g <=? now); simpl; [done|].
  destruct (decide (g_scope g = scope)); [rewrite bool_decide_true|rewrite bool_decide_false]; done.
Qed.

(** ** Histories of a store *)
Inductive call :=
  | CIssue now token tenant_id scope (r : result TokenError ())
  | CRedeem now token scope (r : result TokenError bytes)
  | COutstanding now (n : Z).
Definition call_time (c : call) : Z :=
  match c with CIssue now _ _ _ _ | CRedeem now _ _ _ | COutstanding now _ => now end.

(** [history ttl cap h s]: the calls [h] (newest first), made at instants
    that never decrease, took a new store to [s]. *)
Inductive history (t c : Z) : list call → TokenStore → Prop :=
  | history_new : history t c [] (token_store_new t c)
  | history_issue h s s' now token tenant_id scope r :
      history t c h s → Forall (λ c, call_time c ≤ now) h →
      issue now token tenant_id scope s = (r, s') →
      history t c (CIssue now token tenant_id scope r :: h) s'
  | history_redeem h s s' now token scope r :
      history t c h s → Forall (λ c, call_time c ≤ now) h →
      redeem now token scope s = (r, s') →
      history t c (CRedeem now token scope r :: h) s'
  | history_outstanding h s s' now n :
      history t c h s → Forall (λ c, call_time c ≤ now) h →
      outstanding now s = (Ok n, s') →
      history t c (COutstanding now n :: h) s'.

(** The approval that the last call about a token's hash left standing. *)
Definition call_event (t : Z) (c : call) : event :=
  match c with
  | CIssue now token tenant_id scope (Ok _) =>
      EPut now (sha256 token)
        {| g_tenant_id := tenant_id; g_scope := scope; g_expires := now + t |}
  | CIssue now _ _ _ (Err _) | COutstanding now _ => ESweep now
  | CRedeem now token _ _ => ETake now (sha256 token)
  end.
Definition approval (t : Z) (h : list call) token : option Granted :=
  live (call_event t <$> h) (sha256 token).

Lemma call_event_time t c : time (call_event t c) = call_time c.
Proof. by destruct c as [? ? ? ? []| |]. Qed.
Lemma history_no_later t h now :
  Forall (λ c, call_time c ≤ now) h → no_later (call_event t <$> h) now.
Proof.
  intros Hh. unfold no_later. rewrite Forall_fmap. eapply Forall_impl; [exact Hh|].
  intros c. simpl. by rewrite call_event_time.
Qed.

Lemma history_stands_for t c h s :
  history t c h s →
  ttl s = t ∧ capacity s = Z.max c 1 ∧ stands_for g_expires (call_event t <$> h) (granted s).
Proof.
  induction 1 as [|h s s' now tok ten sc r Hh (Ht & Hc & IH) Hnow Hrun
    |h s s' now tok sc r Hh (Ht & Hc & IH) Hnow Hrun
    |h s s' now n Hh (Ht & Hc & IH) Hnow Hrun]; [done|..].
  - rewrite issue_run in Hrun. simpl in Hrun. unfold put_fresh in Hrun.
    destruct (_ <=? _); simplify_eq/=; (split_and!; [done..|by apply history_no_later|]); eauto.
  - rewrite redeem_run in Hrun. simplify_eq/=.
    split_and!; [done..|by apply history_no_later|]; eauto.
  - unfold outstanding in Hrun. unfold_m. simplify_eq/=.
    split_and!; [done..|by apply history_no_later|]; eauto.
Qed.

Lemma history_size t c h s : history t c h s → Z.of_nat (size (granted s)) ≤ Z.max c 1.
Proof.
  induction 1 as [|h s s' now tok ten sc r Hh IH Hnow Hrun
    |h s s' now tok sc r Hh IH Hnow Hrun|h s s' now n Hh IH Hnow Hrun]; simpl.
  - rewrite map_size_empty. lia.
  - destruct (history_stands_for _ _ _ _ Hh) as (_ & Hc & _).
    rewrite issue_run in Hrun. simpl in Hrun. case_match eqn:E; simplify_eq/=.
    + apply put_fresh_size in E. lia.
    + pose proof (sweep_size g_expires now (granted s)). lia.
  - rewrite redeem_run in Hrun. simplify_eq/=.
    pose proof (size_delete_le (granted s) (sha256 tok)). lia.
  - unfold outstanding in Hrun. unfold_m. simplify_eq/=.
    pose proof (retain_size (λ _ g, now <? g_expires g) (granted s)). lia.
Qed.

(** What a redemption must answer, from the history alone. *)
Definition spec_redeem (t : Z) (h : list call) now token scope : result TokenError bytes :=
  match approval t h token with
  | None => Err TokenUnknown
  | Some g =>
      if g_expires g <=? now then Err TokenExpired
      else if decide (g_scope g = scope) then Ok (g_tenant_id g) else Err WrongInteraction
  end.

Lemma redeem_cases t c h s s' now token scope r :
  history t c h s → Forall (λ c, call_time c ≤ now) h → redeem now token scope s = (r, s') →
  r = spec_redeem t h now token scope ∨
    r = Err TokenUnknown ∧ spec_redeem t h now token scope = Err TokenExpired.
Proof.
  intros Hh Hnow Hrun. rewrite redeem_run in Hrun. simplify_eq/=.
  destruct (history_stands_for _ _ _ _ Hh) as (_ & _ & Hst).
  apply (history_no_later t) in Hnow. unfold spec_redeem, approval.
  destruct (granted s !! sha256 token) as [g|] eqn:E.
  - rewrite (stands_for_live _ _ _ _ _ Hst E). naive_solver.
  - destruct (live _ _) as [g|] eqn:El; [|naive_solver].
    destruct (Z.leb_spec (g_expires g) now); [naive_solver|].
    by rewrite (live_stands_for _ _ _ _ _ _ Hst Hnow El) in E.
Qed.

(** C13: the token store refines its history.  After any sequence of calls at
    instants that never decrease, a redemption succeeds exactly when the last
    call about that token's hash was a successful issue whose lifetime has
    not run out and whose scope is the one presented, and it then returns the
    tenant of that issue; every refusal is the one the history gives, except
    that an expired approval that was already swept is reported unknown.
    Either way the token is spent. *)
Theorem redeem_refines_history t c h s s' now token scope r :
  history t c h s → Forall (λ c, call_time c ≤ now) h →
  redeem now token scope s = (r, s') →
  (∀ tenant, r = Ok tenant ↔ spec_redeem t h now token scope = Ok tenant) ∧
  (r = spec_redeem t h now token scope ∨
    r = Err TokenUnknown ∧ spec_redeem t h now token scope = Err TokenExpired) ∧
  granted s' !! sha256 token = None.
Proof.
  intros Hh Hnow Hrun. pose proof (redeem_cases _ _ _ _ _ _ _ _ _ Hh Hnow Hrun) as Hcases.
  rewrite redeem_run in Hrun. injection Hrun as _ <-. simpl. rewrite lookup_delete_eq.
  destruct Hcases as [Hr|[Hr Hs]]; (split_and!; [|by auto|done]); rewrite Hr; [done|]. by rewrite Hs.
Qed.

(** What a spent token proves.  When a redemption succeeds, the history
    holds a successful issue of a token with the same hash, for the same
    tenant and the same method, path and query, at most the lifetime ago, and
    no call since then issued or spent that hash: one approval admits one
    interaction. *)
Theorem redeem_needs_fresh_issue t c h s s' now token scope tenant :
  history t c h s → Forall (λ c, call_time c ≤ now) h →
  redeem now token scope s = (Ok tenant, s') →
  ∃ h1 h2 at_ token',
    h = h1 ++ CIssue at_ token' tenant scope (Ok tt) :: h2 ∧
    sha256 token' = sha256 token ∧ at_ ≤ now < at_ + t ∧
    Forall (λ c, match c with
      | CIssue _ tok _ _ (Ok _) | CRedeem _ tok _ _ => sha256 tok ≠ sha256 token
      | _ => True end) h1.
Proof.
  intros Hh Hnow Hrun.
  destruct (redeem_cases _ _ _ _ _ _ _ _ _ Hh Hnow Hrun) as [Hs|[[=] _]].
  symmetry in Hs. unfold spec_redeem, approval in Hs.
  destruct (live _ _) as [g|] eqn:El; [|done].
  destruct (Z.leb_spec (g_expires g) now); [done|]. case_decide; simplify_eq.
  apply live_put in El as (e1 & e2 & at_ & Heq & Hall).
  apply fmap_app_inv in Heq as (h1 & h' & -> & Heq & ->). symmetry in Heq.
  apply fmap_cons_inv in Heq as (cl & h2 & Hcl & -> & ->).
  destruct cl as [now' tok ten sc [[]|]| |]; simplify_eq/=.
  exists h1, h2, now', tok. split_and!; [done..| |lia|].
  - apply Forall_app in Hnow as [_ [Hn _]%Forall_cons]. done.
  - rewrite Forall_fmap in Hall. eapply Forall_impl; [exact Hall|].
    intros cl. by destruct cl as [? ? ? ? []| |].
Qed.

(** C32: the table is bounded.  Whatever calls were made, the store never
    holds more entries than its capacity (at least one), and it refuses to
    issue only when that many unexpired approvals are outstanding. *)
Theorem token_store_bounded t c h s now token tenant scope r s' :
  history t c h s → issue now token tenant scope s = (r, s') →
  Z.of_nat (size (granted s')) ≤ Z.max c 1 ∧
  (r = Err TokenFull ↔ Z.max c 1 ≤ Z.of_nat (size (sweep g_expires now (granted s)))) ∧
  (r = Ok tt ∨ r = Err TokenFull).
Proof.
  intros Hh Hrun. destruct (history_stands_for _ _ _ _ Hh) as (_ & Hc & _).
  pose proof (history_size _ _ _ _ Hh). rewrite issue_run in Hrun. simpl in Hrun.
  destruct (put_fresh _ _ _ _ _ _) eqn:E; simplify_eq/=.
  - pose proof (put_fresh_size _ _ _ _ _ _ _ E). unfold put_fresh in E.
    destruct (Z.leb_spec (capacity s) (Z.of_nat (size (sweep g_expires now (granted s))))); [done|].
    split_and!; [lia|split; [done|lia]|by left].
  - pose proof (sweep_size g_expires now (granted s)). unfold put_fresh in E.
    destruct (Z.leb_spec (capacity s) (Z.of_nat (size (sweep g_expires now (granted s))))); [|done].
    split_and!; [lia|split; [intros; lia|done]|by right].
Qed.
End token.
