(* ===== verification/AuthChallenge.v ===== *)
(** * Challenges: [auth/challenge.rs]

    A challenge is issued for one [InteractionScope] together with the state
    the WebAuthn library needs to check its answer; using it removes it.  The
    type of that state belongs to the library and is a parameter. *)
From S2P Require Import Prelude Expiring AuthToken.

Inductive ChallengeError := ChallengeUnknown | ChallengeExpired | ChallengeFull.
#[export] Instance challenge_error_eq_dec : EqDecision ChallengeError.
Proof. solve_decision. Defined.

Definition challenge_error_display (e : ChallengeError) : string :=
  match e with
  | ChallengeUnknown => "no such challenge, or it has already been used"
  | ChallengeExpired => "the challenge expired"
  | ChallengeFull => "too many outstanding challenges"
  end.

Module Challenge.
Section challenge.
(** [webauthn_rs::prelude::PasskeyAuthentication] *)
Context {Auth : Type}.

Record Pending := { p_scope : InteractionScope; p_state : Auth; p_expires : Z }.
Record ChallengeStore := { pending : gmap bytes Pending; ttl : Z; capacity : Z }.
Definition set_pending (m : gmap bytes Pending) (s : ChallengeStore) : ChallengeStore :=
  {| pending := m; ttl := ttl s; capacity := capacity s |}.

Definition new (ttl capacity : Z) : ChallengeStore :=
  {| pending := ∅; ttl := ttl; capacity := Z.max capacity 1 |}.

Definition issue (now : Z) (id : bytes) (scope : InteractionScope) (state : Auth) :
    M ChallengeStore ChallengeError () :=
  _ ← modify (λ s, set_pending (retain (λ _ p, now <? p_expires p) (pending s)) s);
  s ← get;
  _ ← ensure (Z.of_nat (size (pending s)) <? capacity s) ChallengeFull;
  modify (λ s, set_pending
    (<[id := {| p_scope := scope; p_state := state; p_expires := now + ttl s |}]> (pending s)) s).

Definition consume (now : Z) (id : bytes) :
    M ChallengeStore ChallengeError (InteractionScope * Auth) :=
  s ← get;
  _ ← modify (λ s, set_pending (delete id (pending s)) s);
  entry ← unwrap (pending s !! id) ChallengeUnknown;
  _ ← ensure (negb (p_expires entry <=? now)) ChallengeExpired;
  mret (p_scope entry, p_state entry).

Definition outstanding (now : Z) : M ChallengeStore ChallengeError Z :=
  _ ← modify (λ s, set_pending (retain (λ _ p, now <? p_expires p) (pending s)) s);
  gets (λ s, Z.of_nat (size (pending s))).

Lemma challenge_issue_run now id scope state s :
  issue now id scope state s =
    let p := {| p_scope := scope; p_state := state; p_expires := now + ttl s |} in
    match put_fresh p_expires now (capacity s) id p (pending s) with
    | Some m => (Ok tt, set_pending m s)
    | None => (Err ChallengeFull, set_pending (sweep p_expires now (pending s)) s)
    end.
Proof.
  unfold issue, put_fresh. unfold_m; simpl. fold (sweep p_expires now (pending s)).
  rewrite Z.leb_antisym. destruct (_ <? _); reflexivity.
Qed.
Lemma challenge_consume_run now id s :
  consume now id s =
    (match pending s !! id with
     | None => Err ChallengeUnknown
     | Some p => if p_expires p <=? now then Err ChallengeExpired else Ok (p_scope p, p_state p)
     end, set_pending (delete id (pending s)) s).
Proof.
  unfold consume. unfold_m; simpl. destruct (pending s !! id) as [p|]; simpl; [|done].
  destruct (p_expires p <=? now); done.
Qed.

(** Histories of a store, as for the token store. *)
Inductive call :=
  | CIssue (now : Z) (id : bytes) (scope : InteractionScope) (state : Auth)
      (r : result ChallengeError ())
  | CConsume (now : Z) (id : bytes) (r : result ChallengeError (InteractionScope * Auth))
  | COutstanding (now : Z) (n : Z).
Definition call_time (c : call) : Z :=
  match c with CIssue now _ _ _ _ | CConsume now _ _ | COutstanding now _ => now end.

Inductive history (t c : Z) : list call → ChallengeStore → Prop :=
  | history_new : history t c [] (new t c)
  | history_issue h s s' now id scope state r :
      history t c h s → Forall (λ c, call_time c ≤ now) h →
      issue now id scope state s = (r, s') →
      history t c (CIssue now id scope state r :: h) s'
  | history_consume h s s' now id r :
      history t c h s → Forall (λ c, call_time c ≤ now) h →
      consume now id s = (r, s') → history t c (CConsume now id r :: h) s'
  | history_outstanding h s s' now n :
      history t c h s → Forall (λ c, call_time c ≤ now) h →
      outstanding now s = (Ok n, s') → history t c (COutstanding now n :: h) s'.

Definition call_event (t : Z) (c : call) : event :=
  match c with
  | CIssue now id scope state (Ok _) =>
      EPut now id {| p_scope := scope; p_state := state; p_expires := now + t |}
  | CIssue now _ _ _ (Err _) | COutstanding now _ => ESweep now
  | CConsume now id _ => ETake now id
  end.
Lemma challenge_history_no_later t h now :
  Forall (λ c, call_time c ≤ now) h → no_later (call_event t <$> h) now.
Proof.
  intros Hh. unfold no_later. rewrite Forall_fmap. eapply Forall_impl; [exact Hh|].
  intros c. simpl. by destruct c as [? ? ? ? []| |].
Qed.
Lemma challenge_history_stands_for t c h s :
  history t c h s →
  ttl s = t ∧ capacity s = Z.max c 1 ∧ stands_for p_expires (call_event t <$> h) (pending s).
Proof.
  induction 1 as [|h s s' now id sc st r Hh (Ht & Hc & IH) Hnow Hrun
    |h s s' now id r Hh (Ht & Hc & IH) Hnow Hrun
    |h s s' now n Hh (Ht & Hc & IH) Hnow Hrun]; [done|..].
  - rewrite challenge_issue_run in Hrun. simpl in Hrun. unfold put_fresh in Hrun.
    destruct (_ <=? _); simplify_eq/=; (split_and!; [done..|by apply challenge_history_no_later|]); eauto.
  - rewrite challenge_consume_run in Hrun. simplify_eq/=.
    split_and!; [done..|by apply challenge_history_no_later|]; eauto.
  - unfold outstanding in Hrun. unfold_m. simplify_eq/=.
    split_and!; [done..|by apply challenge_history_no_later|]; eauto.
Qed.

(** An answered challenge was issued, for that very interaction, and
    answered once.  When [consume] succeeds, the history holds a successful
    issue of that id, at most the lifetime ago, with the scope and the
    library state that come back, and no issue or consumption of that id
    since; whatever [consume] answers, the challenge is gone. *)
Theorem consume_returns_issued t c h s s' now id r :
  history t c h s → Forall (λ c, call_time c ≤ now) h → consume now id s = (r, s') →
  pending s' !! id = None ∧
  ∀ scope state, r = Ok (scope, state) →
    ∃ h1 h2 at_, h = h1 ++ CIssue at_ id scope state (Ok tt) :: h2 ∧ at_ ≤ now < at_ + t ∧
      Forall (λ c, match c with
        | CIssue _ id' _ _ (Ok _) | CConsume _ id' _ => id' ≠ id
        | _ => True end) h1.
Proof.
  intros Hh Hnow Hrun. rewrite challenge_consume_run in Hrun. simplify_eq/=.
  split; [apply lookup_delete_eq|]. intros scope state Hr.
  destruct (challenge_history_stands_for _ _ _ _ Hh) as (_ & _ & Hst).
  destruct (pending s !! id) as [p|] eqn:E; [|done].
  destruct (Z.leb_spec (p_expires p) now); simplify_eq.
  apply (stands_for_live _ _ _ _ _ Hst) in E.
  apply live_put in E as (e1 & e2 & at_ & Heq & Hall).
  apply fmap_app_inv in Heq as (h1 & h' & -> & Heq & ->). symmetry in Heq.
  apply fmap_cons_inv in Heq as (cl & h2 & Hcl & -> & ->).
  destruct cl as [now' id' sc st [[]|]| |]; simplify_eq/=.
  exists h1, h2, now'. split_and!; [done| |lia|].
  - apply Forall_app in Hnow as [_ [Hn _]%Forall_cons]. done.
  - rewrite Forall_fmap in Hall. eapply Forall_impl; [exact Hall|].
    intros cl. by destruct cl as [? ? ? ? []| |].
Qed.
End challenge.
Arguments ChallengeStore : clear implicits.
Arguments Pending : clear implicits.
End Challenge.
