(* ===== verification/Storage.v ===== *)
(** * Storage: the pool manager of [zfs.rs] and the files on its pools

    One control pool and one pool per tenant, each anchored on its own chain.
    A [Pool] keeps what it holds now and [rollback], every content since its
    last anchor: a restart may find any of those, and nothing older
    ([zfs.rs: admit] refuses it; see [Anchor.v]).  Calls into the outside
    (the file system, zpool, the roots bucket, the kernel's entropy) take
    their outcome from a script in the state, so the theorems quantify over
    every pattern of failures; an exhausted script means success.

    [tokio::fs] is modelled for what the runtime uses of it: a write that
    fails leaves the file truncated to some prefix, a rename is atomic. *)
From S2P Require Import Prelude.

(** ** Regions of the disk *)
Definition region_bounds (index region_sectors disk_sectors : Z) : option (Z * Z) :=
  let offset := index * region_sectors in
  if u64_max <? offset then None
  else fin ← checked_add offset region_sectors;
       if fin <=? disk_sectors then Some (offset, region_sectors) else None.
Definition region_count (region_sectors disk_sectors : Z) : Z :=
  disk_sectors / Z.max region_sectors 1.

Lemma region_bounds_Some i len disk off n :
  region_bounds i len disk = Some (off, n) → off = i * len ∧ n = len ∧ off + n ≤ disk.
Proof.
  unfold region_bounds, checked_add. case_match; [done|]. simpl.
  destruct (_ <=? u64_max); [|done]. simpl. destruct (Z.leb_spec (i * len + len) disk); [|done].
  intros [= <- <-]. lia.
Qed.

(** Two regions never share a sector. *)
Lemma region_bounds_disjoint i j len disk a n b m :
  0 ≤ i → 0 ≤ j → 0 < len → i ≠ j →
  region_bounds i len disk = Some (a, n) → region_bounds j len disk = Some (b, m) →
  a + n ≤ b ∨ b + m ≤ a.
Proof. intros ???? (-> & -> & _)%region_bounds_Some (-> & -> & _)%region_bounds_Some. nia. Qed.

(** Every index below the count names a region that fits. *)
Lemma region_bounds_fits i len disk :
  0 ≤ i → 0 < len → is_u64 disk → i < region_count len disk →
  region_bounds i len disk = Some (i * len, len).
Proof.
  unfold region_count, region_bounds, is_u64, checked_add. intros Hi Hl [_ Hd] Hc.
  rewrite Z.max_l in Hc by lia.
  assert ((i + 1) * len ≤ disk) as Hfit.
  { pose proof (Z.mul_div_le disk len Hl). nia. }
  destruct (Z.ltb_spec u64_max (i * len)); [nia|].
  destruct (Z.leb_spec (i * len + len) u64_max); [|nia]. simpl.
  destruct (Z.leb_spec (i * len + len) disk); [done|nia].
Qed.

(** ** State *)
(** How a call to the outside goes: it works, fails and changes nothing, or
    fails after it wrote a prefix. *)
Inductive outcome := Works | Refuses | Breaks (kept : nat).
Inductive io_error := NotFound | AlreadyExists | OtherIo.
#[export] Instance io_error_eq_dec : EqDecision io_error.
Proof. solve_decision. Defined.

Definition io_error_display (e : io_error) : string :=
  match e with NotFound => "not found" | AlreadyExists => "already exists" | OtherIo => "i/o error" end.

Record Pool C := { content : C; rollback : list C; stopped : bool }.
Arguments content {C}. Arguments rollback {C}. Arguments stopped {C}.
Arguments Build_Pool {C}.

Record CatalogEntry := {
  ce_version : Z; ce_pool_id : bytes; ce_region : Z; ce_genesis : bytes; ce_background : bool }.
#[export] Instance catalog_entry_eq_dec : EqDecision CatalogEntry.
Proof. solve_decision. Defined.

(** A directory tree of runtime records: [(directory, file name)]. *)
Abbreviation files := (gmap (string * string) bytes).
Record Control := { ctl_files : files; ctl_catalog : gmap bytes CatalogEntry }.
(** A tenant's pool, as the disk holds it: the id and genesis it was made with. *)
Record TenantPool := { tp_id : bytes; tp_genesis : bytes; tp_pool : Pool files }.

Record Zfs := {
  control : Pool Control;
  pools : gmap bytes TenantPool;
  tenants : gmap bytes bool;  (** the slots; [true] once the pool is imported *)
  region_sectors : Z; disk_sectors : Z; max_pools : Z;
  faults : list outcome;
  draws : list bytes;         (** what the entropy source and [Pool::create] give *)
}.
Definition set_control (p : Pool Control) (z : Zfs) : Zfs :=
  {| control := p; pools := pools z; tenants := tenants z; region_sectors := region_sectors z;
     disk_sectors := disk_sectors z; max_pools := max_pools z; faults := faults z; draws := draws z |}.
Definition set_pools (p : gmap bytes TenantPool) (z : Zfs) : Zfs :=
  {| control := control z; pools := p; tenants := tenants z; region_sectors := region_sectors z;
     disk_sectors := disk_sectors z; max_pools := max_pools z; faults := faults z; draws := draws z |}.
Definition set_tenants (t : gmap bytes bool) (z : Zfs) : Zfs :=
  {| control := control z; pools := pools z; tenants := t; region_sectors := region_sectors z;
     disk_sectors := disk_sectors z; max_pools := max_pools z; faults := faults z; draws := draws z |}.
Definition set_faults (f : list outcome) (z : Zfs) : Zfs :=
  {| control := control z; pools := pools z; tenants := tenants z; region_sectors := region_sectors z;
     disk_sectors := disk_sectors z; max_pools := max_pools z; faults := f; draws := draws z |}.
Definition set_draws (d : list bytes) (z : Zfs) : Zfs :=
  {| control := control z; pools := pools z; tenants := tenants z; region_sectors := region_sectors z;
     disk_sectors := disk_sectors z; max_pools := max_pools z; faults := faults z; draws := d |}.

(** Every change of a pool's content stays visible to a restart until an anchor. *)
Definition pool_update {C} (f : C → C) (p : Pool C) : Pool C :=
  {| content := f (content p); rollback := f (content p) :: rollback p; stopped := stopped p |}.
Definition pool_anchored {C} (p : Pool C) : Pool C :=
  {| content := content p; rollback := [content p]; stopped := false |}.
Definition pool_stop {C} (p : Pool C) : Pool C :=
  {| content := content p; rollback := rollback p; stopped := true |}.
Definition fresh_pool {C} (c : C) : Pool C := {| content := c; rollback := [c]; stopped := false |}.

(** ** Calls to the outside *)
Definition next_outcome : M Zfs io_error outcome := λ z,
  match faults z with
  | [] => (Ok Works, z)
  | o :: f => (Ok o, set_faults f z)
  end.
Definition io : M Zfs io_error () :=
  o ← next_outcome; match o with Works => mret tt | _ => fail OtherIo end.
(** The [?] that turns an I/O error into an [anyhow] one. *)
Definition with_context {S E E' A} (f : E → E') (m : M S E A) : M S E' A :=
  λ s, let '(r, s') := m s in (map_err f r, s').
Definition io_ {A} (m : M Zfs io_error A) : M Zfs string A := with_context io_error_display m.
Definition draw (what : string) : M Zfs string bytes := λ z,
  match draws z with [] => (Err what, z) | d :: ds => (Ok d, set_draws ds z) end.

(** ** Files *)
Inductive place := PControl (dir name : string) | PTenant (tenant : bytes) (dir name : string).
#[export] Instance place_eq_dec : EqDecision place.
Proof. solve_decision. Defined.

Definition file (z : Zfs) (p : place) : option bytes :=
  match p with
  | PControl d n => ctl_files (content (control z)) !! (d, n)
  | PTenant t d n => tp ← pools z !! t; content (tp_pool tp) !! (d, n)
  end.
Definition set_ctl_files (f : files → files) (c : Control) : Control :=
  {| ctl_files := f (ctl_files c); ctl_catalog := ctl_catalog c |}.
Definition set_ctl_catalog (f : gmap bytes CatalogEntry → gmap bytes CatalogEntry) (c : Control) :=
  {| ctl_files := ctl_files c; ctl_catalog := f (ctl_catalog c) |}.
Definition on_tp_pool (f : Pool files → Pool files) (tp : TenantPool) : TenantPool :=
  {| tp_id := tp_id tp; tp_genesis := tp_genesis tp; tp_pool := f (tp_pool tp) |}.
Definition put_file (p : place) (o : option bytes) (z : Zfs) : Zfs :=
  match p with
  | PControl d n =>
      set_control (pool_update (set_ctl_files (partial_alter (λ _, o) (d, n))) (control z)) z
  | PTenant t d n =>
      set_pools (alter (on_tp_pool (pool_update (partial_alter (λ _, o) (d, n)))) t (pools z)) z
  end.

(** [tokio::fs::write], [rename], [remove_file], [read] and an exclusive create. *)
Definition fs_write (p : place) (b : bytes) : M Zfs io_error () :=
  o ← next_outcome;
  match o with
  | Works => modify (put_file p (Some b))
  | Refuses => fail OtherIo
  | Breaks kept => _ ← modify (put_file p (Some (take kept b))); fail OtherIo
  end.
Definition fs_rename (from to : place) : M Zfs io_error () :=
  _ ← io;
  z ← get;
  b ← unwrap (file z from) NotFound;
  modify (λ z, put_file from None (put_file to (Some b) z)).
Definition fs_remove (p : place) : M Zfs io_error () :=
  _ ← io; z ← get; _ ← unwrap (file z p) NotFound; modify (put_file p None).
Definition fs_read (p : place) : M Zfs io_error bytes :=
  _ ← io; z ← get; unwrap (file z p) NotFound.
Definition fs_create_new (p : place) : M Zfs io_error () :=
  _ ← io; z ← get; _ ← ensure (bool_decide (file z p = None)) AlreadyExists;
  modify (put_file p (Some [])).
(** [write_all] on a file just created: a failure leaves a prefix. *)
Definition fs_write_all := fs_write.
(** [read_dir]: the names of a directory. *)
Definition names_in (dir : string) (f : files) : list string :=
  omap (λ k, if decide (k.1 = dir) then Some k.2 else None) (btree_iter f).*1.

(** ** Anchors *)
(** [Pool::anchor_now]: nothing to do when nothing was written since; a failure
    before the marker changes nothing; one after it stops the pool for good. *)
Definition anchor_now {C} (p : Pool C) : M Zfs string (Pool C) :=
  _ ← ensure (negb (stopped p)) "zfs anchoring stopped after a failure";
  _ ← io_ io;  (* zpool sync, and the txg it reached *)
  match rollback p with
  | [_] => mret p  (* nothing has reached the disk since *)
  | _ =>
      o ← io_ next_outcome;  (* seal_and_publish *)
      match o with Works => mret (pool_anchored p) | _ => mret (pool_stop p) end
  end.
Definition anchor_failed {C} (p : Pool C) : M Zfs string () :=
  ensure (negb (stopped p)) "the anchor could not be published".

Definition anchor_control : M Zfs string () :=
  z ← get;
  p ← anchor_now (control z);
  _ ← modify (set_control p);
  anchor_failed p.

Definition imported (t : bytes) (z : Zfs) : bool := default false (tenants z !! t).

Definition anchor_pool (t : bytes) : M Zfs string () :=
  z ← get;
  match pools z !! t with
  | Some tp =>
      p ← anchor_now (tp_pool tp);
      _ ← modify (λ z, set_pools (alter (on_tp_pool (λ _, p)) t (pools z)) z);
      anchor_failed p
  | None => mret tt
  end.

(** [Zfs::anchor_tenant]: the tenant's own pool, then the control pool. *)
Definition anchor_tenant (t : bytes) : M Zfs string () :=
  z ← get;
  _ ← (if imported t z then anchor_pool t else mret tt);
  anchor_control.

(** ** The catalog *)
Definition read_catalog (t : bytes) : M Zfs string (option CatalogEntry) :=
  _ ← io_ io; _ ← io_ io;
  gets (λ z, ctl_catalog (content (control z)) !! t).
(** A temporary file, then a rename that publishes it. *)
Definition write_catalog (t : bytes) (e : CatalogEntry) : M Zfs string () :=
  _ ← io_ io; _ ← io_ io; _ ← io_ io;
  modify (λ z, set_control (pool_update (set_ctl_catalog <[t := e]>) (control z)) z).
Definition catalog : M Zfs string (list (bytes * CatalogEntry)) :=
  _ ← io_ io; gets (λ z, btree_iter (ctl_catalog (content (control z)))).

Definition free_region : M Zfs string Z :=
  entries ← catalog;
  z ← get;
  unwrap (head (filter (λ r, r ∉ (λ e, ce_region e.2) <$> entries) (seqZ 1 (max_pools z - 1))))
    "no free pool region: the disk is full".

Definition background_tenants : M Zfs string (list bytes) :=
  entries ← catalog; mret (filter (λ e, ce_background e.2 = true) entries).*1.

(** The loop of [validate_catalog], with the regions and ids already seen. *)
Fixpoint validate_entries (max : Z) (es : list (bytes * CatalogEntry)) (regions : list Z) (ids : list bytes) :
    result string () :=
  match es with
  | [] => Ok tt
  | (_, e) :: es =>
      _ ← check (ce_version e =? 1) "catalog entry from an unknown version";
      _ ← check ((1 <=? ce_region e) && (ce_region e <? max)) "catalog region is out of range";
      _ ← check (bool_decide (ce_region e ∉ regions)) "two tenants share a region";
      _ ← check (bool_decide (ce_pool_id e ∉ ids)) "two tenants share a pool id";
      validate_entries max es (ce_region e :: regions) (ce_pool_id e :: ids)
  end.
Definition validate_catalog : M Zfs string () :=
  entries ← catalog; z ← get; lift (validate_entries (max_pools z) entries [] []).

(** ** Tenants *)
(** Mapping the region as a dm-crypt device. *)
Definition tenant_spec (region : Z) : M Zfs string () :=
  z ← get;
  _ ← unwrap (region_bounds region (region_sectors z) (disk_sectors z)) "the region does not fit the disk";
  io_ io.

Definition create_tenant (t : bytes) : M Zfs string () :=
  region ← free_region;
  pool_id ← draw "pool id entropy";
  _ ← tenant_spec region;
  _ ← io_ io;  (* Pool::create: zpool create and anchor 0 *)
  genesis ← draw "no genesis anchor";
  _ ← modify (λ z, set_pools
        (<[t := {| tp_id := pool_id; tp_genesis := genesis; tp_pool := fresh_pool ∅ |}]> (pools z)) z);
  _ ← write_catalog t {| ce_version := 1; ce_pool_id := pool_id; ce_region := region;
                         ce_genesis := genesis; ce_background := false |};
  anchor_control.

Definition import_tenant (t : bytes) (e : CatalogEntry) : M Zfs string () :=
  _ ← tenant_spec (ce_region e);
  _ ← io_ io;  (* Pool::open: zpool import *)
  z ← get;
  tp ← unwrap (pools z !! t) "this pool's chain has no anchors; there is nothing to resume";
  _ ← ensure (bool_decide (tp_id tp = ce_pool_id e)) "zfs anchor: belongs to another pool";
  ensure (bool_decide (tp_genesis tp = ce_genesis e))
    "this pool is a different history than its catalog entry names".

Definition open_or_create_tenant (t : bytes) (create : bool) : M Zfs string () :=
  e ← read_catalog t;
  match e with
  | Some e => import_tenant t e
  | None => if create then create_tenant t else fail "the tenant has no storage"
  end.

(** The slot is taken before the pool is known to exist, and kept if it is not. *)
Definition tenant_pool (t : bytes) (create : bool) : M Zfs string () :=
  z ← get;
  _ ← (if decide (is_Some (tenants z !! t)) then mret tt
       else _ ← ensure (Z.of_nat (size (tenants z)) + 1 <? max_pools z)
                  "no free pool region: all are taken";
            modify (set_tenants (<[t := false]> (tenants z))));
  z ← get;
  if imported t z then mret tt
  else _ ← open_or_create_tenant t create;
       modify (λ z, set_tenants (<[t := true]> (tenants z)) z).

Inductive Arrival := Returning | New.
#[export] Instance arrival_eq_dec : EqDecision Arrival.
Proof. solve_decision. Defined.

Definition tenant_dir (t : bytes) : M Zfs string Arrival :=
  z ← get;
  let fresh := bool_decide (tenants z !! t = None) in
  _ ← tenant_pool t true;
  mret (if fresh then New else Returning).
Definition existing_tenant_dir (t : bytes) : M Zfs string () := tenant_pool t false.
Definition tenant_runtime_dir (t : bytes) : M Zfs string () :=
  _ ← tenant_pool t false; io_ io.
Definition runtime_dir : M Zfs string () := io_ io.

Definition mark_background (t : bytes) : M Zfs string () :=
  e ← read_catalog t;
  e ← unwrap e "tenant has no catalog entry";
  if ce_background e then mret tt
  else
    _ ← write_catalog t {| ce_version := ce_version e; ce_pool_id := ce_pool_id e;
          ce_region := ce_region e; ce_genesis := ce_genesis e; ce_background := true |};
    anchor_control.

(** ** Restart *)
Definition pool_restart {C} (c : C) : Pool C := {| content := c; rollback := [c]; stopped := false |}.
(** What a boot can find: for each pool, one content since its last anchor; the
    manager starts with no tenant imported and its own script of failures. *)
Record restart (z z' : Zfs) : Prop := {
  restart_control : ∃ c, c ∈ rollback (control z) ∧ control z' = pool_restart c;
  restart_pools : ∀ t, match pools z !! t with
    | None => pools z' !! t = None
    | Some tp => ∃ c, c ∈ rollback (tp_pool tp) ∧
        pools z' !! t = Some {| tp_id := tp_id tp; tp_genesis := tp_genesis tp; tp_pool := pool_restart c |}
    end;
  restart_tenants : tenants z' = ∅;
  restart_disk : region_sectors z' = region_sectors z ∧ disk_sectors z' = disk_sectors z ∧
    max_pools z' = max_pools z;
}.

(** * Theorems *)

(** ** Well-formed pools: the current content heads the ones a restart may find *)
Definition pool_wf {C} (p : Pool C) : Prop := head (rollback p) = Some (content p).
Definition disk_ok (z : Zfs) : Prop :=
  0 < region_sectors z ∧ is_u64 (disk_sectors z) ∧
  max_pools z = region_count (region_sectors z) (disk_sectors z).
Record zfs_wf (z : Zfs) : Prop := {
  wf_disk : disk_ok z;
  wf_control : pool_wf (control z);
  wf_pools : map_Forall (λ _ tp, pool_wf (tp_pool tp)) (pools z);
}.

(** ** The catalog invariant *)
(** What [validate_catalog] checks of versions and regions: in range and distinct. *)
Record catalog_ok (max : Z) (m : gmap bytes CatalogEntry) : Prop := {
  cat_range : ∀ t e, m !! t = Some e → ce_version e = 1 ∧ 1 ≤ ce_region e < max;
  cat_distinct : ∀ t t' e e', m !! t = Some e → m !! t' = Some e' →
    ce_region e = ce_region e' → t = t';
}.
(** Held by the catalog now and by every one a restart may find. *)
Definition control_ok (z : Zfs) : Prop :=
  Forall (λ c, catalog_ok (max_pools z) (ctl_catalog c)) (rollback (control z)).
Definition storage_ok (z : Zfs) : Prop := zfs_wf z ∧ control_ok z.

Lemma storage_ok_catalog z : storage_ok z → catalog_ok (max_pools z) (ctl_catalog (content (control z))).
Proof.
  intros [[_ Hc _] Hok]. unfold control_ok, pool_wf in *.
  destruct (rollback (control z)); simplify_eq/=. by apply Forall_cons in Hok as [? _].
Qed.

Section wf.
Lemma pool_update_wf {C} (f : C → C) p : pool_wf (pool_update f p).
Proof. done. Qed.
Lemma pool_anchored_wf {C} (p : Pool C) : pool_wf (pool_anchored p).
Proof. done. Qed.
Lemma pool_stop_wf {C} (p : Pool C) : pool_wf p → pool_wf (pool_stop p).
Proof. done. Qed.
Lemma fresh_pool_wf {C} (c : C) : pool_wf (fresh_pool c).
Proof. done. Qed.
End wf.
#[export] Hint Resolve pool_update_wf pool_anchored_wf pool_stop_wf fresh_pool_wf : runtime.

(** A change of the control content that leaves the catalog alone. *)
Lemma storage_ok_set_control z p :
  storage_ok z → pool_wf p →
  Forall (λ c, catalog_ok (max_pools z) (ctl_catalog c)) (rollback p) → storage_ok (set_control p z).
Proof. intros [[Hd _ Hp] _] Hwf Hok. split; [split; [exact Hd|exact Hwf|exact Hp]|exact Hok]. Qed.
Lemma storage_ok_set_pools z ps :
  storage_ok z → map_Forall (λ _ tp, pool_wf (tp_pool tp)) ps → storage_ok (set_pools ps z).
Proof. intros [[Hd Hc _] Hok] Hp. split; [split; [exact Hd|exact Hc|exact Hp]|exact Hok]. Qed.

(** The invariant reads the pools alone. *)
Lemma storage_ok_ext z z' :
  control z' = control z → pools z' = pools z → max_pools z' = max_pools z →
  region_sectors z' = region_sectors z → disk_sectors z' = disk_sectors z →
  storage_ok z → storage_ok z'.
Proof.
  intros Hc Hp Hm Hr Hd [[H1 H2 H3] H4]. unfold control_ok, disk_ok in *.
  split; [split|]; unfold control_ok, disk_ok; rewrite ?Hc, ?Hp, ?Hm, ?Hr, ?Hd; done.
Qed.

Lemma storage_ok_next_outcome : preserves storage_ok next_outcome.
Proof.
  intros z Hz. unfold next_outcome. destruct (faults z); [done|]. by eapply storage_ok_ext, Hz.
Qed.
Lemma storage_ok_io : preserves storage_ok io.
Proof. unfold io. apply preserves_bind; [apply storage_ok_next_outcome|]. intros []; solve_preserves. Qed.
Lemma preserves_with_context {S E E' A} (I : S → Prop) (f : E → E') (m : M S E A) :
  preserves I m → preserves I (with_context f m).
Proof. intros Hm s Hs. specialize (Hm s Hs). unfold with_context. by destruct (m s). Qed.
Lemma preserves_io_ {A} (I : Zfs → Prop) (m : M Zfs io_error A) : preserves I m → preserves I (io_ m).
Proof. apply preserves_with_context. Qed.
Lemma storage_ok_draw w : preserves storage_ok (draw w).
Proof. intros z Hz. unfold draw. destruct (draws z); [done|]. by eapply storage_ok_ext, Hz. Qed.
Lemma storage_ok_ensure {E} b (e : E) : preserves storage_ok (ensure b e).
Proof. by intros z. Qed.
#[export] Hint Resolve storage_ok_next_outcome storage_ok_io preserves_io_ storage_ok_draw
  storage_ok_ensure : preserves.

Lemma storage_ok_put_file p o z : storage_ok z → storage_ok (put_file p o z).
Proof.
  intros Hz. destruct p as [d n|t d n]; simpl.
  - apply storage_ok_set_control; [done|done|]. simpl. apply Forall_cons.
    split; [by apply storage_ok_catalog|apply Hz].
  - apply storage_ok_set_pools; [done|]. intros t' tp. rewrite lookup_alter.
    case_decide; [|apply Hz]. intros (tp' & _ & ->)%fmap_Some. apply pool_update_wf.
Qed.
Lemma storage_ok_modify_file p o : preserves storage_ok (modify (put_file p o) : M Zfs io_error ()).
Proof. apply preserves_modify. intros. by apply storage_ok_put_file. Qed.
#[export] Hint Resolve storage_ok_put_file storage_ok_modify_file : preserves.

Lemma storage_ok_anchor_now {C} (p : Pool C) : preserves storage_ok (anchor_now p).
Proof. unfold anchor_now. solve_preserves. Qed.
#[export] Hint Resolve storage_ok_anchor_now : preserves.

(** What [anchor_now] can answer, and that it only moves the script along. *)
Lemma anchor_now_cases {C} (p : Pool C) z r z' :
  anchor_now p z = (r, z') →
  (∃ f, z' = set_faults f z) ∧
  ∀ p', r = Ok p' → (p' = p ∧ ∃ c, rollback p = [c]) ∨ p' = pool_anchored p ∨ p' = pool_stop p.
Proof.
  assert (∀ z, z = set_faults (faults z) z) as Hid by by intros [].
  unfold anchor_now, io_, with_context, io, next_outcome.
  destruct p as [c rb st]; simpl. unfold_m; simpl. destruct st; simpl.
  { intros [= <- <-]. split; [eexists; apply Hid|done]. }
  destruct (faults z) as [|o fs]; simpl; [|destruct o; simpl].
  - destruct rb as [|? [|]]; simpl; unfold next_outcome; rewrite ?H;
      destruct (faults z) as [|[] ?]; simpl; intros [= <- <-];
      (split; [eexists; first [apply Hid|done]|naive_solver]).
  - destruct rb as [|? [|]]; simpl; try (destruct fs as [|[] ?]; simpl); intros [= <- <-];
      (split; [eexists; first [done|apply Hid]|naive_solver]).
  - intros [= <- <-]. split; [by eexists|done].
  - intros [= <- <-]. split; [by eexists|done].
Qed.

Lemma io_inv z r z' : io z = (r, z') → ∃ f, z' = set_faults f z.
Proof.
  unfold io, next_outcome. unfold_m. destruct (faults z) as [|[] ?]; intros [= <- <-]; eauto.
  exists (faults z). by destruct z.
Qed.
Lemma io__inv {A} (m : M Zfs io_error A) z r z' :
  io_ m z = (r, z') → ∃ r0, m z = (r0, z') ∧ r = map_err io_error_display r0.
Proof. unfold io_, with_context. destruct (m z) as [r0 z0]. intros [= <- <-]. eauto. Qed.
Lemma io_io_inv z r z' : io_ io z = (r, z') → ∃ f, z' = set_faults f z.
Proof. intros (r0 & H & _)%io__inv. by apply io_inv in H. Qed.
Lemma draw_inv w z r z' : draw w z = (r, z') → ∃ d, z' = set_draws d z.
Proof.
  unfold draw. destruct (draws z) eqn:E; intros [= <- <-]; [|eauto].
  exists []. rewrite <-E. by destruct z.
Qed.

(** ** The manager's operations keep the invariant *)
Lemma storage_ok_anchor_control : preserves storage_ok anchor_control.
Proof.
  unfold anchor_control. apply preserves_get. intros z Hz.
  unfold_m. destruct (anchor_now (control z) z) as [r z1] eqn:E.
  destruct (anchor_now_cases _ _ _ _ E) as [(f & ->) Hcases].
  assert (storage_ok (set_faults f z)) as Hf by (by eapply storage_ok_ext, Hz).
  destruct r as [p|e]; [|done]. simpl. unfold anchor_failed, ensure, check.
  apply storage_ok_set_control; [done| |]; destruct Hz as [[_ Hc _] Hok];
    destruct (Hcases p eq_refl) as [[-> _]|[-> | ->]]; try done.
  simpl. apply Forall_singleton. unfold control_ok, pool_wf in *. simpl.
  destruct (rollback (control z)); simplify_eq/=. by apply Forall_cons in Hok as [? _].
Qed.
#[export] Hint Resolve storage_ok_anchor_control : preserves.

Lemma storage_ok_anchor_pool t : preserves storage_ok (anchor_pool t).
Proof.
  unfold anchor_pool. apply preserves_get. intros z Hz.
  destruct (pools z !! t) as [tp|] eqn:Et; [|done].
  unfold_m. destruct (anchor_now (tp_pool tp) z) as [r z1] eqn:E.
  destruct (anchor_now_cases _ _ _ _ E) as [(f & ->) Hcases].
  assert (storage_ok (set_faults f z)) as Hf by (by eapply storage_ok_ext, Hz).
  destruct r as [p|e]; [|done]. simpl.
  apply storage_ok_set_pools; [done|]. intros t' tp'. simpl. rewrite lookup_alter.
  destruct Hz as [[_ _ Hp] _]. case_decide; [subst|apply Hp].
  rewrite Et. intros [= <-]. specialize (Hp _ _ Et). simpl in *.
  by destruct (Hcases p eq_refl) as [[-> _]|[-> | ->]].
Qed.
#[export] Hint Resolve storage_ok_anchor_pool : preserves.

Lemma storage_ok_anchor_tenant t : preserves storage_ok (anchor_tenant t).
Proof.
  unfold anchor_tenant. apply preserves_get. intros z Hz. by_preserves. solve_preserves.
Qed.

(** Setting an entry whose region is free keeps the catalog invariant. *)
Lemma catalog_ok_insert max m t e :
  catalog_ok max m → ce_version e = 1 → 1 ≤ ce_region e < max →
  (∀ t' e', m !! t' = Some e' → t' ≠ t → ce_region e' ≠ ce_region e) →
  catalog_ok max (<[t := e]> m).
Proof.
  intros [Hr Hd] Hv Hrange Hfree. split.
  - intros t' e'. rewrite lookup_insert. case_decide; naive_solver.
  - intros t1 t2 e1 e2. rewrite !lookup_insert. repeat case_decide; naive_solver.
Qed.

Lemma write_catalog_inv t e z r z' :
  write_catalog t e z = (r, z') →
  ∃ f, is_ok r = false ∧ z' = set_faults f z ∨
    r = Ok tt ∧ z' = set_control (pool_update (set_ctl_catalog <[t := e]>) (control z)) (set_faults f z).
Proof.
  unfold write_catalog. intros H.
  inv_bind H; [|apply io_io_inv in Hrun as [f ->]; eauto].
  apply io_io_inv in Hrun as [f ->].
  inv_bind H; [|apply io_io_inv in Hrun as [f' ->]; eauto].
  apply io_io_inv in Hrun as [f' ->].
  inv_bind H; [|apply io_io_inv in Hrun as [f'' ->]; eauto].
  apply io_io_inv in Hrun as [f'' ->]. inv_pure. eauto.
Qed.

Lemma storage_ok_write_catalog t e z r z' :
  write_catalog t e z = (r, z') → storage_ok z →
  ce_version e = 1 → 1 ≤ ce_region e < max_pools z →
  (∀ t' e', ctl_catalog (content (control z)) !! t' = Some e' → t' ≠ t → ce_region e' ≠ ce_region e) →
  storage_ok z'.
Proof.
  intros [f [[_ ->]|(_ & ->)]]%write_catalog_inv Hz Hv Hr Hfree; [by eapply storage_ok_ext, Hz|].
  apply storage_ok_set_control; [by eapply storage_ok_ext, Hz|done|]. simpl.
  apply Forall_cons. split; [|apply Hz]. simpl.
  apply catalog_ok_insert; [by apply storage_ok_catalog|done..].
Qed.

(** The free region is one no entry of the catalog uses. *)
Lemma free_region_inv z r z' :
  free_region z = (Ok r, z') →
  (∃ f, z' = set_faults f z) ∧ 1 ≤ r < max_pools z ∧
  ∀ t e, ctl_catalog (content (control z)) !! t = Some e → ce_region e ≠ r.
Proof.
  unfold free_region, catalog. intros H. inv_bind H. inv_bind Hrun.
  apply io_io_inv in Hrun0 as [f ->]. inv_pure. inv_bind H. inv_pure.
  match goal with HH : head _ = Some _ |- _ => rename HH into Hh end.
  apply head_Some_elem_of, list_elem_of_filter in Hh as [Hn Hin].
  apply elem_of_seqZ in Hin. split_and!; [by eexists|simpl in *; lia..|].
  intros t e He <-. apply Hn. simpl. apply list_elem_of_fmap. exists (t, e). split; [done|].
  by apply elem_of_btree_iter.
Qed.

Lemma tenant_spec_inv r z x z' : tenant_spec r z = (x, z') → ∃ f, z' = set_faults f z.
Proof.
  unfold tenant_spec. intros H.
  assert (z = set_faults (faults z) z) as Hid by by destruct z.
  inv_bind H; [|by inv_pure]. inv_pure. inv_bind H; [|inv_pure; eauto].
  inv_pure. by apply io_io_inv in H.
Qed.

Lemma storage_ok_catalog_list : preserves storage_ok catalog.
Proof. unfold catalog. solve_preserves. Qed.
#[export] Hint Resolve storage_ok_catalog_list : preserves.
Lemma storage_ok_free_region : preserves storage_ok free_region.
Proof. unfold free_region. solve_preserves. Qed.
#[export] Hint Resolve storage_ok_free_region : preserves.

Lemma storage_ok_create_tenant t : preserves storage_ok (create_tenant t).
Proof.
  intros z Hz. destruct (create_tenant t z) as [r z'] eqn:H. simpl. unfold create_tenant in H.
  inv_bind H; [|exact (preserves_ok _ _ _ _ _ storage_ok_free_region Hz Hrun)].
  apply free_region_inv in Hrun as ((f & ->) & Hr & Hfree).
  inv_bind H; apply draw_inv in Hrun as [d ->]; [|by eapply storage_ok_ext, Hz].
  inv_bind H; apply tenant_spec_inv in Hrun as [f1 ->]; [|by eapply storage_ok_ext, Hz].
  inv_bind H; apply io_io_inv in Hrun as [f2 ->]; [|by eapply storage_ok_ext, Hz].
  inv_bind H; apply draw_inv in Hrun as [d2 ->]; [|by eapply storage_ok_ext, Hz].
  inv_bind H; inv_pure.
  assert (Hz2 : ∀ ps, map_Forall (λ _ tp, pool_wf (tp_pool tp)) ps →
    storage_ok (set_pools ps (set_draws d2 (set_faults f2 (set_faults f1 (set_draws d (set_faults f z))))))).
  { intros ps Hps. apply storage_ok_set_pools; [|done]. by eapply storage_ok_ext, Hz. }
  specialize (Hz2 (<[t:={| tp_id := a0; tp_genesis := a3; tp_pool := fresh_pool ∅ |}]> (pools z))).
  match type of H with (write_catalog t ?e ≫= _) ?z0 = _ =>
    assert (Hw : ∀ r1 z1, write_catalog t e z0 = (r1, z1) → storage_ok z1) end.
  { intros r1 z1 Hw. apply (storage_ok_write_catalog _ _ _ _ _ Hw); simpl; [|done|exact Hr|by eauto].
    apply Hz2, map_Forall_insert_2; [done|apply Hz]. }
  inv_bind H; apply Hw in Hrun; [|done].
  exact (preserves_ok _ _ _ _ _ storage_ok_anchor_control Hrun H).
Qed.
#[export] Hint Resolve storage_ok_create_tenant : preserves.

Lemma storage_ok_import_tenant t e : preserves storage_ok (import_tenant t e).
Proof.
  unfold import_tenant, tenant_spec. solve_preserves; apply preserves_get; intros z Hz;
    unfold_m; repeat case_match; simplify_eq/=; try done; by eapply preserves_ok; eauto with preserves.
Qed.
#[export] Hint Resolve storage_ok_import_tenant : preserves.
Lemma storage_ok_read_catalog t : preserves storage_ok (read_catalog t).
Proof. unfold read_catalog. solve_preserves. Qed.
#[export] Hint Resolve storage_ok_read_catalog : preserves.

Lemma storage_ok_set_tenants t z : storage_ok z → storage_ok (set_tenants t z).
Proof. intros Hz. by eapply storage_ok_ext, Hz. Qed.
Lemma storage_ok_tenant_pool t b : preserves storage_ok (tenant_pool t b).
Proof.
  unfold tenant_pool. apply preserves_get. intros z Hz. by_preserves. apply preserves_bind.
  - destruct (decide _); [apply preserves_ret|]. apply preserves_bind; [apply storage_ok_ensure|].
    intros _. apply preserves_modify. intros. by apply storage_ok_set_tenants.
  - intros _. apply preserves_get. intros z1 Hz1. by_preserves.
    apply preserves_if; [apply preserves_ret|].
    apply preserves_bind; [unfold open_or_create_tenant; solve_preserves|].
    intros _. apply preserves_modify. intros. by apply storage_ok_set_tenants.
Qed.
#[export] Hint Resolve storage_ok_tenant_pool : preserves.

Lemma read_catalog_inv t z r z' :
  read_catalog t z = (r, z') →
  (∃ f, z' = set_faults f z) ∧ ∀ o, r = Ok o → o = ctl_catalog (content (control z)) !! t.
Proof.
  unfold read_catalog. intros H.
  inv_bind H; apply io_io_inv in Hrun as [f ->]; [|split; [by eexists|done]].
  inv_bind H; apply io_io_inv in Hrun as [f' ->]; [|split; [by eexists|done]].
  inv_pure. split; [by eexists|]. by intros o [= <-].
Qed.

Lemma storage_ok_mark_background t : preserves storage_ok (mark_background t).
Proof.
  intros z Hz. destruct (mark_background t z) as [r z'] eqn:H. simpl. unfold mark_background in H.
  inv_bind H; apply read_catalog_inv in Hrun as [(f & ->) Ho]; [|by eapply storage_ok_ext, Hz].
  specialize (Ho _ eq_refl). assert (storage_ok (set_faults f z)) as Hf by (by eapply storage_ok_ext, Hz).
  inv_bind H; [|by inv_pure]. inv_pure. symmetry in Ho.
  match type of H with context [ce_background ?x] => rename x into e end.
  destruct (storage_ok_catalog _ Hz) as [Hr Hd]. destruct (Hr _ _ Ho) as [Hv Hrange].
  destruct (ce_background e); [by inv_pure|].
  match type of H with (write_catalog t ?e ≫= _) ?z0 = _ =>
    assert (Hw : ∀ r1 z1, write_catalog t e z0 = (r1, z1) → storage_ok z1) end.
  { intros r1 z1 Hw. apply (storage_ok_write_catalog _ _ _ _ _ Hw); simpl; [done|done|done|].
    intros t' e' He' Hne Heq. by destruct (Hne (Hd _ _ _ _ He' Ho Heq)). }
  inv_bind H; apply Hw in Hrun; [|done].
  exact (preserves_ok _ _ _ _ _ storage_ok_anchor_control Hrun H).
Qed.

(** ** Everything a running or restarting enclave does to its storage *)
Inductive zop :=
  | OTenantDir (t : bytes) | OExistingTenantDir (t : bytes) | OTenantRuntimeDir (t : bytes)
  | OMarkBackground (t : bytes) | OAnchorTenant (t : bytes) | OAnchorControl
  | OWrite (p : place) (b : bytes) | ORename (p q : place) | ORemove (p : place) | OCreateNew (p : place).
Definition run_zop (o : zop) (z : Zfs) : Zfs :=
  match o with
  | OTenantDir t => (tenant_dir t z).2
  | OExistingTenantDir t => (existing_tenant_dir t z).2
  | OTenantRuntimeDir t => (tenant_runtime_dir t z).2
  | OMarkBackground t => (mark_background t z).2
  | OAnchorTenant t => (anchor_tenant t z).2
  | OAnchorControl => (anchor_control z).2
  | OWrite p b => (fs_write p b z).2
  | ORename p q => (fs_rename p q z).2
  | ORemove p => (fs_remove p z).2
  | OCreateNew p => (fs_create_new p z).2
  end.
Inductive zstep : Zfs → Zfs → Prop :=
  | zstep_op z o : zstep z (run_zop o z)
  | zstep_restart z z' : restart z z' → zstep z z'.
(** A disk just created by [Zfs::create]: the control pool and nothing else. *)
Definition genesis (region_sectors disk_sectors : Z) (faults : list outcome) (draws : list bytes) : Zfs :=
  {| control := fresh_pool {| ctl_files := ∅; ctl_catalog := ∅ |}; pools := ∅; tenants := ∅;
     region_sectors := region_sectors; disk_sectors := disk_sectors;
     max_pools := region_count region_sectors disk_sectors; faults := faults; draws := draws |}.
Definition zinit (z : Zfs) : Prop := ∃ rs ds f d, 0 < rs ∧ is_u64 ds ∧ z = genesis rs ds f d.

Lemma storage_ok_fs_write p b : preserves storage_ok (fs_write p b).
Proof. unfold fs_write. solve_preserves. Qed.
Lemma storage_ok_fs_remove p : preserves storage_ok (fs_remove p).
Proof. unfold fs_remove. solve_preserves. Qed.
Lemma storage_ok_fs_read p : preserves storage_ok (fs_read p).
Proof. unfold fs_read. solve_preserves. Qed.
Lemma storage_ok_fs_create_new p : preserves storage_ok (fs_create_new p).
Proof. unfold fs_create_new. solve_preserves. Qed.
Lemma storage_ok_fs_rename p q : preserves storage_ok (fs_rename p q).
Proof. unfold fs_rename. solve_preserves. apply preserves_modify. auto with preserves. Qed.

Lemma storage_ok_restart z z' : storage_ok z → restart z z' → storage_ok z'.
Proof.
  intros [[Hd Hc Hp] Hok] [(c & Hin & Hc') Hps _ (Hr & Hs & Hm)]. unfold control_ok in *.
  rewrite Forall_forall in Hok. split; [split|].
  - unfold disk_ok. by rewrite Hr, Hs, Hm.
  - by rewrite Hc'.
  - intros t tp Ht. specialize (Hps t). destruct (pools z !! t); [|congruence].
    destruct Hps as (c' & _ & Heq). rewrite Heq in Ht. by simplify_eq.
  - unfold control_ok. rewrite Hc', Hm. apply Forall_singleton. by apply Hok.
Qed.
Lemma storage_ok_tenant_dir t : preserves storage_ok (tenant_dir t).
Proof.
  unfold tenant_dir. apply preserves_get. intros z Hz. by_preserves. solve_preserves.
Qed.
Lemma storage_ok_tenant_runtime_dir t : preserves storage_ok (tenant_runtime_dir t).
Proof. unfold tenant_runtime_dir. solve_preserves. Qed.
Lemma storage_ok_step z z' : storage_ok z → zstep z z' → storage_ok z'.
Proof.
  intros Hz Hs. revert Hz. destruct Hs as [z o|z z' Hr]; intros Hz; [|exact (storage_ok_restart _ _ Hz Hr)].
  destruct o; simpl; by_preserves;
    eauto using storage_ok_fs_write, storage_ok_fs_rename, storage_ok_fs_remove,
      storage_ok_fs_create_new, storage_ok_mark_background, storage_ok_anchor_tenant,
      storage_ok_anchor_control, storage_ok_tenant_dir, storage_ok_tenant_runtime_dir,
      storage_ok_tenant_pool.
Qed.
Lemma storage_ok_init z : zinit z → storage_ok z.
Proof.
  intros (rs & ds & f & d & Hr & Hd & ->). split; [split; [done|done|by apply map_Forall_empty]|].
  apply Forall_singleton. split; simpl; intros *; by rewrite lookup_empty.
Qed.
Lemma reachable_storage_ok z : reachable zinit zstep z → storage_ok z.
Proof. apply reachable_invariant; eauto using storage_ok_init, storage_ok_step. Qed.


(** C16: two tenants never share a sector.  In every state the manager can
    reach, through any calls, any failures and any restarts, the catalog's
    entries name regions of the disk that fit, are disjoint from one another
    and from region 0, the control pool's. *)
Theorem tenant_regions_disjoint z t t' e e' :
  reachable zinit zstep z →
  ctl_catalog (content (control z)) !! t = Some e →
  ctl_catalog (content (control z)) !! t' = Some e' → t ≠ t' →
  ∃ off off', 
    region_bounds (ce_region e) (region_sectors z) (disk_sectors z) = Some (off, region_sectors z) ∧
    region_bounds (ce_region e') (region_sectors z) (disk_sectors z) = Some (off', region_sectors z) ∧
    (off + region_sectors z ≤ off' ∨ off' + region_sectors z ≤ off) ∧
    region_sectors z ≤ off ∧ region_sectors z ≤ off' ∧ off + region_sectors z ≤ disk_sectors z.
Proof.
  intros Hz%reachable_storage_ok He He' Hne.
  destruct (storage_ok_catalog _ Hz) as [Hr Hd]. destruct Hz as [[(Hrs & Hds & Hmax) _ _] _].
  destruct (Hr _ _ He) as [_ He1]. destruct (Hr _ _ He') as [_ He2]. rewrite Hmax in *.
  assert (ce_region e ≠ ce_region e') as Hreg by naive_solver.
  assert (0 ≤ ce_region e ∧ 0 ≤ ce_region e') as [Hp Hp'] by lia.
  pose proof (region_bounds_fits _ _ _ Hp Hrs Hds (proj2 He1)) as H1.
  pose proof (region_bounds_fits _ _ _ Hp' Hrs Hds (proj2 He2)) as H2.
  pose proof (region_bounds_disjoint _ _ _ _ _ _ _ _ Hp Hp' Hrs Hreg H1 H2).
  pose proof (region_bounds_Some _ _ _ _ _ H1) as (_ & _ & ?).
  do 2 eexists. split_and!; [exact H1|exact H2|done|nia..].
Qed.

(** ** Durability *)
Lemma anchor_control_Ok z z' :
  pool_wf (control z) → anchor_control z = (Ok tt, z') →
  control z' = pool_anchored (control z) ∧ pools z' = pools z ∧ tenants z' = tenants z.
Proof.
  intros Hwf H. unfold anchor_control in H. inv_bind H. inv_pure. inv_bind H.
  destruct (anchor_now_cases _ _ _ _ Hrun) as [(f & ->) Hc].
  inv_bind H. inv_pure. unfold anchor_failed in H. inv_pure. simpl.
  destruct (Hc _ eq_refl) as [[-> (c & Hr)]|[-> | ->]]; [|done|done].
  split; [|done]. unfold pool_wf in Hwf. rewrite Hr in Hwf.
  destruct (control z) as [? ? st]; simplify_eq/=. unfold pool_anchored; simpl.
  match goal with HH : negb ?b = true |- _ => by destruct b end.
Qed.

Lemma anchor_pool_Ok t tp z z' :
  pools z !! t = Some tp → pool_wf (tp_pool tp) → anchor_pool t z = (Ok tt, z') →
  control z' = control z ∧ tenants z' = tenants z ∧
  pools z' = <[t := on_tp_pool pool_anchored tp]> (pools z).
Proof.
  intros Ht Hwf H. unfold anchor_pool in H. inv_bind H. inv_pure. rewrite Ht in H. inv_bind H.
  destruct (anchor_now_cases _ _ _ _ Hrun) as [(f & ->) Hc].
  inv_bind H. inv_pure. unfold anchor_failed in H. inv_pure. simpl.
  split_and!; [done..|]. apply map_eq. intros t'. rewrite lookup_alter, lookup_insert.
  case_decide; [subst; rewrite Ht; simpl; f_equal|done]. unfold on_tp_pool. f_equal.
  destruct (Hc _ eq_refl) as [[-> (c & Hr)]|[-> | ->]]; [|done|done].
  unfold pool_wf in Hwf. rewrite Hr in Hwf.
  destruct (tp_pool tp) as [? ? st]; simplify_eq/=. unfold pool_anchored; simpl.
  match goal with HH : negb ?b = true |- _ => by destruct b end.
Qed.

Lemma restart_anchored_control z z' c :
  restart z z' → rollback (control z) = [c] → content (control z') = c.
Proof. intros [(c' & Hin & ->) _ _ _] Hr. rewrite Hr in Hin. by apply list_elem_of_singleton in Hin as ->. Qed.
Lemma restart_anchored_tenant z z' t tp c :
  restart z z' → pools z !! t = Some tp → rollback (tp_pool tp) = [c] →
  ∃ tp', pools z' !! t = Some tp' ∧ content (tp_pool tp') = c.
Proof.
  intros [_ Hp _ _] Ht Hr. specialize (Hp t). rewrite Ht in Hp. destruct Hp as (c' & Hin & ->).
  rewrite Hr in Hin. apply list_elem_of_singleton in Hin as ->. by eexists.
Qed.

(** What [anchor_tenant] leaves behind: the control pool and, if it was
    imported, the tenant's own pool have nothing a restart could undo. *)
Lemma anchor_tenant_Ok t z z' :
  zfs_wf z → anchor_tenant t z = (Ok tt, z') →
  control z' = pool_anchored (control z) ∧
  (imported t z = true → ∀ tp, pools z !! t = Some tp →
    pools z' !! t = Some (on_tp_pool pool_anchored tp)).
Proof.
  intros [_ Hwf Hwp] H. unfold anchor_tenant in H. inv_bind H. inv_pure. inv_bind H. destruct a.
  assert (control s = control z ∧ (imported t z = true → ∀ tp, pools z !! t = Some tp →
    pools s !! t = Some (on_tp_pool pool_anchored tp))) as [Hc Hp].
  { destruct (imported t z) eqn:Hi; [|by inv_pure].
    destruct (pools z !! t) as [tp|] eqn:Ht.
    - destruct (anchor_pool_Ok _ _ _ _ Ht (Hwp _ _ Ht) Hrun) as (-> & _ & ->).
      split; [done|]. intros _ tp' [= <-]. apply lookup_insert_eq.
    - unfold anchor_pool in Hrun. inv_bind Hrun. inv_pure. rewrite Ht in Hrun. by inv_pure. }
  rewrite <-Hc in Hwf. destruct (anchor_control_Ok _ _ Hwf H) as (Hc' & Hp' & _).
  split; [by rewrite Hc', Hc|]. intros Hi tp Ht. rewrite Hp'. by apply Hp.
Qed.
Lemma anchored_restart z z' z'' t :
  zfs_wf z → anchor_tenant t z = (Ok tt, z') → restart z' z'' →
  content (control z'') = content (control z) ∧
  (imported t z = true → ∀ tp, pools z !! t = Some tp →
    ∃ tp', pools z'' !! t = Some tp' ∧ content (tp_pool tp') = content (tp_pool tp)).
Proof.
  intros Hwf H Hre. destruct (anchor_tenant_Ok _ _ _ Hwf H) as [Hc Hp]. split.
  - by apply (restart_anchored_control _ _ _ Hre); rewrite Hc.
  - intros Hi tp Ht. by eapply (restart_anchored_tenant _ _ _ _ _ Hre); [by apply Hp|].
Qed.

(** An acknowledged write survives.  When [anchor_tenant] returns [Ok],
    every restart that follows, whatever state of the disk the host serves it,
    finds each control file, the whole catalog, and (the tenant's pool being
    imported) each of the tenant's files exactly as they were when the anchor
    was asked for. *)
Theorem anchored_survives_restart z z' z'' t :
  reachable zinit zstep z → anchor_tenant t z = (Ok tt, z') → restart z' z'' →
  ctl_catalog (content (control z'')) = ctl_catalog (content (control z)) ∧
  (∀ dir name, file z'' (PControl dir name) = file z (PControl dir name)) ∧
  (imported t z = true → is_Some (pools z !! t) →
    ∀ dir name, file z'' (PTenant t dir name) = file z (PTenant t dir name)).
Proof.
  intros [Hwf _]%reachable_storage_ok H Hre.
  destruct (anchored_restart _ _ _ _ Hwf H Hre) as [Hc Hp]. unfold file. rewrite Hc.
  split_and!; [done..|]. intros Hi [tp Ht] dir name.
  destruct (Hp Hi tp Ht) as (tp' & Ht' & Hcont). rewrite Ht, Ht'. simpl. by rewrite Hcont.
Qed.

(** ** Marking background work *)
Lemma write_catalog_wf t e z r z' : write_catalog t e z = (r, z') → pool_wf (control z) → pool_wf (control z').
Proof. by intros [f [[_ ->]|(_ & ->)]]%write_catalog_inv Hwf. Qed.

(** A flag that [mark_background] sets is durable: when it returns [Ok] for
    a tenant whose entry was not flagged, every restart lists the tenant for
    the boot scan, and the entry is otherwise unchanged. *)
Theorem mark_background_durable z z' z'' t e :
  reachable zinit zstep z → ctl_catalog (content (control z)) !! t = Some e →
  ce_background e = false → mark_background t z = (Ok tt, z') → restart z' z'' →
  ctl_catalog (content (control z'')) !! t =
    Some {| ce_version := ce_version e; ce_pool_id := ce_pool_id e; ce_region := ce_region e;
            ce_genesis := ce_genesis e; ce_background := true |}.
Proof.
  intros [[_ Hwf _] _]%reachable_storage_ok He Hb H Hre. unfold mark_background in H.
  inv_bind H. apply read_catalog_inv in Hrun as [(f & ->) Ho]. specialize (Ho _ eq_refl).
  rewrite He in Ho. subst. inv_bind H. inv_pure. rewrite Hb in H. inv_bind H.
  pose proof (write_catalog_wf _ _ _ _ _ Hrun Hwf) as Hwf'.
  apply write_catalog_inv in Hrun as [f' [[[=] _]|(_ & ->)]].
  destruct (anchor_control_Ok _ _ Hwf' H) as (Hc' & _ & _).
  rewrite (restart_anchored_control _ _ (content (control z')) Hre) by by rewrite Hc'.
  rewrite Hc'. simpl. apply lookup_insert_eq.
Qed.

(** A flag already set is taken on trust.  [mark_background] returns [Ok]
    without anchoring when the entry is flagged already; if the anchor of the
    call that set the flag failed, a restart can still lose it, although both
    calls come before the record they protect. *)
Theorem mark_background_flagged_unanchored :
  ∃ z z' z'' t e, reachable zinit zstep z ∧
    mark_background t z = (Ok tt, z') ∧ restart z' z'' ∧
    ctl_catalog (content (control z'')) !! t = Some e ∧ ce_background e = false.
Proof.
  set (t := [Byte.x01]).
  set (z0 := genesis 10 100 (replicate 15 Works ++ [Breaks 0]) [[Byte.x07]; [Byte.x08]]).
  set (z1 := run_zop (OTenantDir t) z0). set (z2 := run_zop (OMarkBackground t) z1).
  set (c := match rollback (control z2) with [_; c; _] | [_; c] => c | _ => content (control z0) end).
  exists z2, (mark_background t z2).2,
    {| control := pool_restart c; pools := pools z2; tenants := ∅; region_sectors := 10;
       disk_sectors := 100; max_pools := 10; faults := []; draws := [] |}, t.
  eexists. split_and!.
  - eapply reachable_step; [|apply (zstep_op z1 (OMarkBackground t))].
    eapply reachable_step; [|apply (zstep_op z0 (OTenantDir t))].
    apply reachable_init. do 4 eexists. split_and!; [| |reflexivity]; vm_compute; [done|split; done].
  - vm_compute. reflexivity.
  - split; simpl.
    + exists c. split; [|done]. vm_compute. right. left.
    + intros t'. destruct (decide (t' = t)) as [->|Hne].
      * vm_compute. eexists. split; [left|reflexivity].
      * replace (pools (mark_background t z2).2) with (pools z2) by (vm_compute; reflexivity).
        assert (pools z2 !! t' = None) as ->; [|done].
        replace (pools z2) with ({[ t := {| tp_id := [Byte.x07]; tp_genesis := [Byte.x08];
          tp_pool := fresh_pool ∅ |} ]} : gmap bytes TenantPool) by (vm_compute; reflexivity).
        by apply lookup_singleton_ne.
    + done.
    + by vm_compute.
  - vm_compute. reflexivity.
  - reflexivity.
Qed.

(** ** Slots *)
(** A lookup that is refused still takes a slot.  Asking for the directory
    of a tenant that has no storage is an error, and it leaves the tenant a slot
    all the same; once the slots are all taken that way, a tenant whose pool is
    in the catalog is refused as well. *)
Theorem refused_lookup_takes_slot z t r z' :
  ctl_catalog (content (control z)) !! t = None → tenants z !! t = None →
  Z.of_nat (size (tenants z)) + 1 < max_pools z → existing_tenant_dir t z = (r, z') →
  is_ok r = false ∧ tenants z' = <[t := false]> (tenants z) ∧
  (Z.of_nat (size (tenants z)) + 2 = max_pools z →
   ∀ t2 create, tenants z' !! t2 = None →
     tenant_pool t2 create z' = (Err "no free pool region: all are taken", z')).
Proof.
  intros Hc Ht Hroom H. unfold existing_tenant_dir, tenant_pool in H.
  assert (Hsize : tenants z' = <[t := false]> (tenants z) →
    Z.of_nat (size (tenants z)) + 2 = max_pools z → max_pools z' = max_pools z →
    ∀ t2 create, tenants z' !! t2 = None →
      tenant_pool t2 create z' = (Err "no free pool region: all are taken", z')).
  { intros Hz' Hfull Hmax t2 create Ht2. unfold tenant_pool. unfold_m.
    destruct (decide (is_Some (tenants z' !! t2))) as [[? Hsome]|_]; [congruence|].
    assert (Hs : size (tenants z') = S (size (tenants z))) by (rewrite Hz'; by apply map_size_insert_None).
    destruct (Z.ltb_spec (Z.of_nat (size (tenants z')) + 1) (max_pools z')); [lia|done]. }
  unfold_m. destruct (decide (is_Some (tenants z !! t))) as [[? Hsome]|_]; [congruence|]. simpl in H.
  destruct (Z.ltb_spec (Z.of_nat (size (tenants z)) + 1) (max_pools z)); [|lia]. simpl in H.
  unfold imported in H. simpl in H. rewrite lookup_insert_eq in H. simpl in H.
  destruct (open_or_create_tenant t false _) as [r1 z1] eqn:E.
  unfold open_or_create_tenant in E. inv_bind E.
  - apply read_catalog_inv in Hrun as [(f & ->) Ho]. specialize (Ho _ eq_refl). simpl in Ho.
    rewrite Hc in Ho. subst. unfold fail in E. simplify_eq/=. split_and!; [done..|eauto].
  - apply read_catalog_inv in Hrun as [(f & ->) _]. simplify_eq/=. split_and!; [done..|eauto].
Qed.

(** What an arrival is reported as: anyone's first use after a restart is "new",
    whether or not their directory was already there. *)
Lemma first_arrival_is_new z z' t a z'' :
  restart z z' → tenant_dir t z' = (Ok a, z'') → a = New.
Proof.
  intros [_ _ Ht _] H. unfold tenant_dir in H. inv_bind H. inv_pure. inv_bind H. inv_pure.
  by rewrite Ht, lookup_empty.
Qed.

(** ** What the runtime's components rely on *)
Lemma import_tenant_inv t e z r z' : import_tenant t e z = (r, z') → 
  (∃ f, z' = set_faults f z) ∧ (r = Ok tt → is_Some (pools z !! t)).
Proof.
  unfold import_tenant. intros H.
  inv_bind H; apply tenant_spec_inv in Hrun as [f ->]; [|split; [by eexists|done]].
  inv_bind H; apply io_io_inv in Hrun as [f' ->]; [|split; [by eexists|done]].
  unfold_m. simpl in H. destruct (pools z !! t) as [tp|]; simpl in H; [|by simplify_eq; split; [eexists|]].
  destruct (bool_decide (tp_id tp = ce_pool_id e)); simpl in H; [|by simplify_eq; split; [eexists|]].
  destruct (bool_decide (tp_genesis tp = ce_genesis e)); simplify_eq; (split; [by eexists|]); eauto.
Qed.

(** Without [create], reaching a tenant's pool changes no file and no catalog,
    and succeeds only for a pool that is there. *)
Definition slots_ok (z : Zfs) : Prop := ∀ t, tenants z !! t = Some true → is_Some (pools z !! t).
Lemma tenant_pool_frame t z r z' :
  tenant_pool t false z = (r, z') →
  control z' = control z ∧ pools z' = pools z ∧ max_pools z' = max_pools z ∧
  region_sectors z' = region_sectors z ∧ disk_sectors z' = disk_sectors z ∧
  (slots_ok z → slots_ok z' ∧ (r = Ok tt → imported t z' = true ∧ is_Some (pools z !! t))).
Proof.
  intros H. unfold tenant_pool in H. unfold_m.
  assert (Hrest : ∀ z0, control z0 = control z → pools z0 = pools z → max_pools z0 = max_pools z →
    region_sectors z0 = region_sectors z → disk_sectors z0 = disk_sectors z →
    (slots_ok z → slots_ok z0) → is_Some (tenants z0 !! t) →
    (if imported t z0 then (Ok tt, z0) else
       match open_or_create_tenant t false z0 with
       | (Ok _, s') => (Ok tt, set_tenants (<[t:=true]> (tenants s')) s')
       | (Err e, s') => (Err e, s')
       end) = (r, z') →
    control z' = control z ∧ pools z' = pools z ∧ max_pools z' = max_pools z ∧
    region_sectors z' = region_sectors z ∧ disk_sectors z' = disk_sectors z ∧
    (slots_ok z → slots_ok z' ∧ (r = Ok tt → imported t z' = true ∧ is_Some (pools z !! t)))).
  { intros z0 Hc0 Hp0 Hm0 Hr0 Hd0 Hs0 Ht0 H0. destruct (imported t z0) eqn:Hi.
    - simplify_eq. split_and!; [done..|]. intros Hs%Hs0. split; [done|]. intros _. split; [done|].
      rewrite <-Hp0. apply Hs. unfold imported in Hi. destruct (tenants z' !! t) as [[]|]; done.
    - destruct (open_or_create_tenant t false z0) as [r1 z1] eqn:E.
      unfold open_or_create_tenant in E. inv_bind E;
        apply read_catalog_inv in Hrun as [(f & ->) Ho]; [|simplify_eq/=; split_and!; [done..|];
          intros Hs%Hs0; by split].
      destruct a as [e|]; [|unfold fail in E; simplify_eq/=; split_and!; [done..|]; intros Hs%Hs0; by split].
      apply import_tenant_inv in E as [(f' & ->) Hex].
      destruct r1 as [[]|e1]; simplify_eq/=; (split_and!; [done..|]); intros Hs%Hs0.
      2: { split; [exact Hs|done]. }
      specialize (Hex eq_refl). split.
      + intros t'. simpl. destruct (decide (t = t')) as [<-|Hne]; [by intros _|].
        rewrite lookup_insert_ne by done. apply Hs.
      + intros _. split; [|by rewrite <-Hp0]. unfold imported. simpl. by rewrite lookup_insert_eq. }
  destruct (decide (is_Some (tenants z !! t))) as [Hsome|Hnone].
  - apply (Hrest z); try done. rewrite <-H. simpl. by destruct (imported t z).
  - simpl in H. destruct (_ + 1 <? _); [|simplify_eq/=; split_and!; [done..|]; by intros Hs].
    apply (Hrest (set_tenants (<[t:=false]> (tenants z)) z)); try done.
    + intros Hs t'. simpl. destruct (decide (t = t')) as [<-|Hne]; [by rewrite lookup_insert_eq|].
      rewrite lookup_insert_ne by done. apply Hs.
    + simpl. by rewrite lookup_insert_eq.
    + rewrite <-H. by destruct (imported _ _).
Qed.

(** The same for the directories the clients ask for. *)
Definition same_files (z z' : Zfs) : Prop :=
  control z' = control z ∧ pools z' = pools z ∧ max_pools z' = max_pools z ∧
  region_sectors z' = region_sectors z ∧ disk_sectors z' = disk_sectors z.
Lemma tenant_runtime_dir_frame t z r z' :
  tenant_runtime_dir t z = (r, z') →
  same_files z z' ∧
  (slots_ok z → slots_ok z' ∧ (r = Ok tt → imported t z' = true ∧ is_Some (pools z !! t))).
Proof.
  unfold tenant_runtime_dir. intros H. inv_bind H.
  - apply tenant_pool_frame in Hrun as (?&?&?&?&?&Hs). apply io_io_inv in H as [f ->].
    split; [done|]. intros Hz. destruct (Hs Hz) as [Hz' Hok]. split; [done|]. intros _.
    destruct a. by apply Hok.
  - apply tenant_pool_frame in Hrun as (?&?&?&?&?&Hs). split; [done|].
    intros Hz. destruct (Hs Hz). by split.
Qed.
Lemma file_same z z' p : same_files z z' → file z' p = file z p.
Proof. intros (Hc & Hp & _). destruct p; simpl; by rewrite ?Hc, ?Hp. Qed.
Lemma file_put_file p q o z :
  match p with PControl _ _ => True | PTenant t _ _ => is_Some (pools z !! t) end →
  file (put_file p o z) q = if decide (p = q) then o else file z q.
Proof.
  intros Hp. case_decide as Hpq.
  - subst q. destruct p as [d n|t d n]; simpl; [by rewrite lookup_partial_alter_eq|].
    destruct Hp as [tp Ht]. rewrite lookup_alter_eq, Ht. simpl. by rewrite lookup_partial_alter_eq.
  - destruct p as [d n|t d n], q as [d' n'|t' d' n']; simpl; try done.
    + rewrite lookup_partial_alter_ne; [done|congruence].
    + destruct (decide (t = t')) as [<-|Hne]; [|by rewrite lookup_alter_ne].
      rewrite lookup_alter_eq. destruct (pools z !! t); simpl; [|done].
      rewrite lookup_partial_alter_ne; [done|congruence].
Qed.

(** [frame z z']: no file changed, no pool vanished, the slots stay sound. *)
Record frame (z z' : Zfs) : Prop := {
  frame_file p : file z' p = file z p;
  frame_pool t : is_Some (pools z !! t) → is_Some (pools z' !! t);
  frame_slots : slots_ok z → slots_ok z';
}.
#[export] Instance frame_refl : Reflexive frame.
Proof. by split. Qed.
#[export] Instance frame_trans : Transitive frame.
Proof. intros a b c [H1 H2 H3] [H4 H5 H6]. split; [intros; by rewrite H4|eauto|eauto]. Qed.
Lemma frame_set_faults f z : frame z (set_faults f z).
Proof. by split. Qed.
Lemma frame_set_draws f z : frame z (set_draws f z).
Proof. by split. Qed.
Lemma frame_same z z' : same_files z z' → (slots_ok z → slots_ok z') → frame z z'.
Proof.
  intros Hs Hsl. split; [intros; by apply file_same| |done].
  destruct Hs as (_ & -> & _). done.
Qed.
Lemma frame_io z r z' : io_ io z = (r, z') → frame z z'.
Proof. intros [f ->]%io_io_inv. apply frame_set_faults. Qed.
Lemma frame_draw w z r z' : draw w z = (r, z') → frame z z'.
Proof. intros [f ->]%draw_inv. apply frame_set_draws. Qed.
Lemma frame_tenant_runtime_dir t z r z' : tenant_runtime_dir t z = (r, z') → frame z z'.
Proof. intros [Hs Hsl]%tenant_runtime_dir_frame. apply frame_same; [done|]. intros Hz. by apply Hsl. Qed.
Lemma frame_existing_tenant_dir t z r z' : existing_tenant_dir t z = (r, z') → frame z z'.
Proof.
  intros (?&?&?&?&?&Hsl)%tenant_pool_frame. apply frame_same; [done|]. intros Hz. by apply Hsl.
Qed.
Lemma frame_set_control z p :
  ctl_files (content p) = ctl_files (content (control z)) → frame z (set_control p z).
Proof. intros Hp. split; [|done..]. intros [d n|t d n]; simpl; [by rewrite Hp|done]. Qed.
Lemma frame_anchor_now {C} (p : Pool C) z r z' :
  anchor_now p z = (r, z') →
  (∃ f, z' = set_faults f z) ∧ ∀ p', r = Ok p' → content p' = content p.
Proof.
  intros [Hf Hc]%anchor_now_cases. split; [done|].
  intros p' Hp. by destruct (Hc p' Hp) as [[-> _]|[-> | ->]].
Qed.
Lemma frame_anchor_control z r z' : anchor_control z = (r, z') → frame z z'.
Proof.
  unfold anchor_control. intros H. inv_bind H; [|by inv_pure]. inv_pure.
  inv_bind H; apply frame_anchor_now in Hrun as [(f & ->) Hp]; [|apply frame_set_faults].
  inv_bind H; [|by inv_pure]. inv_pure. unfold anchor_failed in H. apply ensure_inv in H as [-> _].
  apply (frame_trans _ (set_faults f z)); [apply frame_set_faults|].
  apply frame_set_control. by rewrite (Hp _ eq_refl).
Qed.
Lemma frame_set_pool t tp p z :
  pools z !! t = Some tp → content p = content (tp_pool tp) →
  frame z (set_pools (alter (on_tp_pool (λ _, p)) t (pools z)) z).
Proof.
  intros Ht Hp. split.
  - intros [d n|t' d n]; simpl; [done|]. rewrite lookup_alter. case_decide; [subst|done].
    rewrite Ht. simpl. by rewrite Hp.
  - intros t'. simpl. rewrite lookup_alter. case_decide; [subst; rewrite Ht; eauto|done].
  - intros Hs t'. simpl. intros Hi%Hs. rewrite lookup_alter. case_decide; [subst; rewrite Ht; eauto|done].
Qed.
Lemma frame_anchor_pool t z r z' : anchor_pool t z = (r, z') → frame z z'.
Proof.
  unfold anchor_pool. intros H. inv_bind H; [|by inv_pure]. inv_pure.
  destruct (pools z !! t) as [tp|] eqn:Ht; [|by inv_pure].
  inv_bind H; apply frame_anchor_now in Hrun as [(f & ->) Hp]; [|apply frame_set_faults].
  inv_bind H; [|by inv_pure]. inv_pure. unfold anchor_failed in H. apply ensure_inv in H as [-> _].
  apply (frame_trans _ (set_faults f z)); [apply frame_set_faults|].
  apply (frame_set_pool t tp); [done|]. by apply Hp.
Qed.
Lemma frame_anchor_tenant t z r z' : anchor_tenant t z = (r, z') → frame z z'.
Proof.
  unfold anchor_tenant. intros H. inv_bind H; [|by inv_pure]. inv_pure.
  assert (Hf : ∀ r s, (if imported t z then anchor_pool t else mret tt) z = (r, s) → frame z s).
  { intros r0 s0. destruct (imported t z); [apply frame_anchor_pool|by intros [= <- <-]]. }
  inv_bind H; apply Hf in Hrun; [|done]. apply frame_anchor_control in H. by etrans.
Qed.
Lemma frame_write_catalog t e z r z' : write_catalog t e z = (r, z') → frame z z'.
Proof.
  intros [f [[_ ->]|(_ & ->)]]%write_catalog_inv; [apply frame_set_faults|].
  apply (frame_trans _ (set_faults f z)); [apply frame_set_faults|]. by apply frame_set_control.
Qed.
Lemma frame_mark_background t z r z' : mark_background t z = (r, z') → frame z z'.
Proof.
  unfold mark_background. intros H.
  inv_bind H; apply read_catalog_inv in Hrun as [(f & ->) _]; [|apply frame_set_faults].
  apply (frame_trans _ (set_faults f z)); [apply frame_set_faults|].
  inv_bind H; [|by inv_pure]. inv_pure. destruct (ce_background _); [by inv_pure|].
  inv_bind H; apply frame_write_catalog in Hrun; [|done]. apply frame_anchor_control in H. by etrans.
Qed.

(** Writes: only the file named changes. *)
Definition pool_there (z : Zfs) (p : place) : Prop :=
  match p with PControl _ _ => True | PTenant t _ _ => is_Some (pools z !! t) end.
Record writes (ps : list place) (z z' : Zfs) : Prop := {
  writes_file p : p ∉ ps → file z' p = file z p;
  writes_pool t : is_Some (pools z !! t) → is_Some (pools z' !! t);
  writes_slots : slots_ok z → slots_ok z';
}.
Lemma frame_writes ps z z' : frame z z' → writes ps z z'.
Proof. intros [H1 H2 H3]. by split. Qed.
Lemma writes_trans ps z z1 z2 : writes ps z z1 → writes ps z1 z2 → writes ps z z2.
Proof. intros [H1 H2 H3] [H4 H5 H6]. split; [intros; by rewrite H4, H1|eauto|eauto]. Qed.
Lemma put_file_pools p o z t : is_Some (pools z !! t) ↔ is_Some (pools (put_file p o z) !! t).
Proof.
  destruct p as [d n|t' d n]; simpl; [done|]. rewrite lookup_alter. case_decide; [subst|done].
  by rewrite fmap_is_Some.
Qed.
Lemma writes_put_file ps p o z : p ∈ ps → pool_there z p → writes ps z (put_file p o z).
Proof.
  intros Hin Hp. split.
  - intros q Hq. rewrite file_put_file by done. rewrite decide_False; [done|set_solver].
  - intros t. apply put_file_pools.
  - intros Hs t Ht. apply put_file_pools, Hs. by destruct p.
Qed.
Lemma next_outcome_inv z r z' : next_outcome z = (r, z') → is_ok r = true ∧ ∃ f, z' = set_faults f z.
Proof.
  unfold next_outcome. destruct (faults z) eqn:E; intros [= <- <-]; (split; [done|]); eauto.
  exists []. rewrite <-E. by destruct z.
Qed.
Lemma fs_write_inv p b z r z' :
  fs_write p b z = (r, z') → pool_there z p →
  writes [p] z z' ∧ (r = Ok tt → file z' p = Some b) ∧ pool_there z' p.
Proof.
  unfold fs_write. intros H Hp.
  inv_bind H; apply next_outcome_inv in Hrun as [Hok (f & ->)]; [|done].
  destruct a as [| |kept]; [| |inv_bind H]; inv_pure; unfold modify, fail in *; simplify_eq;
    [|split_and!; [apply frame_writes, frame_set_faults|done|by destruct p]|]; units;
    (split_and!; [apply (writes_trans _ _ (set_faults f z));
       [apply frame_writes, frame_set_faults|apply writes_put_file; [set_solver|done]]| |
     destruct p; [done|]; by apply (put_file_pools (PTenant _ _ _))]).
  - intros _. by rewrite file_put_file, decide_True.
  - done.
Qed.
Lemma fs_rename_inv p q z r z' :
  fs_rename p q z = (r, z') → pool_there z p → pool_there z q → p ≠ q →
  writes [p; q] z z' ∧ (r = Ok tt → file z' q = file z p ∧ file z' p = None) ∧
  (is_ok r = false → frame z z').
Proof.
  unfold fs_rename. intros H Hp Hq Hne.
  inv_bind H; apply io_inv in Hrun as [f ->];
    [|split_and!; [by apply frame_writes, frame_set_faults|done|intros _; apply frame_set_faults]].
  inv_bind H; [|by inv_pure]. inv_pure.
  inv_bind H; inv_pure;
    [|split_and!; [by apply frame_writes, frame_set_faults|done|intros _; apply frame_set_faults]].
  match goal with |- context [put_file q (Some ?b)] => rename b into c end.
  assert (Hp' : pool_there (put_file q (Some c) (set_faults f z)) p).
  { destruct p; [done|]. by apply put_file_pools. }
  split_and!; [| |done].
  - apply (writes_trans _ _ (set_faults f z)); [apply frame_writes, frame_set_faults|].
    apply (writes_trans _ _ (put_file q (Some c) (set_faults f z))); apply writes_put_file;
      first [set_solver|done].
  - intros _. rewrite !file_put_file by done.
    rewrite (decide_False (P:=p = q)), !decide_True by done. done.
Qed.
Lemma fs_remove_inv p z r z' :
  fs_remove p z = (r, z') → pool_there z p →
  writes [p] z z' ∧ (r = Ok tt → file z' p = None) ∧ (is_ok r = false → frame z z').
Proof.
  unfold fs_remove. intros H Hp.
  inv_bind H; apply io_inv in Hrun as [f ->];
    [|split_and!; [by apply frame_writes, frame_set_faults|done|intros _; apply frame_set_faults]].
  inv_bind H; [|by inv_pure]. inv_pure.
  inv_bind H; inv_pure;
    [|split_and!; [by apply frame_writes, frame_set_faults|done|intros _; apply frame_set_faults]].
  split_and!; [| |done].
  - apply (writes_trans _ _ (set_faults f z)); [apply frame_writes, frame_set_faults|].
    apply writes_put_file; [set_solver|done].
  - intros _. by rewrite file_put_file, decide_True.
Qed.
#[global] Arguments file : simpl never.
#[global] Arguments put_file : simpl never.
#[global] Arguments pool_there : simpl never.

(** ** What every content of the tenants' pools satisfies, anchored or not *)
Section pools_hold.
Context (P : bytes → files → Prop).
Definition pools_hold (z : Zfs) : Prop := ∀ t tp c,
  pools z !! t = Some tp → c ∈ content (tp_pool tp) :: rollback (tp_pool tp) → P t c.

Lemma pools_hold_ext z z' : pools z' = pools z → pools_hold z → pools_hold z'.
Proof. intros Hp. unfold pools_hold. by rewrite Hp. Qed.
Lemma pools_hold_next_outcome : preserves pools_hold next_outcome.
Proof. intros z Hz. unfold next_outcome. by destruct (faults z). Qed.
Lemma pools_hold_io : preserves pools_hold io.
Proof. unfold io. apply preserves_bind; [apply pools_hold_next_outcome|]. intros []; solve_preserves. Qed.
Lemma pools_hold_draw w : preserves pools_hold (draw w).
Proof. intros z Hz. unfold draw. by destruct (draws z). Qed.
Lemma pools_hold_ensure {E} b (e : E) : preserves pools_hold (ensure b e).
Proof. by intros z. Qed.
Local Hint Resolve pools_hold_next_outcome pools_hold_io preserves_io_ pools_hold_draw
  pools_hold_ensure : preserves.

Lemma pools_hold_anchor_control : preserves pools_hold anchor_control.
Proof.
  unfold anchor_control. apply preserves_get. intros z Hz. unfold_m.
  destruct (anchor_now (control z) z) as [r z1] eqn:E.
  destruct (anchor_now_cases _ _ _ _ E) as [(f & ->) _]. by destruct r.
Qed.
Lemma pools_hold_set_pool t tp p z :
  pools z !! t = Some tp → pools_hold z →
  (∀ c, c ∈ content p :: rollback p → c ∈ content (tp_pool tp) :: rollback (tp_pool tp) ∨ P t c) →
  pools_hold (set_pools (alter (on_tp_pool (λ _, p)) t (pools z)) z).
Proof.
  intros Ht Hz Hp t' tp' c. simpl. destruct (decide (t = t')) as [<-|Hne].
  - rewrite lookup_alter_eq, Ht. intros [= <-] [Hc|Hc]%Hp; [by eapply Hz|done].
  - rewrite lookup_alter_ne by done. apply Hz.
Qed.
Lemma pools_hold_anchor_pool t : preserves pools_hold (anchor_pool t).
Proof.
  unfold anchor_pool. apply preserves_get. intros z Hz.
  destruct (pools z !! t) as [tp|] eqn:Et; [|done].
  unfold_m. destruct (anchor_now (tp_pool tp) z) as [r z1] eqn:E.
  destruct (anchor_now_cases _ _ _ _ E) as [(f & ->) Hcases].
  destruct r as [p|e]; [|done]. simpl. apply (pools_hold_set_pool t tp p (set_faults f z)); [done|exact Hz|].
  intros c Hc. left. destruct (Hcases p eq_refl) as [[-> _]|[-> | ->]]; try done.
  simpl in Hc. set_solver.
Qed.
Lemma pools_hold_anchor_tenant t : preserves pools_hold (anchor_tenant t).
Proof.
  unfold anchor_tenant. apply preserves_get. intros z Hz. by_preserves.
  apply preserves_bind; [destruct (imported t z)|]; eauto using pools_hold_anchor_pool,
    pools_hold_anchor_control with preserves.
Qed.
Lemma pools_hold_tenant_pool t : preserves pools_hold (tenant_pool t false).
Proof.
  intros z Hz. destruct (tenant_pool t false z) as [r z'] eqn:H.
  apply tenant_pool_frame in H as (_ & Hp & _). by eapply pools_hold_ext.
Qed.
Lemma pools_hold_tenant_runtime_dir t : preserves pools_hold (tenant_runtime_dir t).
Proof.
  intros z Hz. destruct (tenant_runtime_dir t z) as [r z'] eqn:H.
  apply tenant_runtime_dir_frame in H as [(_ & Hp & _) _]. by eapply pools_hold_ext.
Qed.
Lemma pools_hold_mark_background t : preserves pools_hold (mark_background t).
Proof.
  intros z Hz. destruct (mark_background t z) as [r z'] eqn:H. simpl. unfold mark_background in H.
  inv_bind H; apply read_catalog_inv in Hrun as [(f & ->) _]; [|done].
  inv_bind H; [|by inv_pure]. inv_pure. destruct (ce_background _); [by inv_pure|].
  match type of H with (write_catalog t ?e ≫= _) ?z0 = _ =>
    assert (Hw : ∀ r1 z1, write_catalog t e z0 = (r1, z1) → pools_hold z1) end.
  { by intros r1 z1 [f' [[_ ->]|(_ & ->)]]%write_catalog_inv. }
  inv_bind H; apply Hw in Hrun; [|done].
  exact (preserves_ok _ _ _ _ _ pools_hold_anchor_control Hrun H).
Qed.

Lemma pools_hold_put_file t d n o z :
  pools_hold z → (∀ c, P t c → P t (partial_alter (λ _, o) (d, n) c)) →
  pools_hold (put_file (PTenant t d n) o z).
Proof.
  intros Hz Ho t' tp' c. unfold put_file. simpl. destruct (decide (t = t')) as [<-|Hne].
  - rewrite lookup_alter_eq. intros (tp & Ht & ->)%fmap_Some. simpl.
    intros [->|[->|Hc]%elem_of_cons]%elem_of_cons.
    1,2: apply Ho, (Hz t tp); [done|set_solver].
    apply (Hz t tp); [done|set_solver].
  - rewrite lookup_alter_ne by done. apply Hz.
Qed.
Lemma pools_hold_fs_write t d n b :
  (∀ o c, P t c → P t (partial_alter (λ _, o) (d, n) c)) →
  preserves pools_hold (fs_write (PTenant t d n) b).
Proof.
  intros Ho. unfold fs_write. apply preserves_bind; [apply pools_hold_next_outcome|].
  intros []; solve_preserves; apply preserves_modify; intros; apply pools_hold_put_file; eauto.
Qed.
Lemma pools_hold_fs_remove t d n :
  (∀ c, P t c → P t (partial_alter (λ _, None) (d, n) c)) →
  preserves pools_hold (fs_remove (PTenant t d n)).
Proof.
  intros Ho. unfold fs_remove. solve_preserves. apply preserves_modify.
  intros. apply pools_hold_put_file; eauto.
Qed.
Lemma pools_hold_fs_rename t d n n' z r z' :
  fs_rename (PTenant t d n) (PTenant t d n') z = (r, z') → pools_hold z →
  (∀ b c, file z (PTenant t d n) = Some b → P t c →
    P t (partial_alter (λ _, Some b) (d, n') c)) →
  (∀ c, P t c → P t (partial_alter (λ _, None) (d, n) c)) →
  pools_hold z'.
Proof.
  unfold fs_rename. intros H Hz Hput Hdel.
  inv_bind H; apply io_inv in Hrun as [f ->]; [|exact Hz].
  inv_bind H; [|by inv_pure]. inv_pure. inv_bind H; inv_pure; [|exact Hz].
  apply pools_hold_put_file; [|done]. apply pools_hold_put_file; [exact Hz|]. intros c. by apply Hput.
Qed.
Lemma pools_hold_restart z z' : restart z z' → pools_hold z → pools_hold z'.
Proof.
  intros [_ Hp _ _] Hz t tp c Ht Hc. specialize (Hp t).
  destruct (pools z !! t) as [tp0|] eqn:Ht0; [|congruence].
  destruct Hp as (c0 & Hin & Hp). rewrite Hp in Ht. simplify_eq/=.
  apply (Hz t tp0); [done|]. set_solver.
Qed.
End pools_hold.

(** ** A pool once there stays there *)
Section has_pool.
Context (t : bytes).
Definition has_pool (z : Zfs) : Prop := is_Some (pools z !! t).
Lemma has_pool_next_outcome : preserves has_pool next_outcome.
Proof. intros z Hz. unfold next_outcome. by destruct (faults z). Qed.
Lemma has_pool_io : preserves has_pool io.
Proof. unfold io. apply preserves_bind; [apply has_pool_next_outcome|]. intros []; solve_preserves. Qed.
Lemma has_pool_tenant_runtime_dir t' : preserves has_pool (tenant_runtime_dir t').
Proof.
  intros z Hz. destruct (tenant_runtime_dir t' z) as [r z'] eqn:E.
  by eapply frame_pool, Hz; eapply frame_tenant_runtime_dir.
Qed.
Lemma has_pool_put_file p o : preserves has_pool (modify (put_file p o) : M Zfs io_error ()).
Proof. apply preserves_modify. intros z Hz. by apply put_file_pools. Qed.
Lemma has_pool_ensure {E} b (e : E) : preserves has_pool (ensure b e).
Proof. by intros z. Qed.
Local Hint Resolve has_pool_next_outcome has_pool_io has_pool_put_file has_pool_ensure : preserves.
Lemma has_pool_fs_write p b : preserves has_pool (fs_write p b).
Proof. unfold fs_write. solve_preserves. Qed.
Lemma has_pool_fs_remove p : preserves has_pool (fs_remove p).
Proof. unfold fs_remove. solve_preserves. Qed.
Lemma has_pool_fs_read p : preserves has_pool (fs_read p).
Proof. unfold fs_read. solve_preserves. Qed.
Lemma has_pool_fs_rename p q : preserves has_pool (fs_rename p q).
Proof.
  unfold fs_rename. solve_preserves. apply preserves_modify. intros z Hz. by do 2 apply put_file_pools.
Qed.
End has_pool.
#[export] Hint Resolve has_pool_io has_pool_tenant_runtime_dir has_pool_fs_write has_pool_fs_remove
  has_pool_fs_read has_pool_fs_rename preserves_io_ : preserves.

(** ** Reaching a tenant's pool, made if it is not there *)
(** The condition: a tenant whose entry the catalog lost (a crash between the
    pool's anchor 0 and the catalog's own) has its pool made anew. *)
Lemma free_region_same z r z' : free_region z = (r, z') → ∃ f, z' = set_faults f z.
Proof.
  unfold free_region, catalog. intros H. inv_bind H; inv_bind Hrun; apply io_io_inv in Hrun0 as [f ->];
    inv_pure; [|by eexists]. inv_bind H; inv_pure; by eexists.
Qed.
Lemma create_tenant_frame t z r z' :
  create_tenant t z = (r, z') → pools z !! t = None →
  frame z z' ∧ (r = Ok tt → is_Some (pools z' !! t)) ∧
  ∀ P : bytes → files → Prop, P t ∅ → pools_hold P z → pools_hold P z'.
Proof.
  unfold create_tenant. intros H Hnone.
  inv_bind H; [|apply free_region_same in Hrun as [f ->]; by split].
  apply free_region_inv in Hrun as ((f & ->) & _).
  inv_bind H; apply draw_inv in Hrun as [d ->]; [|by split].
  inv_bind H; apply tenant_spec_inv in Hrun as [f1 ->]; [|by split].
  inv_bind H; apply io_io_inv in Hrun as [f2 ->]; [|by split].
  inv_bind H; apply draw_inv in Hrun as [d2 ->]; [|by split].
  inv_bind H; inv_pure. set (z1 := set_pools _ _) in H.
  assert (frame z z1 ∧ ∀ P : bytes → files → Prop, P t ∅ → pools_hold P z → pools_hold P z1) as [Hf Hp].
  { split; [split|].
    - intros [dr n|t' dr n]; unfold file; simpl; [done|].
      destruct (decide (t = t')) as [<-|Hne]; [by rewrite Hnone, lookup_insert_eq|by rewrite lookup_insert_ne].
    - intros t' Ht'. simpl. rewrite lookup_insert. case_decide; [by eexists|done].
    - intros Hs t' Ht'. simpl. rewrite lookup_insert. case_decide; [by eexists|by apply Hs].
    - intros P HP Hz t' tp c. simpl. intros [[<- <-]|[_ Ht]]%lookup_insert_Some; [|by apply Hz].
      simpl. intros Hc. replace c with (∅ : files); [done|]. set_solver. }
  inv_bind H; pose proof (frame_write_catalog _ _ _ _ _ Hrun) as Hf1;
    apply write_catalog_inv in Hrun as [f' Hz]; destruct Hz as [[Hr ->]|(Hr & ->)]; try done.
  - pose proof (frame_anchor_control _ _ _ H) as Hf2. split_and!; [exact (frame_trans _ _ _ Hf (frame_trans _ _ _ Hf1 Hf2))| |].
    { intros _. apply (frame_pool _ _ Hf2), (frame_pool _ _ Hf1). simpl. rewrite lookup_insert_eq. by eexists. }
    intros P HP Hz.
    eapply preserves_ok; [apply pools_hold_anchor_control| |exact H].
    exact (pools_hold_ext P z1 _ eq_refl (Hp P HP Hz)).
  - split_and!; [by etrans|done|]. intros P HP Hz. exact (pools_hold_ext P z1 _ eq_refl (Hp P HP Hz)).
Qed.

Lemma open_or_create_frame t z r z' :
  open_or_create_tenant t true z = (r, z') →
  (ctl_catalog (content (control z)) !! t = None → pools z !! t = None) →
  frame z z' ∧ (r = Ok tt → is_Some (pools z' !! t)) ∧
  ∀ P : bytes → files → Prop, P t ∅ → pools_hold P z → pools_hold P z'.
Proof.
  unfold open_or_create_tenant. intros H Hcat.
  inv_bind H; apply read_catalog_inv in Hrun as [(f & ->) Ho]; [|by split_and!].
  specialize (Ho _ eq_refl). destruct a as [e|].
  - apply import_tenant_inv in H as [(f' & ->) Hok]. by split_and!.
  - symmetry in Ho. destruct (create_tenant_frame _ _ _ _ H (Hcat Ho)) as (Hf & Hok & Hp).
    split_and!; [|done|done]. by apply (frame_trans _ (set_faults f z)).
Qed.
Lemma tenant_dir_frame t z r z' :
  tenant_dir t z = (r, z') → (ctl_catalog (content (control z)) !! t = None → pools z !! t = None) →
  frame z z' ∧ ∀ P : bytes → files → Prop, P t ∅ → pools_hold P z → pools_hold P z'.
Proof.
  intros H Hcat. assert (∃ r, tenant_pool t true z = (r, z')) as [r0 H0].
  { unfold tenant_dir in H. inv_bind H; [|by inv_pure]. inv_pure. inv_bind H; [inv_pure|]; by eexists. }
  clear H. unfold tenant_pool in H0. inv_bind H0; [|by inv_pure]. inv_pure.
  assert (Hslot : ∀ b z1, (b = true → is_Some (pools z1 !! t)) →
    frame z1 (set_tenants (<[t := b]> (tenants z1)) z1)).
  { intros b z1 Hb. split; [done|done|]. intros Hs t'. simpl.
    intros [[<- ->]|[_ ?]]%lookup_insert_Some; auto. }
  assert (∃ z1, frame z z1 ∧ pools z1 = pools z ∧ control z1 = control z ∧
    (z' = z1 ∨ ∃ r1 z2, open_or_create_tenant t true z1 = (r1, z2) ∧
      z' = match r1 with Ok _ => set_tenants (<[t := true]> (tenants z2)) z2 | Err _ => z2 end))
    as (z1 & Hf1 & Hp1 & Hc1 & Hz').
  { assert (∃ z1, frame z z1 ∧ pools z1 = pools z ∧ control z1 = control z ∧
      (z' = z1 ∨ (z ← get; if imported t z then mret tt else
        _ ← open_or_create_tenant t true; modify (λ z, set_tenants (<[t := true]> (tenants z)) z)) z1 = (r0, z')))
      as (z1 & Hf1 & Hp1 & Hc1 & H1).
    { destruct (decide (is_Some (tenants z !! t))); [exists z; split_and!; [done..|right; exact H0]|].
      destruct (_ + 1 <? _); [|injection H0 as _ <-; exists z; by split_and!; [..|left]].
      exists (set_tenants (<[t:=false]> (tenants z)) z). split_and!; [by apply Hslot|done..|].
      right. exact H0. }
    exists z1. split_and!; [done..|]. destruct H1 as [?|H1]; [by left|].
    inv_bind H1; [|by inv_pure]. inv_pure. destruct (imported t z1); [left; by inv_pure|].
    right. inv_bind H1; inv_pure; by eauto. }
  destruct Hz' as [->|(r1 & z2 & Hop & ->)].
  - split; [done|]. intros P _. by apply pools_hold_ext.
  - destruct (open_or_create_frame _ _ _ _ Hop) as (Hf2 & Hok & Hp2); [by rewrite Hp1, Hc1|].
    assert (frame z z2 ∧ ∀ P : bytes → files → Prop, P t ∅ → pools_hold P z → pools_hold P z2) as [Hf Hp].
    { split; [by etrans|]. intros P HP Hz. apply Hp2; [done|]. by eapply pools_hold_ext. }
    destruct r1 as [[]|e]; [|done]. split; [|exact Hp].
    etrans; [exact Hf|]. apply Hslot. intros _. by apply Hok.
Qed.

(** ** Particular restarts: the disk as it is, or one tenant's pool rolled back *)
Definition tp_restart (tp : TenantPool) : TenantPool :=
  {| tp_id := tp_id tp; tp_genesis := tp_genesis tp; tp_pool := pool_restart (content (tp_pool tp)) |}.
Definition crash (z : Zfs) : Zfs :=
  {| control := pool_restart (content (control z)); pools := tp_restart <$> pools z; tenants := ∅;
     region_sectors := region_sectors z; disk_sectors := disk_sectors z; max_pools := max_pools z;
     faults := []; draws := [] |}.
Definition crash_rolled_back (t : bytes) (c : files) (z : Zfs) : Zfs :=
  set_pools (alter (on_tp_pool (λ _, pool_restart c)) t (pools (crash z))) (crash z).
Lemma pool_wf_content {C} (p : Pool C) : pool_wf p → content p ∈ rollback p.
Proof. unfold pool_wf. destruct (rollback p); [done|]. intros [= ->]. by left. Qed.
Lemma restart_crash z : zfs_wf z → restart z (crash z).
Proof.
  intros [_ Hc Hp]. split; simpl; [|intros t|done|done].
  - eexists. split; [by apply pool_wf_content|done].
  - rewrite lookup_fmap. destruct (pools z !! t) as [tp|] eqn:Ht; [|done].
    eexists. split; [by eapply pool_wf_content, Hp|done].
Qed.
Lemma restart_crash_rolled_back z t tp c :
  zfs_wf z → pools z !! t = Some tp → c ∈ rollback (tp_pool tp) → restart z (crash_rolled_back t c z).
Proof.
  intros Hwf Ht Hc. destruct (restart_crash _ Hwf) as [H1 H2 H3 H4]. split; [done| |done|done].
  intros t'. specialize (H2 t'). unfold crash_rolled_back. cbn [pools set_pools].
  destruct (decide (t = t')) as [<-|Hne]; [|by rewrite lookup_alter_ne].
  rewrite Ht in *. destruct H2 as (c' & _ & H2). exists c. split; [done|].
  rewrite lookup_alter_eq, H2. done.
Qed.
Lemma imported_put_file t p o : preserves (λ z, imported t z = true) (modify (put_file p o) : M Zfs io_error ()).
Proof. apply preserves_modify. intros z Hz. by destruct p. Qed.
Lemma imported_next_outcome t : preserves (λ z, imported t z = true) next_outcome.
Proof. intros z Hz. unfold next_outcome. by destruct (faults z). Qed.
Lemma imported_fs_write t p b : preserves (λ z, imported t z = true) (fs_write p b).
Proof.
  unfold fs_write. apply preserves_bind; [apply imported_next_outcome|]. intros [].
  - apply imported_put_file.
  - by intros ?.
  - apply preserves_bind; [apply imported_put_file|]. by intros _ ?.
Qed.
Lemma imported_fs_rename t p q : preserves (λ z, imported t z = true) (fs_rename p q).
Proof.
  unfold fs_rename, io. apply preserves_bind; [apply preserves_bind|intros _].
  - apply imported_next_outcome.
  - by intros [] z Hz.
  - apply preserves_get. intros z Hz. unfold_m. destruct (file z p); [|done].
    by destruct p, q.
Qed.
