(* ===== verification/Credentials.v ===== *)
(** * Registered passkeys: [auth/credential.rs]

    One file per credential under [credentials/] on the control pool, and a
    cache in memory.  [Passkey] is webauthn-rs's; ciborium is the codec
    parameter of [StoredCredential].  A [lookup] that misses the cache is two
    steps, the read and the insertion, because the cache is not locked across
    the read; [FilesystemCredentials] composes them.

    [CredentialStore] is the interface the gate is written against
    ([auth/gate.rs: trait CredentialStore]); its laws are what the gate's
    theorems use, and the last section discharges them. *)
From S2P Require Import Prelude Storage.

Definition CREDENTIALS_DIR : string := "credentials".
Definition MAX_RECORD_BYTES : Z := 8 * 1024.
Definition RECORD_VERSION : Z := 2.

(** One registered passkey, and the tenant it speaks for. *)
Record CredentialRecord {Passkey : Type} := {
  cr_tenant_id : bytes; cr_passkey : Passkey; cr_active : bool; cr_counter : Z }.
Arguments CredentialRecord : clear implicits.
(** A credential as it is stored. *)
Record StoredCredential {Passkey : Type} := {
  sc_version : Z; sc_passkey : Passkey; sc_active : bool; sc_created_ms : Z; sc_counter : Z }.
Arguments StoredCredential : clear implicits.

(** The tenant a credential speaks for. *)
Definition tenant_of `{Sha256} (credential_id : bytes) : bytes :=
  take 16 (sha256 (str_bytes "enclave/tenant/v1" ++ credential_id)).

(** Where registered credentials live, as the gate sees it. *)
Class CredentialStore (Passkey S : Type) := {
  store_lookup : bytes → M S string (option (CredentialRecord Passkey));
  store_record_use : bytes → Z → M S string () }.
(** What an implementation promises of the states it reaches: a credential speaks
    for the tenant its id names. *)
Class CredentialStoreLaws (Passkey S : Type) `{Sha256, !CredentialStore Passkey S} := {
  store_ok : S → Prop;
  store_ok_lookup id : preserves store_ok (store_lookup id);
  store_ok_record_use id n : preserves store_ok (store_record_use id n);
  lookup_tenant id s r s' :
    store_ok s → store_lookup id s = (Ok (Some r), s') → cr_tenant_id r = tenant_of id }.

Record FilesystemCredentials {Passkey : Type} := {
  fc_zfs : Zfs; fc_cache : gmap bytes (CredentialRecord Passkey) }.
Arguments FilesystemCredentials : clear implicits.

Section credentials.
Context {Passkey : Type} `{Sha256} `{Codec (StoredCredential Passkey)}.
Implicit Types (s : FilesystemCredentials Passkey) (id : bytes).

Definition credentials_new (z : Zfs) : FilesystemCredentials Passkey := {| fc_zfs := z; fc_cache := ∅ |}.
Definition set_fc_zfs (z : Zfs) s : FilesystemCredentials Passkey := {| fc_zfs := z; fc_cache := fc_cache s |}.
Definition set_fc_cache (f : gmap bytes (CredentialRecord Passkey) → gmap bytes (CredentialRecord Passkey)) s :
    FilesystemCredentials Passkey := {| fc_zfs := fc_zfs s; fc_cache := f (fc_cache s) |}.
Definition on_storage {E A} (m : M Zfs E A) : M (FilesystemCredentials Passkey) E A := zoom fc_zfs set_fc_zfs m.

(** [path]: the directory is made if it is not there. *)
Definition credential_place id : place := PControl CREDENTIALS_DIR (hex_encode id).
Definition credential_path id : M (FilesystemCredentials Passkey) string place :=
  _ ← on_storage runtime_dir; mret (credential_place id).
Definition encode_record (r : StoredCredential Passkey) : result string bytes :=
  _ ← check (len (to_vec r) <=? MAX_RECORD_BYTES) "credential record is over the limit";
  Ok (to_vec r).

Definition record_of id (c : StoredCredential Passkey) : CredentialRecord Passkey :=
  {| cr_tenant_id := tenant_of id; cr_passkey := sc_passkey c; cr_active := sc_active c;
     cr_counter := sc_counter c |}.

Definition register id (record : StoredCredential Passkey) : M (FilesystemCredentials Passkey) string () :=
  p ← credential_path id;
  b ← lift (encode_record record);
  _ ← on_storage (io_ (fs_create_new p));
  _ ← on_storage (io_ (fs_write_all p b));
  _ ← on_storage anchor_control;
  modify (set_fc_cache <[id := record_of id record]>).

Definition read id : M (FilesystemCredentials Passkey) string (option (StoredCredential Passkey)) :=
  p ← credential_path id;
  r ← attempt (on_storage (fs_read p));
  match r with
  | Err NotFound => mret None
  | Err e => fail (io_error_display e)
  | Ok b =>
      _ ← ensure (len b <=? MAX_RECORD_BYTES) "credential record is over the limit";
      stored ← unwrap (from_slice b) "decoding a credential record";
      _ ← ensure (sc_version stored =? RECORD_VERSION) "credential record is from another version";
      mret (Some stored)
  end.

Definition revoke id : M (FilesystemCredentials Passkey) string () :=
  o ← read id;
  stored ← unwrap o "no such credential";
  let stored := {| sc_version := sc_version stored; sc_passkey := sc_passkey stored; sc_active := false;
                   sc_created_ms := sc_created_ms stored; sc_counter := sc_counter stored |} in
  p ← credential_path id;
  b ← lift (encode_record stored);
  _ ← on_storage (io_ (fs_write p b));
  _ ← on_storage anchor_control;
  modify (set_fc_cache (alter (λ r, {| cr_tenant_id := cr_tenant_id r; cr_passkey := cr_passkey r;
                                       cr_active := false; cr_counter := cr_counter r |}) id)).

(** [lookup] in its two steps. *)
Definition lookup_hit id : M (FilesystemCredentials Passkey) string (option (CredentialRecord Passkey)) :=
  gets (λ s, fc_cache s !! id).
Definition lookup_fill id (stored : option (StoredCredential Passkey)) :
    M (FilesystemCredentials Passkey) string (option (CredentialRecord Passkey)) :=
  match stored with
  | None => mret None
  | Some stored =>
      _ ← modify (set_fc_cache <[id := record_of id stored]>); mret (Some (record_of id stored))
  end.
Definition fs_lookup id : M (FilesystemCredentials Passkey) string (option (CredentialRecord Passkey)) :=
  hit ← lookup_hit id;
  match hit with
  | Some r => mret (Some r)
  | None => stored ← read id; lookup_fill id stored
  end.

Definition fs_record_use id (counter : Z) : M (FilesystemCredentials Passkey) string () :=
  modify (set_fc_cache (alter (λ r, {| cr_tenant_id := cr_tenant_id r; cr_passkey := cr_passkey r;
    cr_active := cr_active r; cr_counter := Z.max (cr_counter r) counter |}) id)).

#[export] Instance filesystem_credentials : CredentialStore Passkey (FilesystemCredentials Passkey) :=
  {| store_lookup := fs_lookup; store_record_use := fs_record_use |}.
End credentials.
