(* ===== verification/CredentialsFacts.v ===== *)
(** * Credentials: the laws of the store, and what outlives a restart

    [credential_kept] is the invariant both properties use: the file of one
    credential id is, in every content a restart can find, a prefix of a record
    of a given kind, and so is what is cached of it. *)
From S2P Require Import Prelude Storage Credentials.

(** ** What every content of the control pool's files satisfies *)
Section control_hold.
Context (P : files → Prop).
Definition control_hold (z : Zfs) : Prop :=
  ∀ c, c ∈ content (control z) :: rollback (control z) → P (ctl_files c).

Lemma control_hold_ext z z' : control z' = control z → control_hold z → control_hold z'.
Proof. intros Hc. unfold control_hold. by rewrite Hc. Qed.
Lemma control_hold_next_outcome : preserves control_hold next_outcome.
Proof. intros z Hz. unfold next_outcome. by destruct (faults z). Qed.
Lemma control_hold_io : preserves control_hold io.
Proof. unfold io. apply preserves_bind; [apply control_hold_next_outcome|]. intros []; solve_preserves. Qed.
Lemma control_hold_draw w : preserves control_hold (draw w).
Proof. intros z Hz. unfold draw. by destruct (draws z). Qed.
Lemma control_hold_ensure {E} b (e : E) : preserves control_hold (ensure b e).
Proof. by intros z. Qed.
Local Hint Resolve control_hold_next_outcome control_hold_io preserves_io_ control_hold_draw
  control_hold_ensure : preserves.

Lemma control_hold_anchor_now {C} (p : Pool C) : preserves control_hold (anchor_now p).
Proof.
  intros z Hz. destruct (anchor_now p z) as [r z1] eqn:E.
  by destruct (anchor_now_cases _ _ _ _ E) as [(f & ->) _].
Qed.
Lemma control_hold_anchor_control : preserves control_hold anchor_control.
Proof.
  unfold anchor_control. apply preserves_get. intros z Hz. unfold_m.
  destruct (anchor_now (control z) z) as [r z1] eqn:E.
  destruct (anchor_now_cases _ _ _ _ E) as [(f & ->) Hp]. destruct r as [p|e]; [|done].
  intros c Hc. apply Hz. destruct (Hp _ eq_refl) as [[-> _]|[-> | ->]]; simpl in Hc; set_solver.
Qed.
Lemma control_hold_anchor_pool t : preserves control_hold (anchor_pool t).
Proof.
  unfold anchor_pool. apply preserves_get. intros z Hz.
  destruct (pools z !! t) as [tp|] eqn:Et; [|done].
  unfold_m. destruct (anchor_now (tp_pool tp) z) as [r z1] eqn:E.
  destruct (anchor_now_cases _ _ _ _ E) as [(f & ->) _]. by destruct r.
Qed.
Local Hint Resolve control_hold_anchor_control control_hold_anchor_pool : preserves.
Lemma control_hold_anchor_tenant t : preserves control_hold (anchor_tenant t).
Proof.
  unfold anchor_tenant. apply preserves_get. intros z Hz. by_preserves.
  apply preserves_bind; [destruct (imported t z)|]; eauto with preserves.
Qed.

(** The catalog is a directory of its own. *)
Lemma control_hold_write_catalog t e : preserves control_hold (write_catalog t e).
Proof.
  unfold write_catalog. solve_preserves. apply preserves_modify. intros z Hz c Hc.
  simpl in Hc. apply elem_of_cons in Hc as [->|[->|Hc]%elem_of_cons]; simpl; apply Hz; set_solver.
Qed.
Local Hint Resolve control_hold_write_catalog : preserves.
Lemma control_hold_catalog : preserves control_hold catalog.
Proof. unfold catalog. solve_preserves. Qed.
Local Hint Resolve control_hold_catalog : preserves.
Lemma control_hold_read_catalog t : preserves control_hold (read_catalog t).
Proof. unfold read_catalog. solve_preserves. Qed.
Lemma control_hold_free_region : preserves control_hold free_region.
Proof. unfold free_region. apply preserves_bind; [auto with preserves|]. intros es. by intros z Hz. Qed.
Lemma control_hold_tenant_spec r : preserves control_hold (tenant_spec r).
Proof.
  unfold tenant_spec. apply preserves_get. intros z Hz. by_preserves.
  apply preserves_bind; [by intros ?|]. intros; auto with preserves.
Qed.
Local Hint Resolve control_hold_read_catalog control_hold_free_region control_hold_tenant_spec : preserves.
Lemma control_hold_create_tenant t : preserves control_hold (create_tenant t).
Proof.
  unfold create_tenant. solve_preserves. by apply preserves_modify.
Qed.
Lemma control_hold_import_tenant t e : preserves control_hold (import_tenant t e).
Proof.
  unfold import_tenant. do 2 (apply preserves_bind; [auto with preserves|intros _]).
  apply preserves_get. intros z Hz. by_preserves. apply preserves_bind; [by intros ?|].
  intros. solve_preserves.
Qed.
Local Hint Resolve control_hold_create_tenant control_hold_import_tenant : preserves.
Lemma control_hold_tenant_pool t b : preserves control_hold (tenant_pool t b).
Proof.
  unfold tenant_pool. apply preserves_get. intros z Hz. by_preserves. apply preserves_bind.
  - case_decide; [auto with preserves|]. solve_preserves. by apply preserves_modify.
  - intros _. apply preserves_get. intros z' Hz'. by_preserves.
    destruct (imported t z'); [auto with preserves|].
    apply preserves_bind; [|intros _; by apply preserves_modify].
    unfold open_or_create_tenant. solve_preserves.
Qed.
Local Hint Resolve control_hold_tenant_pool : preserves.
Lemma control_hold_tenant_dir t : preserves control_hold (tenant_dir t).
Proof. unfold tenant_dir. apply preserves_get. intros z Hz. by_preserves. solve_preserves. Qed.
Lemma control_hold_tenant_runtime_dir t : preserves control_hold (tenant_runtime_dir t).
Proof. unfold tenant_runtime_dir. solve_preserves. Qed.
Lemma control_hold_mark_background t : preserves control_hold (mark_background t).
Proof. unfold mark_background. solve_preserves. Qed.

(** File operations keep [P] when the change they make does. *)
Definition place_keeps (p : place) : Prop :=
  match p with
  | PControl d n => ∀ o c, P c → P (partial_alter (λ _, o) (d, n) c)
  | PTenant _ _ _ => True
  end.
Definition put_keeps (p : place) (o : option bytes) : Prop :=
  match p with
  | PControl d n => ∀ c, P c → P (partial_alter (λ _, o) (d, n) c)
  | PTenant _ _ _ => True
  end.
Lemma place_put_keeps p o : place_keeps p → put_keeps p o.
Proof. destruct p; simpl; auto. Qed.
Lemma control_hold_put_file p o z : put_keeps p o → control_hold z → control_hold (put_file p o z).
Proof.
  destruct p as [d n|t d n]; intros Hp Hz; [|exact Hz]. intros c. unfold put_file. simpl.
  intros [->|[->|Hc]%elem_of_cons]%elem_of_cons; simpl; [apply Hp, Hz; set_solver..|apply Hz; set_solver].
Qed.
Lemma control_hold_modify_file {E} p o : put_keeps p o → preserves control_hold (modify (put_file p o) : M Zfs E ()).
Proof. intros Hp. apply preserves_modify. intros z. by apply control_hold_put_file. Qed.
Lemma control_hold_fs_write p b :
  (∀ n, put_keeps p (Some (take n b))) → preserves control_hold (fs_write p b).
Proof.
  intros Hp. unfold fs_write. apply preserves_bind; [auto with preserves|]. intros [| |n].
  - specialize (Hp (length b)). rewrite firstn_all in Hp. by apply control_hold_modify_file.
  - auto with preserves.
  - apply preserves_bind; [by apply control_hold_modify_file|auto with preserves].
Qed.
Lemma control_hold_fs_read p : preserves control_hold (fs_read p).
Proof. unfold fs_read. solve_preserves. Qed.
Lemma control_hold_fs_remove p : place_keeps p → preserves control_hold (fs_remove p).
Proof.
  intros Hp. unfold fs_remove. solve_preserves. by apply control_hold_modify_file, place_put_keeps.
Qed.
Lemma control_hold_fs_create_new p : place_keeps p → preserves control_hold (fs_create_new p).
Proof.
  intros Hp. unfold fs_create_new. solve_preserves. by apply control_hold_modify_file, place_put_keeps.
Qed.
Lemma control_hold_fs_rename p q : place_keeps p → place_keeps q → preserves control_hold (fs_rename p q).
Proof.
  intros Hp Hq. unfold fs_rename. solve_preserves. apply preserves_modify. intros z Hz.
  by do 2 (apply control_hold_put_file; [by apply place_put_keeps|]).
Qed.

Lemma control_hold_restart z z' : restart z z' → control_hold z → control_hold z'.
Proof.
  intros [(c & Hin & Hc) _ _ _] Hz c'. rewrite Hc. simpl. intros Hc'. apply Hz. set_solver.
Qed.
(** The calls of the rest of the runtime, on files that [P] does not look at. *)
Definition zop_places (o : zop) : list place :=
  match o with
  | OWrite p _ | ORemove p | OCreateNew p => [p]
  | ORename p q => [p; q]
  | _ => []
  end.
Lemma control_hold_run_zop o z :
  Forall place_keeps (zop_places o) → control_hold z → control_hold (run_zop o z).
Proof.
  intros Ho Hz. destruct o; simpl in *; decompose_Forall; by_preserves;
    eauto using control_hold_tenant_dir, control_hold_tenant_pool, control_hold_tenant_runtime_dir,
      control_hold_mark_background, control_hold_anchor_tenant, control_hold_anchor_control,
      control_hold_fs_write, place_put_keeps, control_hold_fs_rename, control_hold_fs_remove,
      control_hold_fs_create_new.
Qed.
End control_hold.
