(* ===== verification/CredentialsProps.v ===== *)
(** * Credentials: the store's contract, single registration, final revocation

    [cred_step] is everything that can happen to the store between two calls:
    its own calls, the rest of the runtime's storage calls, and restarts. *)
From S2P Require Import Prelude Storage Credentials CredentialsFacts.

Section props.
Context {Passkey : Type} `{Sha256} `{Codec (StoredCredential Passkey)}.
Implicit Types (s : FilesystemCredentials Passkey) (id : bytes) (r : StoredCredential Passkey).

(** ** Everything that happens to the store *)
Definition outside_credentials (p : place) : Prop :=
  match p with PControl d _ => d ≠ CREDENTIALS_DIR | PTenant _ _ _ => True end.
Inductive cred_step : FilesystemCredentials Passkey → FilesystemCredentials Passkey → Prop :=
  | cred_register s id r : cred_step s (register id r s).2
  | cred_revoke s id : cred_step s (revoke id s).2
  | cred_lookup s id : cred_step s (store_lookup id s).2
  | cred_use s id n : cred_step s (store_record_use id n s).2
  | cred_storage s o : Forall outside_credentials (zop_places o) →
      cred_step s (set_fc_zfs (run_zop o (fc_zfs s)) s)
  | cred_restart s z : restart (fc_zfs s) z → cred_step s (credentials_new z).

(** A property of handlers' storage lifted to the store. *)
Lemma on_storage_keeps {E A} (I : Zfs → Prop) (m : M Zfs E A) :
  preserves I m → preserves (λ s, I (fc_zfs s)) (on_storage m).
Proof.
  intros Hm s Hs. unfold on_storage, zoom. specialize (Hm _ Hs). by destruct (m (fc_zfs s)).
Qed.
Lemma on_storage_inv {E A} (m : M Zfs E A) s x s' :
  on_storage m s = (x, s') → ∃ z, m (fc_zfs s) = (x, z) ∧ s' = set_fc_zfs z s.
Proof. apply zoom_inv. Qed.

(** ** What a read finds *)
Lemma fs_read_inv p z x z' : fs_read p z = (x, z') →
  ∃ f, z' = set_faults f z ∧ (x = Err OtherIo ∨ x = ok_or (file z p) NotFound).
Proof.
  unfold fs_read, io, next_outcome, unwrap, lift. unfold_m. intros E.
  assert (∀ f, file (set_faults f z) p = file z p) as Hf by by destruct p.
  destruct (faults z) as [|[] fs] eqn:Ef; simpl in E; rewrite ?Hf in E; simplify_eq/=; eauto.
  exists []. split; [|auto]. rewrite <-Ef. by match goal with |- ?u = _ => destruct u end.
Qed.
Lemma read_inv id s x s' : read id s = (Ok x, s') →
  ∃ f, s' = set_fc_zfs (set_faults f (fc_zfs s)) s ∧
  match file (fc_zfs s) (credential_place id), x with
  | None, None => True
  | Some b, Some r => from_slice b = Some r ∧ sc_version r = RECORD_VERSION
  | _, _ => False
  end.
Proof.
  unfold read, credential_path. intros Hr. inv_bind Hr. inv_bind Hrun.
  apply on_storage_inv in Hrun0 as (z1 & [f1 ->]%io_io_inv & ->). inv_pure. inv_bind Hr.
  unfold attempt in Hrun. destruct (on_storage (fs_read _) _) as [rd s2] eqn:E. simplify_eq.
  apply on_storage_inv in E as (z2 & (f2 & -> & Hcases)%fs_read_inv & ->). simpl in *.
  change (file (set_faults f1 (fc_zfs s)) (credential_place id))
    with (file (fc_zfs s) (credential_place id)) in Hcases.
  destruct Hcases as [->| ->]; [by inv_pure|].
  destruct (file (fc_zfs s) (credential_place id)) as [b|]; simpl in Hr; [|inv_pure; by eexists].
  do 3 (inv_bind Hr; inv_pure). exists f2. split; [done|]. split; [done|]. by apply Z.eqb_eq.
Qed.

(** ** One credential's file and cache entry *)
Definition standing (c : CredentialRecord Passkey) : Passkey * bool := (cr_passkey c, cr_active c).
Definition inactive r : StoredCredential Passkey :=
  {| sc_version := sc_version r; sc_passkey := sc_passkey r; sc_active := false;
     sc_created_ms := sc_created_ms r; sc_counter := sc_counter r |}.

Section kept.
Context (Φ : StoredCredential Passkey → Prop) (id : bytes).
Definition kept_files (fs : files) : Prop := ∃ b r,
  fs !! (CREDENTIALS_DIR, hex_encode id) = Some b ∧ Φ r ∧ b `prefix_of` to_vec r.
Definition kept_cached (c : CredentialRecord Passkey) : Prop :=
  ∃ r, Φ r ∧ standing c = standing (record_of id r).
Definition credential_kept s : Prop :=
  control_hold kept_files (fc_zfs s) ∧ ∀ c, fc_cache s !! id = Some c → kept_cached c.

Context `{!CodecPrefix (StoredCredential Passkey)} (Φ_inactive : ∀ r, Φ r → Φ (inactive r)).

Lemma kept_file s : credential_kept s →
  ∃ b r, file (fc_zfs s) (credential_place id) = Some b ∧ Φ r ∧ b `prefix_of` to_vec r.
Proof. intros [Hf _]. apply (Hf (content (control (fc_zfs s)))). set_solver. Qed.
Lemma kept_set_zfs z s : control_hold kept_files z → credential_kept s → credential_kept (set_fc_zfs z s).
Proof. intros Hz [_ Hc]. by split. Qed.
Lemma kept_on_storage {E A} (m : M Zfs E A) :
  preserves (control_hold kept_files) m → preserves credential_kept (on_storage m).
Proof.
  intros Hm s [Hz Hc]. unfold on_storage, zoom. specialize (Hm _ Hz). by destruct (m (fc_zfs s)).
Qed.
(** Writing another credential's file, or a record of the kind to this one's. *)
Lemma kept_put_other id' o : id' ≠ id → put_keeps kept_files (credential_place id') o.
Proof.
  intros Hne fs (b & r & Hb & Hr). exists b, r. rewrite lookup_partial_alter_ne; [done|].
  intros [= Heq]. by apply (inj hex_encode) in Heq.
Qed.
Lemma kept_put_same r b : Φ r → b `prefix_of` to_vec r → put_keeps kept_files (credential_place id) (Some b).
Proof. intros Hr Hb fs _. exists b, r. by rewrite lookup_partial_alter_eq. Qed.
Lemma kept_place_other id' : id' ≠ id → place_keeps kept_files (credential_place id').
Proof. intros Hne o. by apply kept_put_other. Qed.
Lemma kept_place_outside p : outside_credentials p → place_keeps kept_files p.
Proof.
  destruct p as [d n|]; [|done]. intros Hd o fs (b & r & Hb & Hr). exists b, r.
  rewrite lookup_partial_alter_ne; [done|]. by intros [= ->].
Qed.

Lemma kept_runtime_dir : preserves credential_kept (on_storage runtime_dir : M _ string ()).
Proof. apply kept_on_storage, preserves_io_, control_hold_io. Qed.
Lemma kept_path id' : preserves credential_kept (credential_path id').
Proof. apply preserves_bind; [apply kept_runtime_dir|]. by intros _ ?. Qed.
Lemma kept_path_bind {A} id' (f : place → M _ string A) :
  preserves credential_kept (f (credential_place id')) → preserves credential_kept (credential_path id' ≫= f).
Proof.
  intros Hf s Hs. pose proof (kept_runtime_dir s Hs) as Hr. unfold credential_path, mbind, M_bind.
  destruct (on_storage runtime_dir s) as [[[]|e] s1]; [by apply Hf|done].
Qed.
Lemma kept_ensure {E} b (e : E) : preserves credential_kept (ensure b e).
Proof. by intros ?. Qed.
Lemma kept_anchor : preserves credential_kept (on_storage anchor_control).
Proof. apply kept_on_storage, control_hold_anchor_control. Qed.
Lemma kept_read id' : preserves credential_kept (read id').
Proof.
  unfold read. apply preserves_bind; [apply kept_path|]. intros p.
  apply preserves_bind; [apply preserves_attempt, kept_on_storage, control_hold_fs_read|].
  intros [b|[]]; solve_preserves; apply kept_ensure.
Qed.

(** ** The steps keep it *)
Lemma kept_modify_cache f : (∀ s, credential_kept s → credential_kept (set_fc_cache f s)) →
  preserves credential_kept (modify (set_fc_cache f) : M _ string ()).
Proof. intros Hf. by apply preserves_modify. Qed.
Lemma kept_alter id' (f : CredentialRecord Passkey → CredentialRecord Passkey) s :
  (∀ c, kept_cached c → kept_cached (f c)) → credential_kept s → credential_kept (set_fc_cache (alter f id') s).
Proof.
  intros Hf [Hz Hc]. split; [done|]. intros c. simpl. rewrite lookup_alter.
  case_decide; subst; [intros (c0 & Hc0 & ->)%fmap_Some; auto|auto].
Qed.
Lemma kept_insert id' c s :
  (id' = id → kept_cached c) → credential_kept s → credential_kept (set_fc_cache <[id' := c]> s).
Proof.
  intros Hf [Hz Hc]. split; [done|]. intros c'. cbn [fc_cache set_fc_cache].
  rewrite lookup_insert.
  case_decide; subst; [intros [= <-]; auto|auto].
Qed.

Lemma kept_read_found s r s' : credential_kept s → read id s = (Ok (Some r), s') → Φ r.
Proof.
  intros Hs Hr. destruct (kept_file s Hs) as (b & r0 & Hb & HΦ & Hp).
  apply read_inv in Hr as (f & _ & Hr). rewrite Hb in Hr. destruct Hr as [Hr _].
  by rewrite (from_prefix _ _ _ Hp Hr).
Qed.
Lemma kept_read_some s x s' : credential_kept s → read id s = (Ok x, s') → is_Some x.
Proof.
  intros Hs Hr. destruct (kept_file s Hs) as (b & r0 & Hb & _).
  apply read_inv in Hr as (f & _ & Hr). rewrite Hb in Hr. by destruct x.
Qed.

Lemma kept_create_new_other id' : id' ≠ id → preserves credential_kept (on_storage (io_ (fs_create_new (credential_place id')))).
Proof.
  intros Hne. apply kept_on_storage, preserves_io_, control_hold_fs_create_new. by apply kept_place_other.
Qed.
Lemma kept_write id' b : (id' = id → ∃ r, Φ r ∧ b = to_vec r) →
  preserves credential_kept (on_storage (io_ (fs_write (credential_place id') b))).
Proof.
  intros Hb. apply kept_on_storage, preserves_io_, control_hold_fs_write. intros n.
  destruct (decide (id' = id)) as [->|Hne]; [|by apply kept_put_other].
  destruct (Hb eq_refl) as (r & Hr & ->). apply (kept_put_same r); [done|]. apply prefix_take.
Qed.
Lemma encode_record_Ok r b : encode_record r = Ok b → b = to_vec r.
Proof. unfold encode_record, check. unfold_m. case_match; naive_solver. Qed.

(** An id that is taken is never created again. *)
Lemma kept_create_refused s x s' : credential_kept s →
  on_storage (io_ (fs_create_new (credential_place id))) s = (x, s') → is_ok x = false ∧ credential_kept s'.
Proof.
  intros Hs E. destruct (kept_file s Hs) as (b & r & Hb & _). apply on_storage_inv in E as (z & E & ->).
  unfold io_, with_context, fs_create_new in E.
  destruct ((io ≫= _) (fc_zfs s)) as [y z'] eqn:E'. simplify_eq.
  inv_bind E'; apply io_inv in Hrun as [f ->]; [|split; [done|by apply kept_set_zfs; destruct Hs]].
  inv_bind E'; [|by inv_pure]. inv_pure. inv_bind E'; inv_pure.
  - rewrite bool_decide_eq_true in Heqb0. change (file (fc_zfs s) (credential_place id) = None) in Heqb0.
    congruence.
  - split; [done|]. by apply kept_set_zfs; destruct Hs.
Qed.
Lemma kept_register_refused r s x s' : credential_kept s →
  register id r s = (x, s') → is_ok x = false ∧ credential_kept s'.
Proof.
  intros Hs E. unfold register in E.
  pose proof (kept_path id _ Hs) as Hp. unfold credential_path in *. inv_bind E; rewrite Hrun in Hp; [|done].
  inv_bind Hrun; inv_pure. inv_bind E; inv_pure; [|done].
  inv_bind E; by destruct (kept_create_refused _ _ _ Hp Hrun).
Qed.
Lemma kept_register id' r : preserves credential_kept (register id' r).
Proof.
  destruct (decide (id' = id)) as [->|Hne].
  - intros s Hs. destruct (register id r s) as [x s'] eqn:E. by destruct (kept_register_refused _ _ _ _ Hs E).
  - unfold register. apply kept_path_bind. apply preserves_bind; [apply preserves_lift|]. intros b.
    apply preserves_bind; [by apply kept_create_new_other|intros _].
    apply preserves_bind; [by apply kept_write|intros _].
    apply preserves_bind; [apply kept_anchor|intros _].
    apply kept_modify_cache. intros s Hs. by apply kept_insert.
Qed.
Lemma kept_revoke_rest id' r : (id' = id → Φ r) → preserves credential_kept
  (p ← credential_path id'; b ← lift (encode_record (inactive r));
   _ ← on_storage (io_ (fs_write p b)); _ ← on_storage anchor_control;
   modify (set_fc_cache (alter (λ c, {| cr_tenant_id := cr_tenant_id c; cr_passkey := cr_passkey c;
                                        cr_active := false; cr_counter := cr_counter c |}) id'))).
Proof.
  intros Hr. apply kept_path_bind, preserves_lift_bind. intros b Hb%encode_record_Ok.
  apply preserves_bind; [apply kept_write; eauto|intros _].
  apply preserves_bind; [apply kept_anchor|intros _]. apply kept_modify_cache. intros s. apply kept_alter.
  intros c (r0 & Hr0 & [= Hp Ha]). exists (inactive r0). split; [auto|].
  unfold standing. simpl. congruence.
Qed.
Lemma kept_revoke id' : preserves credential_kept (revoke id').
Proof.
  intros s Hs. destruct (revoke id' s) as [x s'] eqn:E. simpl. unfold revoke in E.
  inv_bind E; pose proof (preserves_ok _ _ _ _ _ (kept_read id') Hs Hrun) as Hs0; [|done].
  destruct a as [r|]; [|by inv_bind E; inv_pure]. erewrite mbind_ok in E; [|done].
  refine (preserves_ok _ _ _ _ _ (kept_revoke_rest id' r _) Hs0 E). intros ->. exact (kept_read_found _ _ _ Hs Hrun).
Qed.
Lemma kept_lookup id' : preserves credential_kept (fs_lookup id').
Proof.
  intros s Hs. destruct (fs_lookup id' s) as [x s'] eqn:E. simpl. unfold fs_lookup, lookup_hit in E.
  inv_bind E; inv_pure. destruct (fc_cache s !! id'); [by inv_pure|].
  inv_bind E; pose proof (preserves_ok _ _ _ _ _ (kept_read id') Hs Hrun) as Hs0; [|done].
  destruct a as [r|]; simpl in E; [|by inv_pure]. inv_bind E; inv_pure. apply kept_insert; [|done].
  intros ->. exists r. split; [exact (kept_read_found _ _ _ Hs Hrun)|done].
Qed.
Lemma kept_record_use id' n : preserves credential_kept (fs_record_use id' n).
Proof.
  apply kept_modify_cache. intros s. apply kept_alter. intros c (r0 & Hr0 & Hst). by exists r0.
Qed.
Lemma kept_step s s' : cred_step s s' → credential_kept s → credential_kept s'.
Proof.
  intros Hstep. destruct Hstep as [s id' r|s id'|s id'|s id' n|s o Ho|s z Hz]; simpl; intros Hs.
  - by apply kept_register.
  - by apply kept_revoke.
  - by apply kept_lookup.
  - by apply kept_record_use.
  - destruct Hs as [Hf Hc]. split; [|done]. apply control_hold_run_zop; [|done].
    eapply Forall_impl; [exact Ho|]. apply kept_place_outside.
  - split; [by eapply control_hold_restart; [done|apply Hs]|]. intros c. simpl. by rewrite lookup_empty.
Qed.
Lemma kept_steps s s' : rtc cred_step s s' → credential_kept s → credential_kept s'.
Proof. induction 1; eauto using kept_step. Qed.
Lemma kept_lookup_found s c s' : credential_kept s → fs_lookup id s = (Ok (Some c), s') → kept_cached c.
Proof.
  intros Hs E. destruct (fc_cache s !! id) as [c0|] eqn:Ec; unfold fs_lookup, lookup_hit in E;
    inv_bind E; inv_pure; rewrite Ec in E; [inv_pure; by apply Hs|].
  inv_bind E. destruct a as [r|]; simpl in E; [|by inv_pure]. inv_bind E; inv_pure.
  exists r. split; [exact (kept_read_found _ _ _ Hs Hrun)|done].
Qed.
Lemma kept_lookup_some s x s' : credential_kept s → fs_lookup id s = (Ok x, s') → is_Some x.
Proof.
  intros Hs E. unfold fs_lookup, lookup_hit in E. inv_bind E; inv_pure.
  destruct (fc_cache s !! id); [by inv_pure|]. inv_bind E.
  destruct (kept_read_some _ _ _ Hs Hrun) as [r ->]. simpl in E. inv_bind E; by inv_pure.
Qed.
End kept.

(** ** What the two writes establish *)
Lemma anchored_kept (Φ : StoredCredential Passkey → Prop) id r z z' :
  storage_ok z → anchor_control z = (Ok tt, z') → file z (credential_place id) = Some (to_vec r) → Φ r →
  control_hold (kept_files Φ id) z'.
Proof.
  intros [[_ Hwf _] _] Ha Hf Hr c. destruct (anchor_control_Ok _ _ Hwf Ha) as (-> & _). simpl.
  intros [-> | ->%list_elem_of_singleton]%elem_of_cons; by exists (to_vec r), r.
Qed.
Lemma path_inv id s x s' : credential_path id s = (Ok x, s') →
  x = credential_place id ∧ ∃ f, s' = set_fc_zfs (set_faults f (fc_zfs s)) s.
Proof.
  unfold credential_path. intros E. inv_bind E.
  apply on_storage_inv in Hrun as (z & [f ->]%io_io_inv & ->). inv_pure. split; [done|by eexists].
Qed.
Lemma io__Ok {A} (m : M Zfs io_error A) z x z' : io_ m z = (Ok x, z') → m z = (Ok x, z').
Proof. unfold io_, with_context. destruct (m z) as [[a|e] z1]; by intros [= -> ->]. Qed.
Lemma storage_ok_faults f z : storage_ok z → storage_ok (set_faults f z).
Proof. intros Hz. by eapply storage_ok_ext, Hz. Qed.
(** Writing a control file and anchoring it. *)
Lemma write_anchor_kept (Φ : StoredCredential Passkey → Prop) id r s u1 s1 u2 s2 :
  storage_ok (fc_zfs s) → Φ r →
  on_storage (io_ (fs_write (credential_place id) (to_vec r))) s = (Ok u1, s1) →
  on_storage anchor_control s1 = (Ok u2, s2) →
  control_hold (kept_files Φ id) (fc_zfs s2) ∧ fc_cache s2 = fc_cache s.
Proof.
  intros Hs Hr (z1 & Hw%io__Ok & ->)%on_storage_inv (z2 & Ha & ->)%on_storage_inv. simpl in *. units.
  split; [|done]. eapply anchored_kept; [|exact Ha| |exact Hr].
  - exact (preserves_ok _ _ _ _ _ (storage_ok_fs_write _ _) Hs Hw).
  - destruct (fs_write_inv _ _ _ _ _ Hw I) as (_ & Hf & _). by apply Hf.
Qed.
Lemma revoke_establishes id s s' : storage_ok (fc_zfs s) → revoke id s = (Ok tt, s') →
  credential_kept (λ r, sc_active r = false) id s'.
Proof.
  intros Hs E. unfold revoke in E. inv_bind E. apply read_inv in Hrun as (f & -> & _).
  destruct a as [r|]; [|by inv_bind E; inv_pure]. erewrite mbind_ok in E; [|done].
  inv_bind E. apply path_inv in Hrun as (-> & f' & ->). inv_bind E.
  apply lift_inv in Hrun as [->%encode_record_Ok ->]. do 2 inv_bind E. inv_pure.
  edestruct (write_anchor_kept (λ r', sc_active r' = false) id (inactive r)) as [Hf Hc];
    [|done|exact Hrun|exact Hrun0|]; [by do 2 apply storage_ok_faults|].
  split; [exact Hf|]. intros c. simpl. rewrite lookup_alter_eq. intros (c0 & _ & ->)%fmap_Some.
  exists {| sc_version := 0; sc_passkey := cr_passkey c0; sc_active := false; sc_created_ms := 0;
            sc_counter := 0 |}. done.
Qed.
Lemma storage_ok_create_new p z x z' : storage_ok z → io_ (fs_create_new p) z = (x, z') → storage_ok z'.
Proof. apply preserves_ok, preserves_io_, storage_ok_fs_create_new. Qed.
Lemma register_establishes id r s s' : storage_ok (fc_zfs s) → register id r s = (Ok tt, s') →
  credential_kept (λ r', sc_passkey r' = sc_passkey r) id s'.
Proof.
  intros Hs E. unfold register in E.
  inv_bind E. apply path_inv in Hrun as (-> & f' & ->). inv_bind E.
  apply lift_inv in Hrun as [->%encode_record_Ok ->]. inv_bind E.
  apply on_storage_inv in Hrun as (z1 & Hc%storage_ok_create_new & ->); [|by apply storage_ok_faults].
  do 2 inv_bind E. inv_pure.
  edestruct (write_anchor_kept (λ r', sc_passkey r' = sc_passkey r) id r) as [Hf Hca];
    [|done|exact Hrun|exact Hrun0|]; [done|].
  split; [exact Hf|]. intros c. simpl. rewrite lookup_insert_eq. intros [= <-]. by exists r.
Qed.

(** C14: one passkey per credential id, for good.  Once a registration has
    succeeded, whatever the store, the rest of the runtime and restarts do
    next, registering the id again fails and every lookup that answers finds
    the passkey that was registered. *)
Theorem register_once `{!CodecPrefix (StoredCredential Passkey)} id r s s1 s2 :
  storage_ok (fc_zfs s) → register id r s = (Ok tt, s1) → rtc cred_step s1 s2 →
  (∀ r' x s3, register id r' s2 = (x, s3) → is_ok x = false) ∧
  (∀ x s3, store_lookup id s2 = (Ok x, s3) → (cr_passkey <$> x) = Some (sc_passkey r)).
Proof.
  intros Hs Hr Hsteps. apply register_establishes in Hr; [|done].
  eapply kept_steps in Hr; [|done..]. split.
  - intros r' x s3 H3. by edestruct kept_register_refused as [Hx _]; [..|exact Hr|exact H3|].
  - intros x s3 H3. assert (is_Some x) as [c ->] by (eapply kept_lookup_some; [..|exact Hr|exact H3]; done).
    edestruct kept_lookup_found as (r0 & Heq & [= Hp _]); [..|exact Hr|exact H3|]; try done; simpl; congruence.
Qed.

(** C15: a revocation is final.  Once [revoke] has succeeded, whatever the
    store's calls, the rest of the runtime and restarts do next, a lookup of
    the credential never finds it active, and it is never forgotten. *)
Theorem revocation_is_final `{!CodecPrefix (StoredCredential Passkey)} id s s1 s2 x s3 :
  storage_ok (fc_zfs s) → revoke id s = (Ok tt, s1) → rtc cred_step s1 s2 →
  store_lookup id s2 = (Ok x, s3) → (cr_active <$> x) = Some false.
Proof.
  intros Hs Hr Hsteps H3. apply revoke_establishes in Hr; [|done].
  eapply kept_steps in Hr; [|done..].
  assert (is_Some x) as [c ->] by (eapply kept_lookup_some; [..|exact Hr|exact H3]; done).
  edestruct kept_lookup_found as (r0 & Heq & [= _ Ha]); [..|exact Hr|exact H3|]; try done; simpl; congruence.
Qed.

(** What the second half of a lookup leaves for the next ones. *)
Lemma fill_then_lookup id stored s x s' : lookup_fill id (Some stored) s = (x, s') →
  store_lookup id s' = (Ok (Some (record_of id stored)), s').
Proof.
  intros Hf. simpl in Hf. unfold_m. simplify_eq. simpl. unfold fs_lookup, lookup_hit. unfold_m. simpl.
  by rewrite lookup_insert_eq.
Qed.

(** ** The contract of the interface *)
Definition cache_ok s : Prop := ∀ id c, fc_cache s !! id = Some c → cr_tenant_id c = tenant_of id.
Lemma on_storage_cache {E A} f (m : M Zfs E A) : preserves (λ s, fc_cache s = f) (on_storage m).
Proof. intros s Hs. unfold on_storage, zoom. by destruct (m (fc_zfs s)). Qed.
Lemma ensure_cache {E} f b (e : E) : preserves (λ s, fc_cache s = f) (ensure b e).
Proof. by intros ?. Qed.
Lemma read_cache id s x s' : read id s = (x, s') → fc_cache s' = fc_cache s.
Proof.
  intros E. refine (preserves_ok (λ s', fc_cache s' = fc_cache s) (read id) _ _ _ _ eq_refl E).
  unfold read, credential_path. pose proof (@on_storage_cache). pose proof (@ensure_cache).
  solve_preserves; auto with preserves.
Qed.
Lemma cache_ok_lookup id : preserves cache_ok (fs_lookup id).
Proof.
  intros s Hs. destruct (fs_lookup id s) as [x s'] eqn:E. simpl. unfold fs_lookup, lookup_hit in E.
  inv_bind E; inv_pure. destruct (fc_cache s !! id); [by inv_pure|].
  inv_bind E; apply read_cache in Hrun; [|unfold cache_ok; by rewrite Hrun].
  destruct a as [r|]; simpl in E; [|inv_pure; unfold cache_ok; by rewrite Hrun].
  inv_bind E; inv_pure. intros id' c. simpl. rewrite Hrun, lookup_insert.
  case_decide; subst; [by intros [= <-]|apply Hs].
Qed.
Lemma cache_ok_record_use id n : preserves cache_ok (fs_record_use id n).
Proof.
  intros s Hs id' c. simpl. rewrite lookup_alter.
  case_decide; subst; [intros (c0 & Hc0 & ->)%fmap_Some; by apply (Hs _ c0)|apply Hs].
Qed.
Lemma fs_lookup_cases id s c s' : fs_lookup id s = (Ok (Some c), s') →
  fc_cache s !! id = Some c ∨ ∃ r, c = record_of id r.
Proof.
  unfold fs_lookup, lookup_hit. intros E. inv_bind E; inv_pure.
  destruct (fc_cache s !! id) as [c0|]; [inv_pure; by left|]. inv_bind E.
  destruct a as [r|]; simpl in E; [|by inv_pure]. inv_bind E; inv_pure. right. by exists r.
Qed.
#[export] Instance filesystem_credentials_laws :
  CredentialStoreLaws Passkey (FilesystemCredentials Passkey).
Proof.
  refine {| store_ok := cache_ok |}.
  - apply cache_ok_lookup.
  - apply cache_ok_record_use.
  - intros id s c s' Hs [Hc|[r ->]]%fs_lookup_cases; [by apply Hs|done].
Defined.
End props.

(** ** Credentials: the properties at a concrete store, and a race

    Passkeys are numbers, the codec is the self-delimiting one. *)
From S2P Require Import Concrete.

Module CredentialsWitness.
#[local] Instance sha : Sha256 := Concrete.sha.
Definition tuple_of (r : StoredCredential Z) := (sc_version r, sc_passkey r, sc_active r, sc_created_ms r, sc_counter r).
#[local] Instance stored_eq_dec : EqDecision (StoredCredential Z).
Proof. solve_decision. Defined.
#[local] Program Instance stored_countable : Countable (StoredCredential Z) :=
  inj_countable' tuple_of (λ '(v, p, a, c, n), {| sc_version := v; sc_passkey := p; sc_active := a;
    sc_created_ms := c; sc_counter := n |}) _.
Next Obligation. by intros []. Qed.
#[local] Instance codec : Codec (StoredCredential Z) := Concrete.framed _.
#[local] Instance codec_prefix : CodecPrefix (StoredCredential Z) := Concrete.framed_prefix _.

Definition id1 : bytes := [Byte.x11; Byte.x22].
Definition record1 (key : Z) : StoredCredential Z :=
  {| sc_version := RECORD_VERSION; sc_passkey := key; sc_active := true; sc_created_ms := 0; sc_counter := 0 |}.
Definition s0 : FilesystemCredentials Z := credentials_new (genesis 10 100 [] []).
Definition s1 : FilesystemCredentials Z := (register id1 (record1 7) s0).2.
Definition restarted (s : FilesystemCredentials Z) : FilesystemCredentials Z := credentials_new (crash (fc_zfs s)).

Lemma disk_ok0 : storage_ok (fc_zfs s0).
Proof. apply storage_ok_init. do 4 eexists. split_and!; [| |reflexivity]; vm_compute; [done|by split]. Qed.
Lemma register1 : register id1 (record1 7) s0 = (Ok tt, s1).
Proof. unfold s1. apply Concrete.run_split. vm_compute. reflexivity. Qed.
(** The calls keep the storage in order. *)
Lemma storage_ok_register id r : preserves (λ s, storage_ok (fc_zfs s)) (register id r : M (FilesystemCredentials Z) _ _).
Proof.
  unfold register, credential_path. solve_preserves;
    first [by apply preserves_modify|apply (on_storage_keeps storage_ok)];
    eauto using preserves_io_, storage_ok_fs_create_new, storage_ok_fs_write with preserves.
Qed.
Lemma disk_ok1 : storage_ok (fc_zfs s1).
Proof. exact (preserves_ok _ _ _ _ _ (storage_ok_register _ _) disk_ok0 register1). Qed.
Lemma restart1 : rtc cred_step s1 (restarted s1).
Proof. apply rtc_once, cred_restart, restart_crash, disk_ok1. Qed.

Lemma register_once_witness :
  is_ok (register id1 (record1 8) (restarted s1)).1 = false ∧
  ((store_lookup id1 (restarted s1)).1 = Ok (Some (record_of id1 (record1 7)))).
Proof.
  destruct (register_once id1 (record1 7) s0 s1 (restarted s1) disk_ok0 register1 restart1) as [H1 _].
  split; [exact (H1 _ _ _ (surjective_pairing _))|vm_compute; reflexivity].
Defined.

Definition s2 : FilesystemCredentials Z := (revoke id1 s1).2.
Lemma revoke1 : revoke id1 s1 = (Ok tt, s2).
Proof. unfold s2. apply Concrete.run_split. vm_compute. reflexivity. Qed.
Definition found : option (CredentialRecord Z) := default None (to_option (store_lookup id1 s2).1).
Lemma lookup2 : store_lookup id1 s2 = (Ok found, (store_lookup id1 s2).2).
Proof. apply Concrete.run_split. vm_compute. reflexivity. Qed.
Lemma revocation_is_final_witness : (cr_active <$> found) = Some false.
Proof. exact (revocation_is_final id1 s1 s2 s2 _ _ disk_ok1 revoke1 (rtc_refl _ _) lookup2). Defined.

(** The overlap: the lookup's read, the revocation, the lookup's insertion. *)
Definition before : FilesystemCredentials Z := restarted s1.
Definition after_read : FilesystemCredentials Z := (read id1 before).2.
Definition after_revoke : FilesystemCredentials Z := (revoke id1 after_read).2.
Definition after_fill : FilesystemCredentials Z := (lookup_fill id1 (Some (record1 7)) after_revoke).2.
Lemma race_read : read id1 before = (Ok (Some (record1 7)), after_read).
Proof. unfold after_read. apply Concrete.run_split. vm_compute. reflexivity. Qed.
Lemma race_revoke : revoke id1 after_read = (Ok tt, after_revoke).
Proof. unfold after_revoke. apply Concrete.run_split. vm_compute. reflexivity. Qed.

(** A lookup that overlaps a revocation undoes it until the next restart.
    The cache is not locked while a lookup reads the file: when it missed the
    cache and read before the revocation, and inserts what it read after the
    revocation returned [Ok], every later lookup finds the credential active
    although its file says it is revoked. *)
Theorem lookup_race_unrevokes :
  ∃ (s sr sv sf : FilesystemCredentials Z) id stored,
    lookup_hit id s = (Ok None, s) ∧ read id s = (Ok (Some stored), sr) ∧  (* the lookup's first half *)
    revoke id sr = (Ok tt, sv) ∧
    (lookup_fill id (Some stored) sv).2 = sf ∧                             (* and its second *)
    (read id sf).1 = Ok (Some (inactive stored)) ∧
    store_lookup id sf = (Ok (Some (record_of id stored)), sf) ∧ sc_active stored = true.
Proof.
  exists before, after_read, after_revoke, after_fill, id1, (record1 7). split_and!.
  - vm_compute. reflexivity.
  - exact race_read.
  - exact race_revoke.
  - reflexivity.
  - vm_compute. reflexivity.
  - eapply fill_then_lookup. unfold after_fill. apply surjective_pairing.
  - reflexivity.
Qed.
End CredentialsWitness.
