(* ===== verification/Text.v ===== *)
(** * Text: what several components use of [str] and of base64

    Strings are their UTF-8 bytes; [valid_utf8] is the check of
    [std::str::from_utf8]; base64's coders are parameters. *)
From S2P Require Import Prelude.

(** URL-safe without padding, and the decoder of the standard alphabet. *)
Class Base64 := { b64 : bytes → string; b64_decode : string → option bytes }.
Class Base64Standard := base64_decode : string → option bytes.

(** ** UTF-8 *)
Definition cont (lo hi : Z) (c : Ascii.ascii) : bool := is_between lo hi c.
Fixpoint valid_utf8 (s : string) : bool :=
  match s with
  | "" => true
  | String c s =>
      let n := char_code c in
      if n <? 128 then valid_utf8 s
      else if n <? 194 then false
      else if n <? 224 then
        match s with String a s => cont 128 191 a && valid_utf8 s | _ => false end
      else if n <? 240 then
        match s with
        | String a (String b s) =>
            cont (if n =? 224 then 160 else 128) (if n =? 237 then 159 else 191) a && cont 128 191 b && valid_utf8 s
        | _ => false end
      else if n <? 245 then
        match s with
        | String a (String b (String d s)) =>
            cont (if n =? 240 then 144 else 128) (if n =? 244 then 143 else 191) a && cont 128 191 b &&
            cont 128 191 d && valid_utf8 s
        | _ => false end
      else false
  end.

Lemma valid_utf8_app a b : valid_utf8 a = true → valid_utf8 b = true → valid_utf8 (a +:+ b) = true.
Proof.
  intros Ha Hb. remember (String.length a) as n eqn:Hn. revert a Hn Ha.
  induction n as [n IH] using lt_wf_ind. intros a Hn Ha. destruct a as [|c a]; [exact Hb|].
  assert (∀ s, (String.length s < n)%nat → valid_utf8 s = true → valid_utf8 (s +:+ b) = true) as IH2.
  { intros s Hs. by apply (IH _ Hs). }
  cbn [String.length] in Hn. cbn [valid_utf8] in Ha.
  change (String c a +:+ b) with (String c (a +:+ b)). cbn [valid_utf8].
  destruct (char_code c <? 128); [apply IH2; [lia|done]|].
  destruct (char_code c <? 194); [done|].
  destruct (char_code c <? 224); [|destruct (char_code c <? 240); [|destruct (char_code c <? 245); [|done]]].
  - destruct a as [|x a]; [done|]. apply andb_true_iff in Ha as [Hx Ha]. cbn [String.length] in Hn.
    change (String x a +:+ b) with (String x (a +:+ b)). cbn iota. rewrite Hx. cbn [andb]. apply IH2; [lia|done].
  - destruct a as [|x [|y a]]; [done..|]. apply andb_true_iff in Ha as [Hx Ha]. cbn [String.length] in Hn.
    change (String x (String y a) +:+ b) with (String x (String y (a +:+ b))). cbn iota. rewrite Hx. cbn [andb]. apply IH2; [lia|done].
  - destruct a as [|x [|y [|w a]]]; [done..|]. apply andb_true_iff in Ha as [Hx Ha]. cbn [String.length] in Hn.
    change (String x (String y (String w a)) +:+ b) with (String x (String y (String w (a +:+ b)))). cbn iota. rewrite Hx. cbn [andb].
    apply IH2; [lia|done].
Qed.

(** ** Lines *)
Definition CR : Ascii.ascii := Ascii.ascii_of_N 13.
Definition LF : Ascii.ascii := Ascii.ascii_of_N 10.
(** [str::lines] of text that holds no carriage return. *)
Fixpoint split_lines (line : string) (s : string) : list string :=
  match s with
  | "" => if decide (line = "") then [] else [line]
  | String c s => if decide (c = LF) then line :: split_lines "" s else split_lines (line +:+ String c "") s
  end.
Definition lines (s : string) : list string := split_lines "" s.
(** [str::lines] of any text: a line feed ends a line, with the carriage return
    before it. *)
Definition drop_cr (s : string) : string := default s (strip_suffix (String CR "") s).
Fixpoint split_text (line s : string) : list string :=
  match s with
  | "" => if decide (line = "") then [] else [line]
  | String c s => if decide (c = LF) then drop_cr line :: split_text "" s else split_text (line +:+ String c "") s
  end.
Definition str_lines (s : string) : list string := split_text "" s.
(** [str::split] at a character. *)
Fixpoint split_on (d : Ascii.ascii) (s : string) : list string :=
  match s with
  | EmptyString => [""]
  | String c s =>
      if decide (c = d) then "" :: split_on d s
      else match split_on d s with w :: ws => String c w :: ws | [] => [String c ""] end
  end.
(** [str::split_once] at a string. *)
Fixpoint split_once (p s : string) : option (string * string) :=
  match strip_prefix p s with
  | Some r => Some ("", r)
  | None => match s with
            | EmptyString => None
            | String c s => '(a, b) ← split_once p s; Some (String c a, b)
            end
  end.
(** [str::parse] of an unsigned integer of at most [max]: digits, a leading + allowed. *)
Fixpoint decimal (n : Z) (s : string) : option Z :=
  match s with
  | EmptyString => Some n
  | String c s => if is_ascii_digit c then decimal (n * 10 + (char_code c - 48)) s else None
  end.
Definition parse_uint (max : Z) (s : string) : option Z :=
  let digits := default s (strip_prefix "+" s) in
  if decide (digits = "") then None else n ← decimal 0 digits; if n <=? max then Some n else None.
(** [str::split_whitespace], over ASCII white space. *)
Definition is_ascii_space (c : Ascii.ascii) : bool := is_between 9 13 c || (char_code c =? 32).
Fixpoint split_words (word s : string) : list string :=
  match s with
  | EmptyString => if decide (word = "") then [] else [word]
  | String c s =>
      if is_ascii_space c then (if decide (word = "") then [] else [word]) ++ split_words "" s
      else split_words (word +:+ String c "") s
  end.
Definition words (s : string) : list string := split_words "" s.
