(* ===== verification/Http.v ===== *)
(** * Requests and responses, as hyper hands them over

    Header names are lower case, as hyper normalises them; header values are
    bytes.  What the runtime reads of a request is its method, path, query and
    headers. *)
From S2P Require Import Prelude.

Abbreviation headers := (list (string * bytes)).
Record Request := {
  rq_method : string; rq_path : string; rq_query : option string; rq_headers : headers }.
Definition set_headers (f : headers → headers) (r : Request) : Request :=
  {| rq_method := rq_method r; rq_path := rq_path r; rq_query := rq_query r; rq_headers := f (rq_headers r) |}.

(** [HeaderMap::get_all], [get], [remove], [insert]. *)
Definition header_get_all (name : string) (hs : headers) : list bytes := (filter (λ h, h.1 = name) hs).*2.
Definition header_get (name : string) (hs : headers) : option bytes := head (header_get_all name hs).
Definition header_remove (name : string) (hs : headers) : headers := filter (λ h, h.1 ≠ name) hs.
Definition header_insert (name : string) (v : bytes) (hs : headers) : headers :=
  header_remove name hs ++ [(name, v)].

Lemma header_get_all_remove name hs : header_get_all name (header_remove name hs) = [].
Proof.
  unfold header_get_all, header_remove. induction hs as [|h hs IH]; [done|]. rewrite filter_cons.
  case_decide; [|done]. rewrite filter_cons, decide_False by done. exact IH.
Qed.
Lemma header_get_all_remove_ne name name' hs :
  name ≠ name' → header_get_all name' (header_remove name hs) = header_get_all name' hs.
Proof.
  intros Hne. unfold header_get_all, header_remove. induction hs as [|h hs IH]; [done|].
  rewrite (filter_cons _ h hs). destruct (decide (h.1 ≠ name)) as [Hn|Hn].
  - rewrite !filter_cons. destruct (decide (h.1 = name')); [rewrite !fmap_cons; f_equal|]; exact IH.
  - rewrite filter_cons, decide_False; [done|]. apply dec_stable in Hn. congruence.
Qed.
Lemma header_get_all_app name hs hs' :
  header_get_all name (hs ++ hs') = header_get_all name hs ++ header_get_all name hs'.
Proof. unfold header_get_all. by rewrite filter_app, fmap_app. Qed.
Lemma header_get_all_insert name v hs : header_get_all name (header_insert name v hs) = [v].
Proof.
  unfold header_insert. rewrite header_get_all_app, header_get_all_remove. unfold header_get_all.
  rewrite filter_cons, decide_True by done. done.
Qed.
Lemma header_get_all_insert_ne name name' v hs :
  name ≠ name' → header_get_all name' (header_insert name v hs) = header_get_all name' hs.
Proof.
  intros Hne. unfold header_insert. rewrite header_get_all_app, header_get_all_remove_ne by done.
  unfold header_get_all at 2. rewrite filter_cons, decide_False by done. simpl. by rewrite app_nil_r.
Qed.

(** [HeaderValue::to_str]: visible ASCII, space and tab. *)
Definition header_char (c : Ascii.ascii) : bool := is_between 32 126 c || (char_code c =? 9).
Definition to_str (v : bytes) : option string :=
  if all_chars header_char (bytes_str v) then Some (bytes_str v) else None.

(** [str::trim]: the characters of Unicode's White_Space, in UTF-8. *)
Definition char_of (n : Z) : string := String (Ascii.ascii_of_N (Z.to_N n)) "".
Definition text_of (ns : list Z) : string := foldr (λ n s, char_of n +:+ s) "" ns.
Definition white_spaces : list string :=
  text_of <$> ((λ n, [n]) <$> [9; 10; 11; 12; 13; 32]) ++ [[194; 133]; [194; 160]; [225; 154; 128]; [226; 128; 168]; [226; 128; 169]; [226; 128; 175];
    [226; 129; 159]; [227; 128; 128]] ++ ((λ n, [226; 128; n]) <$> seqZ 128 11).
Definition strip_first (strip : string → string → option string) (ps : list string) (s : string) : option string :=
  head (omap (λ p, strip p s) ps).
(** One character a turn, so the length bounds the turns. *)
Fixpoint strip_all (strip : string → option string) (fuel : nat) (s : string) : string :=
  match fuel, strip s with S fuel, Some s' => strip_all strip fuel s' | _, _ => s end.
Definition trim_start (s : string) : string :=
  strip_all (strip_first strip_prefix white_spaces) (String.length s) s.
Definition trim_end (s : string) : string :=
  strip_all (strip_first strip_suffix white_spaces) (String.length s) s.
Definition trim (s : string) : string := trim_end (trim_start s).
Example trim_tabs : trim (text_of [32; 9; 97; 32; 98; 194; 160; 10]) = "a b". Proof. reflexivity. Qed.
