(* ===== verification/Gate.v ===== *)
(** * The gate: [auth/gate.rs]

    No verified assertion, no guest.  webauthn-rs is the class [WebAuthn]: its
    types, and the two ceremonies as functions of its own randomness.  The
    credential store is reached through the interface of
    Credentials.v, the tables through their own files. *)
From S2P Require Import Prelude AuthToken AuthChallenge Credentials Http.

(** ** webauthn-rs *)
Record AuthenticationResult := { user_verified : bool; ar_counter : Z }.
Class WebAuthn := {
  Passkey : Type;
  PasskeyAuthentication : Type;        (** the state of an authentication *)
  PasskeyRegistration : Type;          (** and of a registration *)
  PublicKeyCredential : Type;          (** what an authenticator answers *)
  RegisterPublicKeyCredential : Type;
  RequestChallengeResponse : Type;     (** what it is asked *)
  CreationChallengeResponse : Type;
  start_passkey_authentication : bytes → list Passkey →
    result string (RequestChallengeResponse * PasskeyAuthentication);
  finish_passkey_authentication : PublicKeyCredential → PasskeyAuthentication →
    result string AuthenticationResult;
  raw_id : PublicKeyCredential → bytes;
  start_registration : bytes → string → result string (CreationChallengeResponse * PasskeyRegistration);
  finish_passkey_registration : RegisterPublicKeyCredential → PasskeyRegistration → result string Passkey;
  reg_raw_id : RegisterPublicKeyCredential → bytes;
}.
(** ** Refusals *)
Inductive Denied :=
  | Missing | Malformed (e : string) | DeniedChallenge (e : ChallengeError) | DeniedToken (e : TokenError)
  | NotTheRequest | UnknownCredential | DeniedAssertion (e : string) | BodyTooLarge | DeniedBody (e : string).
Definition public_message (d : Denied) : string :=
  match d with
  | BodyTooLarge => "request body too large"
  | _ => "a fresh WebAuthn assertion bound to this request is required"
  end.
Definition status (d : Denied) : Z := match d with BodyTooLarge => 413 | _ => 401 end.
Definition denied_display (d : Denied) : string :=
  match d with
  | Missing => "no assertion presented"
  | Malformed e => "malformed assertion: " +:+ e
  | DeniedChallenge e => challenge_error_display e
  | DeniedToken e => token_error_display e
  | NotTheRequest => "the assertion was issued for a different request"
  | UnknownCredential => "unknown or revoked credential"
  | DeniedAssertion e => "assertion did not verify: " +:+ e
  | BodyTooLarge => "request body over the limit"
  | DeniedBody e => "reading the request body: " +:+ e
  end.

Definition AUTHORIZATION_HEADER : string := "authorization".
Definition AUTH_HEADERS : list string := [AUTHORIZATION_HEADER].
Definition MAX_TOKEN_CHARS : Z := 128.

(** The sixteen bytes a client is known as, and what a ceremony established. *)
Record Verified := { v_tenant_id : bytes }.
Record Authenticated := { au_tenant_id : bytes; au_credential_id : bytes; au_scope : InteractionScope }.

(** ** The gate *)
Module Gate.
Section gate.
Context `{WebAuthn, Sha256} {S : Type} `{!CredentialStore Passkey S}.

Record Gate := { challenges : Challenge.ChallengeStore PasskeyAuthentication; credentials : S; tokens : TokenStore }.
Definition set_challenges (c : Challenge.ChallengeStore PasskeyAuthentication) (g : Gate) : Gate :=
  {| challenges := c; credentials := credentials g; tokens := tokens g |}.
Definition set_credentials (c : S) (g : Gate) : Gate :=
  {| challenges := challenges g; credentials := c; tokens := tokens g |}.
Definition set_tokens (t : TokenStore) (g : Gate) : Gate :=
  {| challenges := challenges g; credentials := credentials g; tokens := t |}.
(** A call of one of the parts, its error turned into a refusal. *)
Definition on_challenges {E A} (f : E → Denied) (m : M (Challenge.ChallengeStore PasskeyAuthentication) E A) :
    M Gate Denied A := λ g, let '(r, c) := m (challenges g) in (map_err f r, set_challenges c g).
Definition on_credentials {A} (m : M S string A) : M Gate Denied A :=
  λ g, let '(r, c) := m (credentials g) in (map_err DeniedAssertion r, set_credentials c g).
Definition on_tokens {A} (m : M TokenStore TokenError A) : M Gate Denied A :=
  λ g, let '(r, t) := m (tokens g) in (map_err DeniedToken r, set_tokens t g).

Definition gate_new (c : Challenge.ChallengeStore PasskeyAuthentication) (s : S) (t : TokenStore) : Gate :=
  {| challenges := c; credentials := s; tokens := t |}.

Definition issue (now : Z) (seed id : bytes) (scope : InteractionScope) (allowed : list Passkey) :
    M Gate Denied RequestChallengeResponse :=
  os ← lift (map_err DeniedAssertion (start_passkey_authentication seed allowed));
  _ ← on_challenges DeniedChallenge (Challenge.issue now id scope os.2);
  mret os.1.

Definition authenticate (now : Z) (challenge_id : bytes) (assertion : PublicKeyCredential) :
    M Gate Denied Authenticated :=
  issued ← on_challenges DeniedChallenge (Challenge.consume now challenge_id);
  found ← on_credentials (store_lookup (raw_id assertion));
  record ← unwrap (r ← found; if cr_active r then Some r else None) UnknownCredential;
  result ← lift (map_err DeniedAssertion (finish_passkey_authentication assertion issued.2));
  _ ← ensure (user_verified result) (DeniedAssertion "user was not verified");
  _ ← on_credentials (store_record_use (raw_id assertion) (ar_counter result));
  mret {| au_tenant_id := cr_tenant_id record; au_credential_id := raw_id assertion; au_scope := issued.1 |}.

Definition grant (now : Z) (token : bytes) (who : Authenticated) : M Gate Denied Z :=
  _ ← on_tokens (AuthToken.issue now token (au_tenant_id who) (au_scope who));
  gets (λ g, AuthToken.ttl (tokens g)).

(** The bearer token of a request, as it was sent. *)
Definition offered (r : Request) : option string :=
  v ← header_get AUTHORIZATION_HEADER (rq_headers r);
  s ← to_str v;
  t ← strip_prefix "Bearer " s;
  Some (trim t).
Definition request_scope (r : Request) : InteractionScope :=
  scope_new (rq_method r) (rq_path r) (rq_query r).
Definition redeem (now : Z) (r : Request) : M Gate Denied Verified :=
  token ← unwrap (offered r) Missing;
  _ ← ensure (negb ((strlen token =? 0) || (MAX_TOKEN_CHARS <? strlen token)))
        (Malformed "token is not a plausible length");
  tenant_id ← on_tokens (AuthToken.redeem now (str_bytes token) (request_scope r));
  mret {| v_tenant_id := tenant_id |}.

(** ** What each call does to the parts *)
Lemma on_credentials_inv {A} (m : M S string A) g r g' : on_credentials m g = (r, g') →
  ∃ r0 c, m (credentials g) = (r0, c) ∧ r = map_err DeniedAssertion r0 ∧ g' = set_credentials c g.
Proof. unfold on_credentials. destruct (m (credentials g)) as [r0 c]. intros [= <- <-]. eauto. Qed.
Lemma on_challenges_inv {E A} (f : E → Denied) (m : M _ E A) g r g' : on_challenges f m g = (r, g') →
  ∃ r0 c, m (challenges g) = (r0, c) ∧ r = map_err f r0 ∧ g' = set_challenges c g.
Proof. unfold on_challenges. destruct (m (challenges g)) as [r0 c]. intros [= <- <-]. eauto. Qed.
Lemma on_tokens_inv {A} (m : M _ TokenError A) g r g' : on_tokens m g = (r, g') →
  ∃ r0 c, m (tokens g) = (r0, c) ∧ r = map_err DeniedToken r0 ∧ g' = set_tokens c g.
Proof. unfold on_tokens. destruct (m (tokens g)) as [r0 c]. intros [= <- <-]. eauto. Qed.
Lemma map_err_Ok {E E' A} (f : E → E') (r : result E A) a : map_err f r = Ok a → r = Ok a.
Proof. destruct r; naive_solver. Qed.

(** What a ceremony must have shown for [authenticate] to succeed. *)
Record proven (now : Z) (id : bytes) (a : PublicKeyCredential) (g : Gate)
    (p : Challenge.Pending PasskeyAuthentication) (record : CredentialRecord Passkey)
    (res : AuthenticationResult) : Prop := {
  proven_pending : Challenge.pending (challenges g) !! id = Some p;
  proven_fresh : now < Challenge.p_expires p;
  proven_credential : (store_lookup (raw_id a) (credentials g)).1 = Ok (Some record);
  proven_active : cr_active record = true;
  proven_assertion : finish_passkey_authentication a (Challenge.p_state p) = Ok res;
  proven_verified : user_verified res = true }.

Lemma authenticate_inv now id a g r g' : authenticate now id a g = (r, g') →
  challenges g' = Challenge.set_pending (delete id (Challenge.pending (challenges g))) (challenges g) ∧
  tokens g' = tokens g ∧
  (∀ I, preserves I (store_lookup (raw_id a)) → (∀ n, preserves I (store_record_use (raw_id a) n)) →
    I (credentials g) → I (credentials g')) ∧
  ∀ who, r = Ok who → ∃ p record res, proven now id a g p record res ∧
    who = {| au_tenant_id := cr_tenant_id record; au_credential_id := raw_id a;
             au_scope := Challenge.p_scope p |}.
Proof.
  unfold authenticate. intros E.
  inv_bind E; apply on_challenges_inv in Hrun as (r0 & c & Hc & Hr & ->);
    rewrite Challenge.challenge_consume_run in Hc; injection Hc as <- <-; [|done].
  symmetry in Hr. apply map_err_Ok in Hr.
  destruct (Challenge.pending (challenges g) !! id) as [p|] eqn:Hp; [|done].
  destruct (Z.leb_spec (Challenge.p_expires p) now); [done|]. injection Hr as <-.
  inv_bind E; apply on_credentials_inv in Hrun as (r1 & c1 & Hl & Hr & ->); simpl in Hl;
    (assert (∀ I, preserves I (store_lookup (raw_id a)) → I (credentials g) → I c1) as HI
       by (intros I HI Hg; exact (preserves_ok _ _ _ _ _ HI Hg Hl)));
    [|simpl; split_and!; [done|done|intros I HI1 _; exact (HI I HI1)|done]].
  symmetry in Hr. apply map_err_Ok in Hr as ->.
  inv_bind E; inv_pure; [|simpl; split_and!; [done|done|intros I HI1 _; exact (HI I HI1)|done]].
  destruct a0 as [record|]; [|done]. simpl in *.
  match goal with H : (if _ then _ else _) = Some _ |- _ => destruct (cr_active record) eqn:Ha; [|done] end.
  simplify_eq.
  inv_bind E; [apply lift_inv in Hrun as [Hf ->]; apply map_err_Ok in Hf|inv_pure; simpl; split_and!; [done|done|intros I HI1 _; exact (HI I HI1)|done]].
  inv_bind E; apply ensure_inv in Hrun as [-> Hv]; destruct (user_verified _) eqn:Hu; try done;
    [|simpl; split_and!; [done|done|intros I HI1 _; exact (HI I HI1)|done]].
  inv_bind E; apply on_credentials_inv in Hrun as (r2 & c2 & Hu2 & Hr2 & ->); simpl in Hu2;
    (assert (∀ I, preserves I (store_lookup (raw_id a)) → (∀ n, preserves I (store_record_use (raw_id a) n)) →
      I (credentials g) → I c2) as HI2 by (intros I HI1 HI2 Hg; exact (preserves_ok _ _ _ _ _ (HI2 _) (HI I HI1 Hg) Hu2)));
    [inv_pure|]; split_and!; try done.
  intros who [= <-]. do 3 eexists. split; [|done]. split; try done. by rewrite Hl.
Qed.
End gate.
Arguments Gate {_} S.
End Gate.
