(* ===== verification/Routes.v ===== *)
(** * The public routes: [auth/routes.rs]

    [handle] answers a request under [/auth/]; what it does not answer goes on
    to the guest.  serde_json and base64 are parameters: the parsers of the four
    request bodies, and the two directions of the encoding.  A handler's early
    return is the error of its monad, so [answer] joins the two; the clock, the
    NSM's entropy and webauthn-rs's own randomness come in an [Env]. *)
From S2P Require Import Prelude Text AuthToken AuthChallenge Storage Credentials Http Gate.

(** ** Requests and answers *)
Record RegisterOptionsRequest := { display_name : option string }.
Record RegisterVerifyRequest `{WebAuthn} := {
  rv_registration_id : string; rv_credential : RegisterPublicKeyCredential }.
Record RequestOptionsRequest := {
  qo_credential_id : string; qo_method : string; qo_path : string; qo_query : option string }.
Record RequestVerifyRequest := { qv_challenge_id : string; qv_assertion : string }.
Class AuthJson `{WebAuthn} := {
  register_options_request : bytes → option RegisterOptionsRequest;
  register_verify_request : bytes → option RegisterVerifyRequest;
  request_options_request : bytes → option RequestOptionsRequest;
  request_verify_request : bytes → option RequestVerifyRequest;
  assertion_of_json : bytes → option PublicKeyCredential;
}.

Inductive Body `{WebAuthn} :=
  | Problem (error : string)
  | RegisterOptionsResponse (registration_id : string) (options : CreationChallengeResponse)
  | RegisterVerifyResponse (tenant_id credential_id : string)
  | RequestOptionsResponse (challenge_id : string) (options : RequestChallengeResponse)
  | TokenResponse (token : string) (expires_in_secs : Z).
Record Response `{WebAuthn} := {
  rs_status : Z; rs_headers : list (string * string); rs_body : Body }.

Definition AUTH_PREFIX : string := "/auth/".
Definition REGISTRATION_TTL : Z := 300000.
Definition MAX_REGISTRATIONS : Z := 64.
Definition MAX_BODY : Z := 16 * 1024.

(** What a call reads from outside: two instants, in order, the bytes
    [get_random] gives (or its failure), and the library's own randomness. *)
Record Env := { now : Z; later : Z; random : option bytes; seed : bytes }.

Section routes.
Context `{WebAuthn, Sha256, !Codec (StoredCredential Passkey), !AuthJson, !Base64}.

Definition json (status : Z) (b : Body) : Response :=
  {| rs_status := status;
     rs_headers := [("content-type", "application/json"); ("cache-control", "no-store")]; rs_body := b |}.
Definition problem (status : Z) (detail : string) : Response := json status (Problem detail).
Definition decode (text : string) : option bytes := b64_decode (trim text).
Definition decode_id (text : string) : option bytes :=
  b ← decode text; if decide (length b = 16%nat) then Some b else None.

Record PendingRegistration := { pr_state : PasskeyRegistration; pr_expires : Z }.
Record AuthEndpoints := {
  gate : Gate.Gate (FilesystemCredentials Passkey); registrations : gmap bytes PendingRegistration }.
Definition set_gate (g : Gate.Gate (FilesystemCredentials Passkey)) (s : AuthEndpoints) : AuthEndpoints :=
  {| gate := g; registrations := registrations s |}.
Definition set_registrations (f : gmap bytes PendingRegistration → gmap bytes PendingRegistration)
    (s : AuthEndpoints) : AuthEndpoints := {| gate := gate s; registrations := f (registrations s) |}.
Definition on_gate {E A} (m : M (Gate.Gate (FilesystemCredentials Passkey)) E A) : M AuthEndpoints E A :=
  zoom gate set_gate m.
Definition on_store {E A} (m : M (FilesystemCredentials Passkey) E A) : M AuthEndpoints E A :=
  on_gate (zoom Gate.credentials Gate.set_credentials m).
(** [match m { Ok(v) => v, Err(e) => return answer(e) }] *)
Definition or_return {S E E' A} (f : E → E') (m : M S E A) : M S E' A := with_context f m.

Definition register_options (e : Env) (body : bytes) : M AuthEndpoints Response Response :=
  request ← unwrap (register_options_request body) (problem 400 "malformed request");
  let name := default "cosigner" (display_name request) in
  os ← lift (map_err (λ _, problem 500 "unavailable") (start_registration (seed e) name));
  id ← unwrap (random e) (problem 500 "unavailable");
  _ ← modify (set_registrations (retain (λ _ p, now e <? pr_expires p)));
  s ← get;
  _ ← ensure (Z.of_nat (size (registrations s)) <? MAX_REGISTRATIONS) (problem 503 "try again");
  _ ← modify (set_registrations <[id := {| pr_state := os.2; pr_expires := now e + REGISTRATION_TTL |}]>);
  mret (json 200 (RegisterOptionsResponse (b64 id) os.1)).

Definition register_verify (e : Env) (body : bytes) : M AuthEndpoints Response Response :=
  request ← unwrap (register_verify_request body) (problem 400 "malformed request");
  id ← unwrap (decode_id (rv_registration_id request)) (problem 400 "malformed registration id");
  s ← get;
  _ ← modify (set_registrations (delete id));
  pending ← unwrap (p ← registrations s !! id; if now e <? pr_expires p then Some p else None)
              (problem 403 "registration expired");
  passkey ← lift (map_err (λ _, problem 403 "registration did not verify")
                    (finish_passkey_registration (rv_credential request) (pr_state pending)));
  let credential_id := reg_raw_id (rv_credential request) in
  let tenant_id := tenant_of credential_id in
  _ ← or_return (λ _, problem 500 "unavailable") (on_store (on_storage (tenant_dir tenant_id)));
  let record := {| sc_version := RECORD_VERSION; sc_passkey := passkey; sc_active := true;
                   sc_created_ms := 0; sc_counter := 0 |} in
  _ ← or_return (λ _, problem 409 "could not register") (on_store (register credential_id record));
  mret (json 200 (RegisterVerifyResponse (hex_encode tenant_id) (b64 credential_id))).

Definition request_verify (e : Env) (body : bytes) : M AuthEndpoints Response Response :=
  request ← unwrap (request_verify_request body) (problem 400 "malformed request");
  challenge_id ← unwrap (decode_id (qv_challenge_id request)) (problem 400 "malformed challenge id");
  assertion_json ← unwrap (decode (qv_assertion request)) (problem 400 "malformed assertion");
  assertion ← unwrap (assertion_of_json assertion_json) (problem 400 "malformed assertion");
  who ← or_return (λ d, problem (status d) (public_message d))
          (on_gate (Gate.authenticate (now e) challenge_id assertion));
  raw ← unwrap (random e) (problem 500 "unavailable");
  let token := b64 raw in
  ttl ← or_return (λ d, problem (status d) (public_message d))
          (on_gate (Gate.grant (later e) (str_bytes token) who));
  mret (json 200 (TokenResponse token (ttl / 1000))).

Definition request_options (e : Env) (body : bytes) : M AuthEndpoints Response Response :=
  request ← unwrap (request_options_request body) (problem 400 "malformed request");
  credential_id ← unwrap (decode (qo_credential_id request)) (problem 400 "malformed credential id");
  found ← or_return (λ _, problem 500 "unavailable") (on_store (store_lookup credential_id));
  record ← unwrap (r ← found; if cr_active r then Some r else None)
             (problem 403 "no challenge for that credential");
  id ← unwrap (random e) (problem 500 "unavailable");
  let scope := scope_new (qo_method request) (qo_path request) (qo_query request) in
  options ← or_return (λ _, problem 503 "try again")
              (on_gate (Gate.issue (now e) (seed e) id scope [cr_passkey record]));
  mret (json 200 (RequestOptionsResponse (b64 id) options)).

(** [{other:?}]: quoted, with the quote and the backslash escaped. *)
Fixpoint debug_chars (s : string) : string :=
  match s with
  | "" => ""
  | String c s =>
      (if (char_code c =? 34) || (char_code c =? 92) then char_of 92 +:+ String c (debug_chars s)
       else String c (debug_chars s))
  end.
Definition debug_str (s : string) : string := char_of 34 +:+ debug_chars s +:+ char_of 34.

(** A response is a response, returned early or not. *)
Definition answer (m : M AuthEndpoints Response Response) (s : AuthEndpoints) : Response * AuthEndpoints :=
  match m s with (Ok r, s') | (Err r, s') => (r, s') end.
Definition dispatch (e : Env) (rest : string) (body : bytes) : M AuthEndpoints Response Response :=
  if decide (rest = "register/options") then register_options e body
  else if decide (rest = "register/verify") then register_verify e body
  else if decide (rest = "request/options") then request_options e body
  else if decide (rest = "request/verify") then request_verify e body
  else fail (problem 404 ("no auth endpoint " +:+ debug_str rest)).
Definition handle (e : Env) (method path : string) (body : bytes) (s : AuthEndpoints) :
    option Response * AuthEndpoints :=
  match strip_prefix AUTH_PREFIX path with
  | None => (None, s)
  | Some rest =>
      if decide (method ≠ "POST") then (Some (problem 405 "auth routes are POST"), s)
      else if MAX_BODY <? len body then (Some (problem 413 "request body too large"), s)
      else let '(r, s') := answer (dispatch e rest body) s in (Some r, s')
  end.
End routes.
