(* ===== verification/RoutesProps.v ===== *)
(** * The gate end to end

    [trace h s]: the calls [h] (newest first), made at instants that never
    decrease, took a new gate to [s]; between calls anything may happen to the
    credential store.  [gate_ok] says what every outstanding challenge and
    token stands for: [challenged] and [approved]. *)
From S2P Require Import Prelude Text Expiring AuthToken AuthChallenge Storage Credentials CredentialsProps Http Gate Routes.

Section trace.
Context `{WebAuthn, Sha256, !Codec (StoredCredential Passkey), !AuthJson, !Base64}.
Context (challenge_ttl challenge_cap token_ttl token_cap : Z).
Implicit Types (s : AuthEndpoints) (e : Env).

Inductive event :=
  | EHandle e s (method path : string) (body : bytes)
  | ERedeem (t : Z) (r : Request).
Definition event_end (ev : event) : Z := match ev with EHandle e _ _ _ _ => later e | ERedeem t _ => t end.
Definition before (h : list event) (t : Z) : Prop := Forall (λ ev, event_end ev ≤ t) h.

Definition endpoints_new (c : FilesystemCredentials Passkey) : AuthEndpoints :=
  {| gate := Gate.gate_new (Challenge.new challenge_ttl challenge_cap) c (token_store_new token_ttl token_cap);
     registrations := ∅ |}.
Definition set_store (c : FilesystemCredentials Passkey) s : AuthEndpoints :=
  set_gate (Gate.set_credentials c (gate s)) s.

Inductive trace : list event → AuthEndpoints → Prop :=
  | trace_new z : trace [] (endpoints_new (credentials_new z))
  | trace_handle h s e method path body :
      trace h s → before h (now e) → now e ≤ later e →
      trace (EHandle e s method path body :: h) (handle e method path body s).2
  | trace_redeem h s t r :
      trace h s → before h t → trace (ERedeem t r :: h) (set_gate (Gate.redeem t r (gate s)).2 s)
  | trace_store h s c :
      trace h s → cred_step (Gate.credentials (gate s)) c → trace h (set_store c s).

(** A challenge of the table: asked for by a request for options, for the scope
    that request named, of a credential that was active. *)
Inductive challenged (h : list event) (id : bytes) (p : Challenge.Pending PasskeyAuthentication) : Prop :=
  | Challenged e s body q cid record options :
      EHandle e s "POST" "/auth/request/options" body ∈ h →
      request_options_request body = Some q →
      decode (qo_credential_id q) = Some cid →
      (store_lookup cid (Gate.credentials (gate s))).1 = Ok (Some record) → cr_active record = true →
      random e = Some id →
      start_passkey_authentication (seed e) [cr_passkey record] = Ok (options, Challenge.p_state p) →
      Challenge.p_scope p = scope_new (qo_method q) (qo_path q) (qo_query q) →
      Challenge.p_expires p = now e + challenge_ttl → challenged h id p.

(** A token of the table: minted by a request whose assertion answered such a
    challenge, by a credential active at that moment, with the person verified. *)
Inductive approved (h : list event) (k : bytes) (g : Granted) : Prop :=
  | Approved h1 h2 e s body q id json a p record res raw :
      h = h1 ++ EHandle e s "POST" "/auth/request/verify" body :: h2 →
      request_verify_request body = Some q →
      decode_id (qv_challenge_id q) = Some id →
      decode (qv_assertion q) = Some json → assertion_of_json json = Some a →
      challenged h2 id p → Gate.proven (now e) id a (gate s) p record res →
      random e = Some raw → k = sha256 (str_bytes (b64 raw)) →
      g_tenant_id g = tenant_of (raw_id a) → g_scope g = Challenge.p_scope p →
      g_expires g = later e + token_ttl → approved h k g.

Lemma challenged_cons ev h id p : challenged h id p → challenged (ev :: h) id p.
Proof. intros [e s body q cid record options Hin]. econstructor; eauto. by apply elem_of_cons; right. Qed.
Lemma approved_cons ev h k g : approved h k g → approved (ev :: h) k g.
Proof. intros [h1 h2 e s body q id json a p record res raw ->]. by eapply (Approved _ _ _ (ev :: h1)). Qed.

Record gate_ok (h : list event) s : Prop := {
  ok_cache : cache_ok (Gate.credentials (gate s));
  ok_challenge_ttl : Challenge.ttl (Gate.challenges (gate s)) = challenge_ttl;
  ok_token_ttl : ttl (Gate.tokens (gate s)) = token_ttl;
  ok_challenges id p : Challenge.pending (Gate.challenges (gate s)) !! id = Some p → challenged h id p;
  ok_tokens k g : granted (Gate.tokens (gate s)) !! k = Some g → approved h k g }.

Lemma gate_ok_cons ev h s : gate_ok h s → gate_ok (ev :: h) s.
Proof.
  intros [? ? ? Hc Ht]. split; [done..| |].
  - intros id p Hp. by apply challenged_cons, Hc.
  - intros k g Hg. by apply approved_cons, Ht.
Qed.

(** ** The parts *)
Lemma gate_ok_credentials h c s : cache_ok c → gate_ok h s → gate_ok h (set_store c s).
Proof. intros Hc []. by split. Qed.
Lemma gate_ok_registrations h f s : gate_ok h s → gate_ok h (set_registrations f s).
Proof. intros []. by split. Qed.
Lemma gate_ok_issue h s now id p c r :
  Challenge.issue now id (Challenge.p_scope p) (Challenge.p_state p) (Gate.challenges (gate s)) = (r, c) →
  Challenge.p_expires p = now + challenge_ttl →
  challenged h id p → gate_ok h s → gate_ok h (set_gate (Gate.set_challenges c (gate s)) s).
Proof.
  intros Hi He Hp [Hcache Hct Htt Hc Ht]. rewrite Challenge.challenge_issue_run in Hi. cbn zeta in Hi.
  split; simpl; try done.
  - by destruct (put_fresh _ _ _ _ _ _); simplify_eq.
  - intros id' p'. destruct (put_fresh _ _ _ _ _ _) as [m|] eqn:Ef; simplify_eq/=.
    + rewrite (lookup_put_fresh _ _ _ _ _ _ _ _ Ef). case_decide; subst.
      * intros [= <-]. rewrite Hct, <-He. by destruct p.
      * intros [Hl _]%lookup_sweep. by apply Hc.
    + intros [Hl _]%lookup_sweep. by apply Hc.
Qed.
Lemma gate_ok_grant h s now token g c r :
  AuthToken.issue now token (g_tenant_id g) (g_scope g) (Gate.tokens (gate s)) = (r, c) →
  g_expires g = now + token_ttl →
  approved h (sha256 token) g → gate_ok h s → gate_ok h (set_gate (Gate.set_tokens c (gate s)) s).
Proof.
  intros Hi He Hp [Hcache Hct Htt Hc Ht]. rewrite issue_run in Hi. cbn zeta in Hi.
  split; simpl; try done.
  - by destruct (put_fresh _ _ _ _ _ _); simplify_eq.
  - intros k g'. destruct (put_fresh _ _ _ _ _ _) as [m|] eqn:Ef; simplify_eq/=.
    + rewrite (lookup_put_fresh _ _ _ _ _ _ _ _ Ef). case_decide; subst.
      * intros [= <-]. rewrite Htt, <-He. by destruct g.
      * intros [Hl _]%lookup_sweep. by apply Ht.
    + intros [Hl _]%lookup_sweep. by apply Ht.
Qed.
Lemma redeem_tokens now token scope ts r ts' :
  redeem now token scope ts = (r, ts') → ts' = set_granted (delete (sha256 token) (granted ts)) ts.
Proof. rewrite redeem_run. by intros [= _ <-]. Qed.
Lemma gate_redeem_inv t rq (g g' : Gate.Gate (FilesystemCredentials Passkey)) r : Gate.redeem t rq g = (r, g') →
  (g' = g ∧ is_ok r = false) ∨
  ∃ tok r0, Gate.offered rq = Some tok ∧
    redeem t (str_bytes tok) (Gate.request_scope rq) (Gate.tokens g) = (r0, Gate.tokens g') ∧
    g' = Gate.set_tokens (Gate.tokens g') g ∧
    (∀ v, r = Ok v → r0 = Ok (v_tenant_id v)).
Proof.
  unfold Gate.redeem. intros E. inv_bind E; inv_pure; [|by left].
  inv_bind E; apply ensure_inv in Hrun as [-> Hb]; [|left; split; [done|by destruct (negb _)]].
  inv_bind E; apply Gate.on_tokens_inv in Hrun as (r0 & c & Hr & Hm & ->); right; eexists _, r0.
  - inv_pure. split_and!; [done|exact Hr|done|]. intros v [= <-]. symmetry in Hm. by apply Gate.map_err_Ok in Hm.
  - split_and!; [done|exact Hr|done|done].
Qed.
Lemma gate_ok_redeem h s t rq : gate_ok h s → gate_ok h (set_gate (Gate.redeem t rq (gate s)).2 s).
Proof.
  intros [Hcache Hct Htt Hc Ht]. destruct (Gate.redeem t rq (gate s)) as [r g'] eqn:E. simpl.
  destruct (gate_redeem_inv _ _ _ _ _ E) as [[-> _]|(tok & r0 & _ & Hr%redeem_tokens & -> & _)]; [by split|].
  split; simpl; try done; rewrite Hr; [done|]. simpl. intros k g [_ Hg]%lookup_delete_Some. by apply Ht.
Qed.

(** ** The handlers *)
Lemma with_context_inv {S E E' A} (f : E → E') (m : M S E A) (s : S) r (s' : S) :
  with_context f m s = (r, s') → ∃ r0, m s = (r0, s') ∧ r = map_err f r0.
Proof. unfold with_context. destruct (m s) as [r0 s1]. intros [= <- <-]. eauto. Qed.
Lemma on_gate_inv {E A} (m : M (Gate.Gate (FilesystemCredentials Passkey)) E A) s r s' :
  on_gate m s = (r, s') → ∃ g, m (gate s) = (r, g) ∧ s' = set_gate g s.
Proof. apply zoom_inv. Qed.
Lemma on_store_inv {E A} (m : M (FilesystemCredentials Passkey) E A) s r s' :
  on_store m s = (r, s') → ∃ c, m (Gate.credentials (gate s)) = (r, c) ∧ s' = set_store c s.
Proof.
  intros (g & Hg & ->)%on_gate_inv. apply zoom_inv in Hg as (c & Hc & ->). eauto.
Qed.
Lemma gate_ok_on_store {E A} h (m : M (FilesystemCredentials Passkey) E A) :
  preserves cache_ok m → preserves (gate_ok h) (on_store m).
Proof.
  intros Hm s Hs. destruct (on_store m s) as [r s'] eqn:E1. apply on_store_inv in E1 as (c & Hc & ->).
  apply gate_ok_credentials; [|done]. exact (preserves_ok _ _ _ _ _ Hm (ok_cache _ _ Hs) Hc).
Qed.
Lemma preserves_or_return {S E E' A} (I : S → Prop) (f : E → E') (m : M S E A) :
  preserves I m → preserves I (or_return f m).
Proof. apply preserves_with_context. Qed.

Lemma cache_ok_on_storage {E A} (m : M Zfs E A) : preserves (cache_ok (Passkey:=Passkey)) (on_storage m).
Proof. intros s Hs. unfold on_storage, zoom. by destruct (m (fc_zfs s)). Qed.
Lemma cache_ok_register id r : preserves (cache_ok (Passkey:=Passkey)) (register id r).
Proof.
  unfold register, credential_path. pose proof (@cache_ok_on_storage). solve_preserves; [auto with preserves..|].
  apply preserves_modify. intros s Hs id' c. simpl. rewrite lookup_insert. case_decide; subst; [by intros [= <-]|apply Hs].
Qed.
Lemma cache_ok_read id : preserves (cache_ok (Passkey:=Passkey)) (read id).
Proof. intros s Hs. destruct (read id s) as [x s'] eqn:E. simpl. apply read_cache in E. unfold cache_ok. by rewrite E. Qed.
Lemma cache_ok_revoke id : preserves (cache_ok (Passkey:=Passkey)) (revoke id).
Proof.
  unfold revoke, credential_path. pose proof (@cache_ok_on_storage). pose proof cache_ok_read.
  solve_preserves; [auto with preserves..|].
  apply preserves_modify. intros s Hs id' c. simpl. rewrite lookup_alter.
  case_decide; subst; [intros (c0 & Hc0 & ->)%fmap_Some; by apply (Hs _ c0)|apply Hs].
Qed.
Lemma cache_ok_step c c' : cred_step c c' → cache_ok c → cache_ok c'.
Proof.
  intros Hstep. destruct Hstep; simpl; intros Hc.
  - by apply cache_ok_register.
  - by apply cache_ok_revoke.
  - by apply cache_ok_lookup.
  - by apply cache_ok_record_use.
  - done.
  - intros id c. simpl. by rewrite lookup_empty.
Qed.

Lemma gate_ok_register_options h e body : preserves (gate_ok h) (register_options e body).
Proof.
  unfold register_options.
  solve_preserves; first [by intros ?|apply preserves_modify; intros; by apply gate_ok_registrations].
Qed.
Lemma gate_ok_register_verify h e body : preserves (gate_ok h) (register_verify e body).
Proof.
  unfold register_verify. do 2 (apply preserves_bind; [by intros ?|intros]).
  apply preserves_get. intros s Hs. by_preserves.
  apply preserves_bind; [apply preserves_modify; intros; by apply gate_ok_registrations|intros _].
  do 2 (apply preserves_bind; [by intros ?|intros]).
  do 2 (apply preserves_bind; [apply preserves_or_return, gate_ok_on_store;
    first [apply cache_ok_on_storage|apply cache_ok_register]|intros _]). solve_preserves.
Qed.
Lemma gate_ok_request_options h e s body : gate_ok h s →
  gate_ok (EHandle e s "POST" "/auth/request/options" body :: h) (request_options e body s).2.
Proof.
  intros Hs%(gate_ok_cons (EHandle e s "POST" "/auth/request/options" body)).
  destruct (request_options e body s) as [r s'] eqn:E. unfold request_options in E. simpl.
  inv_bind E; apply unwrap_inv in Hrun as [-> Hq]; [|done]. destruct (request_options_request body) as [q|] eqn:Eq; simplify_eq.
  inv_bind E; apply unwrap_inv in Hrun as [-> Hc]; [|done]. destruct (decode _) as [cid|] eqn:Ec; simplify_eq.
  inv_bind E; apply with_context_inv in Hrun as (r0 & Hl & Hr); apply on_store_inv in Hl as (c & Hl & ->);
    (assert (gate_ok (EHandle e s "POST" "/auth/request/options" body :: h) (set_store c s)) as Hs1
      by (apply gate_ok_credentials; [exact (preserves_ok _ _ _ _ _ (cache_ok_lookup cid) (ok_cache _ _ Hs) Hl)|done]));
    [|done].
  symmetry in Hr. apply Gate.map_err_Ok in Hr as ->.
  inv_bind E; apply unwrap_inv in Hrun as [-> Hf]; [|done]. destruct a as [record|]; [|done]. simpl in Hf.
  destruct (cr_active record) eqn:Ha; [|done]. simplify_eq.
  inv_bind E; apply unwrap_inv in Hrun as [-> Hid]; [|done]. destruct (random e) as [id|] eqn:Er; simplify_eq.
  set (Hev := EHandle e s _ _ body) in *.
  assert (∀ r g, Gate.issue (now e) (seed e) id (scope_new (qo_method q) (qo_path q) (qo_query q))
    [cr_passkey record] (gate (set_store c s)) = (r, g) → gate_ok (Hev :: h) (set_gate g (set_store c s))) as Hissue.
  { intros r0 g Hi. unfold Gate.issue in Hi.
    inv_bind Hi; apply lift_inv in Hrun as [Hst ->]; [apply Gate.map_err_Ok in Hst|done]. destruct a as [options state].
    assert (∀ r1 g1, Gate.on_challenges DeniedChallenge (Challenge.issue (now e) id
      (scope_new (qo_method q) (qo_path q) (qo_query q)) state) (gate (set_store c s)) = (r1, g1) →
      gate_ok (Hev :: h) (set_gate g1 (set_store c s))) as Hon.
    { intros r1 g1 (r2 & ch & Hch & _ & ->)%Gate.on_challenges_inv.
      eapply (gate_ok_issue _ (set_store c s) (now e) id {| Challenge.p_scope := _; Challenge.p_state := state;
        Challenge.p_expires := now e + challenge_ttl |}); [exact Hch|done| |done].
      eapply (Challenged _ _ _ e s body q cid record options); try done; [set_solver|by rewrite Hl]. }
    simpl in Hi. inv_bind Hi; [inv_pure; by eapply Hon|by eapply Hon]. }
  inv_bind E; apply with_context_inv in Hrun as (r1 & Hi & _); apply on_gate_inv in Hi as (g & Hi & ->);
    apply Hissue in Hi; [by inv_pure|done].
Qed.
Lemma gate_ok_authenticate h s now id a r g : gate_ok h s →
  Gate.authenticate now id a (gate s) = (r, g) → gate_ok h (set_gate g s).
Proof.
  intros Hs Ha. apply Gate.authenticate_inv in Ha as (Hc & Ht & Hcr & _).
  destruct Hs as [Hcache Hct Htt Hch Hto]. split; simpl.
  - apply Hcr; [apply cache_ok_lookup|apply cache_ok_record_use|done].
  - by rewrite Hc.
  - by rewrite Ht.
  - rewrite Hc. simpl. intros id' p [_ Hp]%lookup_delete_Some. by apply Hch.
  - rewrite Ht. apply Hto.
Qed.
Lemma gate_ok_request_verify h e s body : gate_ok h s →
  gate_ok (EHandle e s "POST" "/auth/request/verify" body :: h) (request_verify e body s).2.
Proof.
  intros Hs0. pose proof (gate_ok_cons (EHandle e s "POST" "/auth/request/verify" body) _ _ Hs0) as Hs.
  destruct (request_verify e body s) as [r s'] eqn:E. unfold request_verify in E. simpl.
  inv_bind E; apply unwrap_inv in Hrun as [-> Hq]; [|done]. destruct (request_verify_request body) as [q|] eqn:Eq; simplify_eq.
  inv_bind E; apply unwrap_inv in Hrun as [-> Hc]; [|done]. destruct (decode_id _) as [cid|] eqn:Ec; simplify_eq.
  inv_bind E; apply unwrap_inv in Hrun as [-> Hc]; [|done]. destruct (decode (qv_assertion q)) as [js|] eqn:Ej; simplify_eq.
  inv_bind E; apply unwrap_inv in Hrun as [-> Hc]; [|done]. destruct (assertion_of_json js) as [asr|] eqn:Ea; simplify_eq.
  inv_bind E; apply with_context_inv in Hrun as (r0 & Hau & Hr); apply on_gate_inv in Hau as (g & Hau & ->);
    pose proof (gate_ok_authenticate _ _ _ _ _ _ _ Hs Hau) as Hs1; [|done].
  symmetry in Hr. apply Gate.map_err_Ok in Hr as ->.
  apply Gate.authenticate_inv in Hau as (_ & _ & _ & Hwho). destruct (Hwho _ eq_refl) as (p & record & res & Hp & ->).
  inv_bind E; apply unwrap_inv in Hrun as [-> Hid]; [|done]. destruct (random e) as [raw|] eqn:Er; simplify_eq.
  inv_bind E; apply with_context_inv in Hrun as (r1 & Hg & _); apply on_gate_inv in Hg as (g2 & Hg & ->);
    (assert (gate_ok (EHandle e s "POST" "/auth/request/verify" body :: h) (set_gate g2 (set_gate g s))) as Hs2;
      [|by inv_pure]).
  all: assert (g2 = Gate.set_tokens (Gate.tokens g2) g ∧ ∃ r2, AuthToken.issue (later e) (str_bytes (b64 raw))
    (cr_tenant_id record) (Challenge.p_scope p) (Gate.tokens g) = (r2, Gate.tokens g2)) as [-> [r2 Hi]] by
    (unfold Gate.grant in Hg; inv_bind Hg; apply Gate.on_tokens_inv in Hrun as (r2 & c & Hr2 & _ & ->);
      inv_pure; eauto).
  all: eapply (gate_ok_grant _ (set_gate g s) (later e) (str_bytes (b64 raw))
      {| g_tenant_id := cr_tenant_id record; g_scope := Challenge.p_scope p; g_expires := later e + token_ttl |});
    [exact Hi|done| |done].
  all: eapply (Approved _ _ _ [] h e s body q cid js asr p record res raw); try done;
    [by eapply ok_challenges, Hp|]; destruct Hp as [_ _ Hl _ _ _].
  all: destruct (store_lookup (raw_id asr) (Gate.credentials (gate s))) as [x c'] eqn:El; simpl in Hl; subst x;
    exact (lookup_tenant _ _ _ _ (ok_cache _ _ Hs0) El).
Qed.
Lemma gate_ok_handle h e s method path body : gate_ok h s →
  gate_ok (EHandle e s method path body :: h) (handle e method path body s).2.
Proof.
  intros Hs. pose proof (gate_ok_cons (EHandle e s method path body) _ _ Hs) as Hs1. unfold handle.
  destruct (strip_prefix AUTH_PREFIX path) as [rest|] eqn:Ep; [|done]. apply strip_prefix_Some in Ep as ->.
  destruct (decide (method ≠ "POST")) as [|Hm%dec_stable]; [done|]. subst method. case_match; [done|].
  unfold dispatch, answer. repeat case_decide; subst.
  - pose proof (gate_ok_register_options (EHandle e s "POST" "/auth/register/options" body :: h) e body s Hs1) as Hr.
    by destruct (register_options e body s) as [[|] ?].
  - pose proof (gate_ok_register_verify (EHandle e s "POST" "/auth/register/verify" body :: h) e body s Hs1) as Hr.
    by destruct (register_verify e body s) as [[|] ?].
  - pose proof (gate_ok_request_options h e s body Hs) as Hr. by destruct (request_options e body s) as [[|] ?].
  - pose proof (gate_ok_request_verify h e s body Hs) as Hr. by destruct (request_verify e body s) as [[|] ?].
  - done.
Qed.
Lemma trace_gate_ok h s : trace h s → gate_ok h s.
Proof.
  induction 1 as [z|h s e m pa b Ht IH Hb Hl|h s t rq Ht IH Hb|h s c Ht IH Hc].
  - by split.
  - by apply gate_ok_handle.
  - apply gate_ok_cons. by apply gate_ok_redeem.
  - apply gate_ok_credentials; [|done]. by eapply cache_ok_step, ok_cache.
Qed.

(** C1: no verified assertion, no guest.  When the gate lets a request through
    as a tenant, some earlier call to [request/verify] minted the token it
    carries, at most the token lifetime ago, for the method, path and query the
    request has; that call carried an assertion that verified, with the person
    verified, by a credential active at that moment whose id names the tenant;
    and it answered a challenge that an earlier call to [request/options]
    issued for the same interaction and an active credential, at most the
    challenge lifetime before.  The token is spent. *)
Theorem guest_needs_assertion h s t rq v g' :
  trace h s → before h t → Gate.redeem t rq (gate s) = (Ok v, g') →
  ∃ tok g, Gate.offered rq = Some tok ∧ sha256 (str_bytes tok) ∉ dom (granted (Gate.tokens g')) ∧
    approved h (sha256 (str_bytes tok)) g ∧ g_tenant_id g = v_tenant_id v ∧
    g_scope g = Gate.request_scope rq ∧ g_expires g - token_ttl ≤ t < g_expires g.
Proof.
  intros Htr%trace_gate_ok Hb E.
  destruct (gate_redeem_inv _ _ _ _ _ E) as [[_ [=]]|(tok & r0 & Ho & Hr & _ & Hv)].
  rewrite (Hv v eq_refl) in Hr. rewrite redeem_run in Hr. injection Hr as Hr Hg'.
  destruct (granted (Gate.tokens (gate s)) !! sha256 (str_bytes tok)) as [g|] eqn:Eg; [|done].
  destruct (Z.leb_spec (g_expires g) t); [done|]. case_decide; simplify_eq.
  pose proof (ok_tokens _ _ Htr _ _ Eg) as Hap.
  exists tok, g. split_and!; [done| |done|congruence|done| |done].
  - rewrite <-Hg'. simpl. by rewrite dom_delete, not_elem_of_difference, elem_of_singleton; right.
  - destruct Hap as [h1 h2 e s0 body q id json a p record res raw -> _ _ _ _ _ _ _ _ _ _ ->].
    apply Forall_app in Hb as [_ [He _]%Forall_cons]. simpl in He. lia.
Qed.

(** ** Registrations *)
Inductive registering (h : list event) (id : bytes) (pr : PendingRegistration) : Prop :=
  | Registering e s body q options :
      EHandle e s "POST" "/auth/register/options" body ∈ h →
      register_options_request body = Some q → random e = Some id →
      start_registration (seed e) (default "cosigner" (display_name q)) = Ok (options, pr_state pr) →
      pr_expires pr = now e + REGISTRATION_TTL → registering h id pr.
Record registrations_ok (h : list event) (m : gmap bytes PendingRegistration) : Prop := {
  registrations_size : Z.of_nat (size m) ≤ MAX_REGISTRATIONS;
  registrations_asked id pr : m !! id = Some pr → registering h id pr }.
Lemma registrations_ok_cons ev h m : registrations_ok h m → registrations_ok (ev :: h) m.
Proof.
  intros [Hs Hr]. split; [done|]. intros id pr [e s body q options Hin]%Hr. econstructor; eauto.
  by apply elem_of_cons; right.
Qed.

(** Only the two registration routes touch the table. *)
Lemma registrations_on_gate {E A} I (m : M (Gate.Gate (FilesystemCredentials Passkey)) E A) :
  preserves (λ s, I (registrations s)) (on_gate m).
Proof. intros s Hs. unfold on_gate, zoom. by destruct (m (gate s)). Qed.
Lemma registrations_or_return {E A} I (f : E → Response) (m : M (Gate.Gate (FilesystemCredentials Passkey)) E A) :
  preserves (λ s, I (registrations s)) (or_return f (on_gate m)).
Proof. apply preserves_or_return, registrations_on_gate. Qed.
Lemma registrations_request_options I e body : preserves (λ s, I (registrations s)) (request_options e body).
Proof.
  unfold request_options, on_store. pose proof (@registrations_or_return). solve_preserves; auto with preserves.
Qed.
Lemma registrations_request_verify I e body : preserves (λ s, I (registrations s)) (request_verify e body).
Proof.
  unfold request_verify. pose proof (@registrations_or_return). solve_preserves; auto with preserves.
Qed.
Lemma register_options_inv e body s r s' : register_options e body s = (r, s') →
  registrations s' = registrations s ∨ registrations s' = sweep pr_expires (now e) (registrations s) ∨
  ∃ q os id m, register_options_request body = Some q ∧ random e = Some id ∧
    start_registration (seed e) (default "cosigner" (display_name q)) = Ok os ∧
    put_fresh pr_expires (now e) MAX_REGISTRATIONS id
      {| pr_state := os.2; pr_expires := now e + REGISTRATION_TTL |} (registrations s) = Some m ∧
    registrations s' = m.
Proof.
  unfold register_options. intros E.
  inv_bind E; apply unwrap_inv in Hrun as [-> Hq]; [|by left]. destruct (register_options_request body) as [q|]; simplify_eq.
  inv_bind E; apply lift_inv in Hrun as [Hst ->]; [apply Gate.map_err_Ok in Hst|by left].
  inv_bind E; apply unwrap_inv in Hrun as [-> Hid]; [|by left]. destruct (random e) as [id|]; simplify_eq.
  right. erewrite mbind_ok in E; [|done]. erewrite mbind_ok in E; [|done].
  inv_bind E; apply ensure_inv in Hrun as [-> Hb]; [|by left]. right.
  inv_bind E; inv_pure. simpl in *. do 4 eexists. split_and!; [done..| |done].
  unfold put_fresh. fold (sweep pr_expires (now e) (registrations s)) in *.
  destruct (Z.leb_spec MAX_REGISTRATIONS (Z.of_nat (size (sweep pr_expires (now e) (registrations s))))); [|done].
  destruct (Z.ltb_spec (Z.of_nat (size (sweep pr_expires (now e) (registrations s)))) MAX_REGISTRATIONS); [lia|done].
Qed.
Lemma registrations_register_options h e s body : registrations_ok h (registrations s) →
  registrations_ok (EHandle e s "POST" "/auth/register/options" body :: h) (registrations (register_options e body s).2).
Proof.
  intros Hs. pose proof (registrations_ok_cons (EHandle e s "POST" "/auth/register/options" body) _ _ Hs) as [Hsz Hr].
  destruct (register_options e body s) as [r s'] eqn:E. simpl.
  destruct (register_options_inv _ _ _ _ _ E) as [->|[->|(q & [options state] & id & m & Hq & Hid & Hst & Hm & ->)]]; [done|..].
  - split; [pose proof (sweep_size pr_expires (now e) (registrations s)); lia|].
    intros id pr [Hl _]%lookup_sweep. by apply Hr.
  - split; [by apply put_fresh_size in Hm|]. intros id' pr. rewrite (lookup_put_fresh _ _ _ _ _ _ _ _ Hm).
    case_decide; subst; [|intros [Hl _]%lookup_sweep; by apply Hr].
    intros [= <-]. eapply (Registering _ _ _ e s body q options); [by left|done..].
Qed.
Lemma registrations_ok_delete h m id : registrations_ok h m → registrations_ok h (delete id m).
Proof.
  intros [Hsz Hr]. split; [pose proof (size_delete_le m id); lia|].
  intros id' pr [_ Hl]%lookup_delete_Some. by apply Hr.
Qed.
Lemma registrations_register_verify I e body : (∀ m id, I m → I (delete id m)) →
  preserves (λ s, I (registrations s)) (register_verify e body).
Proof.
  intros HI. unfold register_verify, on_store. pose proof (@registrations_or_return).
  solve_preserves; auto with preserves. apply preserves_modify. intros s Hs. by apply HI.
Qed.
Lemma answer_registrations I m s : preserves (λ s, I (registrations s)) m → I (registrations s) →
  I (registrations (answer m s).2).
Proof. intros Hm Hs. specialize (Hm s Hs). unfold answer. by destruct (m s) as [[]]. Qed.
Lemma trace_registrations h s : trace h s → registrations_ok h (registrations s).
Proof.
  induction 1 as [z|h s e me pa b Ht IH Hb Hl|h s t rq Ht IH Hb|h s c Ht IH Hc]; [| |by apply registrations_ok_cons|done].
  { split; [done|]. by intros id pr. }
  pose proof (registrations_ok_cons (EHandle e s me pa b) _ _ IH) as IH1. unfold handle.
  destruct (strip_prefix AUTH_PREFIX pa) as [rest|] eqn:Ep; [|done]. apply strip_prefix_Some in Ep as ->.
  destruct (decide (me ≠ "POST")) as [|Hm%dec_stable]; [done|]. subst me. case_match; [done|].
  rewrite (surjective_pairing (answer _ _)). simpl. unfold dispatch. repeat case_decide; subst.
  - pose proof (registrations_register_options h e s b IH) as Hr. unfold answer.
    by destruct (register_options e b s) as [[]].
  - apply (answer_registrations (registrations_ok _)); [|done].
    apply registrations_register_verify. intros. by apply registrations_ok_delete.
  - apply (answer_registrations (registrations_ok _)); [apply registrations_request_options|done].
  - apply (answer_registrations (registrations_ok _)); [apply registrations_request_verify|done].
  - done.
Qed.
Lemma trace_clock h s e s0 me pa b : trace h s → EHandle e s0 me pa b ∈ h → now e ≤ later e.
Proof.
  induction 1 as [z|h s e' me' pa' b' Ht IH Hb Hl|h s t rq Ht IH Hb|h s c Ht IH Hc]; [by intros ?%elem_of_nil| | |done].
  - intros [[= -> -> -> -> ->]|Hin]%elem_of_cons; [done|auto].
  - intros [[=]|Hin]%elem_of_cons. auto.
Qed.
(** What [register_verify] answers 200 to. *)
Lemma register_verify_Ok e body s resp s' : register_verify e body s = (Ok resp, s') →
  ∃ q id pr passkey, register_verify_request body = Some q ∧ decode_id (rv_registration_id q) = Some id ∧
    registrations s !! id = Some pr ∧ now e < pr_expires pr ∧
    finish_passkey_registration (rv_credential q) (pr_state pr) = Ok passkey ∧
    registrations s' = delete id (registrations s) ∧
    ∃ c z x, register (reg_raw_id (rv_credential q)) {| sc_version := RECORD_VERSION; sc_passkey := passkey;
      sc_active := true; sc_created_ms := 0; sc_counter := 0 |} c = (Ok tt, Gate.credentials (gate s')) ∧
      c = set_fc_zfs z (Gate.credentials (gate s)) ∧
      tenant_dir (tenant_of (reg_raw_id (rv_credential q))) (fc_zfs (Gate.credentials (gate s))) = (Ok x, z).
Proof.
  unfold register_verify. intros E.
  inv_bind E; apply unwrap_inv in Hrun as [-> Hq]. destruct (register_verify_request body) as [q|]; simplify_eq.
  inv_bind E; apply unwrap_inv in Hrun as [-> Hid]. destruct (decode_id _) as [id|] eqn:Eid; simplify_eq.
  do 2 (erewrite mbind_ok in E; [|done]).
  inv_bind E; apply unwrap_inv in Hrun as [-> Hp]. destruct (registrations s !! id) as [pr|] eqn:Epr; [|done]. simpl in Hp.
  destruct (Z.ltb_spec (now e) (pr_expires pr)); [|done]. simplify_eq.
  inv_bind E. apply lift_inv in Hrun as [Hf ->]. apply Gate.map_err_Ok in Hf.
  inv_bind E. apply with_context_inv in Hrun as (r0 & Hd & Hr). symmetry in Hr. apply Gate.map_err_Ok in Hr as ->.
  apply on_store_inv in Hd as (c & Hd & ->). apply on_storage_inv in Hd as (z & Hd & ->).
  inv_bind E. apply with_context_inv in Hrun as (r0 & Hg & Hr). symmetry in Hr. apply Gate.map_err_Ok in Hr as ->.
  apply on_store_inv in Hg as (c & Hg & ->). inv_pure. units.
  exists q, id, pr. eexists. split_and!; [done|done|done|done|exact Hf|done|]. do 3 eexists. split_and!; [exact Hg|done|exact Hd].
Qed.

(** C28: a registration is one answer to one request.  The table of pending
    registrations never exceeds its ceiling; a [register/verify] that answers
    200 answers a registration that an earlier [register/options] started, at
    most five minutes before, whose ceremony accepts the credential; the
    credential is stored under its own id, and the registration is gone. *)
Theorem registration_answers_request h s e body q s' :
  trace h s → before h (now e) → register_verify_request body = Some q →
  Z.of_nat (size (registrations s)) ≤ MAX_REGISTRATIONS ∧
  ∀ resp, register_verify e body s = (Ok resp, s') →
    ∃ id pr passkey c, decode_id (rv_registration_id q) = Some id ∧ registering h id pr ∧
      pr_expires pr - REGISTRATION_TTL ≤ now e < pr_expires pr ∧
      finish_passkey_registration (rv_credential q) (pr_state pr) = Ok passkey ∧
      registrations s' !! id = None ∧
      register (reg_raw_id (rv_credential q)) {| sc_version := RECORD_VERSION; sc_passkey := passkey;
        sc_active := true; sc_created_ms := 0; sc_counter := 0 |} c = (Ok tt, Gate.credentials (gate s')).
Proof.
  intros Htr Hb Hq. destruct (trace_registrations _ _ Htr) as [Hsz Hr]. split; [done|]. intros resp E.
  destruct (register_verify_Ok _ _ _ _ _ E) as (q' & id & pr & passkey & Hq' & Hid & Hpr & Hlt & Hf & Hregs & c & z & x & Hreg & _).
  rewrite Hq in Hq'. simplify_eq. pose proof (Hr _ _ Hpr) as Hreg'.
  exists id, pr, passkey, c. split_and!; try done; [|by rewrite Hregs, lookup_delete_eq].
  destruct Hreg' as [e0 s0 body0 q0 options Hin _ _ _ Hexp].
  pose proof (trace_clock _ _ _ _ _ _ _ Htr Hin). unfold before in Hb. rewrite Forall_forall in Hb.
  pose proof (Hb _ Hin). simpl in *. lia.
Qed.
End trace.

(** ** The gate end to end, at concrete calls

    A library that accepts everything, hexadecimal for base64: one passkey is
    registered, asks for a challenge, answers it and spends its token. *)
From S2P Require Import Concrete CredentialsProps.

Module RoutesWitness.
#[local] Instance sha : Sha256 := Concrete.sha.
Definition id1 : bytes := [Byte.x11; Byte.x22].
#[local] Instance webauthn : WebAuthn :=
  {| Passkey := Z; PasskeyAuthentication := list Z; PasskeyRegistration := unit; PublicKeyCredential := bytes;
     RegisterPublicKeyCredential := bytes; RequestChallengeResponse := unit; CreationChallengeResponse := unit;
     start_passkey_authentication _ allowed := Ok (tt, allowed);
     finish_passkey_authentication _ _ := Ok {| user_verified := true; ar_counter := 1 |};
     raw_id a := a; start_registration _ _ := Ok (tt, tt); finish_passkey_registration _ _ := Ok 7;
     reg_raw_id c := c |}.
#[local] Instance stored_codec : Codec (StoredCredential Passkey) := CredentialsWitness.codec.
#[local] Instance hex64 : Base64 := {| b64 := hex_encode; b64_decode := hex_decode |}.
#[local] Instance auth_json : AuthJson :=
  {| register_options_request _ := Some {| display_name := None |};
     register_verify_request b := Some {| rv_registration_id := bytes_str b; rv_credential := id1 : RegisterPublicKeyCredential |};
     request_options_request _ := Some {| qo_credential_id := hex_encode id1; qo_method := "post"; qo_path := "/sign"; qo_query := None |};
     request_verify_request b := Some {| qv_challenge_id := bytes_str b; qv_assertion := "" |};
     assertion_of_json _ := Some (id1 : PublicKeyCredential) |}.

Definition name16 : bytes := replicate 16 Byte.x05.
Definition env (t : Z) (r : bytes) : Env := {| now := t; later := t + 1; random := Some r; seed := [] |}.
Definition fresh : AuthEndpoints := endpoints_new 60000 8 60000 8 (credentials_new (genesis 10 100 [] [[Byte.x0a]; [Byte.x0b]])).
Definition id_body : bytes := str_bytes (hex_encode name16).
Definition call (t : Z) (r : bytes) (path : string) (body : bytes) (s : AuthEndpoints) : AuthEndpoints :=
  (handle (env t r) "POST" path body s).2.
Definition s1 : AuthEndpoints := call 10 name16 "/auth/register/options" [] fresh.
Definition s2 : AuthEndpoints := call 20 [] "/auth/register/verify" id_body s1.
Definition s3 : AuthEndpoints := call 30 name16 "/auth/request/options" [] s2.
Definition s4 : AuthEndpoints := call 40 [Byte.x2a] "/auth/request/verify" id_body s3.
Definition h1 : list event := [EHandle (env 10 name16) fresh "POST" "/auth/register/options" []].
Definition h4 : list event :=
  EHandle (env 40 [Byte.x2a]) s3 "POST" "/auth/request/verify" id_body ::
  EHandle (env 30 name16) s2 "POST" "/auth/request/options" [] ::
  EHandle (env 20 []) s1 "POST" "/auth/register/verify" id_body :: h1.
Lemma before_all h t : Forall (λ ev, event_end ev <=? t = true) h → before h t.
Proof. intros Hh. eapply Forall_impl; [exact Hh|]. intros ev. by rewrite Z.leb_le. Qed.
Lemma trace1 : trace 60000 8 60000 8 h1 s1.
Proof. apply (trace_handle 60000 8 60000 8 [] fresh (env 10 name16)); [apply trace_new|constructor|simpl; lia]. Qed.
Lemma trace4 : trace 60000 8 60000 8 h4 s4.
Proof.
  apply (trace_handle 60000 8 60000 8 _ s3 (env 40 [Byte.x2a])); [|by apply before_all; repeat constructor|simpl; lia].
  apply (trace_handle 60000 8 60000 8 _ s2 (env 30 name16)); [|by apply before_all; repeat constructor|simpl; lia].
  apply (trace_handle 60000 8 60000 8 _ s1 (env 20 [])); [|by apply before_all; repeat constructor|simpl; lia].
  exact trace1.
Qed.
Definition signed : Request :=
  {| rq_method := "POST"; rq_path := "/sign"; rq_query := None;
     rq_headers := [("authorization", str_bytes "Bearer 2a ")] |}.
Definition spent := Gate.redeem 50 signed (gate s4).
Lemma redeem4 : spent = (Ok {| v_tenant_id := tenant_of id1 |}, spent.2).
Proof. apply Concrete.run_split. vm_compute. reflexivity. Qed.

Lemma guest_needs_assertion_witness :
  ∃ g, approved 60000 60000 h4 (sha256 (str_bytes "2a")) g ∧ g_tenant_id g = tenant_of id1 ∧
    g_scope g = scope_new "POST" "/sign" None.
Proof.
  destruct (guest_needs_assertion 60000 8 60000 8 h4 s4 50 signed _ _ trace4
    (before_all h4 50 ltac:(repeat constructor)) redeem4) as (tok & g & Ho & _ & Hap & Ht & Hs & _).
  assert (Gate.offered signed = Some "2a") as Ho2 by (vm_compute; reflexivity).
  rewrite Ho2 in Ho. injection Ho as <-. exists g. exact (conj Hap (conj Ht Hs)).
Defined.
Definition registered := register_verify (env 20 []) id_body s1.
Definition answer2 : Response := match registered.1 with Ok r | Err r => r end.
Lemma register2 : registered = (Ok answer2, registered.2).
Proof. apply Concrete.run_split. vm_compute. reflexivity. Qed.
Lemma registration_answers_request_witness :
  ∃ pr, registering h1 name16 pr ∧ registrations registered.2 !! name16 = None.
Proof.
  destruct (registration_answers_request 60000 8 60000 8 h1 s1 (env 20 []) id_body
    (@Build_RegisterVerifyRequest webauthn (bytes_str id_body) id1) registered.2 trace1
    (before_all h1 20 ltac:(repeat constructor)) eq_refl) as [_ Hans].
  destruct (Hans _ register2) as (id & pr & passkey & c & Hid & Hreg & _ & _ & Hnone & _).
  assert (decode_id (bytes_str id_body) = Some name16) as Hid2 by (vm_compute; reflexivity).
  simpl in Hid. rewrite Hid2 in Hid. injection Hid as <-. exists pr. exact (conj Hreg Hnone).
Defined.
End RoutesWitness.
