(* ===== verification/Egress.v ===== *)
(** * Where a guest may send: [serve/egress.rs]

    The rule is on addresses, not names: [admits] decides, on the address in
    its canonical form.  DNS, TLS and the sockets are outside; [lookup_host] is
    a parameter, and what [send] does with its answer is here.

    Addresses are integers: an IPv4 address is a u32, an IPv6 one a u128. *)
From S2P Require Import Prelude Http.

(** ** Addresses: [std::net] *)
Inductive IpAddr := V4 (ip : Z) | V6 (ip : Z).
#[export] Instance ip_eq_dec : EqDecision IpAddr.
Proof. solve_decision. Defined.
Record SocketAddr := { sa_ip : IpAddr; sa_port : Z }.
Definition octet (i ip : Z) : Z := Z.land (Z.shiftr ip (8 * (3 - i))) 255.
(** [IpAddr::to_canonical]: an IPv4-mapped IPv6 address (::ffff:a.b.c.d) is that IPv4 one. *)
Definition to_canonical (a : IpAddr) : IpAddr :=
  match a with
  | V4 ip => V4 ip
  | V6 ip => if Z.shiftr ip 32 =? 65535 then V4 (Z.land ip 4294967295) else V6 ip
  end.
(** [Ipv4Addr::is_private], [is_loopback], [is_link_local], [is_documentation]. *)
Definition is_private (a b : Z) : bool :=
  (a =? 10) || ((a =? 172) && (16 <=? b) && (b <=? 31)) || ((a =? 192) && (b =? 168)).
Definition is_loopback (a : Z) : bool := a =? 127.
Definition is_link_local (a b : Z) : bool := (a =? 169) && (b =? 254).
Definition is_documentation (a b c : Z) : bool :=
  ((a =? 192) && (b =? 0) && (c =? 2)) || ((a =? 198) && (b =? 51) && (c =? 100)) ||
  ((a =? 203) && (b =? 0) && (c =? 113)).

(** 192.168.127.254 *)
Definition DEV_HOST : Z := Z.lor (Z.lor (Z.shiftl 192 24) (Z.shiftl 168 16)) (Z.lor (Z.shiftl 127 8) 254).

Definition admits (addr : SocketAddr) (dev_host : option (list Z)) : bool :=
  match to_canonical (sa_ip addr) with
  | V6 _ => false
  | V4 ip =>
      match (if ip =? DEV_HOST then dev_host else None) with
      | Some own => bool_decide (sa_port addr ∉ own)
      | None =>
          let a := octet 0 ip in let b := octet 1 ip in let c := octet 2 ip in
          negb ((a =? 0) || (224 <=? a) || is_private a b || is_loopback a || is_link_local a b ||
            is_documentation a b c || ((a =? 100) && (Z.land b 192 =? 64)) ||
            ((a =? 198) && (Z.land b 254 =? 18)) || ((a =? 192) && (b =? 0) && (c =? 0)))
      end
  end.

(** ** Resolving *)
Inductive ErrorCode := DnsError | DestinationIpProhibited | HttpRequestUriInvalid.
Definition public_addrs (lookup_host : option (list SocketAddr)) (dev_host : option (list Z)) :
    result ErrorCode (list SocketAddr) :=
  found ← ok_or lookup_host DnsError;
  let resolved := (λ a, {| sa_ip := to_canonical (sa_ip a); sa_port := sa_port a |}) <$> found in
  let admitted := filter (λ a, admits a dev_host = true) resolved in
  if decide (admitted = []) then Err DestinationIpProhibited else Ok admitted.

(** ** Origins *)
Record Origin := { tls : bool; host : string; port : Z }.
#[export] Instance origin_eq_dec : EqDecision Origin.
Proof. solve_decision. Defined.

(** [str::contains] of a character, [str::rsplit_once] at one. *)
Fixpoint contains_char (p : Ascii.ascii → bool) (s : string) : bool :=
  match s with "" => false | String c s => p c || contains_char p s end.
Fixpoint rsplit_once (d : Ascii.ascii) (s : string) : option (string * string) :=
  match s with
  | "" => None
  | String c s =>
      match rsplit_once d s with
      | Some (a, b) => Some (String c a, b)
      | None => if decide (c = d) then Some ("", s) else None
      end
  end.
Definition ch (n : Z) : Ascii.ascii := Ascii.ascii_of_N (Z.to_N n).
(** [str::parse::<u16>]: an optional plus sign, then digits. *)
Fixpoint parse_digits (acc : Z) (s : string) : option Z :=
  match s with
  | "" => Some acc
  | String c s => if is_ascii_digit c then parse_digits (10 * acc + (char_code c - 48)) s else None
  end.
Definition parse_u16 (s : string) : option Z :=
  let s := default s (strip_prefix "+" s) in
  if decide (s = "") then None
  else n ← parse_digits 0 s; if n <=? 65535 then Some n else None.

Definition origin_special (c : Ascii.ascii) : bool :=
  (char_code c =? 47) || (char_code c =? 63) || (char_code c =? 35) || (char_code c =? 64) || (char_code c =? 42).
Definition host_char (c : Ascii.ascii) : bool :=
  is_ascii_alphanumeric c || (char_code c =? 46) || (char_code c =? 45) || (char_code c =? 91) ||
  (char_code c =? 93) || (char_code c =? 58).
Definition bracketed (h : string) : bool :=
  negb (contains_char (λ c, char_code c =? 93) h) || ends_with "]" h.

(** [Origin::parse], from the text after the scheme on. *)
Definition parse_tail (tls : bool) (rest : string) : result string Origin :=
  let rest := default rest (strip_suffix "/" rest) in
  _ ← check (negb (bool_decide (rest = "") || contains_char origin_special rest))
        "guest egress origin must be scheme://host[:port] and nothing else";
  '(host, port) ←
    match rsplit_once (ch 58) rest with
    | Some (host, port) =>
        if bracketed host then
          p ← ok_or (p ← parse_u16 port; if p =? 0 then None else Some p) "guest egress origin has an invalid port";
          Ok (host, p)
        else Ok (rest, if tls then 443 else 80)
    | None => Ok (rest, if tls then 443 else 80)
    end;
  _ ← check (negb (bool_decide (host = "")) && all_chars host_char host) "guest egress origin has an invalid host";
  Ok {| tls := tls; host := to_ascii_lowercase host; port := port |}.
Definition parse (s : string) : result string Origin :=
  let s := trim s in
  match strip_prefix "https://" s with
  | Some rest => parse_tail true rest
  | None =>
      match strip_prefix "http://" s with
      | Some rest => parse_tail false rest
      | None => Err "guest egress origin must start with https:// or http://"
      end
  end.

(** [Display for Origin] *)
Definition origin_display (o : Origin) : string :=
  (if tls o then "https" else "http") +:+ "://" +:+ host o +:+ ":" +:+ pretty (port o).

(** ** What [send] puts on the wire *)
Fixpoint trim_start_matches (c : Ascii.ascii) (s : string) : string :=
  match s with String d s' => if decide (c = d) then trim_start_matches c s' else s | "" => "" end.
Definition trim_end_matches (c : Ascii.ascii) (s : string) : string :=
  string_rev (trim_start_matches c (string_rev s)).
(** The name looked up. *)
Definition lookup_name (o : Origin) : string := trim_end_matches (ch 93) (trim_start_matches (ch 91) (host o)).
Definition default_host (o : Origin) : string :=
  if (tls o && (port o =? 443)) || (negb (tls o) && (port o =? 80)) then host o
  else host o +:+ ":" +:+ pretty (port o).
(** The addresses dialled and the headers sent: the origin's, and no other's. *)
Definition send (o : Origin) (lookup_host : string → Z → option (list SocketAddr)) (dev_host : option (list Z))
    (hs : headers) : result ErrorCode (list SocketAddr * headers) :=
  addrs ← public_addrs (lookup_host (lookup_name o) (port o)) dev_host;
  Ok (addrs, if decide (header_get_all "host" hs = [])
             then header_insert "host" (str_bytes (default_host o)) hs else hs).
Example parse1 : parse " https://Example.com/ " = Ok {| tls := true; host := "example.com"; port := 443 |}.
Proof. reflexivity. Qed.
Example parse2 : parse "http://[::1]:8080" = Ok {| tls := false; host := "[::1]"; port := 8080 |}.
Proof. reflexivity. Qed.
Example parse3 : is_ok (parse "http://h:0") = false. Proof. reflexivity. Qed.
