(* ===== verification/EgressProps.v ===== *)
(** * Egress: the public internet and nothing else; origins read back

    [special_blocks] is the rule as the registries write it, CIDR blocks. *)
From S2P Require Import Prelude Http Egress.

(** Quotients and remainders by constants. *)
Ltac div_lia := Z.to_euclidean_division_equations; lia.

Definition addr4 (a b c d : Z) : Z := ((a * 256 + b) * 256 + c) * 256 + d.
Definition special_blocks : list (Z * Z) :=
  [(addr4 0 0 0 0, 8); (addr4 10 0 0 0, 8); (addr4 100 64 0 0, 10); (addr4 127 0 0 0, 8);
   (addr4 169 254 0 0, 16); (addr4 172 16 0 0, 12); (addr4 192 0 0 0, 24); (addr4 192 0 2 0, 24);
   (addr4 192 168 0 0, 16); (addr4 198 18 0 0, 15); (addr4 198 51 100 0, 24); (addr4 203 0 113 0, 24);
   (addr4 224 0 0 0, 3)].
Definition in_block (ip : Z) (blk : Z * Z) : bool :=
  ip / 2 ^ (32 - blk.2) =? blk.1 / 2 ^ (32 - blk.2).
Definition public (ip : Z) : Prop := Forall (λ blk, in_block ip blk = false) special_blocks.

Lemma octet_div i ip : 0 ≤ i ≤ 3 → octet i ip = (ip / 2 ^ (8 * (3 - i))) mod 256.
Proof.
  intros Hi. unfold octet. rewrite Z.shiftr_div_pow2 by lia. by rewrite (Z.land_ones _ 8) by lia.
Qed.
Lemma octets_addr4 a b c d : 0 ≤ a < 256 → 0 ≤ b < 256 → 0 ≤ c < 256 → 0 ≤ d < 256 →
  octet 0 (addr4 a b c d) = a ∧ octet 1 (addr4 a b c d) = b ∧ octet 2 (addr4 a b c d) = c.
Proof.
  intros. rewrite !octet_div by lia. unfold addr4.
  change (2 ^ (8 * (3 - 0))) with 16777216. change (2 ^ (8 * (3 - 1))) with 65536. change (2 ^ (8 * (3 - 2))) with 256.
  split_and!; div_lia.
Qed.
Lemma addr4_split ip : 0 ≤ ip < 2 ^ 32 → ∃ a b c d, ip = addr4 a b c d ∧
  0 ≤ a < 256 ∧ 0 ≤ b < 256 ∧ 0 ≤ c < 256 ∧ 0 ≤ d < 256.
Proof.
  intros H. exists (ip / 16777216), (ip / 65536 mod 256), (ip / 256 mod 256), (ip mod 256).
  unfold addr4. split_and!; div_lia.
Qed.
(** The two masked comparisons, by their 256 cases. *)
Lemma masks b : 0 ≤ b < 256 → (Z.land b 192 =? 64) = (b / 64 =? 1) ∧ (Z.land b 254 =? 18) = (b / 2 =? 9).
Proof.
  intros Hb. assert (b ∈ seqZ 0 256) as Hin%list_elem_of_In by (apply elem_of_seqZ; lia).
  assert (forallb (λ b, eqb (Z.land b 192 =? 64) (b / 64 =? 1) && eqb (Z.land b 254 =? 18) (b / 2 =? 9))
    (seqZ 0 256) = true) as Hall by (vm_compute; reflexivity).
  rewrite forallb_forall in Hall. specialize (Hall b Hin). apply andb_true_iff in Hall as [H1 H2].
  by rewrite (eqb_prop _ _ H1), (eqb_prop _ _ H2).
Qed.
(** The prefix of an address of each length the blocks use. *)
Lemma prefixes a b c d : 0 ≤ a < 256 → 0 ≤ b < 256 → 0 ≤ c < 256 → 0 ≤ d < 256 → let ip := addr4 a b c d in
  ip / 2 ^ (32 - 3) = a / 32 ∧ ip / 2 ^ (32 - 8) = a ∧ ip / 2 ^ (32 - 10) = a * 4 + b / 64 ∧
  ip / 2 ^ (32 - 12) = a * 16 + b / 16 ∧ ip / 2 ^ (32 - 15) = a * 128 + b / 2 ∧ ip / 2 ^ (32 - 16) = a * 256 + b ∧
  ip / 2 ^ (32 - 24) = (a * 256 + b) * 256 + c.
Proof.
  intros. unfold ip, addr4. change (2 ^ (32 - 3)) with 536870912. change (2 ^ (32 - 8)) with 16777216.
  change (2 ^ (32 - 10)) with 4194304. change (2 ^ (32 - 12)) with 1048576. change (2 ^ (32 - 15)) with 131072.
  change (2 ^ (32 - 16)) with 65536. change (2 ^ (32 - 24)) with 256. split_and!; div_lia.
Qed.
(** Each length of prefix against the octets it compares. *)
Ltac block_lia := apply eq_iff_eq_true; rewrite ?andb_true_iff, ?Z.eqb_eq, ?Z.leb_le; lia.
Lemma block16 a b x y : 0 ≤ b < 256 → 0 ≤ y < 256 → (a * 256 + b =? x * 256 + y) = (a =? x) && (b =? y).
Proof. intros. block_lia. Qed.
Lemma block24 a b c x y z : 0 ≤ b < 256 → 0 ≤ y < 256 → 0 ≤ c < 256 → 0 ≤ z < 256 →
  ((a * 256 + b) * 256 + c =? (x * 256 + y) * 256 + z) = (a =? x) && (b =? y) && (c =? z).
Proof. intros. block_lia. Qed.
Lemma block_part a q n x y : 0 ≤ q < n → 0 ≤ y < n → (a * n + q =? x * n + y) = (a =? x) && (q =? y).
Proof.
  intros. apply eq_iff_eq_true. rewrite andb_true_iff, !Z.eqb_eq. split; [|by intros [-> ->]].
  intros Heq. assert (a = x) as ->; [|split; [done|lia]].
  transitivity ((a * n + q) / n); [|rewrite Heq]; rewrite Z.div_add_l, Z.div_small by lia; lia.
Qed.
Lemma block3 a : 0 ≤ a < 256 → (a / 32 =? 7) = (224 <=? a).
Proof. intros. apply eq_iff_eq_true. rewrite Z.eqb_eq, Z.leb_le. div_lia. Qed.
Lemma block12 a b : 0 ≤ b < 256 → (a * 16 + b / 16 =? 172 * 16 + 1) = (a =? 172) && (16 <=? b) && (b <=? 31).
Proof.
  intros. assert (0 ≤ b / 16 < 16) as Hq by div_lia. rewrite block_part by lia.
  rewrite <-andb_assoc. f_equal. apply eq_iff_eq_true. rewrite andb_true_iff, Z.eqb_eq, !Z.leb_le. div_lia.
Qed.
Lemma div_range b n : 0 ≤ b < 256 → 0 < n → 256 mod n = 0 → 0 ≤ b / n < 256 / n.
Proof. intros. Z.to_euclidean_division_equations. nia. Qed.
Lemma public_octets a b c d : 0 ≤ a < 256 → 0 ≤ b < 256 → 0 ≤ c < 256 → 0 ≤ d < 256 →
  public (addr4 a b c d) ↔
  negb ((a =? 0) || (224 <=? a) || is_private a b || is_loopback a || is_link_local a b ||
        is_documentation a b c || ((a =? 100) && (b / 64 =? 1)) ||
        ((a =? 198) && (b / 2 =? 9)) || ((a =? 192) && (b =? 0) && (c =? 0))) = true.
Proof.
  intros Ha Hb Hc Hd. destruct (prefixes a b c d Ha Hb Hc Hd) as (E3 & E8 & E10 & E12 & E15 & E16 & E24).
  pose proof (div_range b 64 Hb ltac:(lia) eq_refl) as H64. pose proof (div_range b 2 Hb ltac:(lia) eq_refl) as H2.
  change (256 / 64) with 4 in H64. change (256 / 2) with 128 in H2.
  unfold public, special_blocks. rewrite !Forall_cons. unfold in_block. cbn [fst snd].
  rewrite E3, E8, E10, E12, E15, E16, E24.
  change (addr4 0 0 0 0 / 2 ^ (32 - 8)) with 0. change (addr4 10 0 0 0 / 2 ^ (32 - 8)) with 10.
  change (addr4 127 0 0 0 / 2 ^ (32 - 8)) with 127. change (addr4 224 0 0 0 / 2 ^ (32 - 3)) with 7.
  change (addr4 100 64 0 0 / 2 ^ (32 - 10)) with (100 * 4 + 1). change (addr4 172 16 0 0 / 2 ^ (32 - 12)) with (172 * 16 + 1).
  change (addr4 198 18 0 0 / 2 ^ (32 - 15)) with (198 * 128 + 9).
  change (addr4 169 254 0 0 / 2 ^ (32 - 16)) with (169 * 256 + 254). change (addr4 192 168 0 0 / 2 ^ (32 - 16)) with (192 * 256 + 168).
  change (addr4 192 0 0 0 / 2 ^ (32 - 24)) with ((192 * 256 + 0) * 256 + 0).
  change (addr4 192 0 2 0 / 2 ^ (32 - 24)) with ((192 * 256 + 0) * 256 + 2).
  change (addr4 198 51 100 0 / 2 ^ (32 - 24)) with ((198 * 256 + 51) * 256 + 100).
  change (addr4 203 0 113 0 / 2 ^ (32 - 24)) with ((203 * 256 + 0) * 256 + 113).
  rewrite block3, block12, !block24, !block16 by lia. rewrite (block_part _ (b / 64)), (block_part _ (b / 2)) by lia.
  unfold is_private, is_loopback, is_link_local, is_documentation.
  rewrite negb_true_iff, !orb_false_iff, Forall_nil. tauto.
Qed.

(** An address as the standard library has them. *)
Definition ip_range (a : IpAddr) : Prop := match a with V4 ip => 0 ≤ ip < 2 ^ 32 | V6 ip => 0 ≤ ip < 2 ^ 128 end.
(** [ip] is the IPv4 address that [a] is: written as such, or mapped into IPv6
    as ::ffff:a.b.c.d. *)
Definition ipv4_of (a : IpAddr) (ip : Z) : Prop :=
  0 ≤ ip < 2 ^ 32 ∧ (a = V4 ip ∨ a = V6 (65535 * 2 ^ 32 + ip)).
Lemma canonical_ipv4 a ip : ip_range a → to_canonical a = V4 ip ↔ ipv4_of a ip.
Proof.
  unfold ipv4_of, to_canonical. change 4294967295 with (Z.ones 32). destruct a as [x|x]; cbn [ip_range]; intros Hr.
  - split; [intros [= ->]; by auto|intros [_ [[= ->]|[=]]]; done].
  - rewrite Z.shiftr_div_pow2, Z.land_ones by lia. destruct (Z.eqb_spec (x / 2 ^ 32) 65535) as [E|E].
    + split; [intros [= <-]|intros [Hi [[=]|[= ->]]]; f_equal; div_lia].
      split; [apply Z.mod_pos_bound; lia|]. right. f_equal. rewrite <- E. rewrite (Z.mul_comm _ (2 ^ 32)). apply Z_div_mod_eq_full.
    + split; [done|]. intros [Hi [[=]|[= ->]]]. destruct E. div_lia.
Qed.
Lemma canonical_V4 a ip : ip_range a → to_canonical a = V4 ip → 0 ≤ ip < 2 ^ 32.
Proof. by intros Hr [? _]%canonical_ipv4. Qed.
Lemma admits_V4 ip port : 0 ≤ ip < 2 ^ 32 → admits {| sa_ip := V4 ip; sa_port := port |} None = true ↔ public ip.
Proof.
  intros Hip. unfold admits. cbn [sa_ip to_canonical].
  replace (if ip =? DEV_HOST then None else None) with (@None (list Z)) by by case_match.
  destruct (addr4_split _ Hip) as (a & b & c & d & -> & Ha & Hb & Hcc & Hd).
  destruct (octets_addr4 a b c d Ha Hb Hcc Hd) as (-> & -> & ->). destruct (masks b Hb) as [-> ->].
  symmetry. by apply public_octets.
Qed.
Lemma admits_canonical a port : admits {| sa_ip := to_canonical a; sa_port := port |} None = admits {| sa_ip := a; sa_port := port |} None.
Proof.
  unfold admits. cbn [sa_ip sa_port]. assert (to_canonical (to_canonical a) = to_canonical a) as ->; [|done].
  unfold to_canonical. destruct a as [x|x]; [done|]. by destruct (Z.shiftr x 32 =? 65535) eqn:E; rewrite ?E.
Qed.

(** C26: the rule admits the public internet and nothing else.  With no
    development host, an address, of either family, is admitted exactly when it
    is an IPv4 one, written as such or mapped into IPv6, outside every
    special-purpose block of the registries.  A request is sent to an address
    exactly when it is one of those, in its IPv4 form, that the origin's name
    resolved to, on the port it resolved with; when there is none, the request
    is refused. *)
Theorem admits_public :
  (∀ addr, ip_range (sa_ip addr) → (admits addr None = true ↔ ∃ ip, ipv4_of (sa_ip addr) ip ∧ public ip)) ∧
  (∀ o lookup_host hs found, lookup_host (lookup_name o) (port o) = Some found → Forall (λ a, ip_range (sa_ip a)) found →
    match send o lookup_host None hs with
    | Ok (addrs, _) => addrs ≠ [] ∧ ∀ a, a ∈ addrs ↔
        ∃ ip b, a = {| sa_ip := V4 ip; sa_port := sa_port b |} ∧ b ∈ found ∧ ipv4_of (sa_ip b) ip ∧ public ip
    | Err e => e = DestinationIpProhibited ∧ ∀ a ip, a ∈ found → ipv4_of (sa_ip a) ip → ¬ public ip
    end).
Proof.
  assert (∀ addr, ip_range (sa_ip addr) → (admits addr None = true ↔ ∃ ip, ipv4_of (sa_ip addr) ip ∧ public ip)) as Ha.
  { intros [a port] Hr. cbn [sa_ip] in *. rewrite <- admits_canonical. destruct (to_canonical a) as [ip|ip] eqn:Ec.
    - rewrite admits_V4 by by eapply canonical_V4. apply canonical_ipv4 in Ec; [|done]. split; [by eauto|].
      intros (ip' & Hi%canonical_ipv4 & Hp); [|done]. apply canonical_ipv4 in Ec; [|done]. congruence.
    - assert (to_canonical (V6 ip) = V6 ip) as E6.
      { rewrite <- Ec. unfold to_canonical. destruct a as [x|x]; [done|]. by destruct (Z.shiftr x 32 =? 65535) eqn:E; rewrite ?E. }
      unfold admits. cbn [sa_ip]. rewrite E6. split; [done|]. intros (ip' & Hi%canonical_ipv4 & _); [congruence|done]. }
  split; [exact Ha|]. intros o lookup_host hs found Hl Hf. unfold send, public_addrs. rewrite Hl. unfold ok_or. unfold_m.
  set (resolved := (λ a, {| sa_ip := to_canonical (sa_ip a); sa_port := sa_port a |}) <$> found). assert (∀ a, a ∈ filter (λ a, admits a None = true) resolved ↔
    ∃ ip b, a = {| sa_ip := V4 ip; sa_port := sa_port b |} ∧ b ∈ found ∧ ipv4_of (sa_ip b) ip ∧ public ip) as Hin.
  { intros a. rewrite list_elem_of_filter. unfold resolved. rewrite list_elem_of_fmap. rewrite Forall_forall in Hf. split.
    - intros [Had (b & -> & Hb)]. specialize (Hf _ Hb). destruct b as [b port]. cbn [sa_ip sa_port] in *.
      rewrite admits_canonical in Had. apply Ha in Had as (ip & Hi & Hp); [|done]. exists ip, {| sa_ip := b; sa_port := port |}.
      split_and!; try done. f_equal. by apply canonical_ipv4.
    - intros (ip & b & -> & Hb & Hi & Hp). specialize (Hf _ Hb). split.
      + apply admits_V4; [by destruct Hi|done].
      + exists b. split; [|done]. f_equal. symmetry. by apply canonical_ipv4. }
  case_decide as Hne; [split; [done|]|by split].
  intros a ip Hin' Hi Hp. apply (not_elem_of_nil {| sa_ip := V4 ip; sa_port := sa_port a |}).
  rewrite <- Hne. apply Hin. by exists ip, a.
Qed.

(** ** Decimal numbers *)
Lemma pretty_char x : (x < 10)%N →
  is_ascii_digit (pretty_N_char x) = true ∧ char_code (pretty_N_char x) = 48 + Z.of_N x.
Proof.
  intros Hx. assert (x = 0 ∨ x = 1 ∨ x = 2 ∨ x = 3 ∨ x = 4 ∨ x = 5 ∨ x = 6 ∨ x = 7 ∨ x = 8 ∨ x = 9)%N as Hc by lia.
  repeat destruct Hc as [->|Hc]; [split; reflexivity..|]. subst. split; reflexivity.
Qed.
Lemma pretty_go_digits x s : all_chars is_ascii_digit s = true →
  all_chars is_ascii_digit (pretty_N_go x s) = true ∧ parse_digits 0 (pretty_N_go x s) = parse_digits (Z.of_N x) s.
Proof.
  revert s. induction (N.lt_wf_0 x) as [x _ IH]; intros s Hs.
  destruct (decide (x = 0)%N) as [->|Hx]; [by rewrite pretty_N_go_0|].
  assert (x mod 10 < 10)%N as Hm by (apply N.mod_lt; lia). destruct (pretty_char _ Hm) as [Hd Hc].
  rewrite pretty_N_go_step by lia. destruct (IH (x / 10)%N ltac:(apply N.div_lt; lia)
    (String (pretty_N_char (x mod 10)) s)) as [H1 H2]; [simpl; by rewrite Hd|].
  split; [done|]. rewrite H2. simpl. rewrite Hd, Hc. f_equal.
  rewrite N2Z.inj_div, N2Z.inj_mod. change (Z.of_N 10) with 10. div_lia.
Qed.
Lemma pretty_digits n : 0 ≤ n →
  all_chars is_ascii_digit (pretty n) = true ∧ pretty n ≠ "" ∧ parse_digits 0 (pretty n) = Some n.
Proof.
  intros Hn. destruct n as [|p|p]; [done| |lia]. change (pretty (Z.pos p)) with (pretty_N_go (N.pos p) "").
  destruct (pretty_go_digits (N.pos p) "" eq_refl) as [H1 H2]. split_and!; [done| |done].
  intros He. rewrite He in H2. simpl in H2. injection H2. lia.
Qed.
Lemma parse_u16_pretty n : 0 ≤ n ≤ 65535 → parse_u16 (pretty n) = Some n.
Proof.
  intros Hn. destruct (pretty_digits n ltac:(lia)) as (Hd & He & Hp). unfold parse_u16.
  assert (strip_prefix "+" (pretty n) = None) as ->.
  { destruct (pretty n) as [|c s]; [done|]. simpl in *. case_decide; [by subst|done]. }
  simpl. rewrite decide_False by done. rewrite Hp. simpl. by destruct (Z.leb_spec n 65535); [|lia].
Qed.

(** ** Text that [trim] leaves alone *)
Lemma strip_prefix_head p c s :
  match p with String d _ => d ≠ c | "" => False end → strip_prefix p (String c s) = None.
Proof. destruct p as [|d p]; [done|]. simpl. intros Hd. by rewrite decide_False. Qed.
Definition graphic (c : Ascii.ascii) : bool := is_between 33 126 c.
Lemma no_space_before c s : graphic c = true → strip_first strip_prefix white_spaces (String c s) = None.
Proof.
  intros Hc. unfold strip_first.
  assert (forallb (λ p, match p with String d _ => negb (graphic d) | "" => false end) white_spaces = true) as Hall
    by (vm_compute; reflexivity).
  induction white_spaces as [|p ps IH]; [done|]. simpl in *. apply andb_true_iff in Hall as [Hp Hps].
  rewrite strip_prefix_head; [by apply IH|]. destruct p as [|d p]; [done|]. intros ->. by rewrite Hc in Hp.
Qed.
Lemma no_space_after c s : graphic c = true → strip_first strip_suffix white_spaces (string_rev (String c s)) = None.
Proof.
  intros Hc. unfold strip_first.
  assert (forallb (λ p, match string_rev p with String d _ => negb (graphic d) | "" => false end) white_spaces = true) as Hall
    by (vm_compute; reflexivity).
  induction white_spaces as [|p ps IH]; [done|]. simpl in *. apply andb_true_iff in Hall as [Hp Hps].
  unfold strip_suffix at 1. rewrite string_rev_involutive, strip_prefix_head; [by apply IH|].
  destruct (string_rev p) as [|d p']; [done|]. intros ->. by rewrite Hc in Hp.
Qed.
Lemma strip_all_None strip n s : strip s = None → strip_all strip n s = s.
Proof. intros Hs. destruct n; simpl; by rewrite ?Hs. Qed.
Lemma trim_graphic c s c' s' : String c s = string_rev (String c' s') → graphic c = true → graphic c' = true →
  trim (String c s) = String c s.
Proof.
  intros Heq Hc Hc'. unfold trim, trim_start. rewrite strip_all_None by by apply no_space_before.
  unfold trim_end. apply strip_all_None. rewrite Heq. by apply no_space_after.
Qed.
Lemma string_rev_cons c s : string_rev (String c s) = string_rev s +:+ String c "".
Proof. change (String c s) with (String c "" +:+ s). rewrite string_rev_app. f_equal. exact (bytes_str_bytes (String c "")). Qed.
Lemma all_chars_rev p s : all_chars p (string_rev s) = all_chars p s.
Proof.
  induction s as [|c s IH]; [done|]. rewrite string_rev_cons, all_chars_app, IH. simpl.
  rewrite andb_true_r. apply andb_comm.
Qed.
Lemma last_char p s : s ≠ "" → all_chars p s = true → ∃ c s', string_rev s = String c s' ∧ p c = true.
Proof.
  intros Hs Hp. rewrite <-all_chars_rev in Hp. destruct (string_rev s) as [|c s'] eqn:E.
  - apply (f_equal string_rev) in E. by rewrite string_rev_involutive in E.
  - exists c, s'. split; [done|]. simpl in Hp. by apply andb_true_iff in Hp as [? _].
Qed.
Lemma contains_char_app p a b : contains_char p (a +:+ b) = contains_char p a || contains_char p b.
Proof. induction a as [|c a IH]; [done|]. simpl. rewrite IH. by rewrite orb_assoc. Qed.
Lemma contains_none p q s : (∀ c, p c = true → q c = false) → all_chars p s = true → contains_char q s = false.
Proof.
  intros Hpq. induction s as [|c s IH]; [done|]. simpl. intros [Hc Hs]%andb_true_iff. by rewrite Hpq, IH.
Qed.
Lemma rsplit_once_app d a b : contains_char (λ c, bool_decide (c = d)) b = false →
  rsplit_once d (a +:+ String d b) = Some (a, b).
Proof.
  intros Hb. assert (rsplit_once d b = None) as Hn.
  { induction b as [|c b IH]; [done|]. simpl in *. apply orb_false_iff in Hb as [Hc Hb].
    rewrite IH by done. by rewrite bool_decide_eq_false in Hc; case_decide. }
  induction a as [|c a IH]; simpl; [rewrite Hn; by case_decide|by rewrite IH].
Qed.
(** Character classes, by their 256 cases. *)
Lemma char_cases (p : Ascii.ascii → bool) :
  forallb p (Ascii.ascii_of_N ∘ N.of_nat <$> seq 0 256) = true → ∀ c, p c = true.
Proof.
  intros Hall c. rewrite forallb_forall in Hall. apply Hall, list_elem_of_In, list_elem_of_fmap.
  exists (N.to_nat (Ascii.N_of_ascii c)).
  split; [unfold compose; by rewrite N2Nat.id, Ascii.ascii_N_embedding|].
  apply elem_of_seq. pose proof (Ascii.N_ascii_bounded c). lia.
Qed.
Lemma implb_char (p q : Ascii.ascii → bool) :
  forallb (λ c, implb (p c) (q c)) (Ascii.ascii_of_N ∘ N.of_nat <$> seq 0 256) = true → ∀ c, p c = true → q c = true.
Proof. intros Hall c Hp. pose proof (char_cases _ Hall c) as H. simpl in H. by rewrite Hp in H. Qed.
Lemma host_not_special c : host_char c = true → origin_special c = false.
Proof. rewrite <-negb_true_iff. apply (implb_char host_char (λ c, negb (origin_special c))). vm_compute. reflexivity. Qed.
Lemma digit_not_special c : is_ascii_digit c = true → origin_special c = false.
Proof. rewrite <-negb_true_iff. apply (implb_char is_ascii_digit (λ c, negb (origin_special c))). vm_compute. reflexivity. Qed.
Lemma digit_graphic c : is_ascii_digit c = true → graphic c = true.
Proof. apply implb_char. vm_compute. reflexivity. Qed.
Lemma digit_not_colon c : is_ascii_digit c = true → bool_decide (c = ch 58) = false.
Proof.
  rewrite <-negb_true_iff. refine (implb_char is_ascii_digit (λ c0, negb (bool_decide (c0 = ch 58))) _ c).
  vm_compute. reflexivity.
Qed.
Lemma host_lower c : host_char c = true → host_char (to_lower_char c) = true.
Proof. apply (implb_char host_char (λ c, host_char (to_lower_char c))). vm_compute. reflexivity. Qed.
Lemma lower_lower c : to_lower_char (to_lower_char c) = to_lower_char c.
Proof.
  apply (bool_decide_eq_true_1 (to_lower_char (to_lower_char c) = to_lower_char c)).
  refine (char_cases (λ c0, bool_decide (to_lower_char (to_lower_char c0) = to_lower_char c0)) _ c).
  vm_compute. reflexivity.
Qed.
Lemma host_lowercase h : all_chars host_char h = true → all_chars host_char (to_ascii_lowercase h) = true.
Proof.
  unfold to_ascii_lowercase. induction h as [|c h IH]; [done|]. simpl. intros [Hc Hh]%andb_true_iff.
  by rewrite host_lower, IH.
Qed.
Lemma lowercase_idem h : to_ascii_lowercase (to_ascii_lowercase h) = to_ascii_lowercase h.
Proof. unfold to_ascii_lowercase. induction h as [|c h IH]; [done|]. simpl. by rewrite lower_lower, IH. Qed.

Lemma parse_digits_nonneg acc s n : 0 ≤ acc → parse_digits acc s = Some n → 0 ≤ n.
Proof.
  revert acc. induction s as [|c s IH]; intros acc Ha; simpl; [by intros [= <-]|].
  destruct (is_ascii_digit c) eqn:Ec; [|done]. apply IH. unfold is_ascii_digit, is_between in Ec. lia.
Qed.
Lemma parse_u16_range s n : parse_u16 s = Some n → 0 ≤ n ≤ 65535.
Proof.
  unfold parse_u16. case_decide; [done|]. destruct (parse_digits _ _) as [m|] eqn:Em; [|done]. simpl.
  apply parse_digits_nonneg in Em; [|done]. destruct (Z.leb_spec m 65535); [|done]. intros [= <-]. lia.
Qed.

(** What a parsed origin is. *)
Record origin_ok (o : Origin) : Prop := {
  ok_host : host o ≠ ""; ok_chars : all_chars host_char (host o) = true;
  ok_lower : to_ascii_lowercase (host o) = host o; ok_port : 1 ≤ port o ≤ 65535 }.
Lemma parse_tail_ok t rest o : parse_tail t rest = Ok o → origin_ok o.
Proof.
  unfold parse_tail, check, ok_or. unfold_m. intros E.
  destruct (negb (_ || _)); [|done].
  assert (∀ h p, 1 ≤ p ≤ 65535 → match (if negb (bool_decide (h = "")) && all_chars host_char h
    then Ok () else Err "guest egress origin has an invalid host") with
    | Ok _ => Ok {| tls := t; host := to_ascii_lowercase h; port := p |} | Err e => Err e end = Ok o →
    origin_ok o) as Hend.
  { intros h p Hp. destruct (_ && _) eqn:Eh; [|done]. intros [= <-]. apply andb_true_iff in Eh as [Hn Hc].
    apply negb_true_iff, bool_decide_eq_false in Hn. split; simpl; [by destruct h|by apply host_lowercase|apply lowercase_idem|done]. }
  destruct (rsplit_once _ _) as [[h pt]|]; [|apply (Hend _ _) in E; [done|destruct t; lia]].
  destruct (bracketed h); [|apply (Hend _ _) in E; [done|destruct t; lia]].
  destruct (parse_u16 pt) as [n|] eqn:En; [|done]. apply parse_u16_range in En. simpl in E.
  destruct (Z.eqb_spec n 0); [done|]. apply (Hend _ _) in E; [done|lia].
Qed.
Lemma parse_ok s o : parse s = Ok o → origin_ok o.
Proof. unfold parse. repeat case_match; try done; apply parse_tail_ok. Qed.

Lemma lower_not_empty h : to_ascii_lowercase h ≠ "" → h ≠ "".
Proof. by destruct h. Qed.
(** An origin reads back.  Every origin that parses prints as text that
    parses to the same origin, unless its host holds a closing bracket before
    its end; so the text kept in a stream's record names what was admitted. *)
Theorem origin_reads_back s o :
  parse s = Ok o → bracketed (host o) = true → parse (origin_display o) = Ok o.
Proof.
  intros [Hh Hc Hl Hp]%parse_ok Hb. unfold parse.
  destruct (pretty_digits (port o) ltac:(lia)) as (Hd & Hne & _).
  destruct (last_char _ _ Hne Hd) as (c & s' & Hrev & Hcd). set (tail := host o +:+ ":" +:+ pretty (port o)).
  assert (string_rev tail = String c (s' +:+ string_rev (host o +:+ ":"))) as Htail.
  { unfold tail. by rewrite string_app_assoc, string_rev_app, Hrev. }
  assert (∀ d t, graphic d = true → trim (String d t +:+ tail) = String d t +:+ tail) as Htrim.
  { intros d t Hg. apply (trim_graphic _ _ c ((s' +:+ string_rev (host o +:+ ":")) +:+ string_rev (String d t)));
      [|done|by apply digit_graphic].
    assert (string_rev (String d t +:+ tail) = String c ((s' +:+ string_rev (host o +:+ ":")) +:+ string_rev (String d t)))
      as Hr by by rewrite string_rev_app, Htail.
    by rewrite <-Hr, string_rev_involutive. }
  assert (strip_suffix "/" tail = None) as Hslash.
  { unfold strip_suffix. rewrite Htail, strip_prefix_head; [done|]. intros <-. by vm_compute in Hcd. }
  assert (contains_char origin_special tail = false) as Hspecial.
  { unfold tail. rewrite !contains_char_app. rewrite (contains_none _ _ _ host_not_special Hc).
    by rewrite (contains_none _ _ _ digit_not_special Hd). }
  assert (rsplit_once (ch 58) tail = Some (host o, pretty (port o))) as Hsplit.
  { apply rsplit_once_app. exact (contains_none _ _ _ digit_not_colon Hd). }
  assert (bool_decide (tail = "") = false) as Hnt.
  { apply bool_decide_eq_false. intros Ht. by rewrite Ht in Hsplit. }
  assert (trim (origin_display o) = (if tls o then "https://" else "http://") +:+ tail) as ->.
  { unfold origin_display. destruct (tls o).
    - exact (Htrim (ch 104) "ttps://" eq_refl).
    - exact (Htrim (ch 104) "ttp://" eq_refl). }
  assert (default tail (strip_suffix "/" tail) = tail) as Hdef by by rewrite Hslash.
  assert (parse_tail (tls o) tail = Ok o) as Hend.
  { unfold parse_tail. rewrite Hdef, Hnt, Hspecial. unfold check. unfold_m. cbn [negb orb].
    rewrite Hsplit, Hb, parse_u16_pretty by lia. simpl. destruct (Z.eqb_spec (port o) 0); [lia|]. simpl.
    rewrite Hc, Hl. rewrite bool_decide_eq_false_2 by done. by destruct o. }
  destruct (tls o) eqn:Et; exact Hend.
Qed.

(** ** The properties at concrete inputs *)
(** ::ffff:8.8.8.8 is public, ::ffff:169.254.169.254 is not. *)
Definition mapped (ip : Z) : SocketAddr := {| sa_ip := V6 (65535 * 2 ^ 32 + ip); sa_port := 443 |}.
Definition name1 : Origin := {| tls := true; host := "example.com"; port := 443 |}.
(** A name with three addresses: two in disguise, one that is IPv6. *)
Definition lookup3 (_ : string) (_ : Z) : option (list SocketAddr) :=
  Some [mapped (addr4 169 254 169 254); {| sa_ip := V6 1; sa_port := 443 |}; mapped (addr4 8 8 8 8)].
Lemma admits_public_witness :
  admits (mapped (addr4 8 8 8 8)) None = true ∧ ¬ public (addr4 169 254 169 254) ∧
  admits {| sa_ip := V6 1; sa_port := 443 |} None = false ∧
  ∃ addrs hs, send name1 lookup3 None [] = Ok (addrs, hs) ∧ {| sa_ip := V4 (addr4 8 8 8 8); sa_port := 443 |} ∈ addrs.
Proof.
  assert (public (addr4 8 8 8 8)) as Hp by (repeat constructor).
  assert (∀ ip, 0 ≤ ip < 2 ^ 32 → ipv4_of (sa_ip (mapped ip)) ip) as Hm.
  { intros ip Hi. split; [done|by right]. }
  split_and!.
  - apply admits_public; [cbn [sa_ip mapped ip_range]; vm_compute; split; [discriminate|reflexivity]|].
    exists (addr4 8 8 8 8). split; [apply Hm; vm_compute; split; [discriminate|reflexivity]|exact Hp].
  - intros Hp2. assert (admits (mapped (addr4 169 254 169 254)) None = true) as Ha.
    + apply admits_public; [vm_compute; split; [discriminate|reflexivity]|]. exists (addr4 169 254 169 254).
      split; [apply Hm; vm_compute; split; [discriminate|reflexivity]|exact Hp2].
    + vm_compute in Ha. discriminate Ha.
  - vm_compute. reflexivity.
  - pose proof (proj2 admits_public name1 lookup3 [] _ eq_refl) as Hs. destruct (send name1 lookup3 None []) as [[addrs hs]|e] eqn:E.
    + exists addrs, hs. split; [reflexivity|]. apply Hs; [repeat constructor; vm_compute; done|].
      exists (addr4 8 8 8 8), (mapped (addr4 8 8 8 8)). split_and!; [reflexivity|by right; right; left| |exact Hp].
      apply Hm; vm_compute; split; [discriminate|reflexivity].
    + exfalso. vm_compute in E. discriminate E.
Defined.
Lemma origin_reads_back_witness :
  parse "https://example.com:443" = Ok {| tls := true; host := "example.com"; port := 443 |}.
Proof.
  exact (origin_reads_back " https://Example.com/ " {| tls := true; host := "example.com"; port := 443 |}
    eq_refl eq_refl).
Defined.
