(* ===== verification/Streams.v ===== *)
(** * Held connections: [stream.rs]

    [StreamRegistry] is the standing instructions in memory, the storage their
    records are published on, and what is seen of the connections.  serde_json
    is the codec of the part of a record that is written down ([generation] is
    not), base64 and the attestor are parameters; what the far side and the
    guest answer are arguments of the steps that wait for them.

    [SseFramer] reassembles events from however the bytes arrive; [reconcile] is
    one pass of the supervisor loop [run]; [supervised] one turn of [supervise]. *)
From S2P Require Import Prelude Storage Http Egress.

Definition DIR : string := "streams".
Definition MAX_RECORD : Z := 8 * 1024.
Definition MAX_MESSAGE : Z := 256 * 1024.
Definition PER_TENANT : Z := 8.
Definition STREAM_DOMAIN : bytes := str_bytes "enclave-runtime/stream/v1" ++ [Byte.x00].
Definition OPEN : string := "open".
Definition SEND : string := "send".
(** Seconds. *)
Definition BACKOFF : list Z := [1; 2; 5; 15; 60; 300].

Record StreamRecord := {
  version : Z; tenant : bytes; id : string; origin : string; generation : Z }.
#[export] Instance stream_record_eq_dec : EqDecision StreamRecord.
Proof. solve_decision. Defined.
(** What is written down of a record. *)
Record Written := { w_version : Z; w_tenant : bytes; w_id : string; w_origin : string }.
Definition to_written (r : StreamRecord) : Written :=
  {| w_version := version r; w_tenant := tenant r; w_id := id r; w_origin := origin r |}.
Definition of_written (w : Written) : StreamRecord :=
  {| version := w_version w; tenant := w_tenant w; id := w_id w; origin := w_origin w; generation := 0 |}.

Definition wire_id (r : StreamRecord) : string := hex_encode (tenant r) +:+ "-" +:+ id r.
Definition record_key (r : StreamRecord) : string := wire_id r.
Definition valid_id (s : string) : bool :=
  (1 <=? char_count s) && (char_count s <=? 64) &&
  all_chars (λ c, is_ascii_alphanumeric c || (char_code c =? 95) || (char_code c =? 45)) s.

Record StreamStatus := { connected : bool; connects : Z; failures : Z; last_error : option string }.
Definition default_status : StreamStatus :=
  {| connected := false; connects := 0; failures := 0; last_error := None |}.

Record StreamRegistry := {
  zfs : Zfs; records : gmap (bytes * string) StreamRecord; live : gmap (bytes * string) StreamStatus;
  changed : bool;  (** the permit [notify_one] leaves *)
  attests : bool;  (** an attestor is set *)
  messages : Z; generations : Z }.
Definition set_zfs (z : Zfs) (s : StreamRegistry) : StreamRegistry :=
  {| zfs := z; records := records s; live := live s; changed := changed s; attests := attests s;
     messages := messages s; generations := generations s |}.
Definition set_records (f : gmap (bytes * string) StreamRecord → gmap (bytes * string) StreamRecord)
    (s : StreamRegistry) : StreamRegistry :=
  {| zfs := zfs s; records := f (records s); live := live s; changed := changed s; attests := attests s;
     messages := messages s; generations := generations s |}.
Definition set_live (f : gmap (bytes * string) StreamStatus → gmap (bytes * string) StreamStatus)
    (s : StreamRegistry) : StreamRegistry :=
  {| zfs := zfs s; records := records s; live := f (live s); changed := changed s; attests := attests s;
     messages := messages s; generations := generations s |}.
Definition notify_one (s : StreamRegistry) : StreamRegistry :=
  {| zfs := zfs s; records := records s; live := live s; changed := true; attests := attests s;
     messages := messages s; generations := generations s |}.
Definition set_attestor (s : StreamRegistry) : StreamRegistry :=
  {| zfs := zfs s; records := records s; live := live s; changed := changed s; attests := true;
     messages := messages s; generations := generations s |}.
Definition count_message (s : StreamRegistry) : StreamRegistry :=
  {| zfs := zfs s; records := records s; live := live s; changed := changed s; attests := attests s;
     messages := wrapping_add (messages s) 1; generations := generations s |}.
Definition next_generation : M StreamRegistry string Z := λ s,
  (Ok (generations s),
   {| zfs := zfs s; records := records s; live := live s; changed := changed s; attests := attests s;
      messages := messages s; generations := wrapping_add (generations s) 1 |}).
Definition on_zfs {E A} (m : M Zfs E A) : M StreamRegistry E A := zoom zfs set_zfs m.
Definition stream_place (t : bytes) (name : string) : place := PTenant t DIR name.

(** ** What a request proves *)
Section proof.
Context `{Sha256}.
Definition stream_preimage (kind wire_id : string) (body : bytes) : bytes :=
  STREAM_DOMAIN ++ str_bytes kind ++ [Byte.x00] ++ str_bytes wire_id ++ [Byte.x00] ++ sha256 body.
Definition stream_user_data (kind wire_id : string) (body : bytes) : bytes :=
  sha256 (stream_preimage kind wire_id body).
End proof.

Record StreamRequest := { sq_method : string; sq_uri : string; sq_headers : list (string * bytes); sq_body : bytes }.
Definition ATTESTATION_HEADER : string := "x-enclave-attestation".

Section streams.
Context `{Sha256, !Codec Written}.
(** The attestor's signature over a digest, and whether hyper takes a URI. *)
Context (stream_document : bytes → result string bytes) (uri_ok : string → bool).
Implicit Types (s : StreamRegistry) (t : bytes) (i : string).

Definition publish (r : StreamRecord) : M StreamRegistry string () :=
  let b := to_vec (to_written r) in
  _ ← ensure (len b <=? MAX_RECORD) "stream record exceeds limit";
  _ ← on_zfs (tenant_runtime_dir (tenant r));
  let temp := stream_place (tenant r) (record_key r +:+ ".tmp") in
  _ ← on_zfs (io_ (fs_write temp b));
  on_zfs (io_ (fs_rename temp (stream_place (tenant r) (record_key r)))).

(** ** Boot *)
Definition valid_record t (name : string) (r : StreamRecord) : bool :=
  (version r =? 1) && valid_id (id r) && bool_decide (tenant r = t) && bool_decide (record_key r = name).
Definition load_entry t (name : string) : M StreamRegistry string () :=
  let p := stream_place t name in
  if ends_with ".tmp" name then on_zfs (io_ (fs_remove p))
  else
    b ← on_zfs (io_ (fs_read p));
    _ ← ensure (len b <=? MAX_RECORD) "oversized stream record";
    w ← unwrap (from_slice b) "decoding a stream record";
    let r := of_written w in
    _ ← ensure (valid_record t name r) "malformed stream record";
    modify (set_records <[(tenant r, id r) := r]>).
Definition load_tenant t : M StreamRegistry string () :=
  _ ← on_zfs (tenant_runtime_dir t);
  _ ← on_zfs (io_ io);
  s ← get;
  let names := match pools (zfs s) !! t with
               | Some tp => names_in DIR (content (tp_pool tp)) | None => [] end in
  forM (load_entry t) names.
Definition registry_new (z : Zfs) : StreamRegistry :=
  {| zfs := z; records := ∅; live := ∅; changed := false; attests := false; messages := 0; generations := 1 |}.
Definition open_registry : M StreamRegistry string () :=
  ts ← on_zfs background_tenants; forM load_tenant ts.

(** ** The guest's calls *)
Definition tenant_count t (m : gmap (bytes * string) StreamRecord) : Z :=
  Z.of_nat (length (filter (λ kv, kv.1.1 = t) (map_to_list m))).
Definition open t i (o : string) : M StreamRegistry string () :=
  _ ← ensure (valid_id i) "a stream id is 1..=64 of [A-Za-z0-9_-]";
  _ ← lift (map_err (λ _, "that is not an origin") (parse o));
  _ ← on_zfs (mark_background t);
  s ← get;
  match records s !! (t, i) with
  | Some existing => ensure (bool_decide (origin existing = o)) "a stream with that id is already open"
  | None =>
      _ ← ensure (tenant_count t (records s) <? PER_TENANT) "a tenant may hold at most 8 connections";
      g ← next_generation;
      let r := {| version := 1; tenant := t; id := i; origin := o; generation := g |} in
      _ ← publish r;
      _ ← modify (set_records <[(t, i) := r]>);
      modify notify_one
  end.
Definition close t i : M StreamRegistry string () :=
  s ← get;
  _ ← match records s !! (t, i) with
      | Some r =>
          _ ← modify (set_records (delete (t, i)));
          _ ← on_zfs (tenant_runtime_dir t);
          x ← attempt (on_zfs (fs_remove (stream_place t (record_key r))));
          match x with
          | Ok _ | Err NotFound => mret tt
          | Err e => fail (io_error_display e)
          end
      | None => mret tt
      end;
  _ ← modify (set_live (delete (t, i)));
  modify notify_one.
Definition get_status t i : M StreamRegistry string StreamStatus :=
  s ← get;
  _ ← ensure (bool_decide (is_Some (records s !! (t, i)))) "no such stream";
  mret (default default_status (live s !! (t, i))).

(** ** One exchange *)
Definition request (kind : string) (r : StreamRecord) (body : bytes) : M StreamRegistry string StreamRequest :=
  let '(method, path, h) :=
    if decide (kind = OPEN) then ("GET", "stream", ("accept", str_bytes "text/event-stream"))
    else ("POST", "send", ("content-type", str_bytes "application/octet-stream")) in
  let uri := origin r +:+ "/escrow/" +:+ path +:+ "?id=" +:+ wire_id r in
  s ← get;
  hs ← (if attests s then
          d ← lift (stream_document (stream_user_data kind (wire_id r) body));
          mret [h; (ATTESTATION_HEADER, d)]
        else mret [h]);
  _ ← ensure (uri_ok uri) "invalid uri";
  mret {| sq_method := method; sq_uri := uri; sq_headers := hs; sq_body := body |}.

Definition success (status : Z) : bool := (200 <=? status) && (status <? 300).
(** [far] is the exchange itself: the status the far side answers, or an error. *)
Definition send (far : Origin → StreamRequest → result string Z) t i (payload : bytes) : M StreamRegistry string () :=
  _ ← ensure (len payload <=? MAX_MESSAGE) "message exceeds 262144 bytes";
  s ← get;
  r ← unwrap (records s !! (t, i)) "no such stream";
  _ ← ensure (match live s !! (t, i) with Some l => connected l | None => false end)
        "that stream is not connected; the message was not sent";
  o ← lift (parse (origin r));
  q ← request SEND r payload;
  status ← lift (far o q);
  ensure (success status) "the far side refused a message".

(** ** Supervision *)
Definition note (k : bytes * string) (f : StreamStatus → StreamStatus) (s : StreamRegistry) : StreamRegistry :=
  set_live (partial_alter (λ o, Some (f (default default_status o))) k) s.
Definition note_connected (st : StreamStatus) : StreamStatus :=
  {| connected := true; connects := wrapping_add (connects st) 1; failures := failures st; last_error := None |}.
Definition note_closed (st : StreamStatus) : StreamStatus :=
  {| connected := false; connects := connects st; failures := failures st; last_error := last_error st |}.
Definition note_failed (e : string) (st : StreamStatus) : StreamStatus :=
  {| connected := false; connects := connects st; failures := wrapping_add (failures st) 1; last_error := Some e |}.
(** One turn of [supervise]: the connection ended so; the failures in a row, and
    the seconds to wait before the next dial. *)
Definition supervised (k : bytes * string) (failures : nat) (ended : result string ()) (s : StreamRegistry) :
    Z * nat * StreamRegistry :=
  match ended with
  | Ok _ => (default 0 (BACKOFF !! 0%nat), 0%nat, note k note_closed s)
  | Err e =>
      (default 0 (BACKOFF !! Nat.min failures (length BACKOFF - 1)), S failures, note k (note_failed e) s)
  end.

(** A supervisor: the record it was started with, and whether it has ended. *)
Abbreviation supervisors := (gmap (bytes * string) (StreamRecord * bool)).
Inductive action := Spawn (r : StreamRecord) | Stop (k : bytes * string).
Definition record_id (r : StreamRecord) : bytes * string := (tenant r, id r).
Definition start_wanted (st : list action * supervisors) (r : StreamRecord) : list action * supervisors :=
  let '(acts, sup) := st in
  match sup !! record_id r with
  | Some (r', finished) =>
      if decide (r' = r ∧ finished = false) then (acts, sup)
      else (acts ++ [Stop (record_id r); Spawn r], <[record_id r := (r, false)]> sup)
  | None => (acts ++ [Spawn r], <[record_id r := (r, false)]> sup)
  end.
(** One pass of [run] over what is wanted. *)
Definition reconcile (wanted : list StreamRecord) (sup : supervisors) : list action * supervisors :=
  let '(acts, sup) := foldl start_wanted ([], sup) wanted in
  let keep := λ k, existsb (λ r, bool_decide (record_id r = k)) wanted in
  (acts ++ (Stop <$> (filter (λ k, keep k = false) (map_to_list sup).*1)),
   filter (λ kv, keep kv.1 = true) sup).
End streams.
