(* ===== verification/Framer.v ===== *)
(** * Server-sent events: [SseFramer] of [stream.rs]

    [push] takes a chunk of bytes and answers the events it completes.  Strings
    are their UTF-8 bytes. *)
From S2P Require Import Prelude Text Http Streams.

(** ** Line endings *)
(** [replace("\r\n", "\n")], then [replace('\r', "\n")]. *)
Fixpoint replace_crlf (s : string) : string :=
  match s with
  | "" => ""
  | String c s' =>
      match s' with
      | String d s'' => if decide (c = CR ∧ d = LF) then String LF (replace_crlf s'') else String c (replace_crlf s')
      | "" => String c ""
      end
  end.
Definition replace_cr (s : string) : string := string_map (λ c, if decide (c = CR) then LF else c) s.
Definition ends_with_cr (s : string) : bool := ends_with (String CR "") s.
(** [String::pop], then [push]. *)
Fixpoint pop (s : string) : string :=
  match s with "" => "" | String c "" => "" | String c s => String c (pop s) end.
Definition contains_cr (b : string) : bool := Egress.contains_char (λ c, bool_decide (c = CR)) b.
Definition normalise (b : string) : string :=
  if contains_cr b then
    let norm := replace_cr (replace_crlf b) in
    if ends_with_cr b then pop norm +:+ String CR "" else norm
  else b.

(** ** Events *)
Record SseEvent := { ev_id : string; ev_data : bytes }.
(** [find("\n\n")] and [drain(..end + 2)]. *)
Fixpoint take_block (s : string) : option (string * string) :=
  match s with
  | "" => None
  | String c s' =>
      match s' with
      | String d s'' =>
          if decide (c = LF ∧ d = LF) then Some (String LF (String LF ""), s'')
          else '(b, r) ← take_block s'; Some (String c b, r)
      | "" => None
      end
  end.
Definition read_line (st : string * string) (line : string) : string * string :=
  match strip_prefix "id:" line with
  | Some v => (trim v, st.2)
  | None => match strip_prefix "data:" line with Some v => (st.1, st.2 +:+ trim v) | None => st end
  end.

Section framer.
Context `{Sha256, Base64Standard}.
(** One block: nothing, an event, or an error. *)
Definition read_block (block : string) : result string (option SseEvent) :=
  let '(id, data) := foldl read_line ("", "") (lines block) in
  if decide (data = "") then Ok None
  else
    bytes ← ok_or (base64_decode data) "event data was not base64";
    _ ← check (len bytes <=? MAX_MESSAGE) "event exceeds the message ceiling";
    Ok (Some {| ev_id := if decide (id = "") then hex_encode (take 16 (sha256 bytes)) else id; ev_data := bytes |}).
(** The loop: every turn takes a block off the buffer, so its length is fuel enough. *)
Fixpoint drain (fuel : nat) (buffer : string) (out : list SseEvent) : result string (list SseEvent) * string :=
  match fuel with
  | O => (Ok out, buffer)
  | S fuel =>
      match take_block buffer with
      | None => (Ok out, buffer)
      | Some (block, rest) =>
          match read_block block with
          | Err e => (Err e, rest)
          | Ok o => drain fuel rest (out ++ option_list o)
          end
      end
  end.
Definition push (chunk : bytes) : M string string (list SseEvent) := λ buffer,
  if valid_utf8 (bytes_str chunk) then
    let b := normalise (buffer +:+ bytes_str chunk) in
    if strlen b <=? MAX_MESSAGE * 2 then drain (String.length b) b []
    else (Err "an unterminated event exceeded the message ceiling", b)
  else (Err "a stream frame was not UTF-8", buffer).
End framer.
