(* ===== verification/FramerProps.v ===== *)
(** * The framer does not depend on how the bytes are cut

    [norm] is the normalisation as one pass over the text, and [drains] what the
    loop over blocks computes, as a relation. *)
From S2P Require Import Prelude Text Http Egress EgressProps Streams Framer.

(** ** Line endings in one pass *)
Fixpoint norm (s : string) : string :=
  match s with
  | "" => ""
  | String c s' =>
      if decide (c = CR) then
        match s' with
        | "" => String CR ""
        | String d s'' => if decide (d = LF) then String LF (norm s'') else String LF (norm s')
        end
      else String c (norm s')
  end.
Lemma string_ind2 (P : string → Prop) :
  P "" → (∀ c, P (String c "")) → (∀ c d s, P s → P (String d s) → P (String c (String d s))) → ∀ s, P s.
Proof.
  intros H0 H1 H2. assert (∀ s, P s ∧ ∀ c, P (String c s)) as H; [|intros s; apply H].
  induction s as [|d s [IH1 IH2]]; [by split|]. split; [apply IH2|]. intros c. apply H2; [done|apply IH2].
Qed.
Lemma LF_CR : LF ≠ CR. Proof. done. Qed.

(** [replace] twice is the pass that turns a final CR into an LF too. *)
Fixpoint fold_endings (s : string) : string :=
  match s with
  | "" => ""
  | String c s' =>
      if decide (c = CR) then
        match s' with
        | "" => String LF ""
        | String d s'' => if decide (d = LF) then String LF (fold_endings s'') else String LF (fold_endings s')
        end
      else String c (fold_endings s')
  end.
Lemma replace_fold s : replace_cr (replace_crlf s) = fold_endings s.
Proof.
  unfold replace_cr. induction s as [|c|c d s IH1 IH2] using string_ind2; [done| |].
  - simpl. by case_decide.
  - cbn [replace_crlf fold_endings]. destruct (decide (c = CR)) as [->|Hc].
    + destruct (decide (d = LF)) as [->|Hd].
      * rewrite decide_True by done. cbn [string_map]. by rewrite IH1.
      * rewrite decide_False by naive_solver. cbn [string_map]. rewrite decide_True by done. f_equal. exact IH2.
    + rewrite decide_False by naive_solver. cbn [string_map]. rewrite decide_False by done. f_equal. exact IH2.
Qed.
Lemma no_cr_fold s : contains_cr s = false → norm s = s ∧ fold_endings s = s.
Proof.
  unfold contains_cr. induction s as [|c s IH]; [done|]. simpl. intros [Hc Hs]%orb_false_iff.
  apply bool_decide_eq_false in Hc. rewrite !decide_False by done. by destruct (IH Hs) as [-> ->].
Qed.
Lemma ends_with_cr_cons c d s : ends_with_cr (String c (String d s)) = ends_with_cr (String d s).
Proof.
  apply eq_iff_eq_true. unfold ends_with_cr. rewrite !ends_with_iff. split.
  - intros [[|x r] Hr]; [discriminate Hr|]. exists r. by injection Hr.
  - intros [r Hr]. exists (String c r). by rewrite Hr.
Qed.
Lemma ends_with_cr_one c : ends_with_cr (String c "") = bool_decide (c = CR).
Proof.
  apply eq_iff_eq_true. unfold ends_with_cr. rewrite ends_with_iff, bool_decide_eq_true. split.
  - intros [[|x r] Hr]; [by injection Hr|]. injection Hr. by destruct r.
  - intros ->. by exists "".
Qed.
Lemma fold_not_empty d s : fold_endings (String d s) ≠ "".
Proof. simpl. repeat case_match; done. Qed.
Lemma pop_cons c s : s ≠ "" → pop (String c s) = String c (pop s).
Proof. by destruct s. Qed.
Lemma norm_fold s : norm s = if ends_with_cr s then pop (fold_endings s) +:+ String CR "" else fold_endings s.
Proof.
  induction s as [|c|c d s IH1 IH2] using string_ind2; [done| |].
  - rewrite ends_with_cr_one. simpl. case_decide; [by rewrite bool_decide_eq_true_2|by rewrite bool_decide_eq_false_2].
  - rewrite ends_with_cr_cons. change (norm (String c (String d s))) with
      (if decide (c = CR) then if decide (d = LF) then String LF (norm s) else String LF (norm (String d s))
       else String c (norm (String d s))).
    change (fold_endings (String c (String d s))) with
      (if decide (c = CR) then if decide (d = LF) then String LF (fold_endings s) else String LF (fold_endings (String d s))
       else String c (fold_endings (String d s))).
    case_decide; [case_decide|].
    + subst. rewrite IH1. destruct s as [|e s]; [done|]. rewrite ends_with_cr_cons.
      destruct (ends_with_cr (String e s)); [|reflexivity].
      rewrite pop_cons by apply fold_not_empty. reflexivity.
    + rewrite IH2. destruct (ends_with_cr (String d s)); [|reflexivity].
      rewrite pop_cons by apply fold_not_empty. reflexivity.
    + rewrite IH2. destruct (ends_with_cr (String d s)); [|reflexivity].
      rewrite pop_cons by apply fold_not_empty. reflexivity.
Qed.
Lemma normalise_norm s : normalise s = norm s.
Proof.
  unfold normalise. destruct (contains_cr s) eqn:Ec; [by rewrite norm_fold, replace_fold|].
  by destruct (no_cr_fold _ Ec).
Qed.

Lemma norm_cons c s : c ≠ CR → norm (String c s) = String c (norm s).
Proof. intros Hc. simpl. by rewrite decide_False. Qed.
Lemma norm_app a b : norm (norm a +:+ b) = norm (a +:+ b).
Proof.
  induction a as [|c|c d a IH1 IH2] using string_ind2; [done| |].
  - simpl. case_decide; [by subst|]. simpl. by rewrite decide_False.
  - change (norm (String c (String d a))) with
      (if decide (c = CR) then if decide (d = LF) then String LF (norm a) else String LF (norm (String d a))
       else String c (norm (String d a))).
    change (norm (String c (String d a) +:+ b)) with
      (if decide (c = CR) then if decide (d = LF) then String LF (norm (a +:+ b)) else String LF (norm (String d a +:+ b))
       else String c (norm (String d a +:+ b))).
    case_decide; [case_decide|].
    + rewrite <-IH1. exact (norm_cons LF (norm a +:+ b) LF_CR).
    + rewrite <-IH2. exact (norm_cons LF (norm (String d a) +:+ b) LF_CR).
    + rewrite <-IH2. by apply (norm_cons c (norm (String d a) +:+ b)).
Qed.
(** A CR is only ever left at the end. *)
Fixpoint cr_last (s : string) : Prop :=
  match s with "" => True | String c s' => (c = CR → s' = "") ∧ cr_last s' end.
Lemma norm_cr_last s : cr_last (norm s).
Proof.
  induction s as [|c|c d s IH1 IH2] using string_ind2; [done| |].
  - simpl. case_decide; [by split|]. by split.
  - change (norm (String c (String d s))) with
      (if decide (c = CR) then if decide (d = LF) then String LF (norm s) else String LF (norm (String d s))
       else String c (norm (String d s))).
    case_decide; [case_decide|]; (split; [done|done]).
Qed.

(** ** Blocks *)
Lemma take_block_spec s b r : take_block s = Some (b, r) →
  s = b +:+ r ∧ (∀ y, take_block (b +:+ y) = Some (b, y)) ∧ (cr_last s → contains_cr b = false ∧ cr_last r) ∧
  (String.length r < String.length s)%nat.
Proof.
  revert b r. induction s as [|c s IH]; intros b r; [done|].
  destruct s as [|d s]; [done|]. change (take_block (String c (String d s))) with
    (if decide (c = LF ∧ d = LF) then Some (String LF (String LF ""), s)
     else '(b, r) ← take_block (String d s); Some (String c b, r)).
  case_decide as Hlf.
  - destruct Hlf as [-> ->]. intros [= <- <-]. split_and!; [done|done| |simpl; lia].
    intros (_ & _ & Hr). split; [done|exact Hr].
  - destruct (take_block (String d s)) as [[b' r']|] eqn:E; [|done]. intros [= <- <-].
    destruct (IH _ _ eq_refl) as (Heq & Hy & Hcr & Hlen). split_and!; [by rewrite Heq| | |simpl in *; lia].
    + intros y. destruct b' as [|e b']; [by specialize (Hy "")|]. injection Heq as -> Heq.
      change (take_block (String c (String e b') +:+ y)) with
        (if decide (c = LF ∧ e = LF) then Some (String LF (String LF ""), b' +:+ y)
         else '(b, r) ← take_block (String e b' +:+ y); Some (String c b, r)).
      rewrite decide_False by done. by rewrite Hy.
    + intros [Hc Hs]. destruct (Hcr Hs) as [Hb Hr]. split; [|done].
      unfold contains_cr in *. simpl. rewrite Hb, orb_false_r. apply bool_decide_eq_false. intros Hcr2. by specialize (Hc Hcr2).
Qed.
Lemma norm_block b y : contains_cr b = false → norm (b +:+ y) = b +:+ norm y.
Proof.
  unfold contains_cr. induction b as [|c b IH]; [done|]. simpl. intros [Hc Hb]%orb_false_iff.
  apply bool_decide_eq_false in Hc. rewrite decide_False by done. rewrite (IH Hb). reflexivity.
Qed.

Section drains.
Context `{Sha256, Base64Standard}.
Inductive drains : string → list SseEvent → string → Prop :=
  | drains_done s : take_block s = None → drains s [] s
  | drains_block s b r o evs rest :
      take_block s = Some (b, r) → read_block b = Ok o → drains r evs rest → drains s (option_list o ++ evs) rest.
Lemma drain_drains n s out evs rest : (String.length s ≤ n)%nat →
  drain n s out = (Ok evs, rest) ↔ ∃ evs', evs = out ++ evs' ∧ drains s evs' rest.
Proof.
  revert s out. induction n as [|n IH]; intros s out Hn.
  - destruct s; [|simpl in Hn; lia]. simpl. split.
    + intros [= -> <-]. exists []. split; [by rewrite app_nil_r|by apply drains_done].
    + intros (evs' & -> & Hd). inversion Hd; simplify_eq. by rewrite app_nil_r.
  - simpl. destruct (take_block s) as [[b r]|] eqn:Eb.
    + destruct (take_block_spec _ _ _ Eb) as (_ & _ & _ & Hlen).
      destruct (read_block b) as [o|e] eqn:Er.
      * rewrite IH by lia. split.
        -- intros (evs' & -> & Hd). exists (option_list o ++ evs'). rewrite (assoc_L (++)).
           split; [done|by eapply drains_block].
        -- intros (evs' & -> & Hd). inversion Hd as [|? b' r' o' evs'' rest' Hb' Hr' Hd']; simplify_eq.
           rewrite Er in Hr'. simplify_eq. exists evs''. split; [by rewrite (assoc_L (++))|done].
      * split; [done|]. intros (evs' & -> & Hd). inversion Hd; simplify_eq; congruence.
    + split.
      * intros [= -> <-]. exists []. split; [by rewrite app_nil_r|by apply drains_done].
      * intros (evs' & -> & Hd). inversion Hd; simplify_eq. by rewrite app_nil_r.
Qed.
(** What is left over, with what comes next, drains as the whole would. *)
Lemma drains_app s e1 r1 c e2 r2 : drains s e1 r1 → cr_last s →
  drains (norm (r1 +:+ c)) e2 r2 → drains (norm (s +:+ c)) (e1 ++ e2) r2.
Proof.
  induction 1 as [s Hs|s b r o evs rest Hb Hr Hd IH]; intros Hcr Hd2; [done|].
  destruct (take_block_spec _ _ _ Hb) as (Heq & Hy & Hcrb & _). destruct (Hcrb Hcr) as [Hbc Hrc].
  rewrite Heq, <-string_app_assoc, norm_block, <-(assoc_L (++)) by done.
  eapply drains_block; [apply Hy|done|auto].
Qed.

(** A connection's chunks, pushed one after another. *)
Fixpoint feed (chunks : list bytes) : M string string (list SseEvent) :=
  match chunks with
  | [] => mret []
  | c :: chunks => evs ← push c; more ← feed chunks; mret (evs ++ more)
  end.
Lemma push_Ok c buf evs rest : push c buf = (Ok evs, rest) ↔
  valid_utf8 (bytes_str c) = true ∧ strlen (norm (buf +:+ bytes_str c)) ≤ MAX_MESSAGE * 2 ∧
  drains (norm (buf +:+ bytes_str c)) evs rest.
Proof.
  unfold push. rewrite normalise_norm. destruct (valid_utf8 _); [|naive_solver].
  destruct (Z.leb_spec (strlen (norm (buf +:+ bytes_str c))) (MAX_MESSAGE * 2)).
  - rewrite drain_drains by done. simpl. naive_solver.
  - split; [done|]. intros (_ & Hle & _). lia.
Qed.
Lemma norm_length s : (String.length (norm s) ≤ String.length s)%nat.
Proof.
  induction s as [|c|c d s IH1 IH2] using string_ind2; [done| |].
  - simpl. by case_decide.
  - change (norm (String c (String d s))) with
      (if decide (c = CR) then if decide (d = LF) then String LF (norm s) else String LF (norm (String d s))
       else String c (norm (String d s))).
    case_decide; [case_decide|]; cbn [String.length] in *; lia.
Qed.
Lemma cr_last_norm s : cr_last s → norm s = s.
Proof.
  induction s as [|c s IH]; [done|]. intros [Hc Hs]. simpl. case_decide as Hcr.
  - rewrite (Hc Hcr). by subst.
  - by rewrite IH.
Qed.
Lemma drains_rest s evs rest : drains s evs rest → cr_last s → take_block rest = None ∧ cr_last rest.
Proof.
  induction 1 as [s Hs|s b r o evs rest Hb Hr Hd IH]; intros Hcr; [done|].
  destruct (take_block_spec _ _ _ Hb) as (_ & _ & Hcrb & _). apply IH, Hcrb, Hcr.
Qed.
Lemma feed_drains chunks s evs rest : cr_last s → take_block s = None →
  feed chunks s = (Ok evs, rest) →
  drains (norm (s +:+ bytes_str (concat chunks))) evs rest ∧ valid_utf8 (bytes_str (concat chunks)) = true.
Proof.
  revert s evs. induction chunks as [|c cs IH]; intros s evs Hcr Hs E.
  - simpl in E. inv_pure. change (bytes_str (concat [])) with "". split; [|done].
    assert (s +:+ "" = s) as -> by (clear; induction s as [|x s IHs]; [done|]; exact (f_equal (String x) IHs)).
    rewrite cr_last_norm by done. by apply drains_done.
  - cbn [feed] in E. inv_bind E. apply push_Ok in Hrun as (Hv & _ & Hd1). inv_bind E. inv_pure.
    destruct (drains_rest _ _ _ Hd1 (norm_cr_last _)) as [Hs1 Hcr1].
    destruct (IH _ _ Hcr1 Hs1 Hrun) as [Hd2 Hv2]. cbn [concat]. rewrite bytes_str_app. split.
    + rewrite string_app_assoc, <-norm_app. by eapply drains_app; [..|exact Hd2]; [|apply norm_cr_last].
    + by apply valid_utf8_app.
Qed.

(** Framing does not depend on how the bytes are cut.  Whatever chunks a
    connection delivers, if none of them is refused, the events they complete
    and what is left in the buffer are those of the same bytes delivered at
    once, as long as these fit the buffer. *)
Theorem chunking_irrelevant chunks evs rest :
  feed chunks "" = (Ok evs, rest) → len (concat chunks) ≤ MAX_MESSAGE * 2 →
  push (concat chunks) "" = (Ok evs, rest).
Proof.
  intros E Hlen. destruct (feed_drains _ "" _ _ I eq_refl E) as [Hd Hv]. apply push_Ok.
  split_and!; [done| |exact Hd]. pose proof (norm_length (bytes_str (concat chunks))) as Hn.
  change ("" +:+ bytes_str (concat chunks)) with (bytes_str (concat chunks)). unfold strlen, len in *.
  assert (∀ b, String.length (bytes_str b) = length b) as Hb.
  { intros b. unfold bytes_str. induction b as [|x b IH]; [done|]. simpl. by f_equal. }
  rewrite Hb in Hn. lia.
Qed.

(** But a character must not be cut.  Each chunk is checked to be UTF-8 on
    its own, so an event stream that is accepted whole is refused, and its
    connection ended, when a chunk ends inside a character. *)
Theorem cut_character_refused :
  ∃ chunks, (push (concat chunks) "").1 = Ok [] ∧ (feed chunks "").1 = Err "a stream frame was not UTF-8".
Proof.
  (* a comment, ": é" and a blank line *)
  exists [[Byte.x3a; Byte.xc3]; [Byte.xa9; Byte.x0a; Byte.x0a]]. split; vm_compute; reflexivity.
Qed.
End drains.

(** ** The properties at concrete inputs *)
Module FramerWitness.
#[local] Instance sha : Sha256 := λ b, take 32 (b ++ replicate 32 Byte.x00).
#[local] Instance base64 : Base64Standard := hex_decode.
(** Two events, cut inside a line ending. *)
Definition chunks : list bytes :=
  [str_bytes "id: 7" ++ [Byte.x0d]; [Byte.x0a] ++ str_bytes "data: 2a" ++ [Byte.x0d; Byte.x0a; Byte.x0d];
   [Byte.x0a] ++ str_bytes "data: 2b" ++ [Byte.x0a; Byte.x0a; Byte.x3a]].
Definition events : list SseEvent :=
  [{| ev_id := "7"; ev_data := [Byte.x2a] |};
   {| ev_id := hex_encode (take 16 (sha256 [Byte.x2b])); ev_data := [Byte.x2b] |}].
Lemma chunking_irrelevant_witness : push (concat chunks) "" = (Ok events, ":").
Proof. apply (chunking_irrelevant chunks); [vm_compute; reflexivity|vm_compute; discriminate]. Defined.
End FramerWitness.
