(* ===== verification/StreamsProps.v ===== *)
(** * Held connections: what a proof binds, and what a pass of the supervisor does *)
From S2P Require Import Prelude Concrete Storage Http Egress Streams.

(** ** The digest a request is signed over *)
Section binds.
Context `{Sha256}.
Definition no_nul (s : string) : Prop := Byte.x00 ∉ str_bytes s.
Lemma split_at_nul (a b x y : bytes) : Byte.x00 ∉ a → Byte.x00 ∉ b →
  a ++ [Byte.x00] ++ x = b ++ [Byte.x00] ++ y → a = b ∧ x = y.
Proof.
  revert b. induction a as [|c a IH]; intros [|d b] Ha Hb Heq; simpl in *; simplify_eq; [done|set_solver..|].
  destruct (IH b) as [-> ->]; set_solver.
Qed.
(** Two inputs that SHA-256 does not tell apart. *)
Definition collide (x y : bytes) : Prop := x ≠ y ∧ sha256 x = sha256 y.
(** A proof names one request.  Two requests whose proofs are over the same
    digest are of the same kind, on the same connection and with the same body,
    unless SHA-256 confuses their two bodies or the two texts that were
    digested; neither a kind nor a wire id holds a NUL, so the layout reads one
    way. *)
Theorem proof_names_request kind wire body kind' wire' body' :
  no_nul kind → no_nul wire → no_nul kind' → no_nul wire' →
  stream_user_data kind wire body = stream_user_data kind' wire' body' →
  (kind = kind' ∧ wire = wire' ∧ body = body') ∨ collide body body' ∨
  collide (stream_preimage kind wire body) (stream_preimage kind' wire' body').
Proof.
  intros Hk Hw Hk' Hw' Heq.
  destruct (decide (stream_preimage kind wire body = stream_preimage kind' wire' body')) as [Hp|Hne];
    [|by right; right].
  unfold stream_preimage in Hp. apply app_inv_head in Hp.
  apply split_at_nul in Hp as [Hkk Hp]; [|done..]. apply split_at_nul in Hp as [Hww Hbb]; [|done..].
  apply (inj str_bytes) in Hkk, Hww.
  destruct (decide (body = body')); [by left|by right; left].
Qed.
End binds.

(** ** One pass of the supervisor *)
Lemma start_wanted_unfold acts sup r :
  start_wanted (acts, sup) r =
    (if decide (sup !! record_id r = Some (r, false)) then (acts, sup)
     else (acts ++ (if sup !! record_id r is Some _ then [Stop (record_id r)] else []) ++ [Spawn r],
           <[record_id r := (r, false)]> sup)).
Proof.
  unfold start_wanted. destruct (sup !! record_id r) as [[r' fin]|]; [|by rewrite decide_False].
  destruct (decide (r' = r ∧ fin = false)) as [[-> ->]|Hne]; [by rewrite decide_True|].
  rewrite decide_False; [done|]. intros [= -> ->]. by apply Hne.
Qed.
Lemma start_all wanted acts sup acts' sup' :
  NoDup (record_id <$> wanted) → foldl start_wanted (acts, sup) wanted = (acts', sup') →
  (∀ r, r ∈ wanted → sup' !! record_id r = Some (r, false)) ∧
  (∀ k, k ∉ record_id <$> wanted → sup' !! k = sup !! k) ∧
  (∀ r, Spawn r ∈ acts' ↔ Spawn r ∈ acts ∨ r ∈ wanted ∧ sup !! record_id r ≠ Some (r, false)) ∧
  (∀ k, Stop k ∈ acts' ↔ Stop k ∈ acts ∨
    ∃ r, r ∈ wanted ∧ record_id r = k ∧ is_Some (sup !! k) ∧ sup !! k ≠ Some (r, false)).
Proof.
  revert acts sup. induction wanted as [|r wanted IH]; intros acts sup Hnd E.
  { simpl in E. simplify_eq. split_and!; [set_solver..|set_solver|].
    intros k. split; [by left|]. intros [?|(r & Hr & _)]; [done|]. by apply elem_of_nil in Hr. }
  rewrite fmap_cons in Hnd. apply NoDup_cons in Hnd as [Hr Hnd]. cbn [foldl] in E.
  assert (∀ r', r' ∈ wanted → record_id r' ≠ record_id r) as Hne.
  { intros r' Hr' Heq. apply Hr. rewrite <-Heq. by apply list_elem_of_fmap_2. }
  rewrite start_wanted_unfold in E.
  destruct (decide _) as [Hs|Hs].
  - destruct (IH _ _ Hnd E) as (H1 & H2 & H3 & H4). split_and!.
    + intros r' [->|Hr']%elem_of_cons; [|auto]. by rewrite H2.
    + intros k Hk. apply H2. set_solver.
    + intros r'. rewrite H3, elem_of_cons. split; [naive_solver|]. intros [?|[[->|?] ?]]; naive_solver.
    + intros k. rewrite H4. setoid_rewrite elem_of_cons. naive_solver.
  - destruct (IH _ _ Hnd E) as (H1 & H2 & H3 & H4). split_and!.
    + intros r' [->|Hr']%elem_of_cons; [|auto]. rewrite H2 by done. by rewrite lookup_insert_eq.
    + intros k Hk. rewrite H2 by set_solver. apply lookup_insert_ne. set_solver.
    + intros r'. rewrite H3, !elem_of_app, list_elem_of_singleton, (elem_of_cons wanted). split.
      * intros [[?|[Hst| [= ->]]]|[Hr' Hl]]; [by left| |by right; split; [left|]|].
        -- destruct (sup !! record_id r); [|by apply elem_of_nil in Hst].
           by apply list_elem_of_singleton in Hst.
        -- rewrite lookup_insert_ne in Hl by (symmetry; auto). auto.
      * intros [?|[[->|Hr'] Hl]]; [by auto| by auto|]. right. split; [done|].
        rewrite lookup_insert_ne by (symmetry; auto). done.
    + intros k. rewrite H4, !elem_of_app, list_elem_of_singleton. split.
      * intros [[?|[Hst|[=]]]|(r' & Hr' & Hk & Hl)]; [by left| |].
        -- destruct (sup !! record_id r) as [x|] eqn:Hx; [|by apply elem_of_nil in Hst].
           apply list_elem_of_singleton in Hst. simplify_eq. right. exists r.
           rewrite elem_of_cons, Hx. naive_solver.
        -- subst k. rewrite lookup_insert_ne in Hl by (symmetry; auto). right. exists r'. by rewrite elem_of_cons; auto.
      * intros [?|(r' & [->|Hr']%elem_of_cons & Hk & [x Hx] & Hl)]; [by auto| |].
        -- subst k. rewrite Hx. left. right. left. by left.
        -- right. exists r'. subst k. rewrite lookup_insert_ne by (symmetry; auto). by rewrite Hx in *; eauto.
Qed.
Lemma keep_spec wanted k :
  existsb (λ r, bool_decide (record_id r = k)) wanted = true ↔ k ∈ record_id <$> wanted.
Proof.
  rewrite existsb_exists, list_elem_of_fmap. setoid_rewrite bool_decide_eq_true. setoid_rewrite <-list_elem_of_In.
  split; intros (r & Hr & Hk); exists r; auto.
Qed.
(** A pass of the supervisor reconciles.  Afterwards exactly the wanted
    connections are supervised, each by a supervisor of that very record (its
    generation included) that has not ended; one is started for exactly the
    wanted records that had no such supervisor; and what is told to stop is
    exactly what was supervised and is no longer wanted, or wanted as another
    record, or had ended. *)
Theorem reconcile_spec wanted sup acts sup' :
  NoDup (record_id <$> wanted) → reconcile wanted sup = (acts, sup') →
  (∀ k x, sup' !! k = Some x ↔ ∃ r, r ∈ wanted ∧ record_id r = k ∧ x = (r, false)) ∧
  (∀ r, Spawn r ∈ acts ↔ r ∈ wanted ∧ sup !! record_id r ≠ Some (r, false)) ∧
  (∀ k, Stop k ∈ acts ↔ is_Some (sup !! k) ∧ ∀ r, r ∈ wanted → record_id r = k → sup !! k ≠ Some (r, false)).
Proof.
  intros Hnd E. unfold reconcile in E.
  destruct (foldl start_wanted ([], sup) wanted) as [acts0 sup0] eqn:E0. simplify_eq.
  destruct (start_all _ _ _ _ _ Hnd E0) as (H1 & H2 & H3 & H4).
  assert (∀ r r', r ∈ wanted → r' ∈ wanted → record_id r = record_id r' → r = r') as Hinj.
  { intros r r' Hr Hr' Heq. pose proof (H1 r Hr) as Ha. rewrite Heq, (H1 r' Hr') in Ha. by simplify_eq. }
  split_and!.
  - intros k x. rewrite map_lookup_filter_Some. cbn [fst snd]. rewrite keep_spec, list_elem_of_fmap. split.
    + intros [Hk (r & -> & Hr)]. exists r. rewrite (H1 r Hr) in Hk. by simplify_eq.
    + intros (r & Hr & <- & ->). split; [by apply H1|by exists r].
  - intros r. rewrite elem_of_app, H3, list_elem_of_fmap. split; [|by intros ?; left; right].
    intros [[Hf|?]|(k & [=] & _)]; [by apply elem_of_nil in Hf|done].
  - intros k. rewrite elem_of_app, H4, list_elem_of_fmap. split.
    + intros [[Hf|(r & Hr & Hk & Hs & Hne)]|(k' & [= <-] & [Hkeep Hk]%list_elem_of_filter)].
      * by apply elem_of_nil in Hf.
      * split; [done|]. intros r' Hr' Hk'. by rewrite <-(Hinj r r') by congruence.
      * rewrite <-not_true_iff_false, keep_spec in Hkeep.
        apply list_elem_of_fmap in Hk as ([k' x] & -> & Hk%elem_of_map_to_list). simpl in *.
        rewrite H2 in Hk by done. split; [by eexists|].
        intros r' Hr' Hk'. destruct Hkeep. rewrite <-Hk'. by apply list_elem_of_fmap_2.
    + intros [Hs Hw]. destruct (decide (k ∈ record_id <$> wanted)) as [Hin|Hin].
      * apply list_elem_of_fmap in Hin as (r & -> & Hr). left. right. exists r. by auto.
      * right. exists k. split; [done|]. apply list_elem_of_filter. rewrite <-not_true_iff_false, keep_spec.
        split; [done|]. destruct Hs as [x Hx]. apply list_elem_of_fmap. exists (k, x).
        split; [done|]. apply elem_of_map_to_list. by rewrite H2.
Qed.

(** ** The calls keep the storage in order *)
Section keeps.
Context `{Sha256, !Codec Written}.
Definition store_in_order (s : StreamRegistry) : Prop := storage_ok (zfs s).
Lemma on_zfs_keeps {E A} (m : M Zfs E A) : preserves storage_ok m → preserves store_in_order (on_zfs m).
Proof. intros Hm s Hs. unfold on_zfs, zoom. specialize (Hm _ Hs). by destruct (m (zfs s)). Qed.
#[local] Hint Resolve on_zfs_keeps storage_ok_mark_background storage_ok_tenant_runtime_dir storage_ok_fs_write
  storage_ok_fs_remove storage_ok_fs_rename : preserves.
Lemma ensure_keeps {E} b (e : E) : preserves store_in_order (ensure b e).
Proof. by intros s. Qed.
Lemma modify_keeps {E} f : (∀ s, zfs (f s) = zfs s) → preserves store_in_order (modify (E:=E) f).
Proof. intros Hf. apply preserves_modify. intros s Hs. unfold store_in_order. by rewrite Hf. Qed.
#[local] Hint Resolve ensure_keeps modify_keeps : preserves.
Lemma publish_keeps r : preserves store_in_order (publish r).
Proof. unfold publish. solve_preserves. Qed.
Lemma next_generation_keeps : preserves store_in_order next_generation.
Proof. by intros s. Qed.
#[local] Hint Resolve publish_keeps next_generation_keeps : preserves.
Lemma open_keeps t i o : preserves store_in_order (open t i o).
Proof. unfold open. solve_preserves. Qed.
Lemma close_keeps t i : preserves store_in_order (close t i).
Proof. unfold close. solve_preserves. Qed.
End keeps.

(** ** Held connections: the properties at a concrete registry, and a close that does not last

    One tenant with storage opens one connection; the codec of the records is
    the generic one of [Concrete.v]. *)
Module StreamsWitness.
#[local] Instance sha : Sha256 := Concrete.sha.
#[local] Instance written_eq_dec : EqDecision Written.
Proof. solve_decision. Defined.
#[local] Program Instance written_countable : Countable Written :=
  inj_countable' (λ w, (w_version w, w_tenant w, w_id w, w_origin w))
    (λ '(v, t, i, o), {| w_version := v; w_tenant := t; w_id := i; w_origin := o |}) _.
Next Obligation. by intros []. Qed.
#[local] Instance written_codec : Codec Written := Concrete.codec Written.

Definition t1 : bytes := replicate 16 Byte.x01.
Definition z1 : Zfs := run_zop (OTenantDir t1) (genesis 10 100 [] [[Byte.x0a]; [Byte.x0b]]).
Definition s0 : StreamRegistry := registry_new z1.
Definition opened : StreamRegistry := (open t1 "escrow" "http://escrow:8080" s0).2.
(** The removal of the record is refused once. *)
Definition with_faults (f : list outcome) (s : StreamRegistry) : StreamRegistry := set_zfs (set_faults f (zfs s)) s.
Definition failing : StreamRegistry := with_faults [Works; Refuses] opened.
Definition closed1 : StreamRegistry := (close t1 "escrow" failing).2.
Definition closed2 : StreamRegistry := (close t1 "escrow" closed1).2.
Definition rebooted : StreamRegistry := (open_registry (registry_new (crash (zfs closed2)))).2.
Definition record1 : StreamRecord :=
  {| version := 1; tenant := t1; id := "escrow"; origin := "http://escrow:8080"; generation := 1 |}.

Lemma proof_names_request_witness :
  stream_user_data OPEN (wire_id record1) [] ≠ stream_user_data SEND (wire_id record1) [] ∨
  collide (stream_preimage OPEN (wire_id record1) []) (stream_preimage SEND (wire_id record1) []).
Proof.
  destruct (decide (stream_user_data OPEN (wire_id record1) [] = stream_user_data SEND (wire_id record1) []))
    as [Heq|Hne]; [right|by left].
  destruct (proof_names_request OPEN (wire_id record1) [] SEND (wire_id record1) []) as [(Hk & _)|[[Hb _]|Hc]];
    [by apply (bool_decide_unpack _); vm_compute..|exact Heq|discriminate Hk|by destruct Hb|exact Hc].
Defined.
Lemma reconcile_spec_witness :
  Spawn record1 ∈ (reconcile [record1] ∅).1 ∧ (reconcile [record1] ∅).2 !! (t1, "escrow") = Some (record1, false).
Proof.
  destruct (reconcile_spec [record1] ∅ (reconcile [record1] ∅).1 (reconcile [record1] ∅).2) as (H1 & H2 & _).
  - apply NoDup_singleton.
  - apply surjective_pairing.
  - split; [apply H2|apply H1]; [split; [by left|by rewrite lookup_empty]|].
    exists record1. split_and!; [by left|done|done].
Defined.

Lemma store_disk1 : storage_ok z1.
Proof.
  apply reachable_storage_ok. eapply reachable_step; [|apply zstep_op]. apply reachable_init.
  do 4 eexists. split_and!; [| |reflexivity]; vm_compute; [done|by split].
Qed.
Lemma with_faults_keeps f s : store_in_order s → store_in_order (with_faults f s).
Proof. intros Hs. by eapply storage_ok_ext, Hs. Qed.
Lemma disk_ok_opened : store_in_order opened.
Proof. exact (open_keeps t1 "escrow" "http://escrow:8080" s0 store_disk1). Qed.
Lemma disk_ok_failing : store_in_order failing.
Proof. exact (with_faults_keeps _ opened disk_ok_opened). Qed.
Lemma disk_ok2 : store_in_order closed2.
Proof. exact (close_keeps t1 "escrow" closed1 (close_keeps t1 "escrow" failing disk_ok_failing)). Qed.

(** A close that failed cannot be repeated.  [close] forgets the
    connection before it removes the record; when the removal fails the call is
    an error, the same call again answers [Ok] without looking at the disk, and
    the next boot opens the connection that was closed. *)
Theorem failed_close_sticks :
  ∃ (s s1 s2 s3 : StreamRegistry) z t i r e,
    records s !! (t, i) = Some r ∧
    close t i s = (Err e, s1) ∧ close t i s1 = (Ok tt, s2) ∧ records s2 !! (t, i) = None ∧
    restart (zfs s2) z ∧ open_registry (registry_new z) = (Ok tt, s3) ∧
    (to_written <$> records s3 !! (t, i)) = Some (to_written r).
Proof.
  exists failing, closed1, closed2, rebooted, (crash (zfs closed2)), t1, "escrow", record1, "i/o error".
  split_and!.
  - vm_compute. reflexivity.
  - unfold closed1. apply Concrete.run_split. vm_compute. reflexivity.
  - unfold closed2. apply Concrete.run_split. vm_compute. reflexivity.
  - vm_compute. reflexivity.
  - apply restart_crash, disk_ok2.
  - unfold rebooted. apply Concrete.run_split. vm_compute. reflexivity.
  - vm_compute. reflexivity.
Qed.
End StreamsWitness.
