(* ===== verification/Tasks.v ===== *)
(** * Background tasks: [tasks.rs]

    [TaskQueue] is the queue's memory ([Records]) and the storage its records
    are published on.  A handler is a [M TaskQueue string]: like the Rust code
    it keeps whatever it wrote before an error.  [now] is the clock reading the
    handler makes.  serde_json is the codec parameter [Codec Task], SHA-256 the
    parameter [Sha256]. *)
From S2P Require Import Prelude Storage.

Definition MAX_PAYLOAD : Z := 64 * 1024.
Definition MAX_RECORD : Z := 1024 * 1024.
Definition MAX_ATTEMPTS : Z := 5.
Definition DIR : string := "tasks".
(** Milliseconds. *)
Definition TASK_TIMEOUT : Z := 600 * 1000.

Record TaskLimits := { concurrency : Z; max_records : Z; per_tenant : Z; timeout : Z }.
Definition default_limits : TaskLimits :=
  {| concurrency := 1; max_records := 1024; per_tenant := 64; timeout := TASK_TIMEOUT |}.

Inductive Status := Pending | Running | Completed | Failed | Cancelled.
#[export] Instance status_eq_dec : EqDecision Status.
Proof. solve_decision. Defined.

Record Task := {
  version : Z; tenant : bytes; id : string; payload : bytes;
  run_at : Z; requested_run_at : Z; generation : bytes; interval_ms : option Z;
  status : Status; attempts : Z; occurrence : Z; task_result : bytes; error : option string }.
#[export] Instance task_eq_dec : EqDecision Task.
Proof. solve_decision. Defined.

(** Decimal printing of an unsigned integer. *)
Definition show (n : Z) : string := pretty n.

Definition key (tenant : bytes) (id : string) : string := hex_encode tenant +:+ "-" +:+ id.
Definition task_key (t : Task) : string := key (tenant t) (id t).
Definition run_id (t : Task) : string :=
  id t +:+ ":" +:+ hex_encode (generation t) +:+ ":" +:+ show (occurrence t).
Definition terminal (t : Task) : bool :=
  match status t with Completed | Failed | Cancelled => true | _ => false end.
Definition valid_id (id : string) : bool :=
  negb (bool_decide (id = "")) && (strlen id <=? 64) &&
  all_chars (λ c, is_ascii_alphanumeric c || is_between 45 45 c || is_between 95 95 c) id.

(** A task with another status, as the handlers update the record they hold. *)
Definition with_status (s : Status) (t : Task) : Task :=
  {| version := version t; tenant := tenant t; id := id t; payload := payload t;
     run_at := run_at t; requested_run_at := requested_run_at t; generation := generation t;
     interval_ms := interval_ms t; status := s; attempts := attempts t;
     occurrence := occurrence t; task_result := task_result t; error := error t |}.
Definition with_attempts (n : Z) (t : Task) : Task :=
  {| version := version t; tenant := tenant t; id := id t; payload := payload t;
     run_at := run_at t; requested_run_at := requested_run_at t; generation := generation t;
     interval_ms := interval_ms t; status := status t; attempts := n;
     occurrence := occurrence t; task_result := task_result t; error := error t |}.
Definition with_occurrence (n : Z) (t : Task) : Task :=
  {| version := version t; tenant := tenant t; id := id t; payload := payload t;
     run_at := run_at t; requested_run_at := requested_run_at t; generation := generation t;
     interval_ms := interval_ms t; status := status t; attempts := attempts t;
     occurrence := n; task_result := task_result t; error := error t |}.
Definition with_run_at (n : Z) (t : Task) : Task :=
  {| version := version t; tenant := tenant t; id := id t; payload := payload t;
     run_at := n; requested_run_at := requested_run_at t; generation := generation t;
     interval_ms := interval_ms t; status := status t; attempts := attempts t;
     occurrence := occurrence t; task_result := task_result t; error := error t |}.
Definition with_outcome (r : bytes) (e : option string) (t : Task) : Task :=
  {| version := version t; tenant := tenant t; id := id t; payload := payload t;
     run_at := run_at t; requested_run_at := requested_run_at t; generation := generation t;
     interval_ms := interval_ms t; status := status t; attempts := attempts t;
     occurrence := occurrence t; task_result := r; error := e |}.

Record Records := {
  tasks : gmap string Task; due_set : gset (Z * string);
  active : gset string; last_tenant : option bytes }.
Definition no_records : Records :=
  {| tasks := ∅; due_set := ∅; active := ∅; last_tenant := None |}.
Record TaskQueue := { zfs : Zfs; limits : TaskLimits; records : Records }.

Definition set_zfs (z : Zfs) (q : TaskQueue) : TaskQueue :=
  {| zfs := z; limits := limits q; records := records q |}.
Definition set_records (r : Records) (q : TaskQueue) : TaskQueue :=
  {| zfs := zfs q; limits := limits q; records := r |}.
Definition set_tasks (f : gmap string Task → gmap string Task) (q : TaskQueue) : TaskQueue :=
  set_records {| tasks := f (tasks (records q)); due_set := due_set (records q);
    active := active (records q); last_tenant := last_tenant (records q) |} q.
Definition set_due (f : gset (Z * string) → gset (Z * string)) (q : TaskQueue) : TaskQueue :=
  set_records {| tasks := tasks (records q); due_set := f (due_set (records q));
    active := active (records q); last_tenant := last_tenant (records q) |} q.
Definition set_active (f : gset string → gset string) (q : TaskQueue) : TaskQueue :=
  set_records {| tasks := tasks (records q); due_set := due_set (records q);
    active := f (active (records q)); last_tenant := last_tenant (records q) |} q.
Definition set_last_tenant (t : option bytes) (q : TaskQueue) : TaskQueue :=
  set_records {| tasks := tasks (records q); due_set := due_set (records q);
    active := active (records q); last_tenant := t |} q.

Definition on_zfs {E A} (m : M Zfs E A) : M TaskQueue E A := zoom zfs set_zfs m.
Definition task_place (t : bytes) (name : string) : place := PTenant t DIR name.

Section tasks.
Context `{Sha256} `{Codec Task}.
Implicit Types (q : TaskQueue) (now : Z).

(** The stable phase of a recurring task, and the jitter of a recovery. *)
Definition offset (key : string) (interval : Z) : Z :=
  le_word (take 8 (sha256 (str_bytes key))) mod interval.

(** [TaskQueue::write]: a temporary file, renamed over the record. *)
Definition write (task : Task) : M TaskQueue string () :=
  let b := to_vec task in
  _ ← ensure (len b <=? MAX_RECORD) "task record exceeds limit";
  _ ← on_zfs (tenant_runtime_dir (tenant task));
  let temp := task_place (tenant task) (task_key task +:+ ".tmp") in
  _ ← on_zfs (io_ (fs_write temp b));
  on_zfs (io_ (fs_rename temp (task_place (tenant task) (task_key task)))).

(** ** Recovery *)
Definition valid_record (t : bytes) (name : string) (task : Task) : bool :=
  (version task =? 1) && valid_id (id task) && bool_decide (tenant task = t) &&
  bool_decide (task_key task = name) && (len (payload task) <=? MAX_PAYLOAD) &&
  (len (task_result task) <=? MAX_PAYLOAD) &&
  match interval_ms task with None => true | Some i => 1000 <=? i end.
(** What an attempt interrupted by a restart becomes. *)
Definition interrupted (task : Task) : Task :=
  with_outcome (task_result task) (Some "enclave stopped during execution")
    (with_status (if MAX_ATTEMPTS <=? attempts task then Failed else Pending) task).
Definition load_entry (now : string → Z) (t : bytes) (name : string) : M TaskQueue string () :=
  let p := task_place t name in
  if ends_with ".tmp" name then on_zfs (io_ (fs_remove p))
  else
    q ← get;
    _ ← ensure (Z.of_nat (size (tasks (records q))) <? max_records (limits q))
          "task store exceeds configured quota";
    b ← on_zfs (io_ (fs_read p));
    _ ← ensure (len b <=? MAX_RECORD) "oversized task record";
    task ← unwrap (from_slice b) "decoding task record";
    _ ← ensure (valid_record t name task) "invalid task record";
    let task' := if decide (status task = Running) then interrupted task else task in
    _ ← (if decide (status task = Running) then write task' else mret tt);
    _ ← (if decide (status task' = Pending) then
           let at_ := Z.max (run_at task') (saturating_add (now name) (offset (task_key task') 1000)) in
           modify (set_due (λ d, {[ (at_, task_key task') ]} ∪ d))
         else mret tt);
    modify (set_tasks <[task_key task' := task']>).
Definition load_tenant (now : string → Z) (t : bytes) : M TaskQueue string () :=
  _ ← on_zfs (tenant_runtime_dir t);
  _ ← on_zfs (io_ io);
  q ← get;
  let names := match pools (zfs q) !! t with
               | Some tp => names_in DIR (content (tp_pool tp)) | None => [] end in
  forM (load_entry now t) names.
Definition open (now : string → Z) : M TaskQueue string () :=
  q ← get;
  let l := limits q in
  _ ← ensure ((0 <? concurrency l) && (0 <? max_records l) && (0 <? per_tenant l) &&
              negb (timeout l =? 0)) "task limits must be positive";
  _ ← modify (set_records no_records);
  ts ← on_zfs background_tenants;
  forM (load_tenant now) ts.

(** ** The guest's calls *)
Definition tenant_count (t : bytes) (m : gmap string Task) : Z :=
  Z.of_nat (size (filter (λ kv : string * Task, tenant kv.2 = t) m)).
Definition enqueue (t : bytes) (i : string) (pl : bytes) (at_ : Z) (interval : option Z) :
    M TaskQueue string () :=
  _ ← ensure (valid_id i) "invalid task id";
  _ ← ensure (len pl <=? MAX_PAYLOAD) "task payload exceeds 64 KiB";
  _ ← ensure (match interval with None => true | Some n => 1000 <=? n end)
        "interval must be at least 1000 ms";
  _ ← on_zfs (existing_tenant_dir t);
  _ ← on_zfs (mark_background t);
  q ← get;
  let k := key t i in
  match tasks (records q) !! k with
  | Some old =>
      ensure (bool_decide (payload old = pl) && bool_decide (interval_ms old = interval) &&
              (requested_run_at old =? at_)) "task id already used with different input"
  | None =>
      _ ← ensure ((Z.of_nat (size (tasks (records q))) <? max_records (limits q)) &&
                  (tenant_count t (tasks (records q)) <? per_tenant (limits q)))
            "task quota reached; forget terminal tasks";
      g ← on_zfs (draw "task identity entropy");
      let task := {| version := 1; tenant := t; id := i; payload := pl; run_at := at_;
        requested_run_at := at_; generation := g; interval_ms := interval; status := Pending;
        attempts := 0; occurrence := 0; task_result := []; error := None |} in
      _ ← write task;
      _ ← modify (set_due (λ d, {[ (at_, k) ]} ∪ d));
      modify (set_tasks <[k := task]>)
  end.

Definition get_status (t : bytes) (i : string) : M TaskQueue string Task :=
  q ← get; unwrap (tasks (records q) !! key t i) "no such task".

Definition cancel (t : bytes) (i : string) : M TaskQueue string () :=
  q ← get;
  let k := key t i in
  task ← unwrap (tasks (records q) !! k) "no such task";
  let task := with_status Cancelled task in
  _ ← write task;
  _ ← modify (set_tasks <[k := task]>);
  modify (set_due (filter (λ e, e.2 ≠ k))).

Definition forget (t : bytes) (i : string) : M TaskQueue string () :=
  q ← get;
  let k := key t i in
  _ ← (if decide (k ∈ active (records q)) then fail "task is still active"
       else task ← unwrap (tasks (records q) !! k) "no such task";
            ensure (terminal task) "task is still active");
  _ ← on_zfs (tenant_runtime_dir t);
  _ ← on_zfs (io_ (fs_remove (task_place t k)));
  modify (set_tasks (delete k)).

(** ** The scheduler *)
Definition ready (now : Z) (r : Records) : list (Z * string * bytes) :=
  omap (λ e, t ← tasks r !! e.2; Some (e, tenant t))
    (take_while (λ e, e.1 <=? now) (sorted_elements (elements (due_set r)))).
(** The order of [min_by_key]: tenants after the last one served come first. *)
Definition turn (last : option bytes) (c : Z * string * bytes) : bool * bytes * Z :=
  let '(at_, _, t) := c in
  (match last with Some l => leb t l | None => false end, t, at_).
(** The name [due] is the method's; it takes the entry and marks it active. *)
Definition due (now : Z) (q : TaskQueue) : option Task * TaskQueue :=
  match min_by_key (turn (last_tenant (records q))) (ready now (records q)) with
  | None => (None, q)
  | Some (at_, k, t) =>
      (tasks (records q) !! k,
       set_records {| tasks := tasks (records q); due_set := due_set (records q) ∖ {[ (at_, k) ]};
         active := {[ k ]} ∪ active (records q); last_tenant := Some t |} q)
  end.

Definition begin (task : Task) : M TaskQueue string bool :=
  q ← get;
  current ← unwrap (tasks (records q) !! task_key task) "task disappeared";
  if decide (status current = Pending) then
    let current := with_attempts (attempts current + 1) (with_status Running current) in
    _ ← write current;
    _ ← modify (set_tasks <[task_key current := current]>);
    _ ← on_zfs (anchor_tenant (tenant current));
    mret true
  else mret false.

(** The first instant after [now] at the task's phase of its interval. *)
Definition next_delay (k : string) (interval now : Z) : Z :=
  let phase := offset k interval in
  let position := now mod interval in
  if position <? phase then phase - position else interval - (position - phase).
(** The record after an attempt that returned. *)
Definition after_success (now : Z) (k : string) (b : bytes) (current : Task) : result string Task :=
  let current := with_outcome b None current in
  match interval_ms current with
  | Some interval =>
      let current := with_attempts 0 (with_status Pending current) in
      o ← ok_or (checked_add (occurrence current) 1) "occurrence overflow";
      Ok (with_run_at (saturating_add now (next_delay k interval now)) (with_occurrence o current))
  | None => Ok (with_status Completed current)
  end.
(** The record after an attempt that failed. *)
Definition after_failure (now : Z) (e : string) (current : Task) : Task :=
  let current := with_outcome (task_result current) (Some (take_chars 512 e)) current in
  let current := with_status (if MAX_ATTEMPTS <=? attempts current then Failed else Pending) current in
  with_run_at (saturating_add now (Z.shiftl 1000 (Z.min (attempts current) 8))) current.

Definition finish (now : Z) (task : Task) (outcome : result string (option bytes)) :
    M TaskQueue string () :=
  let k := task_key task in
  q ← get;
  current ← unwrap (tasks (records q) !! k) "task disappeared";
  _ ← modify (set_active (λ a, a ∖ {[ k ]}));
  if decide (status current = Cancelled) then mret tt
  else match outcome with
  | Ok None => modify (set_due (λ d, {[ (saturating_add now 100, k) ]} ∪ d))
  | _ =>
      _ ← ensure (bool_decide (status current = Running)) "task could not persist its execution intent";
      current ← lift (match outcome with
        | Ok (Some b) => after_success now k b current
        | Err e => Ok (after_failure now e current)
        | Ok None => Err "unreachable"
        end);
      _ ← write current;
      _ ← on_zfs (anchor_tenant (tenant current));
      _ ← (if decide (status current = Pending)
           then modify (set_due (λ d, {[ (run_at current, k) ]} ∪ d)) else mret tt);
      modify (set_tasks <[k := current]>)
  end.

(** How long [run] sleeps when nothing else wakes it, in milliseconds. *)
Definition wait (now : Z) (r : Records) : Z :=
  Z.min 60000 (match head (sorted_elements (elements (due_set r))) with
    | Some (at_, _) => Z.max 1 (saturating_sub at_ now) | None => 60000 end).
End tasks.

(** ** What a guest may ask for: [context] and [add_to_linker] *)
Record TaskContext := { ctx_tenant : bytes; interactive : bool }.
Definition context (ctx : option TaskContext) (mutation : bool) : result string TaskContext :=
  ctx ← ok_or ctx "tasks require an authenticated tenant and enabled scheduler";
  _ ← check (negb mutation || interactive ctx) "background work cannot authorize more work";
  Ok ctx.
Section host.
Context `{Sha256} `{Codec Task}.
Inductive guest_call :=
  | GEnqueue (i : string) (pl : bytes) (at_ : Z) (interval : option Z)
  | GStatus (i : string) | GCancel (i : string) | GForget (i : string).
Definition mutates (c : guest_call) : bool := match c with GStatus _ => false | _ => true end.
(** The four imports of [enclave:tasks/queue]; [status] answers a record. *)
Definition guest_run (ctx : option TaskContext) (c : guest_call) : M TaskQueue string (option Task) :=
  ctx ← lift (context ctx (mutates c));
  match c with
  | GEnqueue i pl at_ interval => _ ← enqueue (ctx_tenant ctx) i pl at_ interval; mret None
  | GStatus i => Some <$> get_status (ctx_tenant ctx) i
  | GCancel i => _ ← cancel (ctx_tenant ctx) i; mret None
  | GForget i => _ ← forget (ctx_tenant ctx) i; mret None
  end.
End host.
