(* ===== verification/TasksFacts.v ===== *)
(** * Background tasks: what holds of [Tasks.v]

    The invariant of the queue (memory, disk and workers), the running system as
    a step relation with crashes and restarts, and the properties of the
    scheduler. *)
From S2P Require Import Prelude Storage Tasks.


(** ** Names *)
Definition not_dot (c : Ascii.ascii) : bool := negb (is_between 46 46 c).
Lemma hex_digit_not_dot n : 0 ≤ n < 16 → not_dot (hex_digit n) = true.
Proof.
  intros Hn. assert (n ∈ seqZ 0 16) as Hin by (apply elem_of_seqZ; lia).
  assert (Forall (λ n, not_dot (hex_digit n) = true) (seqZ 0 16)) as Hall
    by (vm_compute; repeat constructor).
  rewrite Forall_forall in Hall. exact (Hall n Hin).
Qed.
Lemma hex_encode_not_dot b : all_chars not_dot (hex_encode b) = true.
Proof.
  induction b as [|x b IH]; [done|]. cbn [hex_encode all_chars]. pose proof (byteZ_range x).
  rewrite !hex_digit_not_dot, IH; [done| |].
  - apply Z.mod_pos_bound. lia.
  - split; [apply Z.div_pos; lia|apply Z.div_lt_upper_bound; lia].
Qed.
Lemma valid_id_not_dot i : valid_id i = true → all_chars not_dot i = true.
Proof.
  unfold valid_id. intros [_ Hc]%andb_true_iff. eapply all_chars_impl; [|exact Hc].
  intros c. unfold not_dot, is_ascii_alphanumeric, is_ascii_digit, is_ascii_upper, is_ascii_lower, is_between.
  lia.
Qed.
Lemma key_not_temp t i s : valid_id i = true → key t i ≠ s +:+ ".tmp".
Proof.
  intros Hi%valid_id_not_dot Heq. apply (f_equal (all_chars not_dot)) in Heq.
  unfold key in Heq. rewrite !all_chars_app, hex_encode_not_dot, Hi in Heq. simpl in Heq.
  by rewrite andb_comm in Heq.
Qed.
Lemma key_inj t i t' i' : length t = length t' → key t i = key t' i' → t = t' ∧ i = i'.
Proof.
  unfold key. intros Hl Heq. apply string_app_inj_len in Heq as [Ht Hi].
  - apply hex_encode_inj in Ht. by simplify_eq/=.
  - rewrite !hex_encode_length. lia.
Qed.

Section proofs.
Context `{Sha256} `{Codec Task}.

(** ** Publishing a record *)
Lemma write_spec task q r q' :
  write task q = (r, q') → 
  slots_ok (zfs q) → valid_id (id task) = true →
  limits q' = limits q ∧ records q' = records q ∧
  writes [task_place (tenant task) (task_key task +:+ ".tmp"); task_place (tenant task) (task_key task)]
    (zfs q) (zfs q') ∧
  file (zfs q') (task_place (tenant task) (task_key task)) =
    match r with Ok _ => Some (to_vec task) | Err _ => file (zfs q) (task_place (tenant task) (task_key task)) end ∧
  (r = Ok tt → len (to_vec task) ≤ MAX_RECORD ∧ is_Some (pools (zfs q') !! tenant task) ∧
     imported (tenant task) (zfs q') = true).
Proof.
  unfold write. intros Hrun Hs Hid.
  set (live := task_place (tenant task) (task_key task)).
  set (temp := task_place (tenant task) (task_key task +:+ ".tmp")).
  assert (temp ≠ live) as Hne.
  { intros [= Heq]. by apply (key_not_temp (tenant task) (id task) (task_key task) Hid). }
  inv_bind Hrun; [|inv_pure; split_and!; done]. inv_pure.
  inv_bind Hrun; apply zoom_inv in Hrun0 as (z1 & Hdir & ->); simpl in *;
    pose proof (frame_tenant_runtime_dir _ _ _ _ Hdir) as Hf;
    [|split_and!; [done|done|by apply frame_writes|apply Hf|done]].
  destruct a. apply tenant_runtime_dir_frame in Hdir as [_ Hdir].
  destruct (Hdir Hs) as [Hs1 Hthere]. destruct (Hthere eq_refl) as [Himp Hpool].
  assert (pool_there z1 temp ∧ pool_there z1 live) as [Htemp Hlive]
    by (split; apply (frame_pool _ _ Hf), Hpool).
  inv_bind Hrun; apply zoom_inv in Hrun0 as (z2 & Hw & ->); simpl in *;
    apply io__inv in Hw as (r2 & Hw & Hr2); pose proof Hw as Hfsw;
    apply fs_write_inv in Hw as (Hw & Hok & Htemp2); try done.
  2: { split_and!; [done|done| | |done].
    - eapply writes_trans; [by apply frame_writes|].
      destruct Hw as [Hw1 Hw2 Hw3]. split; [|done|done]. intros p Hp. apply Hw1. set_solver.
    - rewrite (writes_file _ _ _ Hw) by set_solver. apply Hf. }
  destruct r2 as [[]|]; simplify_eq/=.
  apply zoom_inv in Hrun as (z3 & Hr3 & ->). simpl in *.
  apply io__inv in Hr3 as (r3 & Hr3 & ->).
  pose proof Hr3 as Hren. apply fs_rename_inv in Hr3 as (Hw3 & Hok3 & Hfr); try done.
  assert (writes [temp; live] (zfs q) z3) as Hall.
  { eapply writes_trans; [by apply frame_writes|]. eapply writes_trans; [|exact Hw3].
    destruct Hw as [Hw1 Hw2 Hw3']. split; [|done|done]. intros p Hp. apply Hw1. set_solver. }
  split_and!; [done|done|exact Hall| |].
  - destruct r3 as [[]|e]; simpl.
    + destruct (Hok3 eq_refl) as [Heq _]. etrans; [exact Heq|]. by apply Hok.
    + rewrite (frame_file _ _ (Hfr eq_refl)), (writes_file _ _ _ Hw) by set_solver. apply Hf.
  - destruct r3; [|done]. intros _. split_and!; [lia|apply Hall, Hpool|].
    exact (preserves_ok _ _ _ _ _ (imported_fs_rename _ _ _)
      (preserves_ok _ _ _ _ _ (imported_fs_write _ _ _) Himp Hfsw) Hren).
Qed.

(** ** Records on disk *)
Record record_ok (k : string) (t : Task) : Prop := {
  ok_valid : valid_record (tenant t) k t = true;
  ok_tenant : length (tenant t) = 16%nat;
  ok_attempts : 0 ≤ attempts t ≤ MAX_ATTEMPTS;
  ok_pending : status t = Pending → attempts t < MAX_ATTEMPTS;
}.
(** What every content of a tenant's pool holds in the tasks' directory. *)
Definition dir_ok (t : bytes) (c : files) : Prop := ∀ name b, c !! (DIR, name) = Some b →
  ends_with ".tmp" name = true ∨
  ∃ task, b = to_vec task ∧ record_ok name task ∧ tenant task = t ∧ len b ≤ MAX_RECORD.
(** The records in memory are the ones on disk. *)
Definition synced (m : gmap string Task) (z : Zfs) : Prop := ∀ k t,
  m !! k = Some t → file z (task_place (tenant t) k) = Some (to_vec t).

Lemma valid_record_inv t k task : valid_record t k task = true →
  version task = 1 ∧ valid_id (id task) = true ∧ tenant task = t ∧ task_key task = k ∧
  len (payload task) ≤ MAX_PAYLOAD ∧ len (task_result task) ≤ MAX_PAYLOAD ∧
  match interval_ms task with None => True | Some i => 1000 ≤ i end.
Proof.
  unfold valid_record. rewrite !andb_true_iff, !bool_decide_eq_true.
  destruct (interval_ms task); intros; split_and!; try lia; tauto.
Qed.
Lemma record_ok_key k t : record_ok k t → task_key t = k.
Proof. intros [Hv _ _ _]. by apply valid_record_inv in Hv as (_&_&_&?&_). Qed.
Lemma record_ok_id k t : record_ok k t → valid_id (id t) = true.
Proof. intros [Hv _ _ _]. by apply valid_record_inv in Hv as (_&?&_). Qed.

Lemma dir_ok_put t c name o :
  dir_ok t c →
  (∀ b, o = Some b → ends_with ".tmp" name = true ∨
    ∃ task, b = to_vec task ∧ record_ok name task ∧ tenant task = t ∧ len b ≤ MAX_RECORD) →
  dir_ok t (partial_alter (λ _, o) (DIR, name) c).
Proof.
  intros Hc Ho n b. destruct (decide ((DIR, name) = (DIR, n))) as [[= <-]|Hne].
  - rewrite lookup_partial_alter_eq. intros ->. by apply Ho.
  - rewrite lookup_partial_alter_ne by done. apply Hc.
Qed.
Lemma dir_ok_other t c d name o :
  d ≠ DIR → dir_ok t c → dir_ok t (partial_alter (λ _, o) (d, name) c).
Proof.
  intros Hd Hc n b. rewrite lookup_partial_alter_ne; [apply Hc|]. by intros [= ?].
Qed.
Lemma ends_with_temp s : ends_with ".tmp" (s +:+ ".tmp") = true.
Proof. apply ends_with_iff. by exists s. Qed.

Lemma frame_synced m z z' : frame z z' → synced m z → synced m z'.
Proof. intros Hf Hm k t Ht. rewrite (frame_file _ _ Hf). by apply Hm. Qed.

Lemma key_not_ends_temp t i : valid_id i = true → ends_with ".tmp" (key t i) = false.
Proof.
  intros Hi. apply not_true_iff_false. intros [r Hr]%ends_with_iff. by eapply key_not_temp.
Qed.

(** [write] of a sound record: the one record changes, on success. *)
Lemma write_synced task q r q' :
  write task q = (r, q') → slots_ok (zfs q) → record_ok (task_key task) task →
  limits q' = limits q ∧ records q' = records q ∧ slots_ok (zfs q') ∧
  (∀ m, map_Forall record_ok m → synced m (zfs q) →
    synced (if is_ok r then <[task_key task := task]> m else m) (zfs q')).
Proof.
  intros Hw Hs Hok. pose proof (record_ok_id _ _ Hok) as Hid.
  destruct (write_spec _ _ _ _ Hw Hs Hid) as (Hl & Hr & Hws & Hf & _).
  split_and!; [done|done|by apply Hws|]. intros m Hm Hsync k t.
  assert (Hother : ∀ t, m !! k = Some t → k ≠ task_key task →
    file (zfs q') (task_place (tenant t) k) = Some (to_vec t)).
  { intros t' Ht' Hne. rewrite (writes_file _ _ _ Hws); [by apply Hsync|].
    pose proof (Hm _ _ Ht') as Hrec. unfold task_place.
    intros [[= _ Heq]|[[= _ Heq]|[]%elem_of_nil]%elem_of_cons]%elem_of_cons; [|done].
    rewrite <-(record_ok_key _ _ Hrec) in Heq.
    by eapply key_not_temp; [apply (record_ok_id _ _ Hrec)|exact Heq]. }
  destruct r as [[]|e]; simpl in *; [rewrite lookup_insert; case_decide as Hk|].
  - intros [= <-]. by subst.
  - intros Ht. by apply Hother.
  - intros Ht. destruct (decide (k = task_key task)) as [->|Hne]; [|by apply Hother].
    destruct (decide (tenant t = tenant task)) as [Heq|Hne].
    + rewrite Heq. unfold task_place in *. rewrite Hf. rewrite <-Heq. by apply Hsync.
    + rewrite (writes_file _ _ _ Hws); [by apply Hsync|]. unfold task_place. set_solver.
Qed.
Lemma on_zfs_preserves {E A} (P : Zfs → Prop) (m : M Zfs E A) :
  preserves P m → preserves (λ q, P (zfs q)) (on_zfs m).
Proof. intros Hm q Hq. specialize (Hm _ Hq). unfold on_zfs, zoom. by destruct (m (zfs q)). Qed.
Lemma write_dirs task q r q' :
  write task q = (r, q') → slots_ok (zfs q) → record_ok (task_key task) task →
  pools_hold dir_ok (zfs q) → pools_hold dir_ok (zfs q').
Proof.
  unfold write. intros Hw Hs Hok Hp. pose proof (record_ok_id _ _ Hok) as Hid.
  assert (Htemp : ∀ o c, dir_ok (tenant task) c →
    dir_ok (tenant task) (partial_alter (λ _, o) (DIR, task_key task +:+ ".tmp") c)).
  { intros o c Hc. apply dir_ok_put; [done|]. intros. left. apply ends_with_temp. }
  inv_bind Hw; [|by inv_pure]. inv_pure.
  inv_bind Hw; apply zoom_inv in Hrun as (z1 & Hdir & ->); simpl in *;
    pose proof (preserves_ok _ _ _ _ _ (pools_hold_tenant_runtime_dir _ _) Hp Hdir) as Hp1; [|done].
  destruct a. apply tenant_runtime_dir_frame in Hdir as [Hsame Hdir].
  destruct (Hdir Hs) as [Hs1 Hthere]. destruct (Hthere eq_refl) as [_ Hpool].
  assert (∀ n, pool_there z1 (task_place (tenant task) n)) as Hpl.
  { intros n. unfold pool_there. simpl. by destruct Hsame as (_ & -> & _). }
  inv_bind Hw; apply zoom_inv in Hrun as (z2 & Hfw & ->); simpl in *;
    apply io__inv in Hfw as (r2 & Hfw & Hr2);
    pose proof (preserves_ok _ _ _ _ _ (pools_hold_fs_write dir_ok _ _ _ _ Htemp) Hp1 Hfw) as Hp2; [|done].
  destruct r2 as [[]|]; simplify_eq/=. apply fs_write_inv in Hfw as (_ & Hfile & _); [|done].
  apply zoom_inv in Hw as (z3 & Hr3 & ->). apply io__inv in Hr3 as (r3 & Hr3 & ->). simpl in *.
  eapply pools_hold_fs_rename; [exact Hr3|done| |by auto].
  intros b c Hb Hc. specialize (Hfile eq_refl). unfold task_place in Hfile.
  rewrite Hfile in Hb. injection Hb as <-.
  apply dir_ok_put; [done|]. intros b [= <-]. right. exists task. split_and!; try done. lia.
Qed.

(** The storage carries the records [m], and nothing that is not a record. *)
Record on_disk (m : gmap string Task) (z : Zfs) : Prop := {
  disk_storage : storage_ok z;
  disk_slots : slots_ok z;
  disk_dirs : pools_hold dir_ok z;
  disk_records : map_Forall record_ok m;
  disk_synced : synced m z;
}.
Lemma on_disk_frame m z z' :
  frame z z' → storage_ok z' → pools_hold dir_ok z' → on_disk m z → on_disk m z'.
Proof. intros Hf Hs Hp [_ Hsl _ Hr Hsy]. split; eauto using frame_synced. by apply Hf. Qed.
Lemma on_disk_op {E A} (op : M Zfs E A) m :
  preserves storage_ok op → preserves (pools_hold dir_ok) op →
  (∀ z r z', op z = (r, z') → frame z z') → preserves (on_disk m) op.
Proof.
  intros Hs Hp Hf z Hz. pose proof (Hs z (disk_storage _ _ Hz)). pose proof (Hp z (disk_dirs _ _ Hz)).
  destruct (op z) as [r z'] eqn:E1. eapply on_disk_frame; eauto.
Qed.
Lemma on_disk_anchor_tenant t m : preserves (on_disk m) (anchor_tenant t).
Proof.
  apply on_disk_op; eauto using frame_anchor_tenant.
  - apply storage_ok_anchor_tenant.
  - apply pools_hold_anchor_tenant.
Qed.
Lemma on_disk_existing_tenant_dir t m : preserves (on_disk m) (existing_tenant_dir t).
Proof.
  apply on_disk_op; eauto using frame_existing_tenant_dir.
  - apply storage_ok_tenant_pool.
  - apply pools_hold_tenant_pool.
Qed.
Lemma on_disk_tenant_runtime_dir t m : preserves (on_disk m) (tenant_runtime_dir t).
Proof.
  apply on_disk_op; eauto using frame_tenant_runtime_dir.
  - apply storage_ok_tenant_runtime_dir.
  - apply pools_hold_tenant_runtime_dir.
Qed.
Lemma on_disk_mark_background t m : preserves (on_disk m) (mark_background t).
Proof.
  apply on_disk_op; eauto using frame_mark_background.
  - apply storage_ok_mark_background.
  - apply pools_hold_mark_background.
Qed.
Lemma on_disk_draw w m : preserves (on_disk m) (draw w).
Proof.
  apply on_disk_op; eauto using frame_draw.
  - apply storage_ok_draw.
  - apply pools_hold_draw.
Qed.
Lemma storage_ok_write task : preserves (λ q, storage_ok (zfs q)) (write task).
Proof.
  unfold write. apply preserves_bind; [by intros ?|intros _].
  apply preserves_bind; [apply on_zfs_preserves, storage_ok_tenant_runtime_dir|intros _].
  apply preserves_bind; [apply on_zfs_preserves, preserves_io_, storage_ok_fs_write|intros _].
  apply on_zfs_preserves, preserves_io_, storage_ok_fs_rename.
Qed.
Lemma on_disk_write task q r q' m :
  write task q = (r, q') → on_disk m (zfs q) → record_ok (task_key task) task →
  limits q' = limits q ∧ records q' = records q ∧
  on_disk (if is_ok r then <[task_key task := task]> m else m) (zfs q').
Proof.
  intros Hw [Hs Hsl Hd Hr Hsy] Hok.
  destruct (write_synced _ _ _ _ Hw Hsl Hok) as (Hl & Hrec & Hsl' & Hsync).
  split_and!; [done..|]. split; [|done| | |by apply Hsync].
  - exact (preserves_ok _ _ _ _ _ (storage_ok_write task) Hs Hw).
  - by eapply write_dirs.
  - destruct r; [|done]. simpl. by apply map_Forall_insert_2.
Qed.

(** ** The queue in memory *)
(** A worker: the record [due] gave it, and where [run] is with it. *)
Inductive phase := Started | Executing | Returned (o : result string (option bytes)).
Definition phase_ok (p : phase) (s : Status) : Prop :=
  s = Cancelled ∨
  match p with
  | Started | Returned (Ok None) => s = Pending
  | Executing | Returned (Ok (Some _)) => s = Running
  | Returned (Err _) => s = Pending ∨ s = Running
  end.
Definition worker_keys (ws : list (Task * phase)) : list string := (λ w, task_key w.1) <$> ws.
Record mem_ok (r : Records) (ws : list (Task * phase)) : Prop := {
  mem_due a k : (a, k) ∈ due_set r →
    k ∉ active r ∧ ∃ t, tasks r !! k = Some t ∧ status t = Pending;
  mem_unique a b k : (a, k) ∈ due_set r → (b, k) ∈ due_set r → a = b;
  mem_scheduled k t : tasks r !! k = Some t → status t = Pending →
    k ∈ active r ∨ ∃ a, (a, k) ∈ due_set r;
  mem_running k t : tasks r !! k = Some t → status t = Running → k ∈ active r;
  mem_active k : k ∈ active r ↔ k ∈ worker_keys ws;
  mem_distinct : NoDup (worker_keys ws);
  mem_workers t p : (t, p) ∈ ws → ∃ t', tasks r !! task_key t = Some t' ∧ phase_ok p (status t');
}.
#[export] Instance worker_keys_perm : Proper ((≡ₚ) ==> (≡ₚ)) worker_keys.
Proof. intros ws ws' Hp. unfold worker_keys. by rewrite Hp. Qed.
#[export] Instance mem_ok_perm r : Proper ((≡ₚ) ==> iff) (mem_ok r).
Proof.
  assert (∀ ws ws', ws ≡ₚ ws' → mem_ok r ws → mem_ok r ws') as Himp.
  { intros ws ws' Hp [H1 H2 H3 H4 H5 H6 H7]. split; try done.
    - intros k. by rewrite <-Hp.
    - by rewrite <-Hp.
    - intros t p. rewrite <-Hp. apply H7. }
  intros ws ws' Hp. split; by apply Himp.
Qed.

Lemma mem_active_task r ws k : mem_ok r ws → k ∈ active r → is_Some (tasks r !! k).
Proof.
  intros Hm Hk. apply (mem_active _ _ Hm) in Hk. apply list_elem_of_fmap in Hk as ([t p] & -> & Hin). simpl.
  destruct (mem_workers _ _ Hm _ _ Hin) as (t' & -> & _). by eexists.
Qed.
Lemma mem_ok_enqueue r ws k t a :
  mem_ok r ws → tasks r !! k = None → status t = Pending →
  mem_ok {| tasks := <[k := t]> (tasks r); due_set := {[ (a, k) ]} ∪ due_set r;
            active := active r; last_tenant := last_tenant r |} ws.
Proof.
  intros Hm Hk Ht.
  assert (k ∉ active r) as Hka by (intros [? ?]%(mem_active_task _ _ _ Hm); congruence).
  assert (∀ b, (b, k) ∉ due_set r) as Hkd by (intros b (_ & ? & ? & _)%(mem_due _ _ Hm); congruence).
  split; simpl.
  - intros b k'. rewrite elem_of_union, elem_of_singleton. intros [[= -> ->]|Hd].
    + split; [done|]. exists t. by rewrite lookup_insert_eq.
    + destruct (mem_due _ _ Hm _ _ Hd) as (? & t' & Ht' & Hs). split; [done|].
      exists t'. rewrite lookup_insert_ne; [done|congruence].
  - intros b c k'. rewrite !elem_of_union, !elem_of_singleton.
    intros [Hb|Hb] [Hc|Hc]; simplify_eq;
      first [done|by destruct (Hkd c)|by destruct (Hkd b)|by eapply (mem_unique _ _ Hm)].
  - intros k' t'. rewrite lookup_insert. case_decide as Hkk; [subst|].
    + intros _ _. right. exists a. set_solver.
    + intros Ht' Hp. destruct (mem_scheduled _ _ Hm _ _ Ht' Hp) as [?|[b ?]]; [by left|].
      right. exists b. set_solver.
  - intros k' t'. rewrite lookup_insert. case_decide as Hkk; [intros [= <-]; congruence|].
    apply (mem_running _ _ Hm).
  - apply (mem_active _ _ Hm).
  - apply (mem_distinct _ _ Hm).
  - intros t' p Hin. destruct (mem_workers _ _ Hm _ _ Hin) as (t2 & Ht2 & Hph).
    exists t2. rewrite lookup_insert_ne; [done|congruence].
Qed.
Lemma mem_ok_cancel r ws k t :
  mem_ok r ws → is_Some (tasks r !! k) → status t = Cancelled →
  mem_ok {| tasks := <[k := t]> (tasks r); due_set := filter (λ e, e.2 ≠ k) (due_set r);
            active := active r; last_tenant := last_tenant r |} ws.
Proof.
  intros Hm [t0 Ht0] Ht. split; simpl.
  - intros a k' [Hne Hd]%elem_of_filter. simpl in Hne.
    destruct (mem_due _ _ Hm _ _ Hd) as (? & t' & ? & ?). split; [done|].
    exists t'. by rewrite lookup_insert_ne.
  - intros a b k' [_ ?]%elem_of_filter [_ ?]%elem_of_filter. by eapply (mem_unique _ _ Hm).
  - intros k' t'. rewrite lookup_insert. case_decide as Hk; [intros [= <-]; congruence|].
    intros Ht' Hp. destruct (mem_scheduled _ _ Hm _ _ Ht' Hp) as [?|[b ?]]; [by left|].
    right. exists b. apply elem_of_filter. simpl. split; [congruence|done].
  - intros k' t'. rewrite lookup_insert. case_decide as Hk; [intros [= <-]; congruence|].
    apply (mem_running _ _ Hm).
  - apply (mem_active _ _ Hm).
  - apply (mem_distinct _ _ Hm).
  - intros t' p Hin. destruct (mem_workers _ _ Hm _ _ Hin) as (t2 & Ht2 & Hph).
    rewrite lookup_insert. case_decide as Hk; [|by eauto]. exists t. split; [done|]. by left.
Qed.
Lemma mem_ok_forget r ws k t :
  mem_ok r ws → k ∉ active r → tasks r !! k = Some t → terminal t = true →
  mem_ok {| tasks := delete k (tasks r); due_set := due_set r;
            active := active r; last_tenant := last_tenant r |} ws.
Proof.
  intros Hm Hk Ht Hterm.
  split; simpl; try apply Hm.
  - intros a k' Hd. destruct (mem_due _ _ Hm _ _ Hd) as (? & t' & Ht' & Hs). split; [done|].
    exists t'. rewrite lookup_delete_ne; [done|]. intros <-. simplify_eq.
    unfold terminal in Hterm. by rewrite Hs in Hterm.
  - intros k' t' [_ Ht']%lookup_delete_Some. by apply (mem_scheduled _ _ Hm).
  - intros k' t' [_ Ht']%lookup_delete_Some. by apply (mem_running _ _ Hm).
  - intros t' p Hin. destruct (mem_workers _ _ Hm _ _ Hin) as (t2 & Ht2 & Hph).
    exists t2. rewrite lookup_delete_ne; [done|]. intros ->. apply Hk, (mem_active _ _ Hm).
    apply list_elem_of_fmap. by exists (t', p).
Qed.
Lemma mem_ok_dispatch r ws a k t tn :
  mem_ok r ws → (a, k) ∈ due_set r → tasks r !! k = Some t → task_key t = k →
  mem_ok {| tasks := tasks r; due_set := due_set r ∖ {[ (a, k) ]};
            active := {[ k ]} ∪ active r; last_tenant := tn |} ((t, Started) :: ws).
Proof.
  intros Hm Hd Ht Hkey. destruct (mem_due _ _ Hm _ _ Hd) as (Hk & t' & Ht' & Hs). simplify_eq.
  split; simpl.
  - intros b k' [Hb Hne]%elem_of_difference. destruct (mem_due _ _ Hm _ _ Hb) as (? & ?).
    split; [|done]. apply not_elem_of_union. split; [|done].
    intros ->%elem_of_singleton. by rewrite (mem_unique _ _ Hm _ _ _ Hb Hd) in Hne; set_solver.
  - intros b c k' [Hb _]%elem_of_difference [Hc _]%elem_of_difference. by eapply (mem_unique _ _ Hm).
  - intros k' t2 Ht2 Hs2. destruct (mem_scheduled _ _ Hm _ _ Ht2 Hs2) as [?|[b ?]]; [set_solver|].
    destruct (decide ((b, k') = (a, task_key t))) as [[= -> ->]|]; [set_solver|].
    right. exists b. set_solver.
  - intros k' t2 Ht2 Hs2. apply elem_of_union. right. by apply (mem_running _ _ Hm _ _ Ht2).
  - intros k'. rewrite elem_of_union, elem_of_singleton, (mem_active _ _ Hm), elem_of_cons. done.
  - apply NoDup_cons. split; [|apply Hm].
    simpl. intros Hin. apply Hk. by apply (mem_active _ _ Hm).
  - intros t2 p [[= -> ->]|Hin]%elem_of_cons; [|by eapply (mem_workers _ _ Hm)].
    exists t. split; [done|]. by right.
Qed.
(** A worker moves on, its record with it, and the set of workers stays. *)
Lemma mem_ok_advance r ws t p t' p' :
  mem_ok r ((t, p) :: ws) → status t' ≠ Pending ∨ tasks r !! task_key t = Some t' →
  phase_ok p' (status t') →
  mem_ok {| tasks := <[task_key t := t']> (tasks r); due_set := due_set r;
            active := active r; last_tenant := last_tenant r |} ((t, p') :: ws).
Proof.
  intros Hm Hst Hph.
  assert (task_key t ∈ active r) as Hact by (apply (mem_active _ _ Hm), list_elem_of_fmap;
    exists (t, p); split; [done|by left]).
  pose proof (mem_distinct _ _ Hm) as Hnd. unfold worker_keys in Hnd. rewrite fmap_cons in Hnd.
  apply NoDup_cons in Hnd as [Hnin Hnd].
  split; simpl; try apply Hm.
  - intros a k Hd. destruct (mem_due _ _ Hm _ _ Hd) as (? & ?). split; [done|].
    rewrite lookup_insert_ne; [done|congruence].
  - intros k t2. rewrite lookup_insert. case_decide; [subst; by left|]. apply (mem_scheduled _ _ Hm).
  - intros k t2. rewrite lookup_insert. case_decide; [by subst|]. apply (mem_running _ _ Hm).
  - intros t2 p2 [[= -> ->]|Hin]%elem_of_cons; [exists t'; by rewrite lookup_insert_eq|].
    destruct (mem_workers _ _ Hm t2 p2) as (t3 & Ht3 & Hph3); [by right|].
    exists t3. rewrite lookup_insert_ne; [done|]. intros Heq. apply Hnin. simpl. rewrite Heq.
    apply list_elem_of_fmap. by exists (t2, p2).
Qed.
(** A worker is done: its record is updated and, if pending, due again. *)
Lemma mem_ok_done r ws t p t' (d : option Z) :
  mem_ok r ((t, p) :: ws) → status t' ≠ Running → is_Some d ↔ status t' = Pending →
  mem_ok {| tasks := <[task_key t := t']> (tasks r);
            due_set := match d with Some a => {[ (a, task_key t) ]} ∪ due_set r | None => due_set r end;
            active := active r ∖ {[ task_key t ]}; last_tenant := last_tenant r |} ws.
Proof.
  intros Hm Hrun Hd.
  assert (task_key t ∈ active r) as Hact by (apply (mem_active _ _ Hm), list_elem_of_fmap;
    exists (t, p); split; [done|by left]).
  assert (∀ a, (a, task_key t) ∉ due_set r) as Hnd' by (by intros a [? _]%(mem_due _ _ Hm)).
  pose proof (mem_distinct _ _ Hm) as Hnd. unfold worker_keys in Hnd. rewrite fmap_cons in Hnd.
  apply NoDup_cons in Hnd as [Hnin Hnd].
  assert (∀ a k, (a, k) ∈ match d with Some a => {[ (a, task_key t) ]} ∪ due_set r | None => due_set r end
    ↔ (a, k) ∈ due_set r ∨ d = Some a ∧ k = task_key t) as Hdue.
  { intros a k. destruct d; [|naive_solver]. rewrite elem_of_union, elem_of_singleton. naive_solver. }
  split; simpl.
  - intros a k [Ha|[-> ->]]%Hdue.
    + destruct (mem_due _ _ Hm _ _ Ha) as (? & ?). split; [set_solver|].
      rewrite lookup_insert_ne; [done|congruence].
    + split; [set_solver|]. exists t'. rewrite lookup_insert_eq. split; [done|]. apply Hd. by eexists.
  - intros a b k [Ha|[Ha Hka]]%Hdue [Hb|[Hb Hkb]]%Hdue; try subst k;
      first [by destruct (Hnd' a)|by destruct (Hnd' b)|congruence|by eapply (mem_unique _ _ Hm)].
  - intros k t2. rewrite lookup_insert. case_decide as Hk; [subst; intros [= <-] [a ->]%Hd|].
    + right. exists a. set_solver.
    + intros Ht2 Hs2. destruct (mem_scheduled _ _ Hm _ _ Ht2 Hs2) as [?|[a ?]]; [set_solver|].
      right. exists a. apply Hdue. by left.
  - intros k t2. rewrite lookup_insert. case_decide as Hk; [intros [= <-]; done|].
    intros Ht2 Hs2%(mem_running _ _ Hm _ _ Ht2). set_solver.
  - intros k. rewrite elem_of_difference, (mem_active _ _ Hm), elem_of_singleton.
    unfold worker_keys. rewrite fmap_cons, elem_of_cons. simpl. split; [naive_solver|].
    intros Hk. split; [by right|]. by intros ->.
  - done.
  - intros t2 p2 Hin. destruct (mem_workers _ _ Hm t2 p2) as (t3 & Ht3 & Hph3); [by right|].
    exists t3. rewrite lookup_insert_ne; [done|]. intros Heq. apply Hnin. simpl. rewrite Heq.
    apply list_elem_of_fmap. by exists (t2, p2).
Qed.

(** ** Every operation keeps the queue sound *)
Record queue_ok (q : TaskQueue) (ws : list (Task * phase)) : Prop := {
  queue_disk : on_disk (tasks (records q)) (zfs q);
  queue_mem : mem_ok (records q) ws;
  queue_size : Z.of_nat (size (tasks (records q))) ≤ max_records (limits q);
}.
Lemma queue_ok_zfs {E A} (op : M Zfs E A) q ws r q' :
  (∀ m, preserves (on_disk m) op) → on_zfs op q = (r, q') → queue_ok q ws →
  queue_ok q' ws ∧ records q' = records q ∧ limits q' = limits q.
Proof.
  intros Hop (z & Hz & ->)%zoom_inv [Hd Hm Hs]. split_and!; [|done..].
  split; simpl; [|done..]. by eapply preserves_ok.
Qed.
Lemma queue_ok_write q ws task r q' :
  write task q = (r, q') → queue_ok q ws → record_ok (task_key task) task →
  limits q' = limits q ∧ records q' = records q ∧
  (is_ok r = false → queue_ok q' ws) ∧
  (is_ok r = true → on_disk (<[task_key task := task]> (tasks (records q))) (zfs q')).
Proof.
  intros Hw [Hd Hm Hs] Hok. destruct (on_disk_write _ _ _ _ _ Hw Hd Hok) as (Hl & Hr & Hd').
  split_and!; [done..| |].
  - intros Hf. rewrite Hf in Hd'. by split; rewrite ?Hr, ?Hl.
  - intros Ht. by rewrite Ht in Hd'.
Qed.
Lemma queue_record q ws k t : queue_ok q ws → tasks (records q) !! k = Some t → record_ok k t.
Proof. intros [[_ _ _ Hr _] _ _] Ht. by apply Hr. Qed.

Lemma enqueue_queue_ok t i pl a iv ws q r q' :
  length t = 16%nat → enqueue t i pl a iv q = (r, q') → queue_ok q ws → queue_ok q' ws.
Proof.
  intros Hlen. unfold enqueue. intros Hrun Hq.
  inv_bind Hrun; [|by inv_pure]. inv_pure. rename Heqb into Hid.
  inv_bind Hrun; [|by inv_pure]. inv_pure. rename Heqb into Hpl.
  inv_bind Hrun; [|by inv_pure]. inv_pure. rename Heqb into Hiv.
  inv_bind Hrun; apply (queue_ok_zfs _ _ ws) in Hrun0 as (Hq1 & _); auto using on_disk_existing_tenant_dir.
  inv_bind Hrun; apply (queue_ok_zfs _ _ ws) in Hrun0 as (Hq2 & _); auto using on_disk_mark_background.
  clear q Hq s Hq1. inv_bind Hrun; [|by inv_pure]. inv_pure.
  destruct (tasks (records s0) !! key t i) as [old|] eqn:Hk; [by inv_pure|].
  inv_bind Hrun; [|by inv_pure]. inv_pure. rename Heqb into Hquota.
  inv_bind Hrun; apply (queue_ok_zfs _ _ ws) in Hrun0 as (Hq3 & Hr3 & Hl3); auto using on_disk_draw.
  set (task := Build_Task _ _ _ _ _ _ _ _ _ _ _ _ _) in Hrun.
  assert (record_ok (task_key task) task) as Hok.
  { split; simpl; try done. unfold valid_record. cbn. rewrite Hid. rewrite !bool_decide_eq_true_2 by done.
    rewrite Hpl, Hiv. done. }
  inv_bind Hrun; destruct (queue_ok_write _ _ _ _ _ Hrun0 Hq3 Hok) as (Hl4 & Hr4 & Hf & Ht);
    [|by apply Hf]. specialize (Ht eq_refl).
  inv_bind Hrun; [|by inv_pure]. inv_pure. split; simpl; rewrite ?Hr4, ?Hr3, ?Hl4, ?Hl3 in *.
  - exact Ht.
  - apply mem_ok_enqueue; [apply Hq2|done|done].
  - rewrite map_size_insert_None by done. lia.
Qed.

(** Updates of the record's progress keep it sound. *)
Lemma record_ok_update k t t' :
  record_ok k t → version t' = version t → tenant t' = tenant t → id t' = id t →
  payload t' = payload t → interval_ms t' = interval_ms t → len (task_result t') ≤ MAX_PAYLOAD →
  0 ≤ attempts t' ≤ MAX_ATTEMPTS → (status t' = Pending → attempts t' < MAX_ATTEMPTS) →
  record_ok k t'.
Proof.
  intros [Hv Hl _ _] Hver Ht Hi Hp Hiv Hr Ha Hpe. split; [|by rewrite Ht|done..].
  unfold valid_record, task_key in *. rewrite Hver, Ht, Hi, Hp, Hiv.
  rewrite !andb_true_iff in *. split_and!; try tauto. lia.
Qed.
Lemma record_ok_result k t : record_ok k t → len (task_result t) ≤ MAX_PAYLOAD.
Proof. intros [Hv _ _ _]. by apply valid_record_inv in Hv as (_&_&_&_&_&?&_). Qed.
Lemma record_ok_with_status k t s :
  record_ok k t → (s = Pending → attempts t < MAX_ATTEMPTS) → record_ok k (with_status s t).
Proof.
  intros Hok Hs. eapply record_ok_update; [exact Hok|done..| | |exact Hs].
  - exact (record_ok_result _ _ Hok).
  - apply Hok.
Qed.
Lemma after_success_ok now k b t t' :
  record_ok k t → len b ≤ MAX_PAYLOAD → after_success now k b t = Ok t' →
  record_ok k t' ∧ task_key t' = task_key t ∧ tenant t' = tenant t ∧
  status t' = (if interval_ms t then Pending else Completed).
Proof.
  intros Hok Hb. unfold after_success. simpl. destruct (interval_ms t) eqn:Hi.
  - unfold ok_or. destruct (checked_add _ _); [|done]. intros [= <-]. split_and!; [|done..].
    eapply record_ok_update; [exact Hok|done..|simpl; unfold MAX_ATTEMPTS; lia|done].
  - intros [= <-]. split_and!; [|done..].
    eapply record_ok_update; [exact Hok|done..|apply Hok|done].
Qed.
Lemma after_failure_ok now k e t :
  record_ok k t →
  record_ok k (after_failure now e t) ∧ task_key (after_failure now e t) = task_key t ∧
  tenant (after_failure now e t) = tenant t ∧
  status (after_failure now e t) = (if MAX_ATTEMPTS <=? attempts t then Failed else Pending).
Proof.
  intros Hok. split_and!; [|done..]. unfold after_failure. simpl.
  eapply record_ok_update; [exact Hok|done..| | |].
  - exact (record_ok_result _ _ Hok).
  - simpl. apply Hok.
  - simpl. destruct (Z.leb_spec MAX_ATTEMPTS (attempts t)); [done|]. by intros _.
Qed.

Lemma cancel_queue_ok t i ws q r q' :
  cancel t i q = (r, q') → queue_ok q ws → queue_ok q' ws.
Proof.
  unfold cancel. intros Hrun Hq. inv_bind Hrun; [|by inv_pure]. inv_pure.
  inv_bind Hrun; [|by inv_pure]. inv_pure. rename Heqo into Hk.
  match type of Hk with _ = Some ?x => rename x into task end.
  pose proof (queue_record _ _ _ _ Hq Hk) as Hok.
  assert (record_ok (key t i) (with_status Cancelled task)) as Hok' by (by apply record_ok_with_status).
  pose proof (record_ok_key _ _ Hok') as Hkey. rewrite <-Hkey in Hok'.
  inv_bind Hrun; destruct (queue_ok_write _ _ _ _ _ Hrun0 Hq Hok') as (Hl4 & Hr4 & Hf & Ht);
    [|by apply Hf]. specialize (Ht eq_refl). rewrite Hkey in Ht.
  inv_bind Hrun; [|by inv_pure]. inv_pure. split; simpl; rewrite ?Hr4, ?Hl4; [exact Ht| |].
  - apply mem_ok_cancel; [apply Hq|by eexists|done].
  - rewrite map_size_insert, Hk. apply Hq.
Qed.

Lemma on_disk_remove m t k task z r z' :
  on_disk m z → m !! k = Some task → tenant task = t → pool_there z (task_place t k) →
  io_ (fs_remove (task_place t k)) z = (r, z') →
  on_disk (if is_ok r then delete k m else m) z'.
Proof.
  intros [Hs Hsl Hd Hr Hsy] Hk Ht Hp (r0 & H1 & ->)%io__inv.
  pose proof (preserves_ok _ _ _ _ _ (storage_ok_fs_remove _) Hs H1) as Hs'.
  assert (preserves (pools_hold dir_ok) (fs_remove (task_place t k))) as Hd'.
  { apply pools_hold_fs_remove. intros c Hc. by apply dir_ok_put. }
  pose proof (preserves_ok _ _ _ _ _ Hd' Hd H1) as Hd2. clear Hd'.
  destruct (fs_remove_inv _ _ _ _ H1 Hp) as (Hws & _ & Hf).
  split; [done|by apply Hws|done| |]; destruct r0; simpl.
  - by apply map_Forall_delete.
  - done.
  - intros k' t' [Hne Ht']%lookup_delete_Some. rewrite (writes_file _ _ _ Hws); [by apply Hsy|].
    unfold task_place. intros [[= _ ?]|[]%elem_of_nil]%elem_of_cons; congruence.
  - eapply frame_synced; [by apply Hf|done].
Qed.
Lemma forget_queue_ok t i ws q r q' :
  length t = 16%nat → forget t i q = (r, q') → queue_ok q ws → queue_ok q' ws.
Proof.
  unfold forget. intros Hlen Hrun Hq. inv_bind Hrun; [|by inv_pure]. inv_pure.
  destruct (decide (key t i ∈ active (records q))) as [|Hact]; [inv_bind Hrun; by inv_pure|].
  assert (∀ r s, (task ← unwrap (tasks (records q) !! key t i) "no such task";
    ensure (terminal task) "task is still active") q = (r, s) → s = q ∧ (r = Ok tt →
    ∃ task, tasks (records q) !! key t i = Some task ∧ terminal task = true)) as Hg.
  { intros r1 s1 H1. inv_bind H1; inv_pure; (split; [done|]); naive_solver. }
  inv_bind Hrun; apply Hg in Hrun0 as [-> Hterm]; [|done]. destruct a.
  destruct (Hterm eq_refl) as (task & Hk & Hterm'). clear Hg Hterm.
  pose proof (queue_record _ _ _ _ Hq Hk) as Hok. pose proof (record_ok_key _ _ Hok) as Hkey.
  assert (tenant task = t) as Htn.
  { unfold task_key in Hkey. apply key_inj in Hkey as [? _]; [done|]. by rewrite (ok_tenant _ _ Hok). }
  inv_bind Hrun; pose proof Hrun0 as Hdir;
    apply (queue_ok_zfs _ _ ws) in Hrun0 as (Hq1 & Hr1 & Hl1); auto using on_disk_tenant_runtime_dir.
  apply zoom_inv in Hdir as (z1 & Hdir & ->). simpl in *. destruct a.
  apply tenant_runtime_dir_frame in Hdir as [Hsame Hdir].
  assert (pool_there z1 (task_place t (key t i))) as Hp.
  { unfold pool_there. simpl. destruct Hsame as (_ & -> & _).
    by apply Hdir; [apply Hq|]. }
  inv_bind Hrun; apply zoom_inv in Hrun0 as (z2 & Hrm & ->);
    pose proof (on_disk_remove _ _ _ _ _ _ _ (queue_disk _ _ Hq1) Hk ltac:(done) Hp Hrm) as Hd2; simpl in *.
  - inv_pure. split; simpl; [done| |].
    + by apply (mem_ok_forget _ _ _ task); [apply Hq| | |].
    + match goal with |- context [delete ?k ?m] => pose proof (size_delete_le m k) end. pose proof (queue_size _ _ Hq). lia.
  - split; [done|apply Hq|apply Hq].
Qed.

Lemma elem_of_ready now r e t :
  (e, t) ∈ ready now r ↔
  e ∈ due_set r ∧ e.1 ≤ now ∧ ∃ task, tasks r !! e.2 = Some task ∧ tenant task = t.
Proof.
  unfold ready. rewrite list_elem_of_omap. split.
  - intros (e' & Hin%elem_of_take_while & He). destruct Hin as [Hin Hle].
    destruct (tasks r !! e'.2) as [task|] eqn:Ht; simplify_eq/=.
    unfold sorted_elements in Hin. rewrite merge_sort_Permutation, elem_of_elements in Hin.
    split_and!; [done|lia|by eauto].
  - intros (Hin & Hle & task & Ht & <-). exists e. rewrite Ht. split; [|done].
    eapply (elem_of_take_while_sorted ord_le).
    + apply StronglySorted_merge_sort; apply _.
    + intros [a ka] [b kb] Hab. simpl. rewrite !Z.leb_le. intros Hb.
      apply ord_le_prod in Hab. rewrite ord_lt_Z in Hab. destruct Hab as [Hab|[Hab _]]; simpl in Hab; lia.
    + unfold sorted_elements. by rewrite merge_sort_Permutation, elem_of_elements.
    + lia.
Qed.
Lemma due_inv now q o q' :
  due now q = (o, q') →
  match o with
  | Some t => ∃ a k, (a, k) ∈ due_set (records q) ∧ a ≤ now ∧ tasks (records q) !! k = Some t ∧
      q' = set_records {| tasks := tasks (records q); due_set := due_set (records q) ∖ {[ (a, k) ]};
             active := {[ k ]} ∪ active (records q); last_tenant := Some (tenant t) |} q ∧
      ∀ e t', (e, t') ∈ ready now (records q) →
        ord_le (turn (last_tenant (records q)) (a, k, tenant t)) (turn (last_tenant (records q)) (e, t'))
  | None => q' = q ∧ ready now (records q) = []
  end.
Proof.
  unfold due. destruct (min_by_key _ _) as [[[a k] t]|] eqn:E.
  - apply min_by_key_Some in E as [Hin Hmin]. pose proof Hin as Hin'.
    apply elem_of_ready in Hin' as (Hd & Hle & task & Ht & <-). simpl in *. rewrite Ht.
    intros [= <- <-]. exists a, k. split_and!; try done. intros e t' He. by apply (Hmin (e, t')).
  - apply min_by_key_None in E. by intros [= <- <-].
Qed.
Lemma due_queue_ok now q ws t q' :
  due now q = (Some t, q') → queue_ok q ws → queue_ok q' ((t, Started) :: ws).
Proof.
  intros (a & k & Hd & _ & Ht & -> & _)%due_inv Hq. split; simpl; [apply Hq| |apply Hq].
  apply mem_ok_dispatch; [apply Hq|done..|]. by apply record_ok_key, (queue_record _ _ _ _ Hq Ht).
Qed.

(** The record a worker holds. *)
Lemma worker_record q ws t p :
  queue_ok q ((t, p) :: ws) → ∃ c, tasks (records q) !! task_key t = Some c ∧
    record_ok (task_key t) c ∧ task_key c = task_key t ∧ phase_ok p (status c).
Proof.
  intros Hq. destruct (mem_workers _ _ (queue_mem _ _ Hq) t p) as (c & Hc & Hp); [by left|].
  pose proof (queue_record _ _ _ _ Hq Hc) as Hok. exists c. by eauto using record_ok_key.
Qed.
(** A worker whose record does not move. *)
Lemma queue_ok_phase q ws t p p' c :
  queue_ok q ((t, p) :: ws) → tasks (records q) !! task_key t = Some c → phase_ok p' (status c) →
  queue_ok q ((t, p') :: ws).
Proof.
  intros Hq Hc Hp'. split; [apply Hq| |apply Hq].
  pose proof (mem_ok_advance _ _ _ _ c p' (queue_mem _ _ Hq) (or_intror Hc) Hp') as Hm.
  rewrite insert_id in Hm by done. by destruct (records q).
Qed.
Lemma begin_queue_ok q ws t r q' :
  begin t q = (r, q') → queue_ok q ((t, Started) :: ws) →
  queue_ok q' ((t, match r with
    | Ok true => Executing | Ok false => Returned (Ok (Some [])) | Err e => Returned (Err e) end) :: ws).
Proof.
  unfold begin. intros Hrun Hq. destruct (worker_record _ _ _ _ Hq) as (c & Hc & Hok & Hkey & Hph).
  inv_bind Hrun; [|by inv_pure]. inv_pure. rewrite Hc, (mbind_ok _ _ _ c q) in Hrun by done.
  destruct (decide (status c = Pending)) as [Hst|Hst].
  2: { inv_pure. eapply queue_ok_phase; [done..|]. destruct Hph as [->|Hph]; [by left|done]. }
  set (c' := with_attempts _ _) in Hrun.
  assert (record_ok (task_key c') c') as Hok'.
  { change (task_key c') with (task_key c). rewrite Hkey.
    pose proof (ok_pending _ _ Hok Hst). pose proof (ok_attempts _ _ Hok).
    eapply record_ok_update; [exact Hok|done..|exact (record_ok_result _ _ Hok)|simpl; lia|done]. }
  assert (Hkey' : task_key c' = task_key t) by done.
  inv_bind Hrun; destruct (queue_ok_write _ _ _ _ _ Hrun0 Hq Hok') as (Hl4 & Hr4 & Hf & Ht).
  2: { specialize (Hf eq_refl). eapply queue_ok_phase; [done|by rewrite Hr4|]. by right; left. }
  specialize (Ht eq_refl). inv_bind Hrun; [|by inv_pure]. inv_pure. rewrite Hkey' in *.
  assert (∀ p', phase_ok p' Running → queue_ok (set_tasks <[task_key t:=c']> s) ((t, p') :: ws)) as Hq2.
  { intros p' Hp'. split; simpl; rewrite ?Hr4, ?Hl4; [exact Ht| |].
    - apply (mem_ok_advance _ _ _ Started); [apply Hq|by left|done].
    - rewrite map_size_insert, Hc. apply Hq. }
  inv_bind Hrun; inv_pure;
    eapply (queue_ok_zfs _ _ _ _ _ (on_disk_anchor_tenant _)) in Hrun1 as (Hq3 & _); [exact Hq3| |exact Hq3|];
    apply Hq2; by right; auto.
Qed.

(** What a worker can bring to [finish]: [run_background] bounds the result. *)
Definition outcome_ok (o : result string (option bytes)) : Prop :=
  match o with Ok (Some b) => len b ≤ MAX_PAYLOAD | _ => True end.
(** What a restart needs of a queue that stopped half way. *)
Definition crash_ok (q : TaskQueue) : Prop :=
  storage_ok (zfs q) ∧ slots_ok (zfs q) ∧ pools_hold dir_ok (zfs q).
Lemma queue_crash_ok q ws : queue_ok q ws → crash_ok q.
Proof. intros [[Hs Hsl Hd _ _] _ _]. by split_and!. Qed.

(** The record [finish] publishes. *)
Definition outcome_record (now : Z) (k : string) (o : result string (option bytes)) (c : Task) :
    result string Task :=
  match o with
  | Ok (Some b) => after_success now k b c
  | Err e => Ok (after_failure now e c)
  | Ok None => Err "unreachable"
  end.
Lemma outcome_record_ok now k o c c' :
  record_ok k c → outcome_ok o → outcome_record now k o c = Ok c' →
  record_ok k c' ∧ task_key c' = task_key c ∧ tenant c' = tenant c ∧ status c' ≠ Running.
Proof.
  intros Hok Ho. destruct o as [[b|]|e]; simpl; [|done|].
  - intros Hs. destruct (after_success_ok _ _ _ _ _ Hok Ho Hs) as (?&?&?&Hst).
    split_and!; try done. rewrite Hst. by destruct (interval_ms c).
  - intros [= <-]. destruct (after_failure_ok now k e c Hok) as (?&?&?&Hst).
    split_and!; try done. rewrite Hst. by destruct (_ <=? _).
Qed.
Lemma finish_queue_ok now t o ws q r q' :
  finish now t o q = (r, q') → outcome_ok o → queue_ok q ((t, Returned o) :: ws) →
  crash_ok q' ∧ (r = Ok tt → queue_ok q' ws).
Proof.
  unfold finish. intros Hrun Ho Hq. destruct (worker_record _ _ _ _ Hq) as (c & Hc & Hok & Hkey & Hph).
  pose proof (queue_crash_ok _ _ Hq) as Hcr.
  inv_bind Hrun; [|by inv_pure]. inv_pure. rewrite Hc, (mbind_ok _ _ _ c q) in Hrun by done.
  inv_bind Hrun; [|by inv_pure]. inv_pure. set (q1 := set_active _ _) in Hrun.
  assert (Hcr1 : crash_ok q1) by exact Hcr.
  assert (Hdone : ∀ d, status c ≠ Running → is_Some d ↔ status c = Pending →
    queue_ok (set_due (λ s, match d with Some a => {[ (a, task_key t) ]} ∪ s | None => s end) q1) ws).
  { intros d Hr Hd. split; simpl; [apply Hq| |apply Hq].
    pose proof (mem_ok_done _ _ _ _ c d (queue_mem _ _ Hq) Hr Hd) as Hm.
    by rewrite insert_id in Hm. }
  destruct (decide (status c = Cancelled)) as [Hst|Hst].
  { inv_pure. split; [exact Hcr|]. intros _. apply (Hdone None); [congruence|].
    split; [by intros []|congruence]. }
  destruct Hph as [|Hph]; [done|].
  destruct (decide (o = Ok None)) as [->|Hne].
  { inv_pure. split; [exact Hcr|]. intros _. apply (Hdone (Some _)); [congruence|]. by split. }
  assert (Hrun' : (_ ← ensure (bool_decide (status c = Running)) "task could not persist its execution intent";
    c' ← lift (outcome_record now (task_key t) o c);
    _ ← write c'; _ ← on_zfs (anchor_tenant (tenant c'));
    _ ← (if decide (status c' = Pending)
           then modify (set_due (λ d, {[ (run_at c', task_key t) ]} ∪ d)) else mret tt);
    modify (set_tasks <[task_key t := c']>)) q1 = (r, q')).
  { by destruct o as [[b|]|e]. }
  clear Hrun. rename Hrun' into Hrun.
  inv_bind Hrun; [|by inv_pure]. inv_pure. destruct a. inv_bind Hrun; [|by inv_pure]. unfold lift in Hrun0.
  injection Hrun0 as Hrec <-.
  match type of Hrec with _ = Ok ?x => rename x into c' end.
  destruct (outcome_record_ok _ _ _ _ _ Hok Ho Hrec) as (Hok' & Hk' & Ht' & Hst').
  rewrite Hkey in Hk'. rewrite <-Hk' in Hok'.
  inv_bind Hrun; destruct (on_disk_write _ _ _ _ (tasks (records q)) Hrun0 (queue_disk _ _ Hq) Hok')
    as (Hl4 & Hr4 & Hd4); simpl in Hd4; [|by split; [split_and!; apply Hd4|]].
  assert (Hcr2 : ∀ z, on_disk (<[task_key c' := c']> (tasks (records q))) z → crash_ok (set_zfs z s))
    by (intros z [? ? ? _ _]; by split_and!).
  inv_bind Hrun; apply zoom_inv in Hrun1 as (z & Han & ->);
    pose proof (preserves_ok _ _ _ _ _ (on_disk_anchor_tenant _ _) Hd4 Han) as Hd5;
    [|split; [by apply Hcr2|done]].
  inv_bind Hrun; [|destruct (decide _); by inv_pure].
  pose proof (mem_ok_done _ _ _ _ c' (if decide (status c' = Pending) then Some (run_at c') else None)
    (queue_mem _ _ Hq) Hst') as Hm.
  destruct (decide (status c' = Pending)) as [Hp|Hp]; inv_pure;
    (split; [by apply Hcr2|intros _]); (split; simpl; rewrite ?Hr4, ?Hl4; rewrite Hk' in Hd5; [exact Hd5| |]);
    try (simpl; rewrite map_size_insert, Hc; apply Hq); apply Hm.
  - by split.
  - split; [by intros []|done].
Qed.

(** ** Recovery *)
Context `{!CodecLaws Task}.
Lemma interrupted_ok k t : record_ok k t →
  record_ok k (interrupted t) ∧ task_key (interrupted t) = task_key t ∧
  tenant (interrupted t) = tenant t ∧
  status (interrupted t) = if MAX_ATTEMPTS <=? attempts t then Failed else Pending.
Proof.
  intros Hok. split_and!; [|done..]. unfold interrupted.
  eapply record_ok_update; [exact Hok|done..|exact (record_ok_result _ _ Hok)|apply Hok|].
  simpl. destruct (Z.leb_spec MAX_ATTEMPTS (attempts t)); [done|]. by intros _.
Qed.
Lemma mem_ok_load r k t (d : option Z) :
  mem_ok r [] → tasks r !! k = None → status t ≠ Running → is_Some d ↔ status t = Pending →
  mem_ok {| tasks := <[k := t]> (tasks r);
            due_set := match d with Some a => {[ (a, k) ]} ∪ due_set r | None => due_set r end;
            active := active r; last_tenant := last_tenant r |} [].
Proof.
  intros Hm Hk Hrun Hd.
  assert (∀ k, k ∉ active r) as Hact by (intros k' Hin; by apply (mem_active _ _ Hm), elem_of_nil in Hin).
  destruct (decide (status t = Pending)) as [Hp|Hp].
  - destruct (proj2 Hd Hp) as [a ->]. by apply mem_ok_enqueue.
  - destruct d as [a|]; [by destruct Hp; apply Hd|].
    split; simpl; try apply Hm.
    + intros a k' Hin. destruct (mem_due _ _ Hm _ _ Hin) as (? & t' & ? & ?). split; [done|].
      exists t'. rewrite lookup_insert_ne; [done|congruence].
    + intros k' t'. rewrite lookup_insert. case_decide; [by intros [= <-]|]. apply (mem_scheduled _ _ Hm).
    + intros k' t'. rewrite lookup_insert. case_decide; [by intros [= <-]|]. apply (mem_running _ _ Hm).
    + by intros t' p ?%elem_of_nil.
Qed.
Lemma entry_dir_ok z t k b :
  pools_hold dir_ok z → file z (task_place t k) = Some b → ends_with ".tmp" k = false →
  ∃ task, b = to_vec task ∧ record_ok k task ∧ tenant task = t ∧ len b ≤ MAX_RECORD.
Proof.
  unfold file, task_place. intros Hd Hf Hk. destruct (pools z !! t) as [tp|] eqn:Ht; [|done].
  destruct (Hd t tp (content (tp_pool tp)) Ht) with k b as [|]; [by left|done|congruence|done].
Qed.
(** The scan of a tenant's directory, with the names left to read. *)
Definition loading (ts : list bytes) (t : bytes) (names : list string) (q : TaskQueue) : Prop :=
  queue_ok q [] ∧ NoDup (t :: ts) ∧ NoDup names ∧ (∀ n, n ∈ names → tasks (records q) !! n = None) ∧
  ∀ k task, tasks (records q) !! k = Some task → tenant task ∉ ts.
Lemma on_disk_remove_temp m t name z r z' :
  on_disk m z → ends_with ".tmp" name = true → is_Some (pools z !! t) →
  io_ (fs_remove (task_place t name)) z = (r, z') → on_disk m z'.
Proof.
  intros [Hs Hsl Hd Hr Hsy] Hn Hp (r0 & H1 & ->)%io__inv.
  pose proof (preserves_ok _ _ _ _ _ (storage_ok_fs_remove _) Hs H1) as Hs'.
  assert (preserves (pools_hold dir_ok) (fs_remove (task_place t name))) as Hd'.
  { apply pools_hold_fs_remove. intros c Hc. by apply dir_ok_put. }
  pose proof (preserves_ok _ _ _ _ _ Hd' Hd H1) as Hd2.
  destruct (fs_remove_inv _ _ _ _ H1 Hp) as (Hws & _ & _).
  split; [done|by apply Hws|done|done|]. intros k t' Ht'.
  rewrite (writes_file _ _ _ Hws); [by apply Hsy|]. pose proof (Hr _ _ Ht') as Hok.
  intros [[= _ ->]|[]%elem_of_nil]%elem_of_cons.
  rewrite <-(record_ok_key _ _ Hok) in Hn. unfold task_key in Hn.
  rewrite key_not_ends_temp in Hn; [done|by eapply record_ok_id].
Qed.
Lemma pools_there_ext t (z z' : Zfs) : writes [] z z' → is_Some (pools z !! t) → is_Some (pools z' !! t).
Proof. intros Hw. apply Hw. Qed.
Lemma on_disk_read m p : preserves (on_disk m) (io_ (fs_read p)).
Proof.
  apply on_disk_op.
  - apply preserves_io_, storage_ok_fs_read.
  - apply preserves_io_. unfold fs_read. apply preserves_bind; [apply pools_hold_io|]. solve_preserves.
  - intros z r z' (r0 & H1 & _)%io__inv. unfold fs_read in H1.
    inv_bind H1; apply io_inv in Hrun as [f ->]; [|apply frame_set_faults].
    inv_bind H1; [|by inv_pure]. inv_pure; apply frame_set_faults.
Qed.

(** What a restart does with a record it finds. *)
Definition recovered (t : Task) : Task :=
  if decide (status t = Running) then interrupted t else t.
Lemma recovered_ok k t : record_ok k t →
  record_ok k (recovered t) ∧ task_key (recovered t) = k ∧ status (recovered t) ≠ Running.
Proof.
  intros Hok. unfold recovered. destruct (decide (status t = Running)).
  - destruct (interrupted_ok _ _ Hok) as (Hok' & Hk & _ & Hs). split_and!; [done| |].
    + by rewrite (record_ok_key _ _ Hok').
    + rewrite Hs. by destruct (_ <=? _).
  - split_and!; [done|by apply record_ok_key|done].
Qed.
Lemma load_record now t name names ts q task :
  loading ts t (name :: names) q → record_ok name task → tenant task = t →
  file (zfs q) (task_place t name) = Some (to_vec task) →
  Z.of_nat (size (tasks (records q))) < max_records (limits q) →
  ∀ r q',
  (_ ← (if decide (status task = Running) then write (recovered task) else mret tt);
   _ ← (if decide (status (recovered task) = Pending) then
          modify (set_due (λ d, {[ (Z.max (run_at (recovered task))
            (saturating_add (now name) (offset (task_key (recovered task)) 1000)), task_key (recovered task)) ]} ∪ d))
        else mret tt);
   modify (set_tasks <[task_key (recovered task) := recovered task]>)) q = (r, q') →
  crash_ok q' ∧ (r = Ok tt → loading ts t names q').
Proof.
  intros (Hq & Hts & Hnd & Hnew & Hold) Hok Ht Hf Hquota r q' Hrun.
  pose proof (recovered_ok _ _ Hok) as (Hok' & Hk' & Hst').
  assert (Hw : ∀ r s, (if decide (status task = Running) then write (recovered task) else mret tt) q = (r, s) →
    limits s = limits q ∧ records s = records q ∧ crash_ok s ∧
    (r = Ok tt → on_disk (<[name := recovered task]> (tasks (records q))) (zfs s))).
  { clear Hrun. intros r0 s H1. destruct (decide (status task = Running)) as [Hr|Hr].
    - rewrite <-Hk' in Hok'. destruct (on_disk_write _ _ _ _ _ H1 (queue_disk _ _ Hq) Hok') as (Hl & Hre & Hd).
      split_and!; [done|done| |].
      + destruct Hd as [? ? ? _ _]. by split_and!.
      + intros ->. by rewrite <-Hk'.
    - injection H1 as <- <-. split_and!; try done; try apply Hq; [by eapply queue_crash_ok|]. intros _.
      destruct Hq as [[Hs Hsl Hd Hr2 Hsy] _ _]. split; [done..|by apply map_Forall_insert_2|].
      assert (recovered task = task) as -> by (unfold recovered; by rewrite decide_False).
      intros k t'. rewrite lookup_insert.
      case_decide as Hk; [intros Heq; injection Heq as Heq; by subst|apply Hsy]. }
  inv_bind Hrun; destruct (Hw _ _ Hrun0) as (Hl & Hr & Hc & Hd); [|by split]. destruct a. specialize (Hd eq_refl).
  inv_bind Hrun; [|destruct (decide (status (recovered task) = Pending)); by inv_pure].
  pose proof (mem_ok_load (records q) name (recovered task) (if decide (status (recovered task) = Pending) then
    Some (Z.max (run_at (recovered task)) (saturating_add (now name) (offset (task_key (recovered task)) 1000)))
    else None) (queue_mem _ _ Hq) (Hnew name (list_elem_of_here _ _)) Hst') as Hm.
  rewrite Hk' in *.
  assert (Hrest : ∀ d, mem_ok {| tasks := <[name:=recovered task]> (tasks (records q)); due_set := d;
      active := active (records q); last_tenant := last_tenant (records q) |} [] →
    due_set (records s0) = d → tasks (records s0) = tasks (records s) → active (records s0) = active (records s) →
    last_tenant (records s0) = last_tenant (records s) → zfs s0 = zfs s → limits s0 = limits s →
    loading ts t names (set_tasks <[name:=recovered task]> s0)).
  { intros d Hmem H1 H2 H3 H4 H5 H6. apply NoDup_cons in Hnd as [Hn Hnd].
    split_and!; [split; simpl; rewrite ?H1, ?H2, ?H3, ?H4, ?H5, ?H6, ?Hr, ?Hl; [done|done|]|done|done| |].
    - rewrite map_size_insert_None by (apply Hnew; by left). lia.
    - intros n Hin. simpl. rewrite H2, Hr, lookup_insert_ne; [apply Hnew; by right|]. by intros ->.
    - intros k t'. simpl. rewrite H2, Hr. intros [[_ <-]|[_ Ht']]%lookup_insert_Some; [|by eapply Hold].
      apply NoDup_cons in Hts as [? _]. replace (tenant (recovered task)) with t; [done|].
      unfold recovered. by destruct (decide _). }
  destruct (decide (status (recovered task) = Pending)) as [Hp|Hp]; inv_pure;
    (split; [exact Hc|intros _]); (eapply Hrest; [apply Hm|..]; try done; simpl; by rewrite Hr).
Qed.
Lemma load_entry_ok now ts t name names q r q' :
  loading ts t (name :: names) q → is_Some (pools (zfs q) !! t) → load_entry now t name q = (r, q') →
  crash_ok q' ∧ (r = Ok tt → loading ts t names q').
Proof.
  unfold load_entry. intros Hl Hp Hrun. pose proof (queue_crash_ok _ _ (proj1 Hl)) as Hcr.
  destruct (ends_with ".tmp" name) eqn:Hn.
  { apply zoom_inv in Hrun as (z & Hrm & ->). destruct Hl as (Hq & Hts & Hnd & Hnew & Hold).
    pose proof (on_disk_remove_temp _ _ _ _ _ _ (queue_disk _ _ Hq) Hn Hp Hrm) as Hd.
    assert (queue_ok (set_zfs z q) []) as Hq' by (split; [done|apply Hq..]).
    split; [by eapply queue_crash_ok|]. intros _. apply NoDup_cons in Hnd as [_ Hnd].
    split_and!; try done. intros n Hin. apply Hnew. by right. }
  inv_bind Hrun; [|by inv_pure]. inv_pure. inv_bind Hrun; [|by inv_pure]. inv_pure.
  rename Heqb into Hquota.
  inv_bind Hrun; pose proof Hrun0 as Hread;
    apply (queue_ok_zfs _ _ []) in Hrun0 as (Hq1 & Hr1 & Hl1); auto using on_disk_read; try apply Hl.
  2: { by split; [eapply queue_crash_ok|]. }
  apply zoom_inv in Hread as (z & Hread & ->). simpl in *.
  apply io__inv in Hread as (r0 & Hread & Hr0). destruct r0 as [b|]; simplify_eq/=.
  unfold fs_read in Hread. inv_bind Hread. apply io_inv in Hrun0 as [f ->].
  inv_bind Hread. inv_pure.
  match goal with HH : file _ _ = Some ?x |- _ => rename HH into Hf; rename x into c end.
  destruct (entry_dir_ok _ _ _ _ (disk_dirs _ _ (queue_disk _ _ Hq1)) Hf Hn) as (task & -> & Hok & Ht & Hlen).
  assert (Hl2 : loading ts t (name :: names) (set_zfs (set_faults f (zfs q)) q)).
  { destruct Hl as (_ & ? & ? & ? & ?). by split_and!. }
  pose proof (queue_crash_ok _ _ Hq1) as Hcr1.
  inv_bind Hrun; [|by inv_pure]. inv_pure. inv_bind Hrun; [|inv_pure; done].
  apply unwrap_inv in Hrun0 as [-> Hdec]. rewrite from_to_vec in Hdec. simplify_eq.
  inv_bind Hrun; [|by inv_pure]. inv_pure.
  eapply (load_record now); [exact Hl2|exact Hok|done|exact Hf|simpl; lia|exact Hrun].
Qed.

Lemma load_entry_pool now t name : preserves (λ q, has_pool t (zfs q)) (load_entry now t name).
Proof.
  assert (Hw : ∀ task, preserves (λ q, has_pool t (zfs q)) (write task)).
  { intros task. unfold write. apply preserves_bind; [by intros ?|intros _].
    repeat (apply preserves_bind; [apply on_zfs_preserves; auto with preserves|intros _]).
    apply on_zfs_preserves. auto with preserves. }
  unfold load_entry. destruct (ends_with _ _); [apply on_zfs_preserves; auto with preserves|].
  apply preserves_get. intros q Hq.
  match goal with |- has_pool t (zfs (?m ?z).2) =>
    assert (preserves (λ q, has_pool t (zfs q)) m) as Hp; [|exact (Hp z Hq)] end.
  apply preserves_bind; [by intros ?|intros _].
  apply preserves_bind; [apply on_zfs_preserves; auto with preserves|intros b].
  apply preserves_bind; [by intros ?|intros _]. apply preserves_bind; [by intros ?|intros task].
  apply preserves_bind; [by intros ?|intros _].
  apply preserves_bind; [destruct (decide _); [apply Hw|by intros ?]|intros _].
  apply preserves_bind; [destruct (decide _); by intros ?|intros _]. by intros ?.
Qed.
Lemma elem_of_names_in d n c : n ∈ names_in d c ↔ is_Some (c !! (d, n)).
Proof.
  unfold names_in. rewrite list_elem_of_omap. split.
  - intros ([d' n'] & ([k v] & -> & Hin)%list_elem_of_fmap & Hk). simpl in *.
    apply elem_of_btree_iter in Hin. destruct (decide (k.1 = d)); simplify_eq. destruct k; eauto.
  - intros [v Hv]. exists (d, n). simpl. rewrite decide_True by done. split; [|done].
    apply list_elem_of_fmap. exists (d, n, v). split; [done|]. by apply elem_of_btree_iter.
Qed.
Lemma NoDup_names_in d c : NoDup (names_in d c).
Proof.
  unfold names_in. pose proof (NoDup_btree_iter_fst c) as Hnd.
  induction Hnd as [|[d' n] l Hn Hnd IH]; [constructor|]. cbn.
  destruct (decide (d' = d)) as [->|]; [|done]. apply NoDup_cons. split; [|done].
  intros ([d' n'] & Hin & Hk)%list_elem_of_omap. simpl in Hk. by destruct (decide (d' = d)); simplify_eq.
Qed.
Lemma load_tenant_ok now ts t q r q' :
  queue_ok q [] → NoDup (t :: ts) →
  (∀ k task, tasks (records q) !! k = Some task → tenant task ∉ t :: ts) →
  load_tenant now t q = (r, q') →
  crash_ok q' ∧ (r = Ok tt → queue_ok q' [] ∧
    ∀ k task, tasks (records q') !! k = Some task → tenant task ∉ ts).
Proof.
  intros Hq Hts Hold Hrun. unfold load_tenant in Hrun.
  inv_bind Hrun; pose proof Hrun0 as Hdir;
    apply (queue_ok_zfs _ _ []) in Hrun0 as (Hq1 & Hr1 & _); auto using on_disk_tenant_runtime_dir.
  2: { by split; [eapply queue_crash_ok|]. }
  destruct a. apply zoom_inv in Hdir as (z1 & Hdir & ->). simpl in *.
  apply tenant_runtime_dir_frame in Hdir as [Hsame Hdir].
  assert (is_Some (pools z1 !! t)) as Hpool.
  { destruct Hsame as (_ & -> & _). apply Hdir; [apply Hq|done]. }
  assert (∀ m, preserves (on_disk m) (io_ io)) as Hio.
  { intros m. apply on_disk_op; [apply preserves_io_, storage_ok_io|apply preserves_io_, pools_hold_io|].
    apply frame_io. }
  inv_bind Hrun; pose proof Hrun0 as Hio1;
    apply (queue_ok_zfs _ _ []) in Hrun0 as (Hq2 & Hr2 & _); auto.
  2: { by split; [eapply queue_crash_ok|]. }
  apply zoom_inv in Hio1 as (z2 & Hio1 & ->). apply io_io_inv in Hio1 as [f ->].
  inv_bind Hrun; [|by inv_pure]. inv_pure. simpl in Hrun. destruct Hpool as [tp Htp]. rewrite Htp in Hrun.
  eapply (forM_inv _ (λ names q, loading ts t names q ∧ has_pool t (zfs q)) crash_ok) in Hrun.
  - destruct Hrun as [Hc Hl]. split; [done|]. intros Hr. destruct (Hl Hr) as [(? & _ & _ & _ & ?) _]. done.
  - intros names q0 [[Hq0 _] _]. by eapply queue_crash_ok.
  - intros name names q0 r0 q1 [Hl Hp] He. pose proof (load_entry_ok _ _ _ _ _ _ _ _ Hl Hp He) as [Hc Hl'].
    split; [done|]. intros Hr. split; [by apply Hl'|].
    exact (preserves_ok _ _ _ _ _ (load_entry_pool now t name) Hp He).
  - split; [|by eexists]. split_and!; [done|done|apply NoDup_names_in| |].
    + intros n [b Hb]%elem_of_names_in. simpl in *. destruct (tasks (records q) !! n) as [task|] eqn:Ht; [|done].
      exfalso. apply (Hold _ _ Ht), elem_of_cons. left. pose proof (queue_record _ _ _ _ Hq Ht) as Hok.
      assert (Hf : file (set_faults f z1) (task_place t n) = Some b) by (unfold file; simpl; by rewrite Htp).
      assert (Hn : ends_with ".tmp" n = false).
      { rewrite <-(record_ok_key _ _ Hok). apply key_not_ends_temp. by eapply record_ok_id. }
      destruct (entry_dir_ok _ _ _ _ (disk_dirs _ _ (queue_disk _ _ Hq2)) Hf Hn) as (task' & _ & Hok' & <- & _).
      pose proof (record_ok_key _ _ Hok) as Hk. rewrite <-(record_ok_key _ _ Hok') in Hk.
      unfold task_key in Hk. apply key_inj in Hk as [? _]; [done|].
      by rewrite (ok_tenant _ _ Hok), (ok_tenant _ _ Hok').
    + intros k task Ht ?. apply (Hold k task Ht). by right.
Qed.

Lemma mem_ok_empty : mem_ok no_records [].
Proof.
  split; simpl; try set_solver. by constructor.
Qed.
Lemma background_tenants_inv z r z' : background_tenants z = (r, z') →
  (∃ f, z' = set_faults f z) ∧ ∀ ts, r = Ok ts → NoDup ts ∧
    ∀ t, t ∈ ts ↔ ∃ e, ctl_catalog (content (control z)) !! t = Some e ∧ ce_background e = true.
Proof.
  unfold background_tenants, catalog. intros E. inv_bind E; inv_bind Hrun;
    apply io_io_inv in Hrun0 as [f ->]; inv_pure; (split; [by eexists|]); [|done].
  intros ts [= <-]. split.
  - eapply sublist_NoDup; [|apply fmap_sublist, sublist_filter]. apply NoDup_btree_iter_fst.
  - intros t. rewrite list_elem_of_fmap. setoid_rewrite list_elem_of_filter. split.
    + intros ([t' e] & -> & Hb & Hin%elem_of_btree_iter). eauto.
    + intros (e & He & Hb). exists (t, e). split_and!; [done..|]. by apply elem_of_btree_iter.
Qed.
Lemma on_disk_background_tenants m : preserves (on_disk m) background_tenants.
Proof.
  intros z Hz. destruct (background_tenants z) as [r z'] eqn:E.
  apply background_tenants_inv in E as [(f & ->) _]. simpl. destruct Hz as [Hs Hsl Hd Hr Hsy].
  split; [|done..]. by eapply storage_ok_ext, Hs.
Qed.
Lemma open_ok now q r q' :
  crash_ok q → open now q = (r, q') → crash_ok q' ∧ (r = Ok tt → queue_ok q' []).
Proof.
  intros Hc Hrun. unfold open in Hrun. inv_bind Hrun; [|by inv_pure]. inv_pure.
  inv_bind Hrun; [|by inv_pure]. inv_pure. inv_bind Hrun; [|by inv_pure]. inv_pure.
  assert (Hq0 : queue_ok (set_records no_records q) []).
  { destruct Hc as (? & ? & ?). split; simpl; [|apply mem_ok_empty|].
    - split; [done..|apply map_Forall_empty|]. intros k t. by rewrite lookup_empty.
    - rewrite map_size_empty. lia. }
  inv_bind Hrun; pose proof Hrun0 as Hts;
    apply (queue_ok_zfs _ _ [] _ _ on_disk_background_tenants) in Hrun0 as (Hq1 & Hr1 & _); auto.
  2: { by split; [eapply queue_crash_ok|]. }
  apply zoom_inv in Hts as (z & Hts & ->). apply background_tenants_inv in Hts as (_ & Hts).
  specialize (Hts _ eq_refl) as [Hts _]. rename a into ts.
  eapply (forM_inv _ (λ ts q, queue_ok q [] ∧ NoDup ts ∧
    ∀ k task, tasks (records q) !! k = Some task → tenant task ∉ ts) crash_ok) in Hrun.
  - destruct Hrun as [Hc' Hl]. split; [done|]. intros Hr. by apply Hl.
  - intros ts' q0 [Hq2 _]. by eapply queue_crash_ok.
  - intros t ts' q0 r0 q2 (Hq2 & Hts2 & Hold) Ht.
    destruct (load_tenant_ok _ _ _ _ _ _ Hq2 Hts2 Hold Ht) as [Hc2 Hl]. split; [done|].
    intros [? ?]%Hl. split_and!; [done|by apply NoDup_cons in Hts2 as [_ ?]|done].
  - split_and!; [done..|]. rewrite Hr1. intros k task. simpl. by rewrite lookup_empty.
Qed.

(** ** The running system

    [run]'s loop with its workers, the guests' calls and the other components'
    use of the storage, in any order, with crashes anywhere.  An error from
    [finish] ends [run], which stops serving and drops the workers. *)
Record sys := { sys_queue : TaskQueue; sys_workers : list (Task * phase); serving : bool }.
(** Storage calls of other components: not in the tasks' directories, and no
    tenant made whose pool is there although the catalog lost it. *)
Definition elsewhere (p : place) : Prop :=
  match p with PTenant _ d _ => d ≠ DIR | PControl _ _ => True end.
Definition foreign (o : zop) (z : Zfs) : Prop :=
  match o with
  | OTenantDir t => ctl_catalog (content (control z)) !! t = None → pools z !! t = None
  | OWrite p _ | ORemove p | OCreateNew p => elsewhere p ∧ pool_there z p
  | ORename p q => elsewhere p ∧ elsewhere q ∧ pool_there z p ∧ pool_there z q ∧ p ≠ q
  | _ => True
  end.
Inductive sys_step : sys → sys → Prop :=
  | step_guest q ws ctx c : length (ctx_tenant ctx) = 16%nat →
      sys_step {| sys_queue := q; sys_workers := ws; serving := true |}
        {| sys_queue := (guest_run (Some ctx) c q).2; sys_workers := ws; serving := true |}
  | step_dispatch q q' ws now t : Z.of_nat (length ws) < concurrency (limits q) →
      due now q = (Some t, q') →
      sys_step {| sys_queue := q; sys_workers := ws; serving := true |}
        {| sys_queue := q'; sys_workers := (t, Started) :: ws; serving := true |}
  | step_busy q ws ws' t : ws ≡ₚ (t, Started) :: ws' →
      sys_step {| sys_queue := q; sys_workers := ws; serving := true |}
        {| sys_queue := q; sys_workers := (t, Returned (Ok None)) :: ws'; serving := true |}
  | step_begin q q' ws ws' t r : ws ≡ₚ (t, Started) :: ws' → begin t q = (r, q') →
      sys_step {| sys_queue := q; sys_workers := ws; serving := true |}
        {| sys_queue := q'; serving := true; sys_workers := (t, match r with
            | Ok true => Executing | Ok false => Returned (Ok (Some [])) | Err e => Returned (Err e)
            end) :: ws' |}
  | step_return q ws ws' t o : ws ≡ₚ (t, Executing) :: ws' → o ≠ Ok None → outcome_ok o →
      sys_step {| sys_queue := q; sys_workers := ws; serving := true |}
        {| sys_queue := q; sys_workers := (t, Returned o) :: ws'; serving := true |}
  | step_finish q q' ws ws' now t o r : ws ≡ₚ (t, Returned o) :: ws' → finish now t o q = (r, q') →
      sys_step {| sys_queue := q; sys_workers := ws; serving := true |}
        {| sys_queue := q'; sys_workers := if is_ok r then ws' else []; serving := is_ok r |}
  | step_storage q ws b o : foreign o (zfs q) →
      sys_step {| sys_queue := q; sys_workers := ws; serving := b |}
        {| sys_queue := set_zfs (run_zop o (zfs q)) q; sys_workers := ws; serving := b |}
  | step_restart q ws b z now r q' : restart (zfs q) z →
      open now {| zfs := z; limits := limits q; records := no_records |} = (r, q') →
      sys_step {| sys_queue := q; sys_workers := ws; serving := b |}
        {| sys_queue := q'; sys_workers := []; serving := is_ok r |}.
Definition sys_init (s : sys) : Prop := ∃ z l now r q,
  reachable zinit zstep z ∧ slots_ok z ∧ pools_hold dir_ok z ∧
  open now {| zfs := z; limits := l; records := no_records |} = (r, q) ∧
  s = {| sys_queue := q; sys_workers := []; serving := is_ok r |}.

Lemma dir_ok_empty t : dir_ok t ∅.
Proof. intros n b. by rewrite lookup_empty. Qed.
Lemma elsewhere_dirs p o : elsewhere p → preserves (pools_hold dir_ok) (modify (put_file p o) : M Zfs io_error ()).
Proof.
  intros Hp. apply preserves_modify. intros z Hz. destruct p as [d n|t d n].
  - exact Hz.
  - apply pools_hold_put_file; [done|]. intros c. by apply dir_ok_other.
Qed.
Lemma elsewhere_writes ps z z' t n :
  writes ps z z' → Forall elsewhere ps → file z' (task_place t n) = file z (task_place t n).
Proof.
  intros Hw Hps. apply (writes_file _ _ _ Hw). intros Hin. rewrite Forall_forall in Hps.
  by apply (Hps _ Hin).
Qed.
Lemma elsewhere_fs o z : foreign o z →
  match o with OWrite _ _ | ORename _ _ | ORemove _ | OCreateNew _ => True | _ => False end →
  (∃ ps, Forall elsewhere ps ∧ writes ps z (run_zop o z)) ∧
  (pools_hold dir_ok z → pools_hold dir_ok (run_zop o z)).
Proof.
  assert (∀ {E} b (e : E), preserves (pools_hold dir_ok) (ensure b e)) as Hens by (by intros E b e z0).
  pose proof (pools_hold_next_outcome dir_ok) as Hno. pose proof (pools_hold_io dir_ok) as Hio.
  destruct o as [| | | | | |p b|p q|p|p]; simpl; try done; intros Hfor _.
  - destruct Hfor as [He Hp]. split.
    + exists [p]. split; [by constructor|]. destruct (fs_write p b z) eqn:E.
      by destruct (fs_write_inv _ _ _ _ _ E Hp).
    + intros Hz. by_preserves. unfold fs_write. solve_preserves; by apply elsewhere_dirs.
  - destruct Hfor as (He & He' & Hp & Hp' & Hne). split.
    + exists [p; q]. split; [by repeat constructor|]. destruct (fs_rename p q z) eqn:E.
      by destruct (fs_rename_inv _ _ _ _ _ E Hp Hp' Hne).
    + intros Hz. by_preserves. unfold fs_rename. solve_preserves. apply preserves_modify.
      intros z1 Hz1. by apply (elsewhere_dirs p None He), (elsewhere_dirs q _ He').
  - destruct Hfor as [He Hp]. split.
    + exists [p]. split; [by constructor|]. destruct (fs_remove p z) eqn:E.
      by destruct (fs_remove_inv _ _ _ _ E Hp).
    + intros Hz. by_preserves. unfold fs_remove. solve_preserves; by apply elsewhere_dirs.
  - destruct Hfor as [He Hp]. split.
    + exists [p]. split; [by constructor|]. unfold fs_create_new.
      destruct ((_ : M Zfs io_error ()) z) as [r z'] eqn:E. simpl.
      inv_bind E; apply io_inv in Hrun as [f ->]; [|by apply frame_writes, frame_set_faults].
      inv_bind E; [|by inv_pure]. inv_pure.
      inv_bind E; inv_pure; [|by apply frame_writes, frame_set_faults].
      eapply writes_trans; [by apply frame_writes, frame_set_faults|].
      apply writes_put_file; [by left|done].
    + intros Hz. by_preserves. unfold fs_create_new. solve_preserves; by apply elsewhere_dirs.
Qed.
Lemma foreign_tasks o z : foreign o z →
  (∀ t n, file (run_zop o z) (task_place t n) = file z (task_place t n)) ∧
  (slots_ok z → slots_ok (run_zop o z)) ∧ (pools_hold dir_ok z → pools_hold dir_ok (run_zop o z)).
Proof.
  intros Hfor.
  assert (Hframe : frame z (run_zop o z) → (∀ t n, file (run_zop o z) (task_place t n) = file z (task_place t n)) ∧
    (slots_ok z → slots_ok (run_zop o z))) by (intros [H1 H2 H3]; split; [intros; apply H1|done]).
  destruct o as [t|t|t|t|t| |p b|p q|p|p].
  7-10: destruct (elsewhere_fs _ _ Hfor) as [(ps & Hps & Hw) Hd]; [done|];
    (split_and!; [intros; by eapply elsewhere_writes|apply Hw|exact Hd]).
  all: simpl in *; apply Logic.and_assoc.
  - destruct (tenant_dir t z) eqn:E. destruct (tenant_dir_frame _ _ _ _ E Hfor) as [Hf Hp].
    split; [by apply Hframe|]. apply Hp, dir_ok_empty.
  - split; [apply Hframe|intros Hz; by apply pools_hold_tenant_pool].
    destruct (existing_tenant_dir t z) eqn:E. by eapply frame_existing_tenant_dir.
  - split; [apply Hframe|intros Hz; by apply pools_hold_tenant_runtime_dir].
    destruct (tenant_runtime_dir t z) eqn:E. by eapply frame_tenant_runtime_dir.
  - split; [apply Hframe|intros Hz; by apply pools_hold_mark_background].
    destruct (mark_background t z) eqn:E. by eapply frame_mark_background.
  - split; [apply Hframe|intros Hz; by apply pools_hold_anchor_tenant].
    destruct (anchor_tenant t z) eqn:E. by eapply frame_anchor_tenant.
  - split; [apply Hframe|intros Hz; by apply pools_hold_anchor_control].
    destruct (anchor_control z) eqn:E. by eapply frame_anchor_control.
Qed.
Lemma foreign_crash_ok o q : foreign o (zfs q) → crash_ok q → crash_ok (set_zfs (run_zop o (zfs q)) q).
Proof.
  intros (_ & Hs & Hp)%foreign_tasks (H1 & H2 & H3). split_and!; [|by apply Hs|by apply Hp].
  by apply (storage_ok_step (zfs q)); [|constructor].
Qed.
Lemma foreign_queue_ok o q ws :
  foreign o (zfs q) → queue_ok q ws → queue_ok (set_zfs (run_zop o (zfs q)) q) ws.
Proof.
  intros Hfor [[H1 H2 H3 H4 H5] Hm Hs]. pose proof (foreign_tasks _ _ Hfor) as (Hf & Hsl & Hp).
  split; [split|done..]; simpl; [|by apply Hsl|by apply Hp|done|].
  - by apply (storage_ok_step (zfs q)); [|constructor].
  - intros k t Ht. rewrite Hf. by apply H5.
Qed.

(** The limits never change. *)
Definition keeps_limits {E A} (m : M TaskQueue E A) : Prop :=
  ∀ l, preserves (λ q, limits q = l) m.
Lemma keeps_on_zfs {E A} (m : M Zfs E A) l : preserves (λ q, limits q = l) (on_zfs m).
Proof. intros q Hq. unfold on_zfs, zoom. by destruct (m (zfs q)). Qed.
Lemma keeps_write task l : preserves (λ q, limits q = l) (write task).
Proof.
  unfold write. apply preserves_bind; [by intros ?|intros _].
  repeat (apply preserves_bind; [apply keeps_on_zfs|intros _]). apply keeps_on_zfs.
Qed.
Ltac keeps_limits :=
  repeat first
    [ progress intros
    | apply keeps_on_zfs | apply keeps_write
    | match goal with
      | |- preserves _ (get ≫= _) => apply preserves_bind; [by intros ?|]
      | |- preserves _ (_ ≫= _) => apply preserves_bind
      | |- preserves _ (modify _) => by intros ?
      | |- preserves _ (ensure _ _) => by intros ?
      | |- preserves _ (unwrap _ _) => by intros ?
      | |- preserves _ (lift _) => by intros ?
      | |- preserves _ (fail _) => by intros ?
      | |- preserves _ (mret _) => by intros ?
      | |- preserves _ (match ?x with _ => _ end) => destruct x
      end ].
Lemma limits_guest_run ctx c q : limits (guest_run ctx c q).2 = limits q.
Proof.
  assert (∀ l, preserves (λ q, limits q = l) (guest_run ctx c)) as Hp; [|by apply Hp].
  intros l. unfold guest_run. apply preserves_bind; [by intros ?|intros ctx'].
  destruct c; unfold enqueue, cancel, forget; keeps_limits.
  intros q' Hq'. unfold fmap, M_fmap, get_status. unfold_m. by destruct (tasks _ !! _).
Qed.
Lemma limits_begin t q r q' : begin t q = (r, q') → limits q' = limits q.
Proof.
  intros H1. assert (∀ l, preserves (λ q, limits q = l) (begin t)) as Hp by (intros l; unfold begin; keeps_limits).
  exact (preserves_ok _ _ _ _ _ (Hp _) eq_refl H1).
Qed.
Lemma limits_finish now t o q r q' : finish now t o q = (r, q') → limits q' = limits q.
Proof.
  intros H1. assert (∀ l, preserves (λ q, limits q = l) (finish now t o)) as Hp
    by (intros l; unfold finish; keeps_limits).
  exact (preserves_ok _ _ _ _ _ (Hp _) eq_refl H1).
Qed.
Lemma limits_open now q r q' : open now q = (r, q') → limits q' = limits q.
Proof.
  intros H1. assert (∀ l, preserves (λ q, limits q = l) (open now)) as Hp.
  { intros l. unfold open. keeps_limits. apply preserves_forM. intros t.
    unfold load_tenant. keeps_limits. apply preserves_forM. intros n. unfold load_entry. keeps_limits. }
  exact (preserves_ok _ _ _ _ _ (Hp _) eq_refl H1).
Qed.

(** ** The invariant of the running system *)
Definition worker_ok (w : Task * phase) : Prop :=
  match w.2 with Returned o => outcome_ok o | _ => True end.
Definition sys_ok (s : sys) : Prop :=
  crash_ok (sys_queue s) ∧
  (serving s = true → queue_ok (sys_queue s) (sys_workers s) ∧
     Z.of_nat (length (sys_workers s)) ≤ Z.max 0 (concurrency (limits (sys_queue s))) ∧
     Forall worker_ok (sys_workers s)).
#[export] Instance queue_ok_perm q : Proper ((≡ₚ) ==> iff) (queue_ok q).
Proof.
  intros ws ws' Hp. split; intros [Hd Hm Hs]; (split; [done|by rewrite Hp in * || rewrite <-Hp in *|done]).
Qed.
Lemma guest_queue_ok ctx c q ws :
  length (ctx_tenant ctx) = 16%nat → queue_ok q ws → queue_ok (guest_run (Some ctx) c q).2 ws.
Proof.
  intros Hlen Hq. unfold guest_run. destruct (context (Some ctx) (mutates c)) as [ctx'|e] eqn:Hctx; [|done].
  assert (ctx' = ctx) as ->.
  { unfold context, check in Hctx. simpl in Hctx. by destruct (_ || _); simplify_eq/=. }
  rewrite (mbind_ok _ _ _ ctx q) by done. destruct c as [i pl a iv|i|i|i].
  - destruct (enqueue (ctx_tenant ctx) i pl a iv q) as [r q'] eqn:E.
    pose proof (enqueue_queue_ok _ _ _ _ _ _ _ _ _ Hlen E Hq). unfold_m. rewrite E. by destruct r.
  - unfold fmap, M_fmap, get_status. unfold_m. by destruct (tasks _ !! _).
  - destruct (cancel (ctx_tenant ctx) i q) as [r q'] eqn:E.
    pose proof (cancel_queue_ok _ _ _ _ _ _ E Hq). unfold_m. rewrite E. by destruct r.
  - destruct (forget (ctx_tenant ctx) i q) as [r q'] eqn:E.
    pose proof (forget_queue_ok _ _ _ _ _ _ Hlen E Hq). unfold_m. rewrite E. by destruct r.
Qed.
Lemma restart_slots z z' : restart z z' → slots_ok z'.
Proof. intros [_ _ Ht _] t. by rewrite Ht, lookup_empty. Qed.
Lemma crash_ok_restart q z l :
  crash_ok q → restart (zfs q) z → crash_ok {| zfs := z; limits := l; records := no_records |}.
Proof.
  intros (H1 & _ & H3) Hr. split_and!; simpl.
  - by eapply storage_ok_restart.
  - by eapply restart_slots.
  - by eapply pools_hold_restart.
Qed.
Lemma sys_ok_step s s' : sys_ok s → sys_step s s' → sys_ok s'.
Proof.
  intros Hs Hstep. revert Hs. unfold sys_ok.
  destruct Hstep as [q ws ctx c Hctx|q q' ws now t Hroom Hdue|q ws ws' t Hws|q q' ws ws' t r Hws Hb|
    q ws ws' t o Hws Hne Ho|q q' ws ws' now t o r Hws Hf|q ws b o Hfor|q ws b z now r q' Hre Ho]; simpl;
    intros [Hc Hq]; try destruct (Hq eq_refl) as (Hq' & Hlen & Hwok);
    try (rewrite Hws in Hq', Hlen, Hwok; apply Forall_cons in Hwok as [Hw Hwok]; clear Hws Hq).
  - assert (queue_ok (guest_run (Some ctx) c q).2 ws) as Hq2 by by apply guest_queue_ok.
    split; [by eapply queue_crash_ok|]. intros _. by rewrite limits_guest_run.
  - assert (queue_ok q' ((t, Started) :: ws)) as Hq2 by by eapply due_queue_ok.
    split; [by eapply queue_crash_ok|]. intros _. split_and!; [done| |by constructor].
    apply due_inv in Hdue as (a & k & _ & _ & _ & -> & _). simpl. lia.
  - split; [done|]. intros _. split_and!; [|done|by constructor].
    destruct (worker_record _ _ _ _ Hq') as (c & Hrec & _ & _ & Hph). by eapply queue_ok_phase.
  - pose proof (begin_queue_ok _ _ _ _ _ Hb Hq') as Hq3.
    split; [by eapply queue_crash_ok|]. intros _.
    split_and!; [exact Hq3|by rewrite (limits_begin _ _ _ _ Hb)|].
    constructor; [|done]. unfold worker_ok. by destruct r as [[]|].
  - split; [done|]. intros _. split_and!; [|done|by constructor].
    destruct (worker_record _ _ _ _ Hq') as (c & Hrec & _ & _ & Hph). eapply queue_ok_phase; [done..|].
    destruct Hph as [|Hph]; [by left|]. right. destruct o as [[b|]|e]; [done|done|by right].
  - destruct (finish_queue_ok _ _ _ _ _ _ _ Hf Hw Hq') as [Hc' Hok].
    split; [done|]. destruct r as [[]|]; [|done]. intros _. split_and!; [by apply Hok| |done].
    rewrite (limits_finish _ _ _ _ _ _ Hf). simpl in *. lia.
  - split; [by apply foreign_crash_ok|]. intros Hb. destruct (Hq Hb) as (Hq' & Hlen & Hwok).
    split_and!; [by apply foreign_queue_ok|done|done].
  - destruct (open_ok _ _ _ _ (crash_ok_restart _ _ _ Hc Hre) Ho) as [Hc' Hok].
    split; [done|]. destruct r as [[]|]; [|done]. intros _. split_and!; [by apply Hok|simpl; lia|done].
Qed.
Lemma sys_ok_init s : sys_init s → sys_ok s.
Proof.
  intros (z & l & now & r & q & Hz%reachable_storage_ok & Hsl & Hd & Ho & ->).
  assert (crash_ok {| zfs := z; limits := l; records := no_records |}) as Hc0 by by split_and!.
  destruct (open_ok now _ _ _ Hc0 Ho) as [Hc Hok]. split; [done|].
  simpl. destruct r as [[]|]; [|done]. intros _. split_and!; [by apply Hok|simpl; lia|done].
Qed.
Lemma reachable_sys_ok s : reachable sys_init sys_step s → sys_ok s.
Proof. apply reachable_invariant; eauto using sys_ok_init, sys_ok_step. Qed.

(** ** Durability *)
Lemma write_imported task q q' :
  write task q = (Ok tt, q') → slots_ok (zfs q) → valid_id (id task) = true →
  imported (tenant task) (zfs q') = true ∧
  file (zfs q') (task_place (tenant task) (task_key task)) = Some (to_vec task).
Proof.
  intros Hw Hs Hid. destruct (write_spec _ _ _ _ Hw Hs Hid) as (_ & _ & _ & Hf & Hok).
  by destruct (Hok eq_refl) as (_ & _ & Hi).
Qed.
(** What an anchor of an imported tenant saved, a restart finds. *)
Lemma anchored_file t k b z z' z'' :
  zfs_wf z → imported t z = true → file z (task_place t k) = Some b →
  anchor_tenant t z = (Ok tt, z') → restart z' z'' → file z'' (task_place t k) = Some b.
Proof.
  intros Hwf Hi Hf Ha Hre. destruct (anchored_restart _ _ _ _ Hwf Ha Hre) as [_ Hp].
  unfold file, task_place in *. destruct (pools z !! t) as [tp|] eqn:Ht; [|done].
  destruct (Hp Hi _ eq_refl) as (tp' & -> & Hc). simpl in *. by rewrite Hc.
Qed.
Lemma begin_durable q ws t q' z :
  queue_ok q ((t, Started) :: ws) → begin t q = (Ok true, q') → restart (zfs q') z →
  ∃ c, tasks (records q) !! task_key t = Some c ∧ status c = Pending ∧
    file z (task_place (tenant c) (task_key t)) =
      Some (to_vec (with_attempts (attempts c + 1) (with_status Running c))).
Proof.
  unfold begin. intros Hq Hrun Hre. destruct (worker_record _ _ _ _ Hq) as (c & Hc & Hok & Hkey & _).
  inv_bind Hrun. inv_pure. rewrite Hc, (mbind_ok _ _ _ c q) in Hrun by done.
  destruct (decide (status c = Pending)) as [Hst|Hst]; [|by inv_pure].
  exists c. split_and!; [done..|]. set (c' := with_attempts _ _) in *.
  assert (Hk' : task_key c' = task_key t) by done.
  assert (record_ok (task_key c') c') as Hok'.
  { rewrite Hk'. pose proof (ok_pending _ _ Hok Hst). pose proof (ok_attempts _ _ Hok).
    eapply record_ok_update; [exact Hok|done..|exact (record_ok_result _ _ Hok)|simpl; lia|done]. }
  inv_bind Hrun. destruct a.
  destruct (write_imported _ _ _ Hrun0 (disk_slots _ _ (queue_disk _ _ Hq)) (record_ok_id _ _ Hok'))
    as [Himp Hfile]. rewrite Hk' in Hfile.
  destruct (queue_ok_write _ _ _ _ _ Hrun0 Hq Hok') as (_ & _ & _ & Hd). specialize (Hd eq_refl).
  inv_bind Hrun. inv_pure. inv_bind Hrun. inv_pure. destruct a.
  apply zoom_inv in Hrun1 as (z1 & Ha & ->). simpl in *. units.
  eapply anchored_file; [apply Hd|exact Himp|exact Hfile|exact Ha|exact Hre].
Qed.
(** What a [finish] that succeeds for an attempt that ran has done: the record
    is written, then its tenant anchored. *)
Lemma finish_publishes q ws now t o c q' :
  queue_ok q ((t, Returned o) :: ws) → outcome_ok o →
  tasks (records q) !! task_key t = Some c → status c = Running → finish now t o q = (Ok tt, q') →
  ∃ c' q1, outcome_record now (task_key t) o c = Ok c' ∧ task_key c' = task_key t ∧ tenant c' = tenant c ∧
    valid_id (id c') = true ∧ write c' (set_active (λ a, a ∖ {[task_key t]}) q) = (Ok tt, q1) ∧
    storage_ok (zfs q1) ∧ anchor_tenant (tenant c) (zfs q1) = (Ok tt, zfs q').
Proof.
  unfold finish. intros Hq Ho Hc Hr Hrun.
  pose proof (queue_record _ _ _ _ Hq Hc) as Hok. pose proof (record_ok_key _ _ Hok) as Hkey.
  destruct (worker_record _ _ _ _ Hq) as (c2 & Hc2 & _ & _ & Hph).
  assert (c2 = c) as -> by congruence.
  inv_bind Hrun. inv_pure. rewrite Hc, (mbind_ok _ _ _ c q) in Hrun by done.
  inv_bind Hrun. inv_pure. rewrite decide_False in Hrun by congruence.
  destruct (decide (o = Ok None)) as [->|Hne].
  { destruct Hph as [?|Hph]; [congruence|]. simpl in Hph. congruence. }
  assert (Hrun' : (c' ← lift (outcome_record now (task_key t) o c);
    _ ← write c'; _ ← on_zfs (anchor_tenant (tenant c'));
    _ ← (if decide (status c' = Pending)
           then modify (set_due (λ d, {[ (run_at c', task_key t) ]} ∪ d)) else mret tt);
    modify (set_tasks <[task_key t := c']>)) (set_active (λ a, a ∖ {[task_key t]}) q) = (Ok tt, q')).
  { destruct o as [[b|]|e]; (inv_bind Hrun; inv_pure; exact Hrun) || done. }
  clear Hrun. rename Hrun' into Hrun. inv_bind Hrun. unfold lift in Hrun0. injection Hrun0 as Hrec <-.
  match type of Hrec with _ = Ok ?x => rename x into c' end.
  destruct (outcome_record_ok _ _ _ _ _ Hok Ho Hrec) as (Hok' & Hk' & Ht' & _).
  rewrite Hkey in Hk'. rewrite <-Hk' in Hok'. inv_bind Hrun. units.
  destruct (on_disk_write _ _ _ _ (tasks (records q)) Hrun0 (queue_disk _ _ Hq)) as (_ & _ & Hd);
    [done|].
  inv_bind Hrun. apply zoom_inv in Hrun1 as (z1 & Ha & ->). units.
  assert (zfs q' = z1) as Hz.
  { destruct (decide (status c' = Pending)); inv_bind Hrun; by inv_pure. }
  match type of Hrun0 with _ = (_, ?x) => exists c', x end.
  rewrite Hz, <-Ht'. do 3 (split; [done|]). split; [by eapply record_ok_id|]. split; [exact Hrun0|]. split; [apply Hd|exact Ha].
Qed.
Lemma finish_outcome_durable q ws now t o c q' z :
  queue_ok q ((t, Returned o) :: ws) → outcome_ok o →
  tasks (records q) !! task_key t = Some c → status c = Running →
  finish now t o q = (Ok tt, q') → restart (zfs q') z →
  ∃ c', outcome_record now (task_key t) o c = Ok c' ∧
    file z (task_place (tenant c) (task_key t)) = Some (to_vec c').
Proof.
  intros Hq Ho Hc Hr Hrun Hre.
  destruct (finish_publishes _ _ _ _ _ _ _ Hq Ho Hc Hr Hrun) as (c' & q1 & Hrec & Hk' & Ht' & Hid & Hw & Hs & Ha).
  exists c'. split; [done|]. destruct (write_imported _ _ _ Hw (disk_slots _ _ (queue_disk _ _ Hq)) Hid) as [Himp Hfile].
  rewrite Hk', Ht' in *. eapply anchored_file; [apply Hs|exact Himp|exact Hfile|exact Ha|exact Hre].
Qed.

(** ** The phase of a recurring task *)
Lemma offset_range k i : 0 < i → 0 ≤ offset k i < i.
Proof. intros Hi. unfold offset. by apply Z.mod_pos_bound. Qed.
Lemma next_delay_spec now k i :
  0 ≤ now → 0 < i → 0 < next_delay k i now ≤ i ∧ (now + next_delay k i now) mod i = offset k i.
Proof.
  intros Hnow Hi. pose proof (offset_range k i Hi) as Ho. unfold next_delay.
  pose proof (Z.mod_pos_bound now i Hi) as Hm. pose proof (Z.div_mod now i) as Hdm.
  destruct (Z.ltb_spec (now mod i) (offset k i)); (split; [lia|]).
  - replace (now + (offset k i - now mod i)) with (offset k i + (now / i) * i) by lia.
    rewrite Z.mod_add by lia. by apply Z.mod_small.
  - replace (now + (i - (now mod i - offset k i))) with (offset k i + (now / i + 1) * i) by lia.
    rewrite Z.mod_add by lia. by apply Z.mod_small.
Qed.
End proofs.
