(* ===== verification/TasksProps.v ===== *)
(** * Background tasks: the properties *)
From S2P Require Import Prelude Concrete Storage Tasks TasksFacts.

Section properties.
Context `{Sha256} `{Codec Task} `{!CodecLaws Task}.

(** C24: at most one attempt at a time.  In every reachable state of a serving
    runtime, whatever the guests call, the storage does and the crashes lose,
    no record is held by two workers, there are never more workers than
    [concurrency], and a worker that is executing holds a record that is on
    its way: [Running], or cancelled under it. *)
Theorem one_attempt_at_a_time s :
  reachable sys_init sys_step s → serving s = true →
  NoDup (worker_keys (sys_workers s)) ∧
  Z.of_nat (length (sys_workers s)) ≤ Z.max 0 (concurrency (limits (sys_queue s))) ∧
  ∀ t, (t, Executing) ∈ sys_workers s → ∃ c,
    tasks (records (sys_queue s)) !! task_key t = Some c ∧
    (status c = Running ∨ status c = Cancelled).
Proof.
  intros [_ Hok]%reachable_sys_ok Hs. destruct (Hok Hs) as (Hq & Hlen & _).
  split_and!; [apply Hq|done|]. intros t Hin.
  destruct (mem_workers _ _ (queue_mem _ _ Hq) _ _ Hin) as (c & Hc & Hph).
  exists c. split; [done|]. destruct Hph; auto.
Qed.

(** C23: no task is lost.  In every reachable state of a serving runtime, a
    pending task is with a worker or waits at exactly one instant of the due
    set, a running one is with a worker, and the store is within its quota. *)
Theorem no_task_lost s k t :
  reachable sys_init sys_step s → serving s = true →
  tasks (records (sys_queue s)) !! k = Some t →
  (status t = Pending → k ∈ worker_keys (sys_workers s) ∨
     ∃ a, (a, k) ∈ due_set (records (sys_queue s)) ∧
       ∀ b, (b, k) ∈ due_set (records (sys_queue s)) → b = a) ∧
  (status t = Running → k ∈ worker_keys (sys_workers s)) ∧
  Z.of_nat (size (tasks (records (sys_queue s)))) ≤ max_records (limits (sys_queue s)).
Proof.
  intros [_ Hok]%reachable_sys_ok Hs Ht. destruct (Hok Hs) as ([_ Hm Hsize] & _).
  split_and!; [|intros Hr; by eapply mem_active, mem_running|done].
  intros Hp. destruct (mem_scheduled _ _ Hm _ _ Ht Hp) as [Ha|[a Ha]].
  - left. by apply (mem_active _ _ Hm).
  - right. exists a. split; [done|]. intros b Hb. by eapply mem_unique.
Qed.

(** Memory and disk agree.  In every reachable state of a serving runtime
    the record of each task is in its tenant's directory, under its key, byte
    for byte. *)
Theorem records_on_disk s k t :
  reachable sys_init sys_step s → serving s = true →
  tasks (records (sys_queue s)) !! k = Some t →
  task_key t = k ∧
  file (zfs (sys_queue s)) (task_place (tenant t) k) = Some (to_vec t).
Proof.
  intros [_ Hok]%reachable_sys_ok Hs Ht. destruct (Hok Hs) as (Hq & _).
  split; [by eapply record_ok_key, queue_record|]. by apply (disk_synced _ _ (queue_disk _ _ Hq)).
Qed.

(** Every crash is recoverable, record by record.  Whatever state of the
    disk a restart finds, each file of a tenant's task directory is either a
    temporary that [open] removes, or a record that passes every check [open]
    makes of it, with no more than [MAX_ATTEMPTS] attempts spent. *)
Theorem every_crash_readable s z t name b :
  reachable sys_init sys_step s → restart (zfs (sys_queue s)) z →
  file z (task_place t name) = Some b →
  ends_with ".tmp" name = true ∨
  ∃ task, from_slice b = Some task ∧ len b ≤ MAX_RECORD ∧ valid_record t name task = true ∧
    0 ≤ attempts task ≤ MAX_ATTEMPTS ∧ (status task = Pending → attempts task < MAX_ATTEMPTS).
Proof.
  intros [(_ & _ & Hd) _]%reachable_sys_ok Hre Hf. pose proof (pools_hold_restart _ _ _ Hre Hd) as Hz.
  destruct (ends_with ".tmp" name) eqn:Hn; [by left|right].
  destruct (entry_dir_ok _ _ _ _ Hz Hf Hn) as (task & -> & [Hv _ Ha Hp] & <- & Hlen).
  exists task. split_and!; first [apply from_to_vec|done|lia].
Qed.

(** An attempt is spent before it runs.  When [begin] tells a worker to go
    ahead, every restart from then on finds the record [Running] with the
    attempt counted, so a task that brings the enclave down cannot repeat
    without spending its attempts. *)
Theorem begin_spends_attempt s t ws q' z :
  reachable sys_init sys_step s → serving s = true → sys_workers s ≡ₚ (t, Started) :: ws →
  begin t (sys_queue s) = (Ok true, q') → restart (zfs q') z →
  ∃ c, tasks (records (sys_queue s)) !! task_key t = Some c ∧ status c = Pending ∧
    file z (task_place (tenant c) (task_key t)) =
      Some (to_vec (with_attempts (attempts c + 1) (with_status Running c))).
Proof.
  intros [_ Hok]%reachable_sys_ok Hs Hws Hb Hre. destruct (Hok Hs) as (Hq & _). rewrite Hws in Hq.
  by eapply begin_durable.
Qed.

(** An outcome reported is an outcome kept.  When [finish] succeeds for an
    attempt that ran to an answer or to an error, every restart from then on
    finds the record [finish] computed from it. *)
Theorem finish_durable s t ws now o c q' z :
  reachable sys_init sys_step s → serving s = true → sys_workers s ≡ₚ (t, Returned o) :: ws →
  tasks (records (sys_queue s)) !! task_key t = Some c → status c = Running →
  finish now t o (sys_queue s) = (Ok tt, q') → restart (zfs q') z →
  ∃ c', outcome_record now (task_key t) o c = Ok c' ∧
    file z (task_place (tenant c) (task_key t)) = Some (to_vec c').
Proof.
  intros [_ Hok]%reachable_sys_ok Hs Hws Hc Hr Hf Hre. destruct (Hok Hs) as (Hq & _ & Hwok).
  rewrite Hws in Hq, Hwok. apply Forall_cons in Hwok as [Ho _]. by eapply finish_outcome_durable.
Qed.

(** A recurring task keeps its phase.  The next run is later than now, at
    most one interval away, and at the task's own offset of the interval
    however late this run ended. *)
Theorem recurring_on_phase now k b c c' i :
  is_u64 now → 1000 ≤ i → now + i ≤ u64_max → interval_ms c = Some i →
  after_success now k b c = Ok c' →
  now < run_at c' ≤ now + i ∧ run_at c' mod i = offset k i ∧
  status c' = Pending ∧ attempts c' = 0 ∧ occurrence c' = occurrence c + 1.
Proof.
  unfold is_u64, after_success. intros Hnow Hi Hmax Hiv. simpl. rewrite Hiv.
  unfold ok_or, checked_add. destruct (occurrence c + 1 <=? u64_max); [|done]. intros [= <-]. simpl.
  destruct (next_delay_spec now k i) as [Hd Hm]; [lia..|].
  unfold saturating_add. rewrite Z.min_r by lia. split_and!; try done; lia.
Qed.

(** ** Turns *)
(** The tenants [due] serves while the tenant [w] has work ready at each call,
    the queue doing anything else in between that leaves [last_tenant]. *)
Inductive turns (w : bytes) : option bytes → list bytes → Prop :=
  | turns_nil l : turns w l []
  | turns_cons now q t q' e ts :
      due now q = (Some t, q') → (e, w) ∈ ready now (records q) →
      turns w (last_tenant (records q')) ts → turns w (last_tenant (records q)) (tenant t :: ts).
(** Where a tenant stands in the round that ends with [w]. *)
Definition round (w t : bytes) : bool * bytes := (bool_decide (ord_lt t w), t).
Lemma turn_round w l t :
  l ≠ w → t ≠ w → ord_le (leb t l, t) (leb w l, w) → ord_lt (round w l) (round w t).
Proof.
  unfold round. intros Hl Ht [Hlt|[Heq Hle]]%ord_le_prod; apply ord_lt_prod.
  - destruct (leb t l) eqn:Htl; [by destruct (leb w l)|]. destruct (leb w l) eqn:Hwl; [|done].
    apply leb_false in Htl. apply leb_true in Hwl.
    assert (ord_lt w l) as Hwl' by (by apply ord_le_ne). assert (ord_lt w t) as Hwt by (by eapply ord_lt_trans).
    right. split; [|done]. by rewrite !bool_decide_eq_false_2 by (by intros ?%ord_lt_asym).
  - assert (ord_lt t w) as Htw by (by apply ord_le_ne).
    rewrite (bool_decide_eq_true_2 (ord_lt t w)) by done.
    destruct (leb t l) eqn:Htl; symmetry in Heq.
    + left. apply leb_true in Heq. assert (ord_lt w l) as Hwl by (by apply ord_le_ne).
      by rewrite bool_decide_eq_false_2 by (by intros ?%ord_lt_asym).
    + right. apply leb_false in Htl. assert (ord_lt l w) as Hlw by (by eapply ord_lt_trans).
      by rewrite (bool_decide_eq_true_2 (ord_lt l w)).
Qed.
Lemma turns_ascend w l ts : turns w l ts → w ∉ ts →
  match l with Some l => l ≠ w → Forall (λ t, ord_lt (round w l) (round w t)) ts | None => True end ∧ NoDup ts.
Proof.
  induction 1 as [l|now q t q' e ts Hdue Hw Hts IH]; intros Hnin.
  - split; [by destruct l|constructor].
  - apply not_elem_of_cons in Hnin as [Hne Hnin]. destruct (IH Hnin) as [Hall Hnd].
    apply due_inv in Hdue as (a & k & _ & _ & _ & -> & Hmin). simpl in Hall.
    assert (tenant t ≠ w) as Hne' by done. specialize (Hall Hne'). specialize (Hmin _ _ Hw).
    destruct e as [b kb]. unfold turn in Hmin. split.
    + destruct (last_tenant (records q)) as [l|]; [|done]. intros Hl.
      assert (ord_lt (round w l) (round w (tenant t))) as Hlt.
      { apply turn_round; [done..|]. apply ord_le_prod in Hmin as [Hlt|[<- _]]; [|reflexivity].
        apply ord_le_lt_eq. by left. }
      constructor; [done|]. eapply Forall_impl; [exact Hall|]. intros t' ?. by eapply ord_lt_trans.
    + constructor; [|done]. intros Hin. rewrite Forall_forall in Hall.
      by apply (ord_lt_irrefl (round w (tenant t))), Hall.
Qed.
(** Ready tenants take turns.  While a tenant has a task ready and is
    waiting, no other tenant is served twice, however large its backlog and
    however old its deadlines. *)
Theorem served_in_turn w l ts : turns w l ts → w ∉ ts → NoDup ts.
Proof. intros Ht Hw. by destruct (turns_ascend _ _ _ Ht Hw). Qed.

(** What [due] answers.  A task exactly when the due set holds a record
    whose instant has passed; the task it answers is one of them, the earliest
    of its tenant, leaves the due set and becomes active. *)
Theorem due_spec now q o q' :
  due now q = (o, q') →
  match o with
  | None => q' = q ∧ ∀ a k, (a, k) ∈ due_set (records q) → a ≤ now → tasks (records q) !! k = None
  | Some t => ∃ a k, (a, k) ∈ due_set (records q) ∧ a ≤ now ∧ tasks (records q) !! k = Some t ∧
      due_set (records q') = due_set (records q) ∖ {[ (a, k) ]} ∧
      active (records q') = {[ k ]} ∪ active (records q) ∧
      ∀ b k' t', (b, k') ∈ due_set (records q) → b ≤ now → tasks (records q) !! k' = Some t' →
        tenant t' = tenant t → a ≤ b
  end.
Proof.
  intros Hdue%due_inv. destruct o as [t|].
  - destruct Hdue as (a & k & Hd & Ha & Ht & -> & Hmin). exists a, k. split_and!; [done..|].
    intros b k' t' Hb Hbn Ht' Htn.
    assert (((b, k'), tenant t') ∈ ready now (records q)) as Hr by (apply elem_of_ready; eauto).
    specialize (Hmin _ _ Hr). unfold turn in Hmin. rewrite Htn in Hmin.
    apply ord_le_prod in Hmin as [[]%ord_lt_irrefl|[_ Hmin]]. by apply ord_le_Z in Hmin.
  - destruct Hdue as [-> Hr]. split; [done|]. intros a k Ha Hle.
    destruct (tasks (records q) !! k) as [t|] eqn:Ht; [|done].
    assert (((a, k), tenant t) ∈ ready now (records q)) as Hin by (apply elem_of_ready; eauto).
    rewrite Hr in Hin. by apply elem_of_nil in Hin.
Qed.

(** ** The guests' calls *)
(** Enqueueing is idempotent.  For an id that is taken, [enqueue] never
    changes a record in memory or on disk, and it succeeds only for the very
    input the task was created with. *)
Theorem enqueue_again t i pl a iv q r q' old :
  tasks (records q) !! key t i = Some old → enqueue t i pl a iv q = (r, q') →
  records q' = records q ∧ (∀ p, file (zfs q') p = file (zfs q) p) ∧
  (r = Ok tt → payload old = pl ∧ interval_ms old = iv ∧ requested_run_at old = a).
Proof.
  intros Hold Hrun. unfold enqueue in Hrun.
  inv_bind Hrun; [|by inv_pure]. inv_pure. inv_bind Hrun; [|by inv_pure]. inv_pure.
  inv_bind Hrun; [|by inv_pure]. inv_pure.
  inv_bind Hrun; apply zoom_inv in Hrun0 as (z1 & H1 & ->); apply frame_existing_tenant_dir in H1;
    [|split_and!; [done|intros p; apply (frame_file _ _ H1)|done]].
  inv_bind Hrun; apply zoom_inv in Hrun0 as (z2 & H2 & ->); apply frame_mark_background in H2;
    simpl in *; assert (∀ p, file z2 p = file (zfs q) p) as Hf
      by (intros p; by rewrite (frame_file _ _ H2), (frame_file _ _ H1)); [|done].
  inv_bind Hrun; [|by inv_pure]. inv_pure. simpl in Hrun. rewrite Hold in Hrun.
  apply ensure_inv in Hrun as [-> Hr]. split_and!; [done..|]. intros ->.
  destruct (bool_decide (payload old = pl) && _ && _) eqn:Hb; [|done].
  rewrite !andb_true_iff, !bool_decide_eq_true in Hb. split_and!; try tauto. lia.
Qed.

(** Background work starts no more work.  A guest that is not interactive
    changes nothing, in memory or on disk, whatever it calls; without an
    authenticated tenant every call is an error. *)
Theorem background_reads_only ctx c q r q' :
  interactive ctx = false → guest_run (Some ctx) c q = (r, q') →
  q' = q ∧ (mutates c = true → is_ok r = false) ∧ is_ok (guest_run None c q).1 = false.
Proof.
  intros Hi Hrun. unfold guest_run in *. split_and!; [| |done].
  - inv_bind Hrun; [|by inv_pure]. unfold lift, context, check in Hrun0. simpl in Hrun0. rewrite Hi in Hrun0.
    destruct (mutates c) eqn:Hm; [done|]. destruct c; try done. simpl in Hrun0. injection Hrun0 as <- <-.
    unfold fmap, M_fmap, get_status in Hrun. unfold_m. unfold lift in Hrun.
    destruct (tasks _ !! _); by simplify_eq.
  - intros Hm. rewrite Hm in Hrun. unfold context, check in Hrun. simpl in Hrun. rewrite Hi in Hrun.
    by injection Hrun as <- _.
Qed.
End properties.

(** ** Background tasks: the properties at concrete runs

    One tenant, one task: enqueued, dispatched, begun, finished, with a crash
    after it; then the run that a restart cannot recover. *)
Module TasksWitness.
#[local] Instance sha : Sha256 := Concrete.sha.
Definition status_code (s : Status) : Z :=
  match s with Pending => 0 | Running => 1 | Completed => 2 | Failed => 3 | Cancelled => 4 end.
Definition status_of (z : Z) : option Status :=
  match z with 0 => Some Pending | 1 => Some Running | 2 => Some Completed | 3 => Some Failed
  | 4 => Some Cancelled | _ => None end.
Definition task_code (t : Task) : list positive :=
  [encode (version t); encode (tenant t); encode (id t); encode (payload t); encode (run_at t);
   encode (requested_run_at t); encode (generation t); encode (interval_ms t);
   encode (status_code (status t)); encode (attempts t); encode (occurrence t);
   encode (task_result t); encode (error t)].
Definition task_of (l : list positive) : option Task :=
  match l with
  | [a; b; c; d; e; f; g; h; i; j; k; l; m] =>
      a ← decode a; b ← decode b; c ← decode c; d ← decode d; e ← decode e; f ← decode f;
      g ← decode g; h ← decode h; i ← decode i ≫= status_of; j ← decode j; k ← decode k;
      l ← decode l; m ← decode m;
      Some {| version := a; tenant := b; id := c; payload := d; run_at := e; requested_run_at := f;
        generation := g; interval_ms := h; status := i; attempts := j; occurrence := k;
        task_result := l; error := m |}
  | _ => None
  end.
Lemma task_of_code t : task_of (task_code t) = Some t.
Proof.
  destruct t as [a b c d e f g h i j k l m]. unfold task_of, task_code. cbn -[encode decode].
  repeat (rewrite decode_encode; cbn -[encode decode]). by destruct i.
Qed.
#[local] Instance task_countable : Countable Task :=
  inj_countable task_code task_of task_of_code.
#[local] Instance task_codec : Codec Task := Concrete.codec Task.
#[local] Instance task_codec_laws : CodecLaws Task := Concrete.codec_laws Task.

(** ** A run *)
Definition t1 : bytes := replicate 16 Byte.x01.
Definition t2 : bytes := replicate 16 Byte.x02.
Definition draws1 : list bytes :=
  [[Byte.x0a]; [Byte.x0b]; replicate 16 Byte.x07; replicate 16 Byte.x08; replicate 16 Byte.x09;
   replicate 16 Byte.x0c].
Definition z1 : Zfs := run_zop (OTenantDir t1) (genesis 10 100 [] draws1).
Definition boot (l : TaskLimits) (z : Zfs) : TaskQueue := {| zfs := z; limits := l; records := no_records |}.
Definition q0 : TaskQueue := (open (λ _, 0) (boot default_limits z1)).2.
Definition ctx1 : TaskContext := {| ctx_tenant := t1; interactive := true |}.
Definition q1 : TaskQueue := (guest_run (Some ctx1) (GEnqueue "job" [Byte.x2a] 3 (Some 1000)) q0).2.
Definition task1 : Task := default
  {| version := 0; tenant := []; id := ""; payload := []; run_at := 0; requested_run_at := 0;
     generation := []; interval_ms := None; status := Failed; attempts := 0; occurrence := 0;
     task_result := []; error := None |} (due 5 q1).1.
Definition q2 : TaskQueue := (due 5 q1).2.
Definition q3 : TaskQueue := (begin task1 q2).2.
Definition outcome1 : result string (option bytes) := Ok (Some [Byte.x2b]).
Definition q4 : TaskQueue := (finish 1234 task1 outcome1 q3).2.
Definition state (q : TaskQueue) ws : sys := {| sys_queue := q; sys_workers := ws; serving := true |}.

(** What a boot may start from: a disk on which tenants' pools were made. *)
Definition ready_disk (z : Zfs) : Prop := reachable zinit zstep z ∧ slots_ok z ∧ pools_hold dir_ok z.
Lemma ready_genesis f d : ready_disk (genesis 10 100 f d).
Proof.
  split_and!.
  - apply reachable_init. exists 10, 100, f, d. split_and!; [done| |done]. vm_compute. by split.
  - intros t. simpl. by rewrite lookup_empty.
  - intros t tp c. simpl. by rewrite lookup_empty.
Qed.
Lemma ready_tenant t z : ready_disk z → pools z !! t = None → ready_disk (run_zop (OTenantDir t) z).
Proof.
  intros (Hr & Hs & Hd) Hnone. destruct (tenant_dir t z) as [r z'] eqn:E.
  destruct (tenant_dir_frame _ _ _ _ E (λ _, Hnone)) as [Hf Hp]. simpl. rewrite E. simpl. split_and!.
  - replace z' with (run_zop (OTenantDir t) z) by (simpl; by rewrite E). eapply reachable_step; [exact Hr|].
    apply zstep_op.
  - by apply Hf.
  - apply Hp; [apply dir_ok_empty|done].
Qed.
Lemma init_of_disk z l now q :
  ready_disk z → open now (boot l z) = (Ok tt, q) → reachable sys_init sys_step (state q []).
Proof.
  intros (Hr & Hs & Hd) Ho. apply reachable_init. exists z, l, now, (Ok tt), q. by split_and!.
Qed.
Lemma ready_z1 : ready_disk z1.
Proof. apply ready_tenant; [apply ready_genesis|done]. Qed.
Lemma open1 : open (λ _, 0) (boot default_limits z1) = (Ok tt, q0).
Proof. unfold q0. apply Concrete.run_split. vm_compute. reflexivity. Qed.
Lemma reach0 : reachable sys_init sys_step (state q0 []).
Proof. apply (init_of_disk z1 default_limits (λ _, 0) q0); [apply ready_z1|exact open1]. Qed.
Lemma reach1 : reachable sys_init sys_step (state q1 []).
Proof. eapply reachable_step; [apply reach0|]. by apply (step_guest q0 [] ctx1 (GEnqueue "job" [Byte.x2a] 3 (Some 1000))). Qed.
Lemma dispatch1 : due 5 q1 = (Some task1, q2).
Proof. unfold q2. apply Concrete.run_split. vm_compute. reflexivity. Qed.
Lemma reach2 : reachable sys_init sys_step (state q2 [(task1, Started)]).
Proof.
  eapply reachable_step; [apply reach1|]. apply (step_dispatch q1 q2 [] 5 task1); [done|exact dispatch1].
Qed.
Lemma begin1 : begin task1 q2 = (Ok true, q3).
Proof. unfold q3. apply Concrete.run_split. vm_compute. reflexivity. Qed.
Lemma reach3 : reachable sys_init sys_step (state q3 [(task1, Executing)]).
Proof. eapply reachable_step; [apply reach2|]. by apply (step_begin q2 q3 _ [] task1 (Ok true)), begin1. Qed.
Lemma reach3r : reachable sys_init sys_step (state q3 [(task1, Returned outcome1)]).
Proof.
  eapply reachable_step; [apply reach3|]. apply (step_return q3 _ [] task1 outcome1); [done|done|].
  vm_compute. by intros [=].
Qed.
Lemma finish1 : finish 1234 task1 outcome1 q3 = (Ok tt, q4).
Proof. unfold q4. apply Concrete.run_split. vm_compute. reflexivity. Qed.
Lemma storage_wf s : reachable sys_init sys_step s → zfs_wf (zfs (sys_queue s)).
Proof. intros [([Hwf _] & _ & _) _]%reachable_sys_ok. exact Hwf. Qed.
Definition task3 : Task := with_attempts 1 (with_status Running task1).

(** ** The properties there *)
Lemma one_attempt_at_a_time_witness :
  NoDup (worker_keys [(task1, Executing)]) ∧
  ∃ c, tasks (records q3) !! task_key task1 = Some c ∧ (status c = Running ∨ status c = Cancelled).
Proof.
  destruct (one_attempt_at_a_time _ reach3 eq_refl) as (Hnd & _ & H).
  split; [exact Hnd|]. apply H. left.
Defined.
Lemma no_task_lost_witness : ∃ a, (a, task_key task1) ∈ due_set (records q1).
Proof.
  destruct (no_task_lost _ (task_key task1) task1 reach1 eq_refl) as (H & _ & _).
  - vm_compute. reflexivity.
  - destruct H as [H|(a & H & _)]; [reflexivity|by apply elem_of_nil in H|by exists a].
Defined.
Lemma records_on_disk_witness :
  file (zfs q3) (task_place (tenant task3) (task_key task3)) = Some (to_vec task3).
Proof.
  assert (tasks (records q3) !! task_key task3 = Some task3) as H by (vm_compute; reflexivity).
  exact (proj2 (records_on_disk _ _ _ reach3 eq_refl H)).
Defined.
Lemma every_crash_readable_witness :
  ∃ task, file (crash (zfs q3)) (task_place t1 (task_key task3)) = Some (to_vec task3) ∧
    from_slice (to_vec task3) = Some task ∧ attempts task ≤ MAX_ATTEMPTS.
Proof.
  destruct (every_crash_readable _ (crash (zfs q3)) t1 (task_key task3) (to_vec task3) reach3
    (restart_crash _ (storage_wf _ reach3))) as [Hn|(task & Hs & _ & _ & Ha & _)].
  - vm_compute. reflexivity.
  - vm_compute in Hn. discriminate Hn.
  - exists task. split; [vm_compute; reflexivity|]. split; [exact Hs|lia].
Defined.
Lemma reach3' : reachable sys_init sys_step (state q3 [(task1, Executing)]).
Proof. exact reach3. Qed.
Lemma begin_spends_attempt_witness :
  ∃ c, status c = Pending ∧ file (crash (zfs q3)) (task_place (tenant c) (task_key task1)) =
    Some (to_vec (with_attempts (attempts c + 1) (with_status Running c))).
Proof.
  destruct (begin_spends_attempt _ task1 [] q3 (crash (zfs q3)) reach2 eq_refl (reflexivity _) begin1
    (restart_crash _ (storage_wf _ reach3))) as (c & _ & Hs & Hf).
  exists c. exact (conj Hs Hf).
Defined.
Lemma reach4 : reachable sys_init sys_step (state q4 []).
Proof. eapply reachable_step; [apply reach3r|]. by apply (step_finish q3 q4 _ [] 1234 task1 outcome1 (Ok tt)), finish1. Qed.
Lemma finish_durable_witness :
  ∃ c', outcome_record 1234 (task_key task1) outcome1 task3 = Ok c' ∧
    file (crash (zfs q4)) (task_place t1 (task_key task1)) = Some (to_vec c').
Proof.
  apply (finish_durable _ task1 [] 1234 outcome1 task3 q4 (crash (zfs q4)) reach3r eq_refl (reflexivity _)).
  - vm_compute. reflexivity.
  - reflexivity.
  - exact finish1.
  - exact (restart_crash _ (storage_wf _ reach4)).
Defined.
Lemma recurring_on_phase_witness :
  ∃ c', after_success 1234 (task_key task1) [] task3 = Ok c' ∧ 1234 < run_at c' ≤ 2234 ∧ status c' = Pending.
Proof.
  destruct (after_success 1234 (task_key task1) [] task3) as [c'|] eqn:E; [|vm_compute in E; discriminate E].
  exists c'. destruct (recurring_on_phase 1234 (task_key task1) [] task3 c' 1000) as (H & _ & Hs & _).
  - vm_compute. by split.
  - lia.
  - vm_compute. by intros [=].
  - reflexivity.
  - exact E.
  - exact (conj eq_refl (conj H Hs)).
Defined.
Lemma enqueue_again_witness :
  (enqueue t1 "job" [] 3 None q1).1 = Err "task id already used with different input" ∧
  records (enqueue t1 "job" [] 3 None q1).2 = records q1.
Proof.
  assert (tasks (records q1) !! key t1 "job" = Some task1) as H by (vm_compute; reflexivity).
  split; [vm_compute; reflexivity|].
  exact (proj1 (enqueue_again t1 "job" [] 3 None q1 _ _ task1 H (surjective_pairing _))).
Defined.
Lemma background_reads_only_witness :
  ∃ q', guest_run (Some {| ctx_tenant := t1; interactive := false |}) (GCancel "job") q1 = (Err
    "background work cannot authorize more work", q') ∧ q' = q1.
Proof.
  eexists. split; [reflexivity|].
  apply (background_reads_only {| ctx_tenant := t1; interactive := false |} (GCancel "job") q1 _ _ eq_refl eq_refl).
Defined.
Lemma due_spec_witness :
  ∃ a k, a ≤ 5 ∧ tasks (records q1) !! k = Some task1 ∧
    active (records q2) = {[ k ]} ∪ active (records q1).
Proof.
  destruct (due_spec _ _ _ _ dispatch1) as (a & k & _ & Hle & Ht & _ & Ha & _).
  exists a, k. exact (conj Hle (conj Ht Ha)).
Defined.

(** ** Two tenants with work: the turns *)
Definition z12 : Zfs := run_zop (OTenantDir t2) z1.
Definition ctx2 : TaskContext := {| ctx_tenant := t2; interactive := true |}.
Definition p0 : TaskQueue := (open (λ _, 0) (boot default_limits z12)).2.
Definition p1 : TaskQueue := (guest_run (Some ctx1) (GEnqueue "job" [] 3 None) p0).2.
Definition p2 : TaskQueue := (guest_run (Some ctx2) (GEnqueue "job" [] 4 None) p1).2.
Definition task_p : Task := default task1 (due 9 p2).1.
Lemma served_in_turn_witness : (due 9 p2).1 = Some task_p ∧ NoDup [tenant task_p].
Proof.
  assert ((due 9 p2).1 = Some task_p) as E by (vm_compute; reflexivity).
  split; [exact E|]. apply (served_in_turn t2 (last_tenant (records p2))).
  - eapply turns_cons; [exact (Concrete.run_split _ _ E)| |constructor].
    apply (elem_of_ready _ _ (4, key t2 "job")). split_and!.
    + vm_compute. reflexivity.
    + done.
    + eexists. split; [vm_compute; reflexivity|reflexivity].
  - intros H%list_elem_of_singleton. vm_compute in H. discriminate H.
Defined.

(** ** A store a restart refuses *)
(** A store of one record: a tenant's finished task is forgotten, another
    tenant's takes its place and is anchored, the enclave stops. *)
Definition small : TaskLimits := {| concurrency := 1; max_records := 1; per_tenant := 1; timeout := 1 |}.
Definition r0 : TaskQueue := (open (λ _, 0) (boot small z12)).2.
Definition call (ctx : TaskContext) (c : guest_call) (q : TaskQueue) : TaskQueue := (guest_run (Some ctx) c q).2.
Definition storage (o : zop) (q : TaskQueue) : TaskQueue := set_zfs (run_zop o (zfs q)) q.
Definition r3 : TaskQueue := storage (OAnchorTenant t1) (call ctx1 (GCancel "a") (call ctx1 (GEnqueue "a" [] 3 None) r0)).
Definition r4 : TaskQueue := storage (OAnchorTenant t2) (call ctx2 (GEnqueue "b" [] 3 None) (call ctx1 (GForget "a") r3)).
Definition pool_of (t : bytes) (q : TaskQueue) : files :=
  match pools (zfs q) !! t with Some tp => content (tp_pool tp) | None => ∅ end.
Definition crashed : Zfs := crash_rolled_back t1 (pool_of t1 r3) (zfs r4).

Lemma reach_call q ctx c :
  length (ctx_tenant ctx) = 16%nat → reachable sys_init sys_step (state q []) →
  reachable sys_init sys_step (state (call ctx c q) []).
Proof. intros Hl Hr. eapply reachable_step; [exact Hr|]. by apply step_guest. Qed.
Lemma reach_anchor q t :
  reachable sys_init sys_step (state q []) → reachable sys_init sys_step (state (storage (OAnchorTenant t) q) []).
Proof. intros Hr. eapply reachable_step; [exact Hr|]. by apply step_storage. Qed.
Lemma open_r0 : open (λ _, 0) (boot small z12) = (Ok tt, r0).
Proof. unfold r0. apply Concrete.run_split. vm_compute. reflexivity. Qed.
Lemma ready_z12 : ready_disk z12.
Proof. apply ready_tenant; [apply ready_z1|vm_compute; reflexivity]. Qed.
Lemma reach_r4 : reachable sys_init sys_step (state r4 []).
Proof.
  assert (reachable sys_init sys_step (state r0 [])) as H0 by exact (init_of_disk _ _ _ _ ready_z12 open_r0).
  assert (reachable sys_init sys_step (state r3 [])) as H3 by by apply reach_anchor, reach_call, reach_call.
  by apply reach_anchor, reach_call, reach_call.
Qed.

(** A quota that one pool's rollback breaks.  [max_records] counts the
    records of every tenant's pool, which a crash rolls back one by one: a
    record whose removal was not anchored yet comes back beside the record that
    took its place, and [open], and with it the boot, fails although nothing
    was tampered with and no call to the storage fails. *)
Theorem restart_over_quota :
  ∃ s z, reachable sys_init sys_step s ∧ serving s = true ∧ restart (zfs (sys_queue s)) z ∧ faults z = [] ∧
    (open (λ _, 0) {| zfs := z; limits := limits (sys_queue s); records := no_records |}).1 =
      Err "task store exceeds configured quota".
Proof.
  exists (state r4 []), crashed. split_and!; [exact reach_r4|done| |done|].
  - destruct (pools (zfs r4) !! t1) as [tp|] eqn:Htp.
    + apply (restart_crash_rolled_back _ t1 tp); [exact (storage_wf _ reach_r4)|exact Htp|].
      assert ((tp ← pools (zfs r4) !! t1; rollback (tp_pool tp) !! 1%nat) = Some (pool_of t1 r3)) as H
        by (vm_cast_no_check (eq_refl (Some (pool_of t1 r3)))).
      rewrite Htp in H. by eapply list_elem_of_lookup_2.
    + assert (match pools (zfs r4) !! t1 with Some _ => true | None => false end = true) as H
        by (vm_compute; reflexivity).
      rewrite Htp in H. discriminate H.
  - vm_compute. reflexivity.
Qed.
End TasksWitness.
