(* ===== verification/StorageWitness.v ===== *)
(** * Storage: the properties at a concrete disk

    A disk of ten regions, two tenants made on it. *)
From S2P Require Import Prelude Concrete Storage.

Module StorageWitness.
Definition t1 : bytes := replicate 16 Byte.x01.
Definition t2 : bytes := replicate 16 Byte.x02.
Definition disk0 : Zfs := genesis 10 100 [] [[Byte.x0a]; [Byte.x0b]; [Byte.x0c]; [Byte.x0d]].
Definition disk1 : Zfs := run_zop (OTenantDir t1) disk0.
Definition disk2 : Zfs := run_zop (OTenantDir t2) disk1.
Definition disk3 : Zfs := run_zop (OWrite (PTenant t1 "tasks" "a") [Byte.x2a]) disk2.
Lemma disk0_reachable : reachable zinit zstep disk0.
Proof. apply reachable_init. do 4 eexists. split_and!; [| |reflexivity]; vm_compute; [done|by split]. Qed.
Lemma disk1_reachable : reachable zinit zstep disk1.
Proof. eapply reachable_step; [exact disk0_reachable|apply zstep_op]. Qed.
Lemma disk2_reachable : reachable zinit zstep disk2.
Proof. eapply reachable_step; [exact disk1_reachable|apply zstep_op]. Qed.
Lemma disk3_reachable : reachable zinit zstep disk3.
Proof. eapply reachable_step; [exact disk2_reachable|apply zstep_op]. Qed.
Definition entry (t : bytes) (z : Zfs) : CatalogEntry :=
  default {| ce_version := 0; ce_pool_id := []; ce_region := 0; ce_genesis := []; ce_background := false |}
    (ctl_catalog (content (control z)) !! t).

Lemma tenant_regions_disjoint_witness :
  ∃ off off', region_bounds (ce_region (entry t1 disk2)) 10 100 = Some (off, 10) ∧
    region_bounds (ce_region (entry t2 disk2)) 10 100 = Some (off', 10) ∧ (off + 10 ≤ off' ∨ off' + 10 ≤ off).
Proof.
  destruct (tenant_regions_disjoint disk2 t1 t2 (entry t1 disk2) (entry t2 disk2) disk2_reachable)
    as (off & off' & H1 & H2 & H3 & _).
  - vm_compute. reflexivity.
  - vm_compute. reflexivity.
  - discriminate.
  - exists off, off'. exact (conj H1 (conj H2 H3)).
Defined.

Definition anchored : Zfs := (anchor_tenant t1 disk3).2.
Lemma anchor1 : anchor_tenant t1 disk3 = (Ok tt, anchored).
Proof. unfold anchored. apply Concrete.run_split. vm_compute. reflexivity. Qed.
Lemma anchored_wf : zfs_wf anchored.
Proof. apply (reachable_storage_ok anchored). exact (reachable_step _ _ _ _ disk3_reachable (zstep_op disk3 (OAnchorTenant t1))). Qed.
Lemma anchored_survives_restart_witness :
  file disk3 (PTenant t1 "tasks" "a") = Some [Byte.x2a] ∧
  file (crash anchored) (PTenant t1 "tasks" "a") = file disk3 (PTenant t1 "tasks" "a").
Proof.
  split; [vm_compute; reflexivity|].
  apply (anchored_survives_restart disk3 anchored (crash anchored) t1 disk3_reachable anchor1 (restart_crash _ anchored_wf)).
  - vm_compute. reflexivity.
  - assert (match pools disk3 !! t1 with Some _ => true | None => false end = true) as H by (vm_compute; reflexivity).
    destruct (pools disk3 !! t1) as [tp|]; [by exists tp|discriminate H].
Defined.

Definition marked : Zfs := (mark_background t1 disk2).2.
Lemma mark1 : mark_background t1 disk2 = (Ok tt, marked).
Proof. unfold marked. apply Concrete.run_split. vm_compute. reflexivity. Qed.
Lemma marked_wf : zfs_wf marked.
Proof. apply (reachable_storage_ok marked). exact (reachable_step _ _ _ _ disk2_reachable (zstep_op disk2 (OMarkBackground t1))). Qed.
Lemma mark_background_durable_witness :
  ∃ e, ctl_catalog (content (control (crash marked))) !! t1 = Some e ∧ ce_background e = true.
Proof.
  assert (ctl_catalog (content (control disk2)) !! t1 = Some (entry t1 disk2)) as He by (vm_compute; reflexivity).
  assert (ce_background (entry t1 disk2) = false) as Hb by (vm_compute; reflexivity).
  eexists. split; [exact (mark_background_durable _ _ _ _ _ disk2_reachable He Hb mark1 (restart_crash _ marked_wf))|reflexivity].
Defined.

(** Eight strangers asked for, one after another, on the same disk. *)
Definition stranger : bytes := replicate 16 Byte.x03.
Lemma refused_lookup_takes_slot_witness :
  is_ok (existing_tenant_dir stranger disk2).1 = false ∧
  tenants (existing_tenant_dir stranger disk2).2 = <[stranger := false]> (tenants disk2).
Proof.
  destruct (refused_lookup_takes_slot disk2 stranger (existing_tenant_dir stranger disk2).1
    (existing_tenant_dir stranger disk2).2) as (H1 & H2 & _).
  - vm_compute. reflexivity.
  - vm_compute. reflexivity.
  - vm_compute. reflexivity.
  - apply surjective_pairing.
  - exact (conj H1 H2).
Defined.
End StorageWitness.
