(* ===== verification/AuthWitness.v ===== *)
(** * Authentication: the properties at concrete calls *)
From S2P Require Import Prelude Concrete Expiring AuthToken AuthChallenge.

Module AuthWitness.
#[local] Instance sha : Sha256 := Concrete.sha.
Definition tok : bytes := [Byte.x2a].
Definition alice : bytes := replicate 16 Byte.x01.
Definition scope1 : InteractionScope := scope_new "post" "/transfer" None.
Definition s0 : TokenStore := token_store_new 60000 8.
Definition s1 : TokenStore := (issue 10 tok alice scope1 s0).2.
Definition h1 : list call := [CIssue 10 tok alice scope1 (Ok tt)].
Lemma issue1 : issue 10 tok alice scope1 s0 = (Ok tt, s1).
Proof. unfold s1. apply Concrete.run_split. vm_compute. reflexivity. Qed.
Lemma history1 : history 60000 8 h1 s1.
Proof. eapply history_issue; [apply history_new|constructor|exact issue1]. Qed.
Lemma before1 now : 10 ≤ now → Forall (λ c, call_time c ≤ now) h1.
Proof. intros H. by constructor. Qed.
Lemma redeem1 : redeem 20 tok scope1 s1 = (Ok alice, (redeem 20 tok scope1 s1).2).
Proof. apply Concrete.run_split. vm_compute. reflexivity. Qed.

Lemma redeem_refines_history_witness :
  (redeem 20 tok scope1 s1).1 = Ok alice ∧ spec_redeem 60000 h1 20 tok scope1 = Ok alice ∧
  granted (redeem 20 tok scope1 s1).2 !! sha256 tok = None.
Proof.
  destruct (redeem_refines_history _ _ _ _ _ _ _ _ _ history1 (before1 20 ltac:(lia)) redeem1) as (H1 & _ & H3).
  split; [vm_compute; reflexivity|]. split; [by apply H1|exact H3].
Defined.
Lemma redeem_needs_fresh_issue_witness :
  ∃ a b at_ t', h1 = a ++ CIssue at_ t' alice scope1 (Ok tt) :: b ∧ at_ ≤ 20 < at_ + 60000.
Proof.
  destruct (redeem_needs_fresh_issue _ _ _ _ _ _ _ _ _ history1 (before1 20 ltac:(lia)) redeem1)
    as (a & b & at_ & t' & H1 & _ & H2 & _).
  exists a, b, at_, t'. exact (conj H1 H2).
Defined.
Lemma token_store_bounded_witness : Z.of_nat (size (granted (issue 20 [Byte.x2b] alice scope1 s1).2)) ≤ 8.
Proof.
  exact (proj1 (token_store_bounded _ _ _ _ _ _ _ _ _ _ history1
    (surjective_pairing (issue 20 [Byte.x2b] alice scope1 s1)))).
Defined.

(** A challenge issued and answered. *)
Definition c0 : Challenge.ChallengeStore Z := Challenge.new 60000 8.
Definition c1 : Challenge.ChallengeStore Z := (Challenge.issue 10 tok scope1 7 c0).2.
Lemma challenge1 : Challenge.issue 10 tok scope1 7 c0 = (Ok tt, c1).
Proof. unfold c1. apply Concrete.run_split. vm_compute. reflexivity. Qed.
Lemma consume_returns_issued_witness :
  (Challenge.consume 20 tok c1).1 = Ok (scope1, 7) ∧ Challenge.pending (Challenge.consume 20 tok c1).2 !! tok = None.
Proof.
  split; [vm_compute; reflexivity|].
  apply (Challenge.consume_returns_issued 60000 8 [Challenge.CIssue 10 tok scope1 7 (Ok tt)] c1 _ 20 tok
    (Challenge.consume 20 tok c1).1).
  - eapply Challenge.history_issue; [apply Challenge.history_new|constructor|exact challenge1].
  - by constructor.
  - apply surjective_pairing.
Defined.
End AuthWitness.
