(* ===== verification/Devices.v ===== *)
(** * Enrolled devices: [notify/device.rs]

    The registry in memory and the records on the control pool, a directory for
    each tenant.  serde_json is the codec of a record; the files are those of
    [Storage.v], a directory that holds none being none. *)
From S2P Require Import Prelude Storage.

Definition DEVICES_DIR : string := "devices".
Definition MAX_DEVICES_PER_TENANT : Z := 8.
Definition MAX_DEVICES : Z := 4096.
Definition MIN_TOKEN_LEN : Z := 32.
Definition MAX_TOKEN_LEN : Z := 512.
Definition MAX_RECORD : Z := 4 * 1024.
Definition RECORD_VERSION : Z := 1.

Record StoredDevice := { d_version : Z; d_tenant : bytes; d_token : string; d_created_ms : Z }.
#[export] Instance stored_device_eq_dec : EqDecision StoredDevice.
Proof. solve_decision. Defined.
Record DeviceLimits := { max_devices : Z; per_tenant : Z }.
Definition default_limits : DeviceLimits := {| max_devices := MAX_DEVICES; per_tenant := MAX_DEVICES_PER_TENANT |}.
Record DeviceRegistry := { zfs : Zfs; limits : DeviceLimits; devices : gmap bytes (list StoredDevice) }.
Definition set_zfs (z : Zfs) (s : DeviceRegistry) : DeviceRegistry :=
  {| zfs := z; limits := limits s; devices := devices s |}.
Definition set_devices (f : gmap bytes (list StoredDevice) → gmap bytes (list StoredDevice))
    (s : DeviceRegistry) : DeviceRegistry := {| zfs := zfs s; limits := limits s; devices := f (devices s) |}.
Definition on_zfs {E A} (m : M Zfs E A) : M DeviceRegistry E A := zoom zfs set_zfs m.

Definition token_char (c : Ascii.ascii) : bool :=
  is_ascii_alphanumeric c || (char_code c =? 45) || (char_code c =? 95) || (char_code c =? 58) || (char_code c =? 46).
Definition valid_token (token : string) : bool :=
  (MIN_TOKEN_LEN <=? strlen token) && (strlen token <=? MAX_TOKEN_LEN) && all_chars token_char token.
Definition is_hex (name : string) (n : Z) : bool :=
  (strlen name =? n) && all_chars (λ c, is_ascii_digit c || is_between 97 102 c) name.

(** [sort_by_key] on the time and the token. *)
Definition device_key (d : StoredDevice) : Z * string := (d_created_ms d, d_token d).
Definition device_le (a b : StoredDevice) : Prop := ord_le (device_key a) (device_key b).
#[export] Instance device_le_dec a b : Decision (device_le a b).
Proof. unfold device_le. apply _. Defined.
Definition sort_devices (l : list StoredDevice) : list StoredDevice := merge_sort device_le l.
(** [Vec::retain] of the records that name another token. *)
Definition without (token : string) (l : list StoredDevice) : list StoredDevice := filter (λ d, d_token d ≠ token) l.
(** [if let Some(list) = devices.get_mut(&tenant)] *)
Definition update_list (f : list StoredDevice → list StoredDevice) (t : bytes) :
    gmap bytes (list StoredDevice) → gmap bytes (list StoredDevice) := alter f t.
Definition total (m : gmap bytes (list StoredDevice)) : Z := foldr (λ l n, len l + n) 0 (btree_values m).

Section devices.
Context `{Sha256, !Codec StoredDevice}.
Implicit Types (s : DeviceRegistry) (t : bytes).

Definition record_name (token : string) : string := hex_encode (sha256 (str_bytes token)).
Definition tenant_dir_name t : string := DEVICES_DIR +:+ "/" +:+ hex_encode t.
Definition device_place t (name : string) : place := PControl (tenant_dir_name t) name.

Definition write (d : StoredDevice) : M DeviceRegistry string () :=
  let b := to_vec d in
  _ ← ensure (len b <=? MAX_RECORD) "device record exceeds its limit";
  _ ← on_zfs (io_ io);  (* create_dir_all *)
  let name := record_name (d_token d) in
  let temp := device_place (d_tenant d) (name +:+ ".tmp") in
  _ ← on_zfs (io_ (fs_write temp b));
  on_zfs (io_ (fs_rename temp (device_place (d_tenant d) name))).
Definition remove t (token : string) : M DeviceRegistry string () :=
  x ← attempt (on_zfs (fs_remove (device_place t (record_name token))));
  match x with
  | Ok _ | Err NotFound => mret tt
  | Err e => fail (io_error_display e)
  end.

(** ** Reading back *)
Definition valid_record t (name : string) (d : StoredDevice) : bool :=
  (d_version d =? RECORD_VERSION) && bool_decide (d_tenant d = t) && valid_token (d_token d) &&
  bool_decide (record_name (d_token d) = name).
Definition scan_entry t (name : string) : M DeviceRegistry string () :=
  if ends_with ".tmp" name then on_zfs (io_ (fs_remove (device_place t name)))
  else
    b ← on_zfs (io_ (fs_read (device_place t name)));
    _ ← ensure (len b <=? MAX_RECORD) "oversized device record";
    d ← unwrap (from_slice b) "decoding a device record";
    _ ← ensure (valid_record t name d) "invalid device record";
    modify (set_devices (λ m, <[t := default [] (m !! t) ++ [d]]> m)).
Definition scan_tenant (tenant_name : string) : M DeviceRegistry string () :=
  _ ← ensure (is_hex tenant_name 32) "unexpected entry";
  t ← unwrap (hex_decode tenant_name) "decoding a tenant directory name";
  _ ← on_zfs (io_ io);
  s ← get;
  forM (scan_entry t) (names_in (tenant_dir_name t) (ctl_files (content (control (zfs s))))).
(** The directories under [devices]. *)
Definition tenant_names (f : files) : list string :=
  remove_dups (omap (λ k, strip_prefix (DEVICES_DIR +:+ "/") k.1) (btree_iter f).*1).
(** Every record, oldest first. *)
Definition by_age (m : gmap bytes (list StoredDevice)) : list StoredDevice :=
  merge_sort device_le (concat ((λ kv : bytes * list StoredDevice, (λ d, {| d_version := d_version d; d_tenant := kv.1; d_token := d_token d;
    d_created_ms := d_created_ms d |}) <$> kv.2) <$> btree_iter m)).
Definition drop_record (d : StoredDevice) : M DeviceRegistry string () :=
  _ ← remove (d_tenant d) (d_token d);
  modify (set_devices (update_list (without (d_token d)) (d_tenant d))).
Definition scan : M DeviceRegistry string () :=
  _ ← on_zfs (io_ io);
  s ← get;
  _ ← forM scan_tenant (tenant_names (ctl_files (content (control (zfs s)))));
  _ ← modify (set_devices (fmap sort_devices));
  s ← get;
  let excess := total (devices s) - max_devices (limits s) in
  if 0 <? excess then
    _ ← forM drop_record (take (Z.to_nat excess) (by_age (devices s)));
    modify (set_devices (filter (λ kv, kv.2 ≠ [])))
  else mret tt.
Definition registry_new (z : Zfs) (l : DeviceLimits) : DeviceRegistry := {| zfs := z; limits := l; devices := ∅ |}.
Definition open_with_limits : M DeviceRegistry string () :=
  s ← get;
  _ ← ensure ((0 <? max_devices (limits s)) && (0 <? per_tenant (limits s))) "device limits must be positive";
  _ ← on_zfs runtime_dir;
  scan.

(** ** Operations *)
(** [while list.len() > per_tenant]: each turn takes one record off the front,
    so the length of the list is fuel enough. *)
Fixpoint evict (fuel : nat) t : M DeviceRegistry string () :=
  match fuel with
  | O => mret tt
  | S fuel =>
      s ← get;
      match default [] (devices s !! t) with
      | evicted :: rest =>
          if per_tenant (limits s) <? len (evicted :: rest) then
            _ ← modify (set_devices <[t := rest]>);
            _ ← remove t (d_token evicted);
            evict fuel t
          else mret tt
      | [] => mret tt
      end
  end.
Definition register t (token : string) (now_ms : Z) : M DeviceRegistry string () :=
  _ ← ensure (valid_token token) "a registration token must be 32-512 characters of letters, digits, '-', '_', ':' or '.'";
  s ← get;
  if existsb (λ d, bool_decide (d_token d = token)) (default [] (devices s !! t)) then mret tt
  else
    _ ← ensure (total (devices s) <? max_devices (limits s)) "the device store is full";
    let d := {| d_version := RECORD_VERSION; d_tenant := t; d_token := token; d_created_ms := now_ms |} in
    _ ← write d;
    let l := sort_devices (default [] (devices s !! t) ++ [d]) in
    _ ← modify (set_devices <[t := l]>);
    evict (length l) t.
Definition forget t (token : string) : M DeviceRegistry string () :=
  _ ← remove t token;
  modify (set_devices (update_list (without token) t)).
Definition forget_if_unchanged t (token : string) (created_ms : Z) : M DeviceRegistry string bool :=
  s ← get;
  match devices s !! t with
  | None => mret false
  | Some l =>
      if existsb (λ d, bool_decide (d_token d = token) && (d_created_ms d =? created_ms)) l then
        _ ← remove t token;
        _ ← modify (set_devices (update_list (without token) t));
        mret true
      else mret false
  end.
Definition devices_of t s : list StoredDevice := default [] (devices s !! t).
(** [l.len() as u32] *)
Definition count t s : Z := len (devices_of t s) mod 2 ^ 32.
End devices.
