(* ===== verification/Notify.v ===== *)
(** * Waking devices: [notify/mod.rs]

    [Notifier] is the guest's half: the bounded channel to the forwarder, what
    is in flight and what is staged until an anchor.  The forwarder takes one
    wake a turn and sends what is due; what the push service answers for a
    device is an argument of its steps. *)
From S2P Require Import Prelude Storage Devices.

Definition QUEUE_CAPACITY : Z := 1024.
Definition MAX_INFLIGHT_PER_TENANT : Z := 8.
Definition MAX_PENDING : Z := 64.
(** Milliseconds. *)
Definition MIN_BACKOFF : Z := 500.
Definition MAX_BACKOFF : Z := 60000.
Definition MAX_LABEL : Z := 64.

Record Counters := { queued_dropped : Z; pending_dropped : Z; refused : Z; pruned : Z; sent : Z }.
Definition no_counts : Counters :=
  {| queued_dropped := 0; pending_dropped := 0; refused := 0; pruned := 0; sent := 0 |}.
Record Wake := { wk_tenant : bytes; wk_category : string; wk_reference : option string; wk_due_ms : Z; wk_attempts : Z }.
Abbreviation staged_wakes := (gmap bytes (list (string * option string))).
Record Notifier := {
  queue : list Wake;  (** the channel, oldest first *)
  closed : bool;      (** the forwarder, which receives from it, is gone *)
  inflight : gset (bytes * string); staged : staged_wakes; counters : Counters }.
Definition set_queue (f : list Wake → list Wake) (n : Notifier) : Notifier :=
  {| queue := f (queue n); closed := closed n; inflight := inflight n; staged := staged n; counters := counters n |}.
Definition set_inflight (f : gset (bytes * string) → gset (bytes * string)) (n : Notifier) : Notifier :=
  {| queue := queue n; closed := closed n; inflight := f (inflight n); staged := staged n; counters := counters n |}.
Definition set_staged (f : staged_wakes → staged_wakes) (n : Notifier) : Notifier :=
  {| queue := queue n; closed := closed n; inflight := inflight n; staged := f (staged n); counters := counters n |}.
Definition set_counters (f : Counters → Counters) (n : Notifier) : Notifier :=
  {| queue := queue n; closed := closed n; inflight := inflight n; staged := staged n; counters := f (counters n) |}.
Definition count_queued_dropped (c : Counters) : Counters :=
  {| queued_dropped := queued_dropped c + 1; pending_dropped := pending_dropped c; refused := refused c;
     pruned := pruned c; sent := sent c |}.
Definition count_pending_dropped (c : Counters) : Counters :=
  {| queued_dropped := queued_dropped c; pending_dropped := pending_dropped c + 1; refused := refused c;
     pruned := pruned c; sent := sent c |}.
Definition count_refused (c : Counters) : Counters :=
  {| queued_dropped := queued_dropped c; pending_dropped := pending_dropped c; refused := refused c + 1;
     pruned := pruned c; sent := sent c |}.
Definition count_pruned (c : Counters) : Counters :=
  {| queued_dropped := queued_dropped c; pending_dropped := pending_dropped c; refused := refused c;
     pruned := pruned c + 1; sent := sent c |}.
Definition count_sent (c : Counters) : Counters :=
  {| queued_dropped := queued_dropped c; pending_dropped := pending_dropped c; refused := refused c;
     pruned := pruned c; sent := sent c + 1 |}.

(** ** Labels: [notify/pinpoint.rs] *)
Definition label_char (c : Ascii.ascii) : bool :=
  is_ascii_alphanumeric c || (char_code c =? 45) || (char_code c =? 95).
Definition valid_label (label : string) : bool :=
  negb (bool_decide (label = "")) && (strlen label <=? MAX_LABEL) && all_chars label_char label.
Definition check_labels (category : string) (reference : option string) : result string () :=
  _ ← check (valid_label category) "a category is 1-64 characters of letters, digits, '-' or '_'";
  match reference with
  | Some r => check (valid_label r) "a reference is 1-64 characters of letters, digits, '-' or '_'"
  | None => Ok tt
  end.
Definition valid_app_id (app_id : string) : bool :=
  negb (bool_decide (app_id = "")) && (strlen app_id <=? 64) && all_chars is_ascii_alphanumeric app_id.

(** ** The guest's half *)
(** [Sender::try_send]: refused when the channel is full or has no receiver. *)
Definition try_send (w : Wake) : M Notifier () () :=
  n ← get;
  _ ← ensure (negb (closed n) && (len (queue n) <? QUEUE_CAPACITY)) tt;
  modify (set_queue (λ q, q ++ [w])).
Definition raise (t : bytes) (category : string) (reference : option string) : M Notifier string () :=
  _ ← lift (check_labels category reference);
  n ← get;
  if decide ((t, category) ∈ inflight n) then mret tt
  else
    let held := Z.of_nat (size (filter (λ k, k.1 = t) (inflight n))) in
    _ ← ensure (held <? MAX_INFLIGHT_PER_TENANT) "this tenant already has 8 wake signals waiting";
    _ ← modify (set_inflight (λ s, {[(t, category)]} ∪ s));
    x ← attempt (try_send {| wk_tenant := t; wk_category := category; wk_reference := reference;
                             wk_due_ms := 0; wk_attempts := 0 |});
    match x with
    | Ok _ => mret tt
    | Err _ =>
        _ ← modify (set_inflight (λ s, s ∖ {[(t, category)]}));
        modify (set_counters count_queued_dropped)
    end.
Definition stage (t : bytes) (category : string) (reference : option string) : M Notifier string () :=
  _ ← lift (check_labels category reference);
  modify (set_staged (λ m, <[t := default [] (m !! t) ++ [(category, reference)]]> m)).
Fixpoint raise_all (t : bytes) (held : list (string * option string)) (n : Notifier) : Notifier :=
  match held with
  | [] => n
  | (category, reference) :: held => raise_all t held (raise t category reference n).2
  end.
Definition deliver_staged (t : bytes) (n : Notifier) : Notifier :=
  raise_all t (default [] (staged n !! t)) (set_staged (delete t) n).
Definition drop_staged (t : bytes) (n : Notifier) : Notifier := set_staged (delete t) n.
Definition release (t : bytes) (category : string) (n : Notifier) : Notifier :=
  set_inflight (λ s, s ∖ {[(t, category)]}) n.

(** ** The forwarder *)
Inductive SendError := DeadToken (m : string) | Refused (m : string) | Transient (m : string).
(** [1u32 << attempts.min(7)], saturating products of durations. *)
Definition backoff_for (attempts : Z) : Z := Z.min (MIN_BACKOFF * Z.shiftl 1 (Z.min attempts 7)) MAX_BACKOFF.

Record Forwarder := { notifier : Notifier; registry : DeviceRegistry; pending : list Wake }.
Definition set_notifier (f : Notifier → Notifier) (s : Forwarder) : Forwarder :=
  {| notifier := f (notifier s); registry := registry s; pending := pending s |}.
Definition set_registry (r : DeviceRegistry) (s : Forwarder) : Forwarder :=
  {| notifier := notifier s; registry := r; pending := pending s |}.
Definition set_pending (l : list Wake) (s : Forwarder) : Forwarder :=
  {| notifier := notifier s; registry := registry s; pending := l |}.

Section forwarder.
Context `{Sha256}.
(** What the push service answers: to a wake, for a device, at a time. *)
Context (client_wake : Wake → StoredDevice → Z → result SendError ()).

(** One device: what the answer counts, prunes, and whether to try again. *)
Definition send_one (w : Wake) (now_ms : Z) (st : bool * Forwarder) (d : StoredDevice) : bool * Forwarder :=
  let '(retry, s) := st in
  match client_wake w d now_ms with
  | Ok _ => (retry, set_notifier (set_counters count_sent) s)
  | Err (DeadToken _) =>
      (retry, set_registry (forget_if_unchanged (wk_tenant w) (d_token d) (d_created_ms d) (registry s)).2
                (set_notifier (set_counters count_pruned) s))
  | Err (Refused _) => (retry, set_notifier (set_counters count_refused) s)
  | Err (Transient _) => (true, s)
  end.
Definition deliver (w : Wake) (now_ms : Z) (s : Forwarder) : option Wake * Forwarder :=
  let s := set_notifier (release (wk_tenant w) (wk_category w)) s in
  let '(retry, s) := foldl (send_one w now_ms) (false, s) (devices_of (wk_tenant w) (registry s)) in
  if retry : bool then
    (Some {| wk_tenant := wk_tenant w; wk_category := wk_category w; wk_reference := wk_reference w;
             wk_due_ms := saturating_add now_ms (backoff_for (wk_attempts w + 1)); wk_attempts := wk_attempts w + 1 |}, s)
  else (None, s).
(** What the turn waits for: the least time left of what is held back. *)
Definition wait (now_ms : Z) (s : Forwarder) : option Z :=
  min_by_key id ((λ w, saturating_sub (wk_due_ms w) now_ms) <$> pending s).
(** [while pending.len() > MAX_PENDING] *)
Fixpoint trim_pending (fuel : nat) (s : Forwarder) : Forwarder :=
  match fuel, pending s with
  | S fuel, _ :: rest =>
      if MAX_PENDING <? len (pending s)
      then trim_pending fuel (set_pending rest (set_notifier (set_counters count_pending_dropped) s))
      else s
  | _, _ => s
  end.
(** The inner loop: what is not due, or is to be tried again, is carried over. *)
Fixpoint send_due (now_ms : Z) (ws carry : list Wake) (s : Forwarder) : Forwarder :=
  match ws with
  | [] => set_pending carry s
  | w :: ws =>
      if now_ms <? wk_due_ms w then send_due now_ms ws (carry ++ [w]) s
      else let '(o, s) := deliver w now_ms s in send_due now_ms ws (carry ++ option_list o) s
  end.
Definition turn (now_ms : Z) (s : Forwarder) : Forwarder :=
  let s := trim_pending (length (pending s)) s in send_due now_ms (pending s) [] s.
(** A turn that received a wake, and one whose timer ended. *)
Definition received (now_ms : Z) (s : Forwarder) : Forwarder :=
  match queue (notifier s) with
  | w :: q => turn now_ms (set_pending (pending s ++ [w]) (set_notifier (set_queue (λ _, q)) s))
  | [] => s
  end.
(** [stop]: what the channel and the backlog hold is sent once, and nothing more is received. *)
Fixpoint deliver_all (now_ms : Z) (ws : list Wake) (s : Forwarder) : Forwarder :=
  match ws with [] => s | w :: ws => deliver_all now_ms ws (deliver w now_ms s).2 end.
Definition stopped (now_ms : Z) (s : Forwarder) : Forwarder :=
  let all := pending s ++ queue (notifier s) in
  let s := set_pending [] (set_notifier (set_queue (λ _, [])) s) in
  let s := deliver_all now_ms all s in
  set_notifier (λ n, {| queue := queue n; closed := true; inflight := inflight n; staged := staged n;
                        counters := counters n |}) s.
End forwarder.

(** ** The guest's calls *)
Record NotifyContext := { nc_tenant : bytes; nc_interactive : bool }.
Definition context (ctx : option NotifyContext) (enrolment : bool) : result string NotifyContext :=
  c ← ok_or ctx "notifications require an authenticated tenant and a configured sender";
  _ ← check (negb enrolment || nc_interactive c) "background work cannot enrol or remove a device";
  Ok c.
Inductive notify_call := RegisterDevice (token : string) | ForgetDevice (token : string) | Devices_
  | WakeDevices (category : string) (reference : option string).
Section guest.
Context `{Sha256, !Codec StoredDevice}.
Definition on_registry {A} (m : M DeviceRegistry string A) : M Forwarder string A := zoom registry set_registry m.
Definition on_notifier {A} (m : M Notifier string A) : M Forwarder string A :=
  zoom notifier (λ n, set_notifier (λ _, n)) m.
Definition guest_notify (ctx : option NotifyContext) (now_ms : Z) (c : notify_call) : M Forwarder string Z :=
  match c with
  | RegisterDevice token =>
      c ← lift (context ctx true); _ ← on_registry (register (nc_tenant c) token now_ms); mret 0
  | ForgetDevice token => c ← lift (context ctx true); _ ← on_registry (forget (nc_tenant c) token); mret 0
  | Devices_ => c ← lift (context ctx false); gets (λ s, count (nc_tenant c) (registry s))
  | WakeDevices category reference =>
      c ← lift (context ctx false); _ ← on_notifier (stage (nc_tenant c) category reference); mret 0
  end.
End guest.
