(* ===== verification/NotifyProps.v ===== *)
(** * Waking devices: what waits is bounded, and says nothing *)
From S2P Require Import Prelude Storage Devices Notify.

Section notify.
Context `{Sha256}.
Context (client_wake : Wake → StoredDevice → Z → result SendError ()).

(** A running notifier and forwarder: the guest's calls, the serving path's, the
    forwarder's turns, and any change of the registry. *)
Inductive notify_step : Forwarder → Forwarder → Prop :=
  | notify_stage s t c r : notify_step s (set_notifier (λ n, (stage t c r n).2) s)
  | notify_deliver s t : notify_step s (set_notifier (deliver_staged t) s)
  | notify_drop s t : notify_step s (set_notifier (drop_staged t) s)
  | notify_received s now : notify_step s (received client_wake now s)
  | notify_timer s now : notify_step s (turn client_wake now s)
  | notify_stopped s now : notify_step s (stopped client_wake now s)
  | notify_registry s r : notify_step s (set_registry r s).
Definition notifier_new : Notifier :=
  {| queue := []; closed := false; inflight := ∅; staged := ∅; counters := no_counts |}.
Definition notify_init (s : Forwarder) : Prop := ∃ r, s = {| notifier := notifier_new; registry := r; pending := [] |}.

Definition labelled (w : Wake) : Prop := check_labels (wk_category w) (wk_reference w) = Ok tt.
Definition held (t : bytes) (n : Notifier) : gset (bytes * string) := filter (λ k, k.1 = t) (inflight n).
Record notifier_ok (n : Notifier) : Prop := {
  ok_queue : len (queue n) ≤ QUEUE_CAPACITY;
  ok_inflight t : Z.of_nat (size (held t n)) ≤ MAX_INFLIGHT_PER_TENANT;
  ok_labels : Forall labelled (queue n);
  ok_staged t l : staged n !! t = Some l → Forall (λ cr, check_labels cr.1 cr.2 = Ok tt) l }.
Record forwarder_ok (s : Forwarder) : Prop := {
  ok_notifier : notifier_ok (notifier s);
  ok_pending : len (pending s) ≤ MAX_PENDING;
  ok_pending_labels : Forall labelled (pending s) }.

Lemma notifier_ok_counters f n : notifier_ok n → notifier_ok (set_counters f n).
Proof. intros [H1 H2 H3 H4]. by split. Qed.
Lemma notifier_ok_staged f n : notifier_ok n →
  (∀ t l, f (staged n) !! t = Some l → Forall (λ cr, check_labels cr.1 cr.2 = Ok tt) l) → notifier_ok (set_staged f n).
Proof. intros [H1 H2 H3 H4] Hf. by split. Qed.
Lemma notifier_ok_fewer X n : notifier_ok n → notifier_ok (set_inflight (λ s, s ∖ X) n).
Proof.
  intros [H1 H2 H3 H4]. split; try done. intros t. etrans; [|apply (H2 t)]. apply inj_le, subseteq_size.
  unfold held. simpl. set_solver.
Qed.
Lemma notifier_ok_raise t c r n : notifier_ok n → notifier_ok (raise t c r n).2.
Proof.
  intros Hn. unfold raise, mbind, M_bind, lift, get.
  destruct (check_labels c r) as [[]|e] eqn:Hl; [|done]. cbn beta iota.
  destruct (decide _) as [Hin|Hin]; [done|]. unfold ensure, check.
  destruct (Z.ltb_spec (Z.of_nat (size (filter (λ k, k.1 = t) (inflight n)))) MAX_INFLIGHT_PER_TENANT) as [Hlt|]; [|done].
  unfold attempt, try_send, mbind, M_bind, modify, get, ensure, check. cbn beta iota.
  set (n1 := set_inflight (λ s, {[(t, c)]} ∪ s) n).
  assert (∀ t', Z.of_nat (size (held t' n1)) ≤ MAX_INFLIGHT_PER_TENANT) as Hi.
  { intros t'. destruct (decide (t' = t)) as [->|Hne].
    - assert (held t n1 ⊆ {[(t, c)]} ∪ held t n) as Hsub by (unfold held, n1; simpl; set_solver).
      apply subseteq_size in Hsub. pose proof (size_union_alt {[(t, c)]} (held t n)) as Hu.
      rewrite size_singleton in Hu. pose proof (subseteq_size (held t n ∖ {[(t, c)]}) (held t n) ltac:(set_solver)).
      unfold held in *. unfold MAX_INFLIGHT_PER_TENANT in *. lia.
    - etrans; [|apply (ok_inflight n Hn t')]. apply inj_le, subseteq_size. unfold held, n1. simpl. set_solver. }
  destruct (negb (closed n1) && (len (queue n1) <? QUEUE_CAPACITY)) eqn:Hc.
  - apply andb_true_iff in Hc as [_ Hc%Z.ltb_lt]. split; simpl; [| |apply Forall_app; split; [apply Hn|by repeat constructor]|apply Hn].
    + unfold len in *. rewrite length_app. simpl in *. lia.
    + exact Hi.
  - cbn beta iota. simpl. apply notifier_ok_counters, notifier_ok_fewer. by split; [apply Hn| |apply Hn..].
Qed.
Lemma notifier_ok_raise_all t ws n : notifier_ok n → notifier_ok (raise_all t ws n).
Proof.
  revert n. induction ws as [|[c r] ws IH]; intros n Hn; [done|]. simpl. by apply IH, notifier_ok_raise.
Qed.
Lemma notifier_ok_stage t c r n : notifier_ok n → notifier_ok (stage t c r n).2.
Proof.
  intros Hn. unfold stage, mbind, M_bind, lift. destruct (check_labels c r) as [[]|e] eqn:Hl; [|done].
  simpl. apply notifier_ok_staged; [done|]. intros t' l [[<- <-]|[_ Ht]]%lookup_insert_Some; [|by eapply ok_staged].
  apply Forall_app. split; [|by repeat constructor].
  destruct (staged n !! t) as [l|] eqn:Hs; [by eapply ok_staged|constructor].
Qed.
Lemma notifier_ok_drop t n : notifier_ok n → notifier_ok (drop_staged t n).
Proof. intros Hn. apply notifier_ok_staged; [done|]. intros t' l [_ Ht]%lookup_delete_Some. by eapply ok_staged. Qed.
Lemma notifier_ok_deliver t n : notifier_ok n → notifier_ok (deliver_staged t n).
Proof. intros Hn. unfold deliver_staged. apply notifier_ok_raise_all. by apply (notifier_ok_drop t). Qed.

(** ** The forwarder *)
Lemma send_one_ok w now b s d b' s' : send_one client_wake w now (b, s) d = (b', s') →
  pending s' = pending s ∧ (notifier_ok (notifier s) → notifier_ok (notifier s')).
Proof.
  unfold send_one. destruct (client_wake w d now) as [|[]]; intros [= <- <-]; (split; [done|]);
    intros; simpl; first [by apply notifier_ok_counters|done].
Qed.
Lemma deliver_ok w now s o s' : deliver client_wake w now s = (o, s') → labelled w →
  pending s' = pending s ∧ (notifier_ok (notifier s) → notifier_ok (notifier s')) ∧ Forall labelled (option_list o) ∧
  len (option_list o) ≤ 1.
Proof.
  unfold deliver. intros E Hw.
  assert (∀ ds b s b' s', foldl (send_one client_wake w now) (b, s) ds = (b', s') →
    pending s' = pending s ∧ (notifier_ok (notifier s) → notifier_ok (notifier s'))) as Hfold.
  { induction ds as [|d ds IH]; intros b s0 b' s0' Hf; [simpl in Hf; by simplify_eq|]. cbn [foldl] in Hf.
    destruct (send_one client_wake w now (b, s0) d) as [b1 s1] eqn:E1.
    apply send_one_ok in E1 as [Hp1 Hn1]. apply IH in Hf as [Hp2 Hn2]. split; [congruence|auto]. }
  destruct (foldl _ _ _) as [retry s1] eqn:Ef. apply Hfold in Ef as [Hp Hn].
  assert (notifier_ok (notifier s) → notifier_ok (notifier s1)) as Hn'
    by (intros Hs; apply Hn; simpl; by apply notifier_ok_fewer).
  destruct retry; simplify_eq; (split_and!; [exact Hp|exact Hn'|by repeat constructor|done]).
Qed.
Lemma send_due_ok now ws carry s : Forall labelled ws → Forall labelled carry → notifier_ok (notifier s) →
  Forall labelled (pending (send_due client_wake now ws carry s)) ∧
  len (pending (send_due client_wake now ws carry s)) ≤ len carry + len ws ∧
  notifier_ok (notifier (send_due client_wake now ws carry s)).
Proof.
  revert carry s. induction ws as [|w ws IH]; intros carry s Hws Hc Hs; simpl.
  { split_and!; [done|unfold len; simpl; lia|done]. }
  apply Forall_cons in Hws as [Hw Hws]. destruct (now <? wk_due_ms w).
  - destruct (IH (carry ++ [w]) s Hws) as (H1 & H2 & H3); [apply Forall_app; by repeat constructor|done|].
    split_and!; [done| |done]. unfold len in *. rewrite length_app in H2. simpl in *. lia.
  - destruct (deliver client_wake w now s) as [o s1] eqn:E. apply deliver_ok in E as (Hp & Hn & Hl & Hlen); [|done].
    destruct (IH (carry ++ option_list o) s1 Hws) as (H1 & H2 & H3); [by apply Forall_app|by apply Hn|].
    split_and!; [done| |done]. unfold len in *. rewrite length_app in H2. simpl in *. lia.
Qed.
Lemma trim_ok fuel s : notifier_ok (notifier s) → Forall labelled (pending s) → (length (pending s) ≤ fuel)%nat →
  notifier_ok (notifier (trim_pending fuel s)) ∧ Forall labelled (pending (trim_pending fuel s)) ∧
  len (pending (trim_pending fuel s)) ≤ MAX_PENDING.
Proof.
  revert s. induction fuel as [|fuel IH]; intros s Hn Hl Hf; simpl.
  { split_and!; [done..|]. unfold len. destruct (pending s); simpl in *; [done|lia]. }
  destruct (pending s) as [|w ws] eqn:Hp; [by rewrite Hp|].
  destruct (Z.ltb_spec MAX_PENDING (len (w :: ws))); [|by rewrite Hp].
  apply IH; simpl; [by apply notifier_ok_counters|by apply Forall_cons in Hl as []|simpl in Hf; lia].
Qed.
Lemma turn_ok now s : notifier_ok (notifier s) → Forall labelled (pending s) → forwarder_ok (turn client_wake now s).
Proof.
  intros Hn Hl. unfold turn. destruct (trim_ok (length (pending s)) s Hn Hl) as (H1 & H2 & H3); [done|].
  destruct (send_due_ok now (pending (trim_pending (length (pending s)) s)) [] (trim_pending (length (pending s)) s))
    as (H4 & H5 & H6); [done|constructor|done|].
  split; [done| |done]. unfold len in *. simpl in H5. lia.
Qed.
Lemma deliver_all_ok now ws s : Forall labelled ws → notifier_ok (notifier s) →
  notifier_ok (notifier (deliver_all client_wake now ws s)) ∧ pending (deliver_all client_wake now ws s) = pending s.
Proof.
  revert s. induction ws as [|w ws IH]; intros s Hws Hs; [done|]. simpl. apply Forall_cons in Hws as [Hw Hws].
  destruct (deliver client_wake w now s) as [o s1] eqn:E. apply deliver_ok in E as (Hp & Hn & _); [|done].
  destruct (IH s1) as [H1 H2]; [done|by apply Hn|]. simpl. split; [done|]. rewrite H2. exact Hp.
Qed.
Lemma forwarder_ok_step s s' : forwarder_ok s → notify_step s s' → forwarder_ok s'.
Proof.
  intros [Hn Hp Hl] Hs. destruct Hs as [s t c r|s t|s t|s now|s now|s now|s r].
  - split; [by apply notifier_ok_stage|done..].
  - split; [by apply notifier_ok_deliver|done..].
  - split; [by apply notifier_ok_drop|done..].
  - unfold received. destruct (queue (notifier s)) as [|w q] eqn:Hq; [done|]. destruct Hn as [H1 H2 H3 H4].
    rewrite Hq in H1, H3. apply Forall_cons in H3 as [Hw H3]. apply turn_ok; simpl.
    + split; simpl; [unfold len in *; simpl in H1; lia|exact H2|done|done].
    + apply Forall_app. by repeat constructor.
  - by apply turn_ok.
  - unfold stopped. set (s1 := set_pending [] _).
    assert (notifier_ok (notifier s1)) as Hn1
      by (destruct Hn as [H1 H2 H3 H4]; split; simpl; [done|exact H2|constructor|done]).
    destruct (deliver_all_ok now (pending s ++ queue (notifier s)) s1) as [H1 H2]; [|done|].
    { apply Forall_app. split; [done|apply Hn]. }
    destruct H1 as [H3 H4 H5 H6]. split; simpl; [by split|by rewrite H2|by rewrite H2].
  - by split.
Qed.
(** A wake is bounded and opaque.  Whatever guests raise, however the push
    service answers and whenever the forwarder runs, the channel holds at most
    1024 wakes and the backlog at most 64, no tenant has more than eight
    categories in flight, and every wake that is waiting anywhere is a category
    and a reference that are labels of 1 to 64 letters, digits, dashes and
    underscores: nothing else can cross to the push service. *)
Theorem wakes_bounded s : reachable notify_init notify_step s →
  len (queue (notifier s)) ≤ 1024 ∧ len (pending s) ≤ 64 ∧
  (∀ t, Z.of_nat (size (filter (λ k, k.1 = t) (inflight (notifier s)))) ≤ 8) ∧
  ∀ w, w ∈ queue (notifier s) ++ pending s →
    valid_label (wk_category w) = true ∧ ∀ r, wk_reference w = Some r → valid_label r = true.
Proof.
  intros Hr. assert (forwarder_ok s) as [[Hq Hi Hl _] Hp Hpl].
  { revert s Hr. apply reachable_invariant; [|eauto using forwarder_ok_step].
    intros _ [r ->]. split; [split|..]; simpl; try done; try constructor. }
  split_and!; [done|done|exact Hi|]. intros w Hw.
  assert (labelled w) as Hlw by (apply elem_of_app in Hw as [Hw|Hw]; [by eapply Forall_forall in Hl|by eapply Forall_forall in Hpl]).
  unfold labelled, check_labels in Hlw. destruct (valid_label (wk_category w)); [|done]. split; [done|].
  intros r Hr'. rewrite Hr' in Hlw. simpl in Hlw. by destruct (valid_label r).
Qed.
End notify.

(** A full channel keeps what it holds: it is the wake just raised that is lost. *)
Lemma full_queue_drops_newest t c r n : check_labels c r = Ok tt → (t, c) ∉ inflight n →
  Z.of_nat (size (held t n)) < MAX_INFLIGHT_PER_TENANT → len (queue n) = QUEUE_CAPACITY →
  (raise t c r n).1 = Ok tt ∧ queue (raise t c r n).2 = queue n ∧
  queued_dropped (counters (raise t c r n).2) = queued_dropped (counters n) + 1.
Proof.
  intros Hl Hin Hheld Hq. unfold held in Hheld. unfold raise, mbind, M_bind, lift, get. rewrite Hl. cbn beta iota.
  rewrite decide_False by done. unfold ensure, check. rewrite (proj2 (Z.ltb_lt _ _) Hheld).
  unfold attempt, try_send, mbind, M_bind, modify, get, ensure, check. cbn beta iota.
  cbn [set_inflight queue closed]. rewrite Hq, Z.ltb_irrefl, andb_false_r. done.
Qed.

(** ** Waking devices: the bound at a concrete run *)
From S2P Require Import Concrete.

Module NotifyWitness.
#[local] Instance sha : Sha256 := Concrete.sha.
Definition t1 : bytes := replicate 16 Byte.x01.
#[local] Instance wake_eq_dec : EqDecision Wake.
Proof. solve_decision. Defined.
Definition answer (w : Wake) (d : StoredDevice) (now : Z) : result SendError () := Ok tt.
Definition f0 : Forwarder :=
  {| notifier := notifier_new; registry := registry_new (genesis 10 100 [] []) default_limits; pending := [] |}.
Definition f1 : Forwarder := set_notifier (λ n, (stage t1 "signed" None n).2) f0.
Definition f2 : Forwarder := set_notifier (deliver_staged t1) f1.
Lemma wakes_bounded_witness : ∃ w, queue (notifier f2) = [w] ∧ valid_label (wk_category w) = true.
Proof.
  assert (reachable notify_init (notify_step answer) f2) as Hr.
  { eapply reachable_step; [|apply (notify_deliver answer f1 t1)].
    eapply reachable_step; [|apply (notify_stage answer f0 t1 "signed" None)].
    apply reachable_init. by eexists. }
  destruct (wakes_bounded answer f2 Hr) as (_ & _ & _ & Hw).
  exists {| wk_tenant := t1; wk_category := "signed"; wk_reference := None; wk_due_ms := 0; wk_attempts := 0 |}.
  split; [vm_compute; reflexivity|]. apply Hw. apply (bool_decide_unpack _). vm_compute. exact I.
Defined.
End NotifyWitness.
