(* ===== verification/Slots.v ===== *)
(** * One lock per tenant: [serve/pool.rs], and the watchdog's evidence: [serve/progress.rs]

    A slot is shared by reference: the pool's map and every checkout name the
    same one, so slots live in a heap and the map holds their names.  The order
    of a [HashMap]'s iteration is that of [map_to_list]. *)
From S2P Require Import Prelude.

Record PoolLimits := { max_tenants : Z; idle_timeout : Z }.
Definition default_limits : PoolLimits := {| max_tenants := 64; idle_timeout := 900 * 1000 |}.
Record Slot := { last_used : Z; in_flight : Z }.
Definition slot_new (now : Z) : Slot := {| last_used := now; in_flight := 0 |}.
Record TenantPool := { slots : gmap bytes nat; heap : gmap nat Slot; next_slot : nat; limits : PoolLimits }.
Definition pool_new (l : PoolLimits) : TenantPool := {| slots := ∅; heap := ∅; next_slot := 0; limits := l |}.
Definition set_slots (f : gmap bytes nat → gmap bytes nat) (p : TenantPool) : TenantPool :=
  {| slots := f (slots p); heap := heap p; next_slot := next_slot p; limits := limits p |}.
Definition set_heap (f : gmap nat Slot → gmap nat Slot) (p : TenantPool) : TenantPool :=
  {| slots := slots p; heap := f (heap p); next_slot := next_slot p; limits := limits p |}.
Definition slot (p : TenantPool) (n : nat) : Slot := default (slot_new 0) (heap p !! n).

Definition touch (now : Z) (s : Slot) : Slot := {| last_used := now; in_flight := in_flight s + 1 |}.
Definition stays (now : Z) (p : TenantPool) (n : nat) : bool :=
  (0 <? in_flight (slot p n)) || (saturating_sub now (last_used (slot p n)) <? idle_timeout (limits p)).
(** [while slots.len() >= max]: every turn removes a slot or ends. *)
Fixpoint evict_loop (fuel : nat) (p : TenantPool) : TenantPool :=
  match fuel with
  | O => p
  | S fuel =>
      if Z.max 1 (max_tenants (limits p)) <=? Z.of_nat (size (slots p)) then
        match min_by_key (λ kn, last_used (slot p kn.2))
                (filter (λ kn, in_flight (slot p kn.2) = 0) (map_to_list (slots p))) with
        | Some (key, _) => evict_loop fuel (set_slots (delete key) p)
        | None => p
        end
      else p
  end.
Definition evict_while_full (now : Z) (p : TenantPool) : TenantPool :=
  let p := set_slots (retain (λ _ n, stays now p n)) p in evict_loop (size (slots p)) p.
Definition checkout (now : Z) (tenant : bytes) (p : TenantPool) : nat * TenantPool :=
  match slots p !! tenant with
  | Some n => (n, set_heap (alter (touch now) n) p)
  | None =>
      let p := evict_while_full now p in
      let n := next_slot p in
      (n, {| slots := <[tenant := n]> (slots p); heap := <[n := touch now (slot_new now)]> (heap p);
             next_slot := S n; limits := limits p |})
  end.
(** [Drop for Checkout] *)
Definition drop_checkout (n : nat) (p : TenantPool) : TenantPool :=
  set_heap (alter (λ s, {| last_used := last_used s; in_flight := in_flight s - 1 |}) n) p.

(** ** The calls that are being served

    A call checks its tenant out, waits for the slot's lock, runs, and drops
    both however it ends. *)
Record Call := { c_tenant : bytes; c_slot : nat; c_holds : bool }.
Record Serving := { pool : TenantPool; calls : list Call }.
Definition lock_free (n : nat) (cs : list Call) : Prop := Forall (λ c, c_slot c = n → c_holds c = false) cs.
Inductive serve_step : Serving → Serving → Prop :=
  | serve_checkout s now t : serve_step s
      {| pool := (checkout now t (pool s)).2;
         calls := {| c_tenant := t; c_slot := (checkout now t (pool s)).1; c_holds := false |} :: calls s |}
  | serve_lock s cs1 c cs2 : calls s = cs1 ++ c :: cs2 → lock_free (c_slot c) (calls s) →
      serve_step s {| pool := pool s;
        calls := cs1 ++ {| c_tenant := c_tenant c; c_slot := c_slot c; c_holds := true |} :: cs2 |}
  | serve_end s cs1 c cs2 : calls s = cs1 ++ c :: cs2 →
      serve_step s {| pool := drop_checkout (c_slot c) (pool s); calls := cs1 ++ cs2 |}.
Definition serve_init (s : Serving) : Prop := ∃ l, s = {| pool := pool_new l; calls := [] |}.

(** ** Progress *)
Record StreamProgress := { moved : Z; last_seen : Z; head_sent : bool; strikes : Z }.
Definition progress_new : StreamProgress := {| moved := 0; last_seen := 0; head_sent := false; strikes := 0 |}.
Definition record (n : Z) (p : StreamProgress) : StreamProgress :=
  {| moved := wrapping_add (moved p) n; last_seen := last_seen p; head_sent := head_sent p; strikes := strikes p |}.
Definition reset (p : StreamProgress) : StreamProgress := progress_new.
Definition mark_head_sent (p : StreamProgress) : StreamProgress :=
  {| moved := moved p; last_seen := last_seen p; head_sent := true; strikes := strikes p |}.
Definition still_working (limit : Z) (p : StreamProgress) : bool * StreamProgress :=
  if last_seen p =? moved p then
    if head_sent p then
      (strikes p + 1 <? limit,
       {| moved := moved p; last_seen := moved p; head_sent := head_sent p; strikes := (strikes p + 1) mod 2 ^ 32 |})
    else (false, p)
  else (true, {| moved := moved p; last_seen := moved p; head_sent := head_sent p; strikes := 0 |}).

(** The epoch's deadlines and what a call is given of them: [serve/http.rs]. *)
Definition EPOCH_TICK : Z := 250.
Definition SILENT_TICKS_BEFORE_TRAP : Z := 8.
Definition DEFAULT_REQUEST_TIMEOUT : Z := 30 * 1000.
Definition DEFAULT_MAX_INTERACTION : Z := 300 * 1000.
Definition watchdog (timeout : Z) : Z := Z.max 1 (saturating_sub (timeout / EPOCH_TICK) 2).
(** The epoch callback over the expiries of a call: what moved before each.  The
    call is trapped at the expiry whose number is answered. *)
Fixpoint run_watchdog (n : nat) (traffic : list Z) (p : StreamProgress) : option nat :=
  match traffic with
  | [] => None
  | m :: traffic =>
      let '(keep, p) := still_working SILENT_TICKS_BEFORE_TRAP (record m p) in
      if keep : bool then run_watchdog (S n) traffic p else Some n
  end.
