(* ===== verification/SlotsProps.v ===== *)
(** * One lock per tenant, and how long a silent guest runs *)
From S2P Require Import Prelude Slots.

(** ** Eviction spares what is busy *)
Lemma evict_loop_spec fuel p :
  heap (evict_loop fuel p) = heap p ∧ next_slot (evict_loop fuel p) = next_slot p ∧
  (∀ t n, slots (evict_loop fuel p) !! t = Some n → slots p !! t = Some n) ∧
  (∀ t n, slots p !! t = Some n → in_flight (slot p n) ≠ 0 → slots (evict_loop fuel p) !! t = Some n).
Proof.
  revert p. induction fuel as [|fuel IH]; intros p; simpl; [by auto|].
  destruct (_ <=? _); [|by auto]. destruct (min_by_key _ _) as [[key n0]|] eqn:Hm; [|by auto].
  apply min_by_key_Some in Hm as [[Hidle Hin]%list_elem_of_filter _]. apply elem_of_map_to_list in Hin. simpl in Hidle.
  destruct (IH (set_slots (delete key) p)) as (H1 & H2 & H3 & H4). simpl in *. split_and!; [done|done| |].
  - intros t n Ht%H3. by apply lookup_delete_Some in Ht as [_ ?].
  - intros t n Ht Hb. apply H4; [|exact Hb]. apply lookup_delete_Some. split; [|done].
    intros ->. rewrite Hin in Ht. injection Ht as ->. done.
Qed.
Lemma evict_spec now p :
  heap (evict_while_full now p) = heap p ∧ next_slot (evict_while_full now p) = next_slot p ∧
  (∀ t n, slots (evict_while_full now p) !! t = Some n → slots p !! t = Some n) ∧
  (∀ t n, slots p !! t = Some n → 0 < in_flight (slot p n) → slots (evict_while_full now p) !! t = Some n).
Proof.
  unfold evict_while_full. set (p1 := set_slots _ p).
  destruct (evict_loop_spec (size (slots p1)) p1) as (H1 & H2 & H3 & H4). split_and!; [done|done| |].
  - intros t n Ht%H3. by apply lookup_retain in Ht as [? _].
  - intros t n Ht Hb. apply H4; [|change (slot p1 n) with (slot p n); lia].
    apply lookup_retain. split; [done|]. unfold stays. apply Z.ltb_lt in Hb. by rewrite Hb.
Qed.

(** ** The invariant *)
Definition users (n : nat) (cs : list Call) : list Call := filter (λ c, c_slot c = n) cs.
Definition holders (cs : list Call) : list nat := c_slot <$> filter (λ c, c_holds c = true) cs.
Record serving_ok (s : Serving) : Prop := {
  ok_call c : c ∈ calls s → slots (pool s) !! c_tenant c = Some (c_slot c);
  ok_distinct t t' n : slots (pool s) !! t = Some n → slots (pool s) !! t' = Some n → t = t';
  ok_below t n : slots (pool s) !! t = Some n → (n < next_slot (pool s))%nat;
  ok_heap t n : slots (pool s) !! t = Some n → is_Some (heap (pool s) !! n);
  ok_users t n : slots (pool s) !! t = Some n → in_flight (slot (pool s) n) = len (users n (calls s));
  ok_holders : NoDup (holders (calls s)) }.

Lemma slot_alter f n p m : is_Some (heap p !! n) →
  slot (set_heap (alter f n) p) m = if decide (n = m) then f (slot p m) else slot p m.
Proof.
  intros [x Hx]. unfold slot. simpl. destruct (decide (n = m)) as [->|Hne].
  - by rewrite lookup_alter_eq, Hx.
  - by rewrite lookup_alter_ne.
Qed.
Lemma users_cons n c cs : users n (c :: cs) = (if decide (c_slot c = n) then [c] else []) ++ users n cs.
Proof. unfold users. rewrite filter_cons. by destruct (decide _). Qed.
Lemma users_busy s c : serving_ok s → c ∈ calls s → 0 < in_flight (slot (pool s) (c_slot c)).
Proof.
  intros Hs Hc. rewrite (ok_users s Hs _ _ (ok_call s Hs _ Hc)).
  assert (c ∈ users (c_slot c) (calls s)) as Hin by (by apply list_elem_of_filter).
  unfold len. destruct (users _ _); [by apply elem_of_nil in Hin|simpl; lia].
Qed.
Lemma holders_middle cs1 c cs2 :
  holders (cs1 ++ c :: cs2) ≡ₚ (if c_holds c then [c_slot c] else []) ++ holders (cs1 ++ cs2).
Proof.
  unfold holders. rewrite !filter_app, filter_cons, !fmap_app. destruct (c_holds c).
  - rewrite decide_True by done. simpl. by rewrite Permutation_middle.
  - by rewrite decide_False.
Qed.
Lemma checkout_ok s now t : serving_ok s → serving_ok
  {| pool := (checkout now t (pool s)).2;
     calls := {| c_tenant := t; c_slot := (checkout now t (pool s)).1; c_holds := false |} :: calls s |}.
Proof.
  intros Hs. unfold checkout. destruct (slots (pool s) !! t) as [n|] eqn:Ht; simpl.
  - pose proof (ok_heap s Hs _ _ Ht) as Hn. split; simpl.
    + intros c [->|Hc]%elem_of_cons; [done|by apply Hs].
    + apply Hs.
    + apply Hs.
    + intros t' m Hm%(ok_heap s Hs). by apply lookup_alter_is_Some.
    + intros t' m Hm. rewrite slot_alter by done. rewrite users_cons. cbn [c_slot].
      destruct (decide (n = m)); [|by eapply ok_users]. unfold touch, len. simpl.
      rewrite (ok_users s Hs _ _ Hm). unfold len. lia.
    + apply Hs.
  - destruct (evict_spec now (pool s)) as (Hh & Hn & Hsub & Hbusy). rewrite Hh, Hn.
    set (n := next_slot (pool s)).
    assert (∀ t' m, slots (evict_while_full now (pool s)) !! t' = Some m → (m < n)%nat) as Hlt
      by (intros t' m Hm%Hsub; by eapply ok_below).
    split; simpl.
    + intros c [->|Hc]%elem_of_cons; simpl; [by rewrite lookup_insert_eq|].
      assert (c_tenant c ≠ t) as Hne by (intros Heq; pose proof (ok_call s Hs c Hc); congruence).
      rewrite lookup_insert_ne by congruence. apply Hbusy; [by apply Hs|by apply users_busy].
    + intros t1 t2 m [[<- <-]|[Hn1 Hm1]]%lookup_insert_Some [[<- Heq]|[Hn2 Hm2]]%lookup_insert_Some; [done| | |].
      * apply Hlt in Hm2. lia.
      * apply Hlt in Hm1. lia.
      * apply Hsub in Hm1, Hm2. by eapply ok_distinct.
    + intros t' m [[_ <-]|[_ Hm%Hlt]]%lookup_insert_Some; lia.
    + intros t' m [[_ <-]|[_ Hm]]%lookup_insert_Some; [by rewrite lookup_insert_eq; eauto|].
      apply lookup_insert_is_Some'. right. apply Hsub in Hm. by eapply ok_heap.
    + intros t' m Hm. rewrite users_cons. cbn [c_slot]. unfold slot at 1. cbn [heap].
      apply lookup_insert_Some in Hm as [[_ <-]|[Hne Hm]].
      * rewrite lookup_insert_eq, decide_True by done. simpl.
        assert (users n (calls s) = []) as ->; [|done].
        destruct (users n (calls s)) as [|c l] eqn:Hu; [done|].
        assert (c ∈ users n (calls s)) as [Heq Hc]%list_elem_of_filter by (rewrite Hu; left).
        pose proof (ok_below s Hs _ _ (ok_call s Hs c Hc)). unfold n in Heq. lia.
      * pose proof (Hlt _ _ Hm) as Hmn. rewrite lookup_insert_ne, decide_False by lia. simpl.
        apply Hsub in Hm. by eapply ok_users.
    + apply Hs.
Qed.
Lemma serving_ok_step s s' : serving_ok s → serve_step s s' → serving_ok s'.
Proof.
  intros Hs Hst. destruct Hst as [s now t|s cs1 c cs2 Hc Hfree|s cs1 c cs2 Hc]; [by apply checkout_ok| |].
  - assert (c ∈ calls s) as Hin by (rewrite Hc; set_solver). split; simpl; try apply Hs.
    + intros c' [Hc'|[->|Hc']%elem_of_cons]%elem_of_app; [apply Hs; rewrite Hc; set_solver|exact (ok_call s Hs c Hin)|].
      apply Hs. rewrite Hc. set_solver.
    + intros t n Hn. rewrite (ok_users s Hs _ _ Hn), Hc. unfold users, len. rewrite !filter_app, !filter_cons. simpl.
      by destruct (decide (c_slot c = n)); rewrite !length_app.
    + pose proof (ok_holders s Hs) as Hnd. rewrite Hc, holders_middle in Hnd.
      rewrite holders_middle. simpl. apply NoDup_cons. split; [|by apply NoDup_app in Hnd as (_ & _ & ?)].
      intros (c' & Heq & [Hh Hc']%list_elem_of_filter)%list_elem_of_fmap.
      unfold lock_free in Hfree. rewrite Forall_forall in Hfree.
      rewrite (Hfree c') in Hh; [done| |done]. rewrite Hc. set_solver.
  - assert (c ∈ calls s) as Hin by (rewrite Hc; set_solver).
    pose proof (ok_heap s Hs _ _ (ok_call s Hs c Hin)) as Hn. split; simpl.
    + intros c' Hc'. apply Hs. rewrite Hc. set_solver.
    + apply Hs.
    + apply Hs.
    + intros t m Hm%(ok_heap s Hs). by apply lookup_alter_is_Some.
    + intros t m Hm. unfold drop_checkout. rewrite slot_alter by done.
      pose proof (ok_users s Hs _ _ Hm) as Hu. rewrite Hc in Hu. unfold users, len in *.
      rewrite filter_app, filter_cons, length_app in Hu. rewrite filter_app, length_app.
      destruct (decide (c_slot c = m)); simpl in *; lia.
    + pose proof (ok_holders s Hs) as Hnd. rewrite Hc, holders_middle in Hnd. by apply NoDup_app in Hnd as (_ & _ & ?).
Qed.
Lemma reachable_serving_ok s : reachable serve_init serve_step s → serving_ok s.
Proof.
  apply reachable_invariant; [|eauto using serving_ok_step].
  intros _ [l ->]. split; simpl; [by intros c ?%elem_of_nil| | | | |constructor];
    intros *; rewrite lookup_empty; done.
Qed.
(** C18: one call at a time for each tenant.  Whatever requests arrive and end,
    and whatever the pool evicts to make room, two live checkouts share a slot
    exactly when they are the same tenant's, and of the calls that hold a lock
    no two are the same tenant's: a slot that is checked out is never replaced
    by another. *)
Theorem one_call_per_tenant s : reachable serve_init serve_step s →
  (∀ c c', c ∈ calls s → c' ∈ calls s → c_tenant c = c_tenant c' ↔ c_slot c = c_slot c') ∧
  NoDup (c_tenant <$> filter (λ c, c_holds c = true) (calls s)).
Proof.
  intros Hs%reachable_serving_ok.
  assert (∀ c c', c ∈ calls s → c' ∈ calls s → c_tenant c = c_tenant c' ↔ c_slot c = c_slot c') as Heq.
  { intros c c' Hc%(ok_call s Hs) Hc'%(ok_call s Hs). split; [congruence|].
    intros Hsl. rewrite Hsl in Hc. by eapply ok_distinct. }
  split; [exact Heq|]. pose proof (ok_holders s Hs) as Hnd. unfold holders in Hnd.
  assert (∀ c, c ∈ filter (λ c, c_holds c = true) (calls s) → c ∈ calls s) as Hsub
    by (by intros c [_ ?]%list_elem_of_filter).
  revert Hnd Hsub. generalize (filter (λ c, c_holds c = true) (calls s)) as cs.
  induction cs as [|c cs IH]; intros Hnd Hsub; [constructor|]. simpl in *.
  apply NoDup_cons in Hnd as [Hni Hnd]. apply NoDup_cons. split; [|apply IH; [done|]; intros; apply Hsub; by right].
  intros (c' & Ht & Hc')%list_elem_of_fmap. apply Hni. apply list_elem_of_fmap. exists c'. split; [|done].
  apply Heq; [apply Hsub; by left|apply Hsub; by right|done].
Qed.

