(* ===== verification/Attestation.v ===== *)
(** * Attestation documents: the crate [nitro-attestation]

    Reading and verifying a COSE_Sign1 document, the expectations a client has
    of one, and the [user_data] layout.  CBOR (ciborium), COSE (coset), X.509
    (x509-parser), the signatures (aws-lc-rs) and the hashes are parameters; a
    parsed certificate is the fields the code reads of it.  Times are in
    nanoseconds.  Messages of errors keep their fixed text. *)
From S2P Require Import Prelude Text Http.

(** ** CBOR values, as [ciborium::Value] *)
Inductive Value :=
  | Integer (z : Z) | Bytes (b : bytes) | Float (bits : Z) | Text (s : string) | Bool (b : bool) | Null
  | Tag (t : Z) (v : Value) | Array (vs : list Value) | Map (kvs : list (Value * Value)).
Definition as_integer (v : Value) : option Z := match v with Integer z => Some z | _ => None end.
Definition as_bytes (v : Value) : option bytes := match v with Bytes b => Some b | _ => None end.
Definition as_text (v : Value) : option string := match v with Text s => Some s | _ => None end.
Definition as_array (v : Value) : option (list Value) := match v with Array vs => Some vs | _ => None end.
Definition as_map (v : Value) : option (list (Value * Value)) := match v with Map kvs => Some kvs | _ => None end.
(** [u64::try_from], [u32::try_from]. *)
Definition try_upto (max z : Z) : option Z := if (0 <=? z) && (z <=? max) then Some z else None.

Record AttestationDocument := {
  module_id : string; timestamp_ms : Z; digest : string; pcrs : gmap Z bytes; certificate : bytes;
  cabundle : list bytes; public_key : option bytes; user_data : option bytes; nonce : option bytes }.
Definition pcr (index : Z) (d : AttestationDocument) : option bytes := pcrs d !! index.
Definition timestamp (d : AttestationDocument) : Z := timestamp_ms d * 1000000.

(** ** Decoding the payload *)
Definition map_get (m : list (Value * Value)) (name : string) : option Value :=
  snd <$> find (λ kv, bool_decide (as_text kv.1 = Some name)) m.
Definition text (v : option Value) (name : string) : result string string :=
  ok_or (v ≫= as_text) ("attestation payload field " +:+ name +:+ " is missing or not text").
Definition bytes_field (v : option Value) (name : string) : result string bytes :=
  ok_or (v ≫= as_bytes) ("attestation payload field " +:+ name +:+ " is missing or not bytes").
Definition optional_bytes (v : option Value) : option bytes := v ≫= as_bytes.
Fixpoint read_pcrs (m : list (Value * Value)) (acc : gmap Z bytes) : result string (gmap Z bytes) :=
  match m with
  | [] => Ok acc
  | (k, v) :: m =>
      index ← ok_or (as_integer k ≫= try_upto u32_max) "PCR index is not an integer";
      value ← ok_or (as_bytes v) "PCR value is not bytes";
      read_pcrs m (<[index := value]> acc)
  end.
Fixpoint read_bundle (vs : list Value) : result string (list bytes) :=
  match vs with
  | [] => Ok []
  | v :: vs => b ← ok_or (as_bytes v) "cabundle entry is not a byte string"; bs ← read_bundle vs; Ok (b :: bs)
  end.
Definition decode_value (v : Value) : result string AttestationDocument :=
  m ← ok_or (as_map v) "attestation payload is not a CBOR map";
  module_id ← text (map_get m "module_id") "module_id";
  digest ← text (map_get m "digest") "digest";
  timestamp_ms ← ok_or ((map_get m "timestamp" ≫= as_integer) ≫= try_upto u64_max)
    "attestation payload field timestamp is missing or not an integer";
  pcr_map ← ok_or (map_get m "pcrs" ≫= as_map) "attestation payload field pcrs is missing or not a map";
  pcrs ← read_pcrs pcr_map ∅;
  certificate ← bytes_field (map_get m "certificate") "certificate";
  bundle ← ok_or (map_get m "cabundle" ≫= as_array) "attestation payload field cabundle is missing or not an array";
  cabundle ← read_bundle bundle;
  Ok {| module_id := module_id; timestamp_ms := timestamp_ms; digest := digest; pcrs := pcrs;
        certificate := certificate; cabundle := cabundle;
        public_key := optional_bytes (map_get m "public_key");
        user_data := optional_bytes (map_get m "user_data");
        nonce := optional_bytes (map_get m "nonce") |}.
Definition optional_value (o : option bytes) : Value := match o with Some b => Bytes b | None => Null end.
Definition encode_value (d : AttestationDocument) : Value :=
  Map [(Text "module_id", Text (module_id d)); (Text "digest", Text (digest d));
       (Text "timestamp", Integer (timestamp_ms d));
       (Text "pcrs", Map ((λ kv, (Integer kv.1, Bytes kv.2)) <$> btree_iter (pcrs d)));
       (Text "certificate", Bytes (certificate d)); (Text "cabundle", Array (Bytes <$> cabundle d));
       (Text "public_key", optional_value (public_key d)); (Text "user_data", optional_value (user_data d));
       (Text "nonce", optional_value (nonce d))].
Section payload.
Context `{!Codec Value}.
Definition decode_payload (payload : bytes) : result string AttestationDocument :=
  v ← ok_or (from_slice payload) "decoding the attestation payload"; decode_value v.
Definition encode_payload (d : AttestationDocument) : bytes := to_vec (encode_value d).
End payload.

(** ** Trust *)
Inductive Trust := ChainVerified | SelfSigned | Unsigned.
Record Verified := { document : AttestationDocument; trust : Trust }.
Record VerifyOptions := { trust_root : bytes; now : Z; allow_untrusted_root : bool }.

Inductive SignatureAlgorithm := ECDSA_P384_SHA384_ASN1 | ECDSA_P256_SHA256_ASN1 | ECDSA_P384_SHA384_FIXED.
Record Certificate := {
  subject : string; issuer : string; not_before : Z; not_after : Z;
  ca : option bool;  (** the basic constraints, when there are any that parse *)
  signature_algorithm : string; key : bytes; tbs : bytes; signature : bytes }.
Record CoseSign1 := { cs_payload : option bytes; cs_tbs : bytes; cs_signature : bytes }.
Class X509 := {
  x509_from_der : bytes → option Certificate;
  asn1_time : Z → option Z;  (** [ASN1Time::from_timestamp] *)
  ecdsa_verify : SignatureAlgorithm → bytes → bytes → bytes → bool }.
Class Coset := { from_tagged_slice : bytes → option CoseSign1; from_bare_slice : bytes → option CoseSign1 }.

Definition algorithm_of (oid : string) : result string SignatureAlgorithm :=
  if decide (oid = "1.2.840.10045.4.3.3") then Ok ECDSA_P384_SHA384_ASN1
  else if decide (oid = "1.2.840.10045.4.3.2") then Ok ECDSA_P256_SHA256_ASN1
  else Err "unsupported certificate signature algorithm".

Section verify.
Context `{X509, Coset, Base64Standard, !Codec Value}.

(** The lines from the first that opens a PEM block to the one that closes it. *)
Fixpoint drop_to (p : string) (ls : list string) : list string :=
  match ls with [] => [] | l :: ls' => if starts_with p l then ls else drop_to p ls' end.
Fixpoint take_to (p : string) (ls : list string) : list string :=
  match ls with [] => [] | l :: ls' => if starts_with p l then [] else l :: take_to p ls' end.
Definition decode_certificate (b : bytes) : result string bytes :=
  let s := bytes_str b in
  if starts_with "-----BEGIN" s then
    _ ← check (valid_utf8 s) "PEM certificate is not UTF-8";
    let body := foldr String.append "" (take_to "-----END" (tail (drop_to "-----BEGIN" (str_lines s)))) in
    ok_or (base64_decode (trim body)) "decoding the PEM certificate body"
  else Ok b.

Definition verify_certificate_signature (cert issuer : Certificate) : result string () :=
  alg ← algorithm_of (signature_algorithm cert);
  check (ecdsa_verify alg (key issuer) (tbs cert) (signature cert))
    "signature does not verify against the issuer's key".

(** One turn of the loop of [verify_chain]. *)
Definition check_certificate (opts : VerifyOptions) (above : option bytes) (der : bytes) (is_leaf : bool) :
    result string () :=
  cert ← ok_or (x509_from_der der) "parsing certificate";
  _ ← check (0 <=? now opts) "verification time is before the Unix epoch";
  t ← ok_or (asn1_time (now opts / 1000000000)) "converting the verification time";
  _ ← check ((not_before cert <=? t) && (t <=? not_after cert)) "certificate is not valid at the given time";
  _ ← check (is_leaf || default false (ca cert)) "certificate is not a CA but has one below it";
  match above with
  | None => Ok tt
  | Some above =>
      iss ← ok_or (x509_from_der above) "parsing issuer";
      _ ← check (bool_decide (issuer cert = subject iss)) "certificate names another issuer than it follows";
      verify_certificate_signature cert iss
  end.
Fixpoint check_certificates (opts : VerifyOptions) (above : option bytes) (chain : list bytes) : result string () :=
  match chain with
  | [] => Ok tt
  | der :: chain =>
      _ ← check_certificate opts above der (bool_decide (chain = []));
      check_certificates opts (Some der) chain
  end.
Definition verify_chain (d : AttestationDocument) (opts : VerifyOptions) : result string Trust :=
  match cabundle d with
  | [] => Err "attestation document has an empty cabundle, so nothing chains to a root"
  | presented_root :: _ =>
      expected_root ← decode_certificate (trust_root opts);
      trust ← (if decide (presented_root = expected_root) then Ok ChainVerified
               else if allow_untrusted_root opts then Ok SelfSigned
               else Err "attestation document does not chain to the expected root");
      _ ← check_certificates opts None (cabundle d ++ [certificate d]);
      Ok trust
  end.

(** ** Documents *)
Definition parse_cose (cose : bytes) : result string CoseSign1 :=
  match from_tagged_slice cose with
  | Some s => Ok s
  | None => ok_or (from_bare_slice cose) "parsing COSE_Sign1"
  end.
Definition payload_from_raw_cose (cose : bytes) : result string bytes :=
  v ← ok_or (from_slice cose) "document is not CBOR";
  a ← ok_or (as_array (match v with Tag _ inner => inner | v => v end)) "COSE_Sign1 is not a CBOR array";
  _ ← check (len a =? 4) "COSE_Sign1 has the wrong number of elements";
  ok_or (a !! 2%nat ≫= as_bytes) "COSE_Sign1 payload is not a byte string".
Definition parse (cose : bytes) : result string AttestationDocument :=
  match parse_cose cose with
  | Ok sign1 => p ← ok_or (cs_payload sign1) "COSE_Sign1 has no payload"; decode_payload p
  | Err _ => p ← payload_from_raw_cose cose; decode_payload p
  end.
Definition verify (cose : bytes) (opts : VerifyOptions) : result string Verified :=
  sign1 ← parse_cose cose;
  payload ← ok_or (cs_payload sign1) "COSE_Sign1 has no payload";
  document ← decode_payload payload;
  trust ← verify_chain document opts;
  leaf ← ok_or (x509_from_der (certificate document)) "parsing the leaf certificate";
  _ ← check (ecdsa_verify ECDSA_P384_SHA384_FIXED (key leaf) (cs_tbs sign1) (cs_signature sign1))
        "attestation document signature is not valid";
  Ok {| document := document; trust := trust |}.
End verify.

(** ** Expectations *)
Record Expectations := {
  want_pcrs : gmap Z bytes; want_nonce : option bytes; want_user_data : option bytes; max_age : option Z }.
Fixpoint expect_pcrs (d : AttestationDocument) (ps : list (Z * bytes)) : result string () :=
  match ps with
  | [] => Ok tt
  | (index, want) :: ps =>
      got ← ok_or (pcr index d) ("document carries no PCR" +:+ pretty index +:+ " to compare");
      _ ← check (bool_decide (got = want))
            ("PCR" +:+ pretty index +:+ " mismatch: document says " +:+ hex_encode got +:+ ", expected " +:+ hex_encode want);
      expect_pcrs d ps
  end.
Definition expect_field (got want : option bytes) (missing mismatch : string) : result string () :=
  match want with
  | None => Ok tt
  | Some want => got ← ok_or got missing; check (bool_decide (got = want)) mismatch
  end.
Definition expect (d : AttestationDocument) (e : Expectations) (now : Z) : result string () :=
  _ ← expect_pcrs d (btree_iter (want_pcrs e));
  _ ← expect_field (nonce d) (want_nonce e)
        "document carries no nonce, so it cannot be shown to be fresh" "nonce mismatch";
  _ ← expect_field (user_data d) (want_user_data e) "document carries no user_data" "user_data mismatch";
  match max_age e with
  | Some limit => check (Z.abs (now - timestamp d) <=? limit) "document is over the limit"
  | None => Ok tt
  end.

(** ** The layout of [user_data] *)
Record AttestationHashes := { tls_certificate : bytes; guest : bytes }.
Definition MULTIHASH_SHA256 : bytes := [Byte.x12; Byte.x20].
Definition ATTESTATION_HASHES_LEN : Z := 2 * (2 + 32).
Definition hashes_new `{Sha256} (tls_certificate_der guest_component : bytes) : AttestationHashes :=
  {| tls_certificate := sha256 tls_certificate_der; guest := sha256 guest_component |}.
Definition serialize (h : AttestationHashes) : bytes :=
  MULTIHASH_SHA256 ++ tls_certificate h ++ MULTIHASH_SHA256 ++ guest h.
Definition parse_hashes (b : bytes) : result string AttestationHashes :=
  _ ← check (len b =? ATTESTATION_HASHES_LEN) "user_data has the wrong length";
  _ ← check (bool_decide (slice 0 2 b = MULTIHASH_SHA256 ∧ slice 34 36 b = MULTIHASH_SHA256))
        "user_data does not carry two sha2-256 multihash prefixes";
  Ok {| tls_certificate := slice 2 34 b; guest := slice 36 68 b |}.

(** The register of the guest: one extension from zero. *)
Definition PCR_GUEST : Z := 16.
Class Sha384 := sha384 : bytes → bytes.
Definition pcr_after_one_extend `{Sha384} (data : bytes) : bytes := sha384 (replicate 48 Byte.x00 ++ data).
Definition guest_pcr `{Sha384, Sha256} (component : bytes) : bytes := pcr_after_one_extend (sha256 component).
