(* ===== verification/AttestationProps.v ===== *)
(** * Attestation documents: what a verified one establishes *)
From S2P Require Import Prelude Text Http Attestation.

(** ** The layout of [user_data] *)
Lemma parse_serialize h : length (tls_certificate h) = 32%nat → length (guest h) = 32%nat →
  parse_hashes (serialize h) = Ok h.
Proof.
  intros Ht Hg. unfold parse_hashes, serialize, ATTESTATION_HASHES_LEN, len. destruct h as [t g]. cbn [tls_certificate guest] in *.
  assert (length (MULTIHASH_SHA256 ++ t ++ MULTIHASH_SHA256 ++ g) = 68%nat) as Hl
    by (rewrite !length_app, Ht, Hg; done).
  assert (slice 0 2 (MULTIHASH_SHA256 ++ t ++ MULTIHASH_SHA256 ++ g) = MULTIHASH_SHA256) as H1
    by by apply slice_app_l.
  assert (slice 34 36 (MULTIHASH_SHA256 ++ t ++ MULTIHASH_SHA256 ++ g) = MULTIHASH_SHA256) as H2
    by (rewrite (slice_app_r 34 36), (slice_app_r _ _ t) by (rewrite ?Ht; simpl; lia); rewrite Ht; by apply slice_app_l).
  rewrite Hl, bool_decide_eq_true_2 by done. change (check (_ =? _) _) with (@Ok string () tt). cbn -[slice app MULTIHASH_SHA256]. do 2 f_equal.
  + rewrite (slice_app_r 2 34), slice_app_l by (rewrite ?Ht; simpl; lia). by apply slice_all.
  + rewrite (slice_app_r 36 68), (slice_app_r _ _ t), (slice_app_r _ _ MULTIHASH_SHA256) by (rewrite ?Ht; simpl; lia).
    rewrite Ht. by apply slice_all.
Qed.
(** [parse] and [serialize] of the hashes are inverse.  [parse] accepts
    exactly the 68-byte blobs that [serialize] writes for two digests of 32
    bytes, and gives back those digests: no other blob, whatever its length or
    its prefixes, is read as some pair of hashes. *)
Theorem hashes_roundtrip b h :
  parse_hashes b = Ok h ↔
  b = serialize h ∧ length (tls_certificate h) = 32%nat ∧ length (guest h) = 32%nat.
Proof.
  unfold parse_hashes, serialize, ATTESTATION_HASHES_LEN, len. split.
  - rewrite bind_Ok. intros (u & Hl & H). apply check_Ok, Z.eqb_eq in Hl.
    rewrite bind_Ok in H. destruct H as (u' & Hp & H). apply check_Ok in Hp.
    apply bool_decide_eq_true in Hp as [H1 H2]. injection H as <-. simpl. split_and!.
    + transitivity (slice 0 2 b ++ slice 2 34 b ++ slice 34 36 b ++ slice 36 68 b); [|by rewrite H1, H2].
      rewrite !app_assoc, !slices_app by lia. symmetry. apply slice_all. lia.
    + unfold slice. rewrite length_take, length_drop. lia.
    + unfold slice. rewrite length_take, length_drop. lia.
  - intros (-> & Ht & Hg). exact (parse_serialize h Ht Hg).
Qed.

(** ** The payload *)
Record document_wf (d : AttestationDocument) : Prop := {
  wf_timestamp : is_u64 (timestamp_ms d);
  wf_pcrs : map_Forall (λ i _, is_u32 i) (pcrs d) }.
Lemma try_upto_Some max z : 0 ≤ z ≤ max → try_upto max z = Some z.
Proof. intros [H1 H2]. unfold try_upto. apply Z.leb_le in H1, H2. by rewrite H1, H2. Qed.
Lemma read_pcrs_list (l : list (Z * bytes)) acc : Forall (λ kv, is_u32 kv.1) l → NoDup l.*1 →
  (∀ i, i ∈ l.*1 → acc !! i = None) →
  read_pcrs ((λ kv, (Integer kv.1, Bytes kv.2)) <$> l) acc = Ok (list_to_map l ∪ acc).
Proof.
  revert acc. induction l as [|[i v] l IH]; intros acc Hu Hnd Hacc; simpl.
  { by rewrite (left_id_L ∅ (∪)). }
  apply Forall_cons in Hu as [Hi Hu]. apply NoDup_cons in Hnd as [Hni Hnd].
  rewrite try_upto_Some by exact Hi. simpl. rewrite IH; [|done..|].
  - f_equal. by apply list_to_map_insert.
  - intros j Hj. rewrite lookup_insert_ne by (intros <-; done). apply Hacc. by right.
Qed.
Lemma read_pcrs_btree m : map_Forall (λ i _, is_u32 i) m →
  read_pcrs ((λ kv, (Integer kv.1, Bytes kv.2)) <$> btree_iter m) ∅ = Ok m.
Proof.
  intros Hm. rewrite read_pcrs_list.
  - by rewrite (right_id_L ∅ (∪)), list_to_map_btree.
  - apply Forall_forall. intros [i v] Hi%elem_of_btree_iter. by eapply Hm.
  - apply NoDup_btree_iter_fst.
  - intros. apply lookup_empty.
Qed.
Lemma read_bundle_bytes bs : read_bundle (Bytes <$> bs) = Ok bs.
Proof. induction bs as [|b bs IH]; [done|]. rewrite fmap_cons. cbn -[fmap]. by rewrite IH. Qed.
Lemma as_bytes_optional o : as_bytes (optional_value o) = o.
Proof. by destruct o. Qed.
Lemma map_get_cons n v m k : map_get ((Text n, v) :: m) k = if decide (n = k) then Some v else map_get m k.
Proof.
  unfold map_get. simpl. destruct (decide (n = k)) as [->|Hne]; [by rewrite bool_decide_eq_true_2|].
  rewrite bool_decide_eq_false_2; [done|]. by intros [=].
Qed.
(** Finds a field of a literal map. *)
Ltac find_field := repeat (rewrite map_get_cons; first [rewrite decide_True by done | rewrite decide_False by done]).
(** A payload reads back.  What is encoded the way the device encodes a
    document, its absent fields as null included, decodes to that document. *)
Theorem payload_roundtrip `{!Codec Value, !CodecLaws Value} d :
  document_wf d → decode_payload (encode_payload d) = Ok d.
Proof.
  intros [Ht Hp]. unfold decode_payload, encode_payload. rewrite from_to_vec.
  unfold decode_value, encode_value. cbn -[map_get btree_iter fmap]. find_field. cbn -[map_get btree_iter fmap].
  rewrite try_upto_Some by exact Ht. cbn -[map_get btree_iter fmap].
  rewrite read_pcrs_btree by exact Hp. cbn -[map_get btree_iter fmap]. rewrite read_bundle_bytes.
  cbn -[map_get btree_iter fmap optional_value]. rewrite !as_bytes_optional. by destruct d.
Qed.

(** ** Chains *)
Section chain.
Context `{X509, Coset, Base64Standard, !Codec Value}.
(** A certificate that may stand in a chain at a given time. *)
Definition valid_at (now : Z) (c : Certificate) : Prop :=
  0 ≤ now ∧ ∃ t, asn1_time (now / 1000000000) = Some t ∧ not_before c ≤ t ≤ not_after c.
Definition signed_by (c iss : Certificate) : Prop :=
  issuer c = subject iss ∧
  ∃ alg, algorithm_of (signature_algorithm c) = Ok alg ∧ ecdsa_verify alg (key iss) (tbs c) (signature c) = true.
(** A path of certificates: all valid, each that has one below it a CA that
    signed it; [above] is what the first is signed by. *)
Inductive path (now : Z) : option Certificate → list bytes → Prop :=
  | path_nil above : path now above []
  | path_cons above der c chain : x509_from_der der = Some c → valid_at now c →
      (∀ a, above = Some a → signed_by c a) → (chain ≠ [] → ca c = Some true) →
      path now (Some c) chain → path now above (der :: chain).
Lemma verify_signature_Ok c iss : verify_certificate_signature c iss = Ok tt ↔
  ∃ alg, algorithm_of (signature_algorithm c) = Ok alg ∧ ecdsa_verify alg (key iss) (tbs c) (signature c) = true.
Proof. unfold verify_certificate_signature. by read_ok. Qed.
(** What one turn of the loop decides, its error aside. *)
Lemma check_certificate_Ok opts above der leaf :
  check_certificate opts above der leaf = Ok tt ↔
  ∃ c, x509_from_der der = Some c ∧ valid_at (now opts) c ∧ (leaf = false → ca c = Some true) ∧
    (∀ b, above = Some b → ∃ iss, x509_from_der b = Some iss ∧ signed_by c iss).
Proof.
  unfold check_certificate, valid_at, signed_by. read_ok. setoid_rewrite orb_true_iff.
  setoid_rewrite andb_true_iff. setoid_rewrite Z.leb_le. split.
  - intros (c & Hc & _ & Hn & t & Ht & _ & Hv & _ & Hca & Ha). exists c. split_and!; [done|done|by exists t| |].
    + intros ->. destruct Hca as [[=]|Hca]. by destruct (ca c) as [[]|].
    + intros b ->. rewrite bind_Ok in Ha. destruct Ha as (iss & Hi%ok_or_Ok & Ha).
      rewrite bind_Ok in Ha. destruct Ha as (_ & Hs%check_Ok%bool_decide_eq_true & Ha).
      exists iss. split_and!; [done|done|]. by apply verify_signature_Ok.
  - intros (c & Hc & (Hn & t & Ht & Hv) & Hca & Ha). exists c. split; [done|]. exists tt. split; [done|].
    exists t. split; [done|]. exists tt. split; [done|]. exists tt. split.
    + destruct leaf; [by left|]. right. by rewrite Hca.
    + destruct above as [b|]; [|done]. destruct (Ha b eq_refl) as (iss & Hi & Hs & Halg).
      rewrite Hi. cbn. rewrite bool_decide_eq_true_2 by done. cbn. by apply verify_signature_Ok.
Qed.
Definition parsed (above : option bytes) (a : option Certificate) : Prop :=
  match above with None => a = None | Some b => ∃ c, x509_from_der b = Some c ∧ a = Some c end.
Lemma check_certificates_Ok opts above a chain : parsed above a →
  check_certificates opts above chain = Ok tt ↔ path (now opts) a chain.
Proof.
  revert above a. induction chain as [|der chain IH]; intros above a Ha; [by split; [constructor|]|].
  cbn [check_certificates]. rewrite bind_Ok. split.
  - intros ([] & (c & Hc & Hv & Hca & Hs)%check_certificate_Ok & Hrest). econstructor; [done|done| | |].
    + intros iss ->. destruct above as [b|]; [|done]. destruct Ha as (x & Hx & [= <-]).
      destruct (Hs b eq_refl) as (iss' & Hi & Hsig). by simplify_eq.
    + intros Hne. apply Hca. by apply bool_decide_eq_false_2.
    + apply (IH (Some der)); [by exists c|done].
  - inversion 1 as [|? ? c ? Hc Hv Hs Hca Hp]; subst. exists tt. split; [|by apply (IH (Some der) (Some c)); [exists c|]].
    apply check_certificate_Ok. exists c. split_and!; [done|done| |].
    + intros Hne%bool_decide_eq_false_1. by apply Hca.
    + intros b ->. destruct Ha as (iss & Hi & ->). exists iss. auto.
Qed.
(** The trust a chain earns: its root is the pinned one, or the caller allows others. *)
Definition root_trust (opts : VerifyOptions) (root pinned : bytes) (t : Trust) : Prop :=
  (root = pinned ∧ t = ChainVerified) ∨ (root ≠ pinned ∧ allow_untrusted_root opts = true ∧ t = SelfSigned).
Lemma verify_chain_Ok d opts t : verify_chain d opts = Ok t ↔
  ∃ root pinned, head (cabundle d) = Some root ∧ decode_certificate (trust_root opts) = Ok pinned ∧
    root_trust opts root pinned t ∧ path (now opts) None (cabundle d ++ [certificate d]).
Proof.
  unfold verify_chain, root_trust. destruct (cabundle d) as [|root bundle]; [split; [done|naive_solver]|].
  rewrite bind_Ok. setoid_rewrite bind_Ok. setoid_rewrite bind_Ok. split.
  - intros (pinned & Hr & t' & Ht & [] & Hc & [= ->]). exists root, pinned. split_and!; [done|done| |].
    + destruct (decide (root = pinned)); [left; by simplify_eq|]. right. by destruct (allow_untrusted_root opts); simplify_eq.
    + by apply (check_certificates_Ok opts None None) in Hc.
  - intros (root' & pinned & [= <-] & Hr & Ht & Hp). exists pinned. split; [done|]. exists t. split.
    + destruct Ht as [[-> ->]|(Hne & -> & ->)]; [by rewrite decide_True|by rewrite decide_False].
    + exists tt. split; [|done]. by apply (check_certificates_Ok opts None None).
Qed.
(** What [verify] accepts.  A document verifies, at a given trust, exactly
    when: it is a COSE_Sign1 whose payload decodes to that document; its bundle
    is not empty and starts with the pinned root, or the caller allows another
    one and the trust says so; the bundle and the document's own certificate
    are a path of certificates valid at that time, each signed by a CA before
    it whose name it gives; and the key of that certificate, and no other,
    signed the document. *)
Theorem verify_spec cose opts v :
  verify cose opts = Ok v ↔
  ∃ sign1 payload root pinned leaf,
    parse_cose cose = Ok sign1 ∧ cs_payload sign1 = Some payload ∧ decode_payload payload = Ok (document v) ∧
    head (cabundle (document v)) = Some root ∧ decode_certificate (trust_root opts) = Ok pinned ∧
    root_trust opts root pinned (trust v) ∧
    path (now opts) None (cabundle (document v) ++ [certificate (document v)]) ∧
    x509_from_der (certificate (document v)) = Some leaf ∧
    ecdsa_verify ECDSA_P384_SHA384_FIXED (key leaf) (cs_tbs sign1) (cs_signature sign1) = true.
Proof.
  unfold verify. rewrite bind_Ok. split.
  - intros (sign1 & Hs & E). apply bind_Ok in E as (payload & Hp%ok_or_Ok & E).
    apply bind_Ok in E as (d & Hd & E). apply bind_Ok in E as (t & Ht & E).
    apply bind_Ok in E as (leaf & Hl%ok_or_Ok & E). apply bind_Ok in E as (u & Hv%check_Ok & [= <-]).
    apply verify_chain_Ok in Ht as (root & pinned & Hr & Hpin & Hrt & Hpath).
    by exists sign1, payload, root, pinned, leaf.
  - intros (sign1 & payload & root & pinned & leaf & Hs & Hp & Hd & Hr & Hpin & Hrt & Hpath & Hl & Hv).
    exists sign1. split; [done|]. rewrite Hp. cbn. rewrite Hd. cbn.
    assert (verify_chain (document v) opts = Ok (trust v)) as Hc
      by (apply verify_chain_Ok; by exists root, pinned).
    rewrite Hc. cbn. rewrite Hl. cbn. rewrite Hv. cbn. by destruct v.
Qed.
End chain.

(** ** Expectations *)
Lemma expect_pcrs_Ok d ps : expect_pcrs d ps = Ok tt ↔ ∀ i w, (i, w) ∈ ps → pcr i d = Some w.
Proof.
  induction ps as [|[i w] ps IH]; cbn [expect_pcrs]; [split; [by intros _ ? ? ?%elem_of_nil|done]|].
  rewrite bind_Ok. setoid_rewrite bind_Ok. setoid_rewrite check_Ok. setoid_rewrite bool_decide_eq_true.
  setoid_rewrite ok_or_Ok. setoid_rewrite elem_of_cons. setoid_rewrite IH. split.
  - intros (got & Hg & _ & -> & Hps) i' w' [[= -> ->]|Hin]; auto.
  - intros Hall. exists w. split; [by apply Hall; left|]. exists tt. split; [done|]. auto.
Qed.
Lemma expect_field_Ok got want e1 e2 : expect_field got want e1 e2 = Ok tt ↔ ∀ w, want = Some w → got = Some w.
Proof.
  destruct want as [w|]; cbn; [|naive_solver]. rewrite bind_Ok. setoid_rewrite ok_or_Ok. setoid_rewrite check_Ok.
  setoid_rewrite bool_decide_eq_true. naive_solver.
Qed.
(** Expectations hold together: [expect] succeeds exactly when every
    register named holds the value named, the nonce and the user data, when
    expected, are present and equal, and the document's time is within the
    maximum age of [now], before or after it. *)
Lemma expect_Ok d e now :
  expect d e now = Ok tt ↔
  (∀ i w, want_pcrs e !! i = Some w → pcr i d = Some w) ∧
  (∀ w, want_nonce e = Some w → nonce d = Some w) ∧
  (∀ w, want_user_data e = Some w → user_data d = Some w) ∧
  (∀ limit, max_age e = Some limit → Z.abs (now - timestamp d) ≤ limit).
Proof.
  unfold expect. rewrite bind_Ok. setoid_rewrite bind_Ok. setoid_rewrite bind_Ok.
  assert (∀ m : gmap Z bytes, (∀ i w, (i, w) ∈ btree_iter m → pcr i d = Some w) ↔
    ∀ i w, m !! i = Some w → pcr i d = Some w) as Hb by (intros m; by setoid_rewrite elem_of_btree_iter).
  rewrite <-Hb, <-expect_pcrs_Ok, <-!expect_field_Ok. split.
  - intros ([] & Hp & [] & Hn & [] & Hu & Ha). split_and!; [done|exact Hn|exact Hu|].
    intros limit Hl. rewrite Hl in Ha. by apply check_Ok, Z.leb_le in Ha.
  - intros (Hp & Hn & Hu & Ha). exists tt. split; [done|]. exists tt. split; [exact Hn|]. exists tt. split; [exact Hu|].
    destruct (max_age e) as [limit|]; [|done]. apply check_Ok, Z.leb_le, Ha. done.
Qed.
