(* ===== verification/Attest.v ===== *)
(** * The proof on a response: [serve/attest.rs]

    The client's nonce, the document that binds it to the connection's
    certificate, and the headers a response gets.  The device is a parameter:
    what it answers to a request for a document. *)
From S2P Require Import Prelude Text Http Attestation.

Definition NONCE_HEADER : string := "x-enclave-nonce".
Definition ATTESTATION_HEADER : string := "x-enclave-attestation".
Definition MIN_NONCE_BYTES : Z := 8.
Definition MAX_NONCE_BYTES : Z := 64.
Definition MAX_DOCUMENT_HEADER_BYTES : Z := 16 * 1024.
Definition CONCURRENT_DOCUMENTS : Z := 4.

Inductive NonceError := NonceMissing | NotAscii | NotBase64Url | TooShort (n : Z) | TooLong (n : Z).
Definition nonce_error_display (e : NonceError) : string :=
  match e with
  | NonceMissing => "every request must carry " +:+ NONCE_HEADER +:+ ": " +:+ pretty MIN_NONCE_BYTES +:+ "..=" +:+
      pretty MAX_NONCE_BYTES +:+ " random bytes, base64url, unpadded"
  | NotAscii => NONCE_HEADER +:+ " is not printable ASCII"
  | NotBase64Url => NONCE_HEADER +:+ " is not unpadded base64url"
  | TooShort n => NONCE_HEADER +:+ " decoded to " +:+ pretty n +:+ " bytes; the minimum is " +:+ pretty MIN_NONCE_BYTES
  | TooLong n => NONCE_HEADER +:+ " decoded to " +:+ pretty n +:+ " bytes; the maximum is " +:+ pretty MAX_NONCE_BYTES
  end.

(** The device's request: the crate [nitro-nsm]. *)
Record AttestationRequest := { ar_user_data : option bytes; ar_nonce : option bytes; ar_public_key : option bytes }.
Definition with_user_data (b : bytes) : AttestationRequest :=
  {| ar_user_data := Some b; ar_nonce := None; ar_public_key := None |}.
Definition with_nonce (n : bytes) (r : AttestationRequest) : AttestationRequest :=
  {| ar_user_data := ar_user_data r; ar_nonce := Some n; ar_public_key := ar_public_key r |}.
Class Nsm := attest : AttestationRequest → result string bytes.
(** base64 of the standard alphabet, in its writing direction. *)
Class Base64Encode := base64_encode : bytes → string.

Inductive AttestError := NoCertificate | DeviceFailed (e : string) | TooLarge (n : Z).
Definition attest_error_display (e : AttestError) : string :=
  match e with
  | NoCertificate => "this connection has no certificate to bind"
  | DeviceFailed e => "the security module did not answer: " +:+ e
  | TooLarge n => "the document is " +:+ pretty n +:+ " bytes encoded, over the " +:+
      pretty MAX_DOCUMENT_HEADER_BYTES +:+ "-byte header ceiling"
  end.

Section attest.
Context `{Base64, Base64Encode, Nsm, Sha256}.

Definition nonce_from_headers (hs : headers) : result NonceError bytes :=
  v ← ok_or (header_get NONCE_HEADER hs) NonceMissing;
  s ← ok_or (to_str v) NotAscii;
  n ← ok_or (b64_decode (trim s)) NotBase64Url;
  _ ← check (MIN_NONCE_BYTES <=? len n) (TooShort (len n));
  _ ← check (len n <=? MAX_NONCE_BYTES) (TooLong (len n));
  Ok n.

Record ResponseAttestor := { attested_guest : bytes }.
Definition attestor_new (guest_component : bytes) : ResponseAttestor :=
  {| attested_guest := sha256 guest_component |}.
(** [HeaderValue::from_str] takes visible ASCII, space and tab. *)
Definition encode (document : bytes) : result AttestError bytes :=
  let s := base64_encode document in
  _ ← check (strlen s <=? MAX_DOCUMENT_HEADER_BYTES) (TooLarge (strlen s));
  _ ← check (all_chars header_char s) (DeviceFailed "document is not a header value");
  Ok (str_bytes s).
Definition sign (r : AttestationRequest) : result AttestError bytes :=
  d ← map_err DeviceFailed (attest r); encode d.
Definition document_request (a : ResponseAttestor) (leaf nonce : bytes) : AttestationRequest :=
  with_nonce nonce (with_user_data
    (serialize {| tls_certificate := sha256 leaf; guest := attested_guest a |})).
Definition document (a : ResponseAttestor) (certificate : option bytes) (nonce : bytes) : result AttestError bytes :=
  leaf ← ok_or certificate NoCertificate;
  sign (document_request a leaf nonce).
Definition stream_document (user_data : bytes) : result AttestError bytes := sign (with_user_data user_data).
Definition verify_fits (a : ResponseAttestor) : result AttestError Z :=
  d ← document a (Some (str_bytes "boot-time size probe")) (replicate 64 Byte.x00); Ok (len d).
End attest.

(** ** The headers of a response *)
Definition attach (document : bytes) (hs : headers) : headers :=
  header_insert "cache-control" (str_bytes "no-store") (header_insert ATTESTATION_HEADER document hs).
Definition strip (hs : headers) : headers := header_remove ATTESTATION_HEADER hs.

(** ** The device's permits

    [sign] takes a permit, moves it into the blocking call and gives it back
    when the device returns, whether or not its caller still waits. *)
Record Device := { permits : Z; in_device : list (bool * AttestationRequest) }.
Inductive device_step : Device → Device → Prop :=
  | device_start d r : 0 < permits d →
      device_step d {| permits := permits d - 1; in_device := (true, r) :: in_device d |}
  | device_cancel d ds1 r ds2 : in_device d = ds1 ++ (true, r) :: ds2 →
      device_step d {| permits := permits d; in_device := ds1 ++ (false, r) :: ds2 |}
  | device_return d ds1 w r ds2 : in_device d = ds1 ++ (w, r) :: ds2 →
      device_step d {| permits := permits d + 1; in_device := ds1 ++ ds2 |}.
Definition device_init (d : Device) : Prop := d = {| permits := CONCURRENT_DOCUMENTS; in_device := [] |}.
