(* ===== verification/AttestProps.v ===== *)
(** * The proof on a response: what it binds, and what it costs the device *)
From S2P Require Import Prelude Text Http Attestation AttestationProps Attest.

Section binds.
Context `{Sha256, !Sha256Laws}.
Lemma serialize_inj h h' : length (tls_certificate h) = 32%nat → length (guest h) = 32%nat →
  length (tls_certificate h') = 32%nat → length (guest h') = 32%nat → serialize h = serialize h' → h = h'.
Proof.
  intros H1 H2 H3 H4 Heq.
  pose proof (parse_serialize h H1 H2) as Hp. rewrite Heq, parse_serialize in Hp by done. congruence.
Qed.
(** A proof speaks for one connection.  The device is asked for a document
    of the nonce, the digest of the certificate this connection was served and
    the digest of the guest; a client that expects its own nonce, the
    certificate of its own handshake and a guest it holds a copy of accepts a
    document that carries what was asked exactly when its nonce is the one the
    runtime had, and the digest of its certificate and the digest of its guest
    are those of the runtime's. *)
Theorem connection_bound (d : AttestationDocument) component leaf n component' leaf' n' now :
  user_data d = ar_user_data (document_request (attestor_new component) leaf n) →
  nonce d = ar_nonce (document_request (attestor_new component) leaf n) →
  expect d {| want_pcrs := ∅; want_nonce := Some n'; want_user_data := Some (serialize (hashes_new leaf' component'));
              max_age := None |} now = Ok tt ↔
  n = n' ∧ sha256 leaf = sha256 leaf' ∧ sha256 component = sha256 component'.
Proof.
  intros Hu Hn. rewrite expect_Ok, Hu, Hn. cbn -[serialize]. split.
  - intros (_ & Hnonce & Huser & _). specialize (Hnonce _ eq_refl). specialize (Huser _ eq_refl).
    injection Hnonce as ->. apply (inj Some) in Huser as Heq.
    apply serialize_inj in Heq; [|apply sha256_length..]. by injection Heq.
  - intros (-> & Hl & Hc). unfold hashes_new. rewrite Hl, Hc.
    split_and!; [by intros ? ?; rewrite lookup_empty|by intros ? [= <-]..|done].
Qed.
End binds.

(** The device's limit holds.  Whatever requests arrive and whichever of
    their callers go away, the device never works on more than four documents
    at once, and a permit is free whenever it works on fewer. *)
Theorem device_bounded d : reachable device_init device_step d →
  len (in_device d) + permits d = CONCURRENT_DOCUMENTS ∧ 0 ≤ permits d.
Proof.
  revert d. apply reachable_invariant; [by intros d ->|].
  unfold len. intros d d' _ [H1 H2] Hs. destruct Hs as [d r Hp|d ds1 r ds2 Hd|d ds1 w r ds2 Hd];
    rewrite ?Hd in H1; cbn [permits in_device]; rewrite ?length_app in *; cbn [length] in *; lia.
Qed.
