(* ===== verification/AttestationWitness.v ===== *)
(** * Attestation: the properties at concrete documents

    A codec of CBOR values, a chain of three certificates whose signatures are
    the names of their issuers' keys, and a document that verifies under it. *)
From S2P Require Import Prelude Concrete Text Http Attestation AttestationProps Attest AttestProps.

Module AttestationWitness.
#[local] Instance sha : Sha256 := Concrete.sha.
#[local] Instance sha_laws : Sha256Laws := Concrete.sha_laws.

(** ** A codec of values *)
Fixpoint to_tree (v : Value) : gen_tree positive :=
  match v with
  | Integer z => GenNode 0 [GenLeaf (countable.encode z)]
  | Bytes b => GenNode 1 [GenLeaf (countable.encode b)]
  | Float f => GenNode 2 [GenLeaf (countable.encode f)]
  | Text s => GenNode 3 [GenLeaf (countable.encode s)]
  | Bool b => GenNode 4 [GenLeaf (countable.encode b)]
  | Null => GenNode 5 []
  | Tag t v => GenNode 6 [GenLeaf (countable.encode t); to_tree v]
  | Array vs => GenNode 7 (map to_tree vs)
  | Map kvs => GenNode 8 (map (λ kv, GenNode 9 [to_tree kv.1; to_tree kv.2]) kvs)
  end.
Definition leaf_of {A} `{Countable A} (p : positive) (f : A → Value) : Value :=
  match decode p with Some a => f a | None => Null end.
Fixpoint of_tree (t : gen_tree positive) : Value :=
  match t with
  | GenNode 0 [GenLeaf p] => leaf_of p Integer
  | GenNode 1 [GenLeaf p] => leaf_of p Bytes
  | GenNode 2 [GenLeaf p] => leaf_of p Float
  | GenNode 3 [GenLeaf p] => leaf_of p Text
  | GenNode 4 [GenLeaf p] => leaf_of p Bool
  | GenNode 6 [GenLeaf p; t] => leaf_of p (λ n, Tag n (of_tree t))
  | GenNode 7 ts => Array (map of_tree ts)
  | GenNode 8 ts => Map (map (λ t, match t with GenNode 9 [k; v] => (of_tree k, of_tree v) | _ => (Null, Null) end) ts)
  | _ => Null
  end.
Lemma of_to_tree : ∀ v, of_tree (to_tree v) = v.
Proof.
  fix IH 1. intros [z|b|f|s|b| |t v|vs|kvs]; simpl; unfold leaf_of; rewrite ?decode_encode; try done.
  - by rewrite IH.
  - f_equal. induction vs as [|v vs IHvs]; [done|]. simpl. by rewrite IH, IHvs.
  - f_equal. induction kvs as [|[k v] kvs IHkvs]; [done|]. simpl. by rewrite !IH, IHkvs.
Qed.
#[local] Instance value_eq_dec : EqDecision Value.
Proof.
  intros v w. destruct (decide (to_tree v = to_tree w)) as [Heq|Hne]; [left|right; by intros ->].
  by rewrite <-(of_to_tree v), Heq, of_to_tree.
Defined.
#[local] Instance value_countable : Countable Value := inj_countable' to_tree of_tree of_to_tree.
#[local] Instance value_codec : Codec Value := Concrete.codec Value.
#[local] Instance value_codec_laws : CodecLaws Value := Concrete.codec_laws Value.

Definition doc1 : AttestationDocument :=
  {| module_id := "i-1"; timestamp_ms := 1000; digest := "SHA384"; pcrs := {[ 0 := [Byte.x2a]; 16 := [Byte.x2b] ]};
     certificate := [Byte.x03]; cabundle := [[Byte.x01]; [Byte.x02]]; public_key := None;
     user_data := Some [Byte.x07]; nonce := None |}.
Lemma payload_roundtrip_witness : decode_payload (encode_payload doc1) = Ok doc1.
Proof.
  apply payload_roundtrip. split; [vm_compute; by split|].
  apply (bool_decide_unpack (map_Forall (λ i _, 0 ≤ i ∧ i ≤ u32_max) (pcrs doc1))). vm_compute. exact I.
Defined.

(** ** A document that verifies *)
Definition cert (name by_ : string) (k : bytes) (sig : bytes) (is_ca : option bool) : Certificate :=
  {| subject := name; issuer := by_; not_before := 0; not_after := 100; ca := is_ca;
     signature_algorithm := "1.2.840.10045.4.3.3"; key := k; tbs := str_bytes name; signature := sig |}.
#[local] Instance x509 : X509 := {|
  x509_from_der b :=
    if decide (b = [Byte.x01]) then Some (cert "root" "root" [Byte.x11] [] (Some true))
    else if decide (b = [Byte.x02]) then Some (cert "zone" "root" [Byte.x12] [Byte.x11] (Some true))
    else if decide (b = [Byte.x03]) then Some (cert "leaf" "zone" [Byte.x13] [Byte.x12] None)
    else None;
  asn1_time t := Some t;
  ecdsa_verify _ k _ s := bool_decide (k = s) |}.
#[local] Instance coset : Coset := {|
  from_tagged_slice b := match b with
    | Byte.xd2 :: p => Some {| cs_payload := Some p; cs_tbs := p; cs_signature := [Byte.x13] |}
    | _ => None end;
  from_bare_slice _ := None |}.
#[local] Instance base64 : Base64Standard := λ _, None.
Definition opts1 : VerifyOptions := {| trust_root := [Byte.x01]; now := 50 * 1000000000; allow_untrusted_root := false |}.
Example verify1 :
  verify (Byte.xd2 :: encode_payload doc1) opts1 = Ok {| Attestation.document := doc1; trust := ChainVerified |}.
Proof. vm_compute. reflexivity. Qed.
Example verify_late : is_ok (verify (Byte.xd2 :: encode_payload doc1) {| trust_root := [Byte.x01];
  now := 101 * 1000000000; allow_untrusted_root := false |}) = false.
Proof. vm_compute. reflexivity. Qed.

(** ** A connection *)
Definition leaf1 : bytes := replicate 32 Byte.x05.
Definition wasm1 : bytes := replicate 32 Byte.x06.
Definition nonce1 : bytes := replicate 8 Byte.x09.
Definition served : AttestationDocument :=
  {| module_id := "i-1"; timestamp_ms := 1000; digest := "SHA384"; pcrs := ∅; certificate := []; cabundle := [];
     public_key := None; user_data := ar_user_data (document_request (attestor_new wasm1) leaf1 nonce1);
     nonce := Some nonce1 |}.
Lemma connection_bound_witness :
  expect served {| want_pcrs := ∅; want_nonce := Some nonce1; want_user_data := Some (serialize (hashes_new leaf1 wasm1));
                   max_age := None |} 0 = Ok tt.
Proof. by apply (connection_bound served wasm1 leaf1 nonce1 wasm1 leaf1 nonce1 0). Defined.
Definition busy : Device := {| permits := 3; in_device := [(false, with_user_data [])] |}.
Lemma device_bounded_witness : len (in_device busy) + permits busy = 4.
Proof.
  assert (reachable device_init device_step busy) as Hr.
  { eapply reachable_step; [|by apply (device_cancel {| permits := 3; in_device := [(true, with_user_data [])] |}
      [] (with_user_data []) [])].
    eapply reachable_step; [by apply reachable_init|]. by apply device_start. }
  exact (proj1 (device_bounded busy Hr)).
Defined.
End AttestationWitness.
