(* ===== verification/Serve.v ===== *)
(** * Serving: [serve/http.rs], and the tenant header of [serve/client.rs]

    A request is routed, gated, handed to the guest and answered.  The guest is
    a parameter: for the request it is handed, a [GuestRun] says what it writes,
    what it raises, what it answers and how its call ends.  A body is the polls
    it answers, one after the other; wasmtime, hyper and the clock are in the
    arguments.  The storage is the one the credentials are kept in. *)
From S2P Require Import Prelude Text Http Attestation Attest AuthToken Devices Notify Storage Credentials Gate Routes.

(** ** Bodies *)
Inductive poll (A : Type) := Pending | Ready (a : A).
Arguments Pending {A}. Arguments Ready {A} a.
Inductive frame := Data (b : bytes) | Trailers (hs : headers).
Definition is_data (f : frame) : bool := match f with Data _ => true | _ => false end.
(** What the oneshot channel of the anchor answers, polled [wait] times before. *)
Record Anchored := { wait : nat; outcome : result () (result string ()) }.
Inductive Phase := Streaming | Holding (trailers : option frame) | Finished.
Record AnchoredBody := { inner : list (poll (option (result string frame))); anchored : Anchored; phase : Phase }.

(** The arm [Holding], and the whole of [poll_frame]: its loop goes round once more
    at most, from [Streaming] to [Holding]. *)
Definition poll_holding (b : AnchoredBody) (trailers : option frame) : poll (option (result string frame)) * AnchoredBody :=
  match wait (anchored b) with
  | S n => (Pending, {| inner := inner b; anchored := {| wait := n; outcome := outcome (anchored b) |};
                        phase := Holding trailers |})
  | O => (Ready (match outcome (anchored b) with
                 | Ok (Ok _) => Ok <$> trailers
                 | _ => Some (Err "the response's writes could not be made durable") end),
          {| inner := inner b; anchored := anchored b; phase := Finished |})
  end.
Definition poll_frame (b : AnchoredBody) : poll (option (result string frame)) * AnchoredBody :=
  match phase b with
  | Finished => (Ready None, b)
  | Holding trailers => poll_holding b trailers
  | Streaming =>
      match inner b with
      | Ready (Some (Ok (Data d))) :: rest =>
          (Ready (Some (Ok (Data d))), {| inner := rest; anchored := anchored b; phase := Streaming |})
      | Ready (Some (Ok f)) :: rest =>
          poll_holding {| inner := rest; anchored := anchored b; phase := Streaming |} (Some f)
      | Ready None :: rest => poll_holding {| inner := rest; anchored := anchored b; phase := Streaming |} None
      | [] => poll_holding b None
      | p :: rest => (p, {| inner := rest; anchored := anchored b; phase := Streaming |})
      end
  end.
Definition is_end_stream (b : AnchoredBody) : bool := match phase b with Finished => true | _ => false end.
(** How hyper sends a body: polls until the end or an error, unless the body
    says it has ended. *)
Inductive ending := Complete | Broken (e : string) | Unfinished.
Fixpoint send_body (fuel : nat) (b : AnchoredBody) : list frame * ending :=
  match fuel with
  | O => ([], Unfinished)
  | S fuel =>
      if is_end_stream b then ([], Complete)
      else match poll_frame b with
      | (Pending, b) => send_body fuel b
      | (Ready None, _) => ([], Complete)
      | (Ready (Some (Err e)), _) => ([], Broken e)
      | (Ready (Some (Ok f)), b) => let '(fs, e) := send_body fuel b in (f :: fs, e)
      end
  end.

Inductive OutBody := Full (b : bytes) | Streamed (b : AnchoredBody).
Record HttpResponse := { hr_status : Z; hr_headers : headers; hr_body : OutBody }.
(** What the client sees of a body. *)
Definition client_sees (b : OutBody) : list frame * ending :=
  match b with
  | Full b => ([Data b], Complete)
  | Streamed b => send_body (length (inner b) + wait (anchored b) + 3) b
  end.
(** [BodyExt::collect]: the frames, or the first error. *)
Fixpoint collect (polls : list (poll (option (result string frame)))) : result string (list frame) :=
  match polls with
  | [] => Ok []
  | Pending :: polls => collect polls
  | Ready None :: _ => Ok []
  | Ready (Some (Err e)) :: _ => Err e
  | Ready (Some (Ok f)) :: polls => fs ← collect polls; Ok (f :: fs)
  end.
Definition to_bytes (fs : list frame) : bytes :=
  concat ((λ f, match f with Data b => b | Trailers _ => [] end) <$> fs).

Definition informational (status : Z) : bool := (100 <=? status) && (status <? 200).
Definition bodiless (head : bool) (status : Z) : bool :=
  head || informational status || (status =? 204) || (status =? 304).
Definition after_anchor (status : Z) (hs : headers) (body : list (poll (option (result string frame))))
    (anchored : Anchored) (head : bool) : result string HttpResponse :=
  if negb (bodiless head status) && bool_decide (header_get_all "content-length" hs = []) then
    Ok {| hr_status := status; hr_headers := hs;
          hr_body := Streamed {| inner := body; anchored := anchored; phase := Streaming |} |}
  else
    fs ← collect body;
    r ← ok_or (to_option (outcome anchored)) "the guest's call ended before its writes were anchored";
    _ ← r;
    Ok {| hr_status := status; hr_headers := hs; hr_body := Full (to_bytes fs) |}.

(** ** The tenant header *)
Definition X_ENCLAVE_TENANT : string := "x-enclave-tenant".
Definition apply_tenant (tenant : option bytes) (hs : headers) : headers :=
  match tenant with
  | Some id => header_insert X_ENCLAVE_TENANT (str_bytes (hex_encode id)) hs
  | None => header_remove X_ENCLAVE_TENANT hs
  end.
(** The headers of the gate do not reach the guest. *)
Definition forwardable (hs : headers) : headers := filter (λ h, h.1 ∉ AUTH_HEADERS) hs.

(** ** One call of the guest *)
(** How the response outparam was answered, and how the task ended without it. *)
Inductive head_outcome :=
  | HeadSet (status : Z) (hs : headers) (body : list (poll (option (result string frame))))
  | HeadError (e : string)
  | NeverSet (ended : result string ())  (** returned, or failed or panicked *)
  | TimedOut.
Record GuestRun := {
  gr_instantiates : bool;
  gr_edits : list ((string * string) * option bytes);  (** files of its own directory *)
  gr_wakes : list (string * option string);
  gr_head : head_outcome;
  gr_finishes : bool;  (** its task ran to the end: neither aborted nor stopped by a deadline *)
  gr_anchor_wait : nat }.
Record World := { w_zfs : Zfs; w_notifier : option Notifier }.
Definition set_zfs (z : Zfs) (w : World) : World := {| w_zfs := z; w_notifier := w_notifier w |}.
Definition set_notifier (f : Notifier → Notifier) (w : World) : World :=
  {| w_zfs := w_zfs w; w_notifier := f <$> w_notifier w |}.
Definition on_zfs {E A} (m : M Zfs E A) : M World E A := zoom w_zfs set_zfs m.

Definition edit (t : bytes) (z : Zfs) (e : (string * string) * option bytes) : Zfs :=
  put_file (PTenant t e.1.1 e.1.2) e.2 z.
Definition guest_writes (t : bytes) (g : GuestRun) (z : Zfs) : Zfs := foldl (edit t) z (gr_edits g).
Fixpoint stage_all (t : bytes) (ws : list (string * option string)) (n : Notifier) : Notifier :=
  match ws with [] => n | (c, r) :: ws => stage_all t ws (stage t c r n).2 end.
(** [await_head]: what the request is answered with, before its end is held. *)
Definition await_head (h : head_outcome) :
    result string (Z * headers * list (poll (option (result string frame)))) :=
  match h with
  | HeadSet status hs body => Ok (status, hs, body)
  | HeadError e => Err e
  | NeverSet (Ok _) => Err "guest returned without calling response-outparam::set"
  | NeverSet (Err e) => Err "guest failed before setting a response"
  | TimedOut => Err "guest did not produce a response within its timeout; abandoned"
  end.
(** The rest of the spawned task: the anchor, and the wakes that ride on it. *)
Definition settle (t : bytes) (wakes : bool) : M World string (result string ()) :=
  r ← attempt (on_zfs (anchor_tenant t));
  _ ← (if wakes then
         modify (set_notifier (match r with Ok _ => deliver_staged t | Err _ => drop_staged t end))
       else mret tt);
  mret r.
Definition ANONYMOUS : bytes := replicate 16 Byte.x00.
(** What [in_tenant] and [in_fresh_instance] have in common: the first
    instantiates before its task, the other in it; only a tenant's guest raises
    wakes. *)
Definition run_guest (t : bytes) (tenant : bool) (head : bool) (g : GuestRun) : M World string HttpResponse :=
  _ ← on_zfs (tenant_dir t);
  _ ← ensure (gr_instantiates g) "instantiating the guest";
  _ ← modify (λ w, set_zfs (guest_writes t g (w_zfs w)) w);
  _ ← (if tenant then modify (set_notifier (stage_all t (gr_wakes g))) else mret tt);
  sent ← (if gr_finishes g then r ← settle t tenant; mret (Ok r) else mret (Err tt));
  r ← lift (await_head (gr_head g));
  lift (after_anchor r.1.1 r.1.2 r.2 {| wait := gr_anchor_wait g; outcome := sent |} head).
Definition in_tenant (t : bytes) (head : bool) (g : GuestRun) : M World string HttpResponse := run_guest t true head g.
Definition in_fresh_instance (head : bool) (g : GuestRun) : M World string HttpResponse := run_guest ANONYMOUS false head g.
(** At start-up: the guest's initialiser runs, and with tasks it exports [run-task]. *)
Definition verify_instantiates (tasks starts starts_in_background exports_run_task : bool) : result string () :=
  _ ← check starts "instantiating the guest";
  if tasks then
    _ ← check starts_in_background "instantiating the guest";
    check exports_run_task "background tasks require the run-task export"
  else Ok tt.

(** ** Messages and background work *)
(** [run_message]: a reply leaves once what it was computed from is anchored. *)
Definition run_message (t : bytes) (edits : list ((string * string) * option bytes))
    (wakes : list (string * option string)) (answer : result string bytes) : M World string bytes :=
  _ ← on_zfs (existing_tenant_dir t);
  _ ← modify (λ w, set_zfs (foldl (edit t) (w_zfs w) edits) w);
  _ ← modify (set_notifier (stage_all t wakes));
  b ← lift answer;
  _ ← ensure (len b <=? 256 * 1024) "reply exceeds the message ceiling";
  r ← attempt (on_zfs (anchor_tenant t));
  match r with
  | Ok _ => _ ← modify (set_notifier (deliver_staged t)); mret b
  | Err e => _ ← modify (set_notifier (drop_staged t)); fail e
  end.

(** ** Routing *)
Record IncomingRequest := { rq : Request; rq_body : option bytes (** what reading the body gives *) }.
Record Deployment := {
  has_auth : bool; has_gate : bool; has_tenancy : bool; attestor : option ResponseAttestor }.
Section serve.
Context `{WebAuthn, Sha256, !Codec (StoredCredential Passkey), !AuthJson, !Base64, !Base64Encode, !Nsm}.
Context (json_text : Body → bytes) (error_text : string → bytes).
Context (guest : Request → GuestRun).
Record Server := { auth : AuthEndpoints; sv_notifier : option Notifier }.
Definition world (s : Server) : World :=
  {| w_zfs := fc_zfs (Gate.credentials (gate (auth s))); w_notifier := sv_notifier s |}.
Definition set_world (w : World) (s : Server) : Server :=
  {| auth := set_gate (Gate.set_credentials (set_fc_zfs (w_zfs w) (Gate.credentials (gate (auth s)))) (gate (auth s))) (auth s);
     sv_notifier := w_notifier w |}.
Definition set_auth (a : AuthEndpoints) (s : Server) : Server := {| auth := a; sv_notifier := sv_notifier s |}.
Definition redeem_request (now : Z) (r : Request) : M Server Denied Verified :=
  λ s, let '(v, g) := Gate.redeem now r (gate (auth s)) in (v, set_auth (set_gate g (auth s)) s).

Definition refused (status : Z) (detail : string) : HttpResponse :=
  {| hr_status := status; hr_headers := [("content-type", str_bytes "application/json")];
     hr_body := Full (error_text detail) |}.
Definition of_auth (r : Response) : HttpResponse :=
  {| hr_status := rs_status r; hr_headers := (λ h, (h.1, str_bytes h.2)) <$> rs_headers r;
     hr_body := Full (json_text (rs_body r)) |}.

(** [ServeHandle::handle]: the request the guest is handed, and its call. *)
Definition handed (tenant : option bytes) (r : Request) : Request := set_headers (apply_tenant tenant) r.
Definition handle_guest (d : Deployment) (r : Request) (tenant : option bytes) : M Server string HttpResponse :=
  let head := bool_decide (rq_method r = "HEAD") in
  let g := guest (handed tenant r) in
  zoom world set_world
    (match tenant with
     | Some t => if has_tenancy d then in_tenant t head g else in_fresh_instance head g
     | None => in_fresh_instance head g
     end).
Definition route (d : Deployment) (e : Env) (i : IncomingRequest) : M Server string HttpResponse :=
  let path := rq_path (rq i) in
  if has_auth d && starts_with AUTH_PREFIX path then
    match rq_body i with
    | None => mret (refused 400 "malformed request")
    | Some body => λ s,
        let '(o, a) := handle e (rq_method (rq i)) path body (auth s) in
        (Ok (match o with Some r => of_auth r | None => refused 404 "no such endpoint" end), set_auth a s)
    end
  else if has_gate d then
    v ← attempt (redeem_request (now e) (rq i));
    match v with
    | Ok v => handle_guest d (set_headers forwardable (rq i)) (Some (v_tenant_id v))
    | Err denied => mret (refused (status denied) (public_message denied))
    end
  else handle_guest d (rq i) None.

(** The service closure of [serve_connection]. *)
Definition set_response_headers (f : headers → headers) (r : HttpResponse) : HttpResponse :=
  {| hr_status := hr_status r; hr_headers := f (hr_headers r); hr_body := hr_body r |}.
Definition service (d : Deployment) (certificate : option bytes) (e : Env) (i : IncomingRequest) :
    M Server string HttpResponse :=
  match nonce_from_headers (rq_headers (rq i)) with
  | Err err => mret (refused 400 (nonce_error_display err))
  | Ok nonce =>
      let attest_this := starts_with AUTH_PREFIX (rq_path (rq i)) in
      match attestor d with
      | Some a =>
          if attest_this then
            match document a certificate nonce with
            | Err _ =>
                mret (set_response_headers (header_insert "connection" (str_bytes "close"))
                        (refused 503 "this response could not be attested"))
            | Ok doc => r ← route d e i; mret (set_response_headers (attach doc) r)
            end
          else r ← route d e i; mret (set_response_headers strip r)
      | None => r ← route d e i; mret (set_response_headers strip r)
      end
  end.
End serve.
