(* ===== verification/ServeProps.v ===== *)
(** * Serving: what a complete answer says of the disk, and what crosses the gate *)
From S2P Require Import Prelude Text Http Attestation Attest AuthToken Devices Notify Storage Credentials Gate Routes Serve.

(** ** The end of a streamed body *)
(** The frames a body has, up to its trailers, and the error it breaks with. *)
Fixpoint body_frames (polls : list (poll (option (result string frame)))) : list frame * option string :=
  match polls with
  | [] => ([], None)
  | Pending :: polls => body_frames polls
  | Ready None :: _ => ([], None)
  | Ready (Some (Err e)) :: _ => ([], Some e)
  | Ready (Some (Ok (Data d))) :: polls => let '(fs, e) := body_frames polls in (Data d :: fs, e)
  | Ready (Some (Ok f)) :: _ => ([f], None)
  end.
Definition data_only (fs : list frame) : list frame := filter (λ f, is_data f = true) fs.
(** What reaches the client: all of it when the anchor was made, no clean end
    and no trailers otherwise. *)
Definition sent_of (polls : list (poll (option (result string frame)))) (o : result () (result string ())) :
    list frame * ending :=
  match body_frames polls with
  | (fs, Some e) => (fs, Broken e)
  | (fs, None) => match o with
                  | Ok (Ok _) => (fs, Complete)
                  | _ => (data_only fs, Broken "the response's writes could not be made durable")
                  end
  end.
Lemma send_holding n polls tr o fuel : (n + 1 < fuel)%nat →
  send_body fuel {| inner := polls; anchored := {| wait := n; outcome := o |}; phase := Holding tr |} =
  match o with
  | Ok (Ok _) => (option_list tr, Complete)
  | _ => ([], Broken "the response's writes could not be made durable")
  end.
Proof.
  revert fuel. induction n as [|n IH]; intros [|[|fuel]] Hf; try lia.
  - simpl. destruct o as [[[]|e]|[]]; [|done..]. by destruct tr.
  - cbn [send_body is_end_stream phase poll_frame poll_holding anchored wait].
    apply (IH (S fuel)). lia.
Qed.
Lemma send_streaming polls n o fuel : (length polls + n + 2 < fuel)%nat →
  send_body fuel {| inner := polls; anchored := {| wait := n; outcome := o |}; phase := Streaming |} = sent_of polls o.
Proof.
  unfold sent_of. revert fuel. induction polls as [|p polls IH]; intros fuel Hf.
  { destruct fuel as [|fuel]; [simpl in Hf; lia|].
    transitivity (send_body (S fuel) {| inner := []; anchored := {| wait := n; outcome := o |}; phase := Holding None |});
      [done|]. rewrite send_holding by (simpl in Hf; lia). by destruct o as [[[]|]|]. }
  destruct fuel as [|fuel]; [simpl in Hf; lia|]. simpl in Hf.
  destruct p as [|[[[d|hs]|e]|]].
  - cbn [send_body is_end_stream phase poll_frame inner body_frames anchored]. apply IH. lia.
  - cbn [send_body is_end_stream phase poll_frame inner body_frames anchored].
    rewrite IH by lia. destruct (body_frames polls) as [fs [e|]]; [done|].
    destruct o as [[[]|]|]; [done|..]; unfold data_only; by rewrite filter_cons, decide_True.
  - transitivity (send_body (S fuel) {| inner := polls; anchored := {| wait := n; outcome := o |}; phase := Holding (Some (Trailers hs)) |});
      [done|]. rewrite send_holding by lia. by destruct o as [[[]|]|].
  - done.
  - transitivity (send_body (S fuel) {| inner := polls; anchored := {| wait := n; outcome := o |}; phase := Holding None |});
      [done|]. rewrite send_holding by lia. by destruct o as [[[]|]|].
Qed.
(** A client that sees an answer end cleanly was answered after the anchor. *)
Lemma complete_anchored status hs body a head resp fs :
  after_anchor status hs body a head = Ok resp → client_sees (hr_body resp) = (fs, Complete) →
  outcome a = Ok (Ok tt).
Proof.
  unfold after_anchor. destruct (negb _ && _).
  - intros [= <-]. simpl. destruct a as [n o]. rewrite send_streaming by (simpl; lia). unfold sent_of.
    destruct (body_frames body) as [fs' [e|]]; [done|]. by destruct o as [[[]|]|].
  - destruct (collect body); [|done]. simpl. by destruct (outcome a) as [[[]|]|].
Qed.
(** And a guest whose writes were anchored has the whole of its body sent. *)
Lemma anchored_complete status hs body n head :
  (body_frames body).2 = None → bodiless head status = false → header_get_all "content-length" hs = [] →
  ∃ resp, after_anchor status hs body {| wait := n; outcome := Ok (Ok tt) |} head = Ok resp ∧
    client_sees (hr_body resp) = ((body_frames body).1, Complete).
Proof.
  intros Hb Hh Hl. unfold after_anchor. rewrite Hh, Hl. simpl. eexists. split; [done|]. simpl.
  rewrite send_streaming by lia. unfold sent_of. destruct (body_frames body) as [fs [e|]]; [done|]. done.
Qed.

(** ** The tenant's pool is there once its directory is *)
Lemma create_tenant_pool t z z' : create_tenant t z = (Ok tt, z') → is_Some (pools z' !! t).
Proof.
  unfold create_tenant. intros Hc. inv_bind Hc. inv_bind Hc. inv_bind Hc. inv_bind Hc. inv_bind Hc.
  inv_bind Hc. inv_pure. inv_bind Hc.
  apply (frame_pool _ _ (frame_anchor_control _ _ _ Hc)), (frame_pool _ _ (frame_write_catalog _ _ _ _ _ Hrun4)).
  simpl. rewrite lookup_insert_eq. by eexists.
Qed.
Lemma open_or_create_pool t z z' : open_or_create_tenant t true z = (Ok tt, z') → is_Some (pools z' !! t).
Proof.
  unfold open_or_create_tenant. intros Hc. inv_bind Hc. destruct a as [e|]; [|by eapply create_tenant_pool].
  apply import_tenant_inv in Hc as [[f ->] Hp]. simpl. by apply Hp.
Qed.
Lemma tenant_pool_ready t z z' : slots_ok z → tenant_pool t true z = (Ok tt, z') →
  imported t z' = true ∧ is_Some (pools z' !! t).
Proof.
  unfold tenant_pool. intros Hs Hc. inv_bind Hc. inv_pure. inv_bind Hc.
  assert (slots_ok s) as Hs1.
  { destruct (decide (is_Some _)); [by inv_pure|]. inv_bind Hrun; inv_pure.
    intros t' Ht'. simpl in *. by apply lookup_insert_Some in Ht' as [[_ [=]]|[_ Ht']]; apply Hs. }
  clear Hrun. inv_bind Hc. inv_pure. destruct (imported t s) eqn:Hi.
  - inv_pure. split; [done|]. apply Hs1. unfold imported in Hi. by destruct (tenants s !! t) as [[]|].
  - inv_bind Hc. inv_pure. units. apply open_or_create_pool in Hrun.
    split; [|exact Hrun]. unfold imported. simpl. by rewrite lookup_insert_eq.
Qed.
Lemma tenant_dir_ready t z a z' : slots_ok z → tenant_dir t z = (Ok a, z') →
  imported t z' = true ∧ is_Some (pools z' !! t).
Proof.
  unfold tenant_dir. intros Hs Hc. inv_bind Hc. inv_pure. inv_bind Hc. inv_pure. units. by eapply tenant_pool_ready.
Qed.

(** ** What a call leaves *)
Definition last_edit (es : list ((string * string) * option bytes)) (k : string * string) : option (option bytes) :=
  snd <$> find (λ e, bool_decide (e.1 = k)) (reverse es).
Lemma edit_imported t z e : imported t (edit t z e) = imported t z.
Proof. done. Qed.
Lemma edit_pool t z e : is_Some (pools z !! t) → is_Some (pools (edit t z e) !! t).
Proof. intros [tp Ht]. unfold edit. simpl. rewrite lookup_alter_eq, Ht. by eexists. Qed.
Lemma file_edit t z e k : is_Some (pools z !! t) →
  file (edit t z e) (PTenant t k.1 k.2) = if decide (e.1 = k) then e.2 else file z (PTenant t k.1 k.2).
Proof.
  intros [tp Ht]. unfold edit, file. simpl. rewrite lookup_alter_eq, Ht. simpl.
  destruct e as [[d n] o], k as [d' n']. simpl. destruct (decide ((d, n) = (d', n'))) as [[= -> ->]|Hne].
  - by rewrite lookup_partial_alter_eq.
  - by rewrite lookup_partial_alter_ne.
Qed.
Lemma edits_spec t es z k : is_Some (pools z !! t) →
  imported t (foldl (edit t) z es) = imported t z ∧ is_Some (pools (foldl (edit t) z es) !! t) ∧
  (∀ o, last_edit es k = Some o → file (foldl (edit t) z es) (PTenant t k.1 k.2) = o).
Proof.
  revert z. induction es as [|e es IH] using rev_ind; intros z Hz; [by split_and!|].
  rewrite foldl_snoc. destruct (IH z Hz) as (H1 & H2 & H3). split_and!; [done|by apply edit_pool|].
  intros o Ho. rewrite file_edit by done. unfold last_edit in Ho. rewrite reverse_snoc in Ho. simpl in Ho.
  destruct (decide (e.1 = k)) as [Heq|Hne]; [by rewrite bool_decide_eq_true_2 in Ho by done; simplify_eq/=|].
  rewrite bool_decide_eq_false_2 in Ho by done. by apply H3.
Qed.
Lemma storage_ok_edits t es z : storage_ok z → storage_ok (foldl (edit t) z es).
Proof.
  revert z. induction es as [|e es IH]; intros z Hz; [done|]. simpl. apply IH. by apply storage_ok_put_file.
Qed.
Definition queue_of (w : World) : option (list Wake) := queue <$> w_notifier w.
Lemma stage_queue t c r n : queue (stage t c r n).2 = queue n.
Proof. unfold stage. run_m. Qed.
Lemma stage_all_queue t ws n : queue (stage_all t ws n) = queue n.
Proof. revert n. induction ws as [|[c r] ws IH]; intros n; [done|]. simpl. by rewrite IH, stage_queue. Qed.
Lemma queue_of_set_zfs z w : queue_of (set_zfs z w) = queue_of w.
Proof. done. Qed.
Lemma queue_of_notifier f w : (∀ n, queue (f n) = queue n) → queue_of (set_notifier f w) = queue_of w.
Proof. intros Hf. unfold queue_of. simpl. destruct (w_notifier w); simpl; [by rewrite Hf|done]. Qed.
Lemma on_zfs_inv {E A} (m : M Zfs E A) w r w' : on_zfs m w = (r, w') →
  ∃ z, m (w_zfs w) = (r, z) ∧ w' = set_zfs z w.
Proof. apply zoom_inv. Qed.
Lemma settle_inv t wakes w r w' : settle t wakes w = (r, w') →
  ∃ x z, anchor_tenant t (w_zfs w) = (x, z) ∧ r = Ok x ∧ w_zfs w' = z ∧
    (queue_of w' ≠ queue_of w → x = Ok tt).
Proof.
  unfold settle. intros Hc. inv_bind Hc; [|by (unfold attempt in Hrun; destruct (on_zfs _ _))].
  unfold attempt in Hrun. destruct (on_zfs (anchor_tenant t) w) as [x w1] eqn:Ha.
  apply on_zfs_inv in Ha as (z & Hz & ->). injection Hrun as -> <-.
  exists a, z. inv_bind Hc; [|by destruct wakes; inv_pure]. inv_pure.
  assert (w_zfs w' = z) as Hs by (by destruct wakes; inv_pure).
  split_and!; [done|done|done|]. intros Hq. destruct a as [[]|e]; [done|]. destruct Hq.
  destruct wakes; inv_pure; [by rewrite queue_of_notifier|done].
Qed.
(** How the call's task ended, as the answer's end waits for it. *)
Inductive settled (t : bytes) (z : Zfs) (w w' : World) : result () (result string ()) → Prop :=
  | settled_anchored x : anchor_tenant t z = (x, w_zfs w') → (queue_of w' ≠ queue_of w → x = Ok tt) →
      settled t z w w' (Ok x)
  | settled_aborted : w_zfs w' = z → queue_of w' = queue_of w → settled t z w w' (Err tt).
Lemma run_guest_inv t tenant head g w r w' : run_guest t tenant head g w = (r, w') →
  (∃ e, r = Err e ∧ queue_of w' = queue_of w) ∨
  ∃ a z sent, tenant_dir t (w_zfs w) = (Ok a, z) ∧ settled t (guest_writes t g z) w w' sent ∧
    r = (x ← await_head (gr_head g);
         after_anchor x.1.1 x.1.2 x.2 {| wait := gr_anchor_wait g; outcome := sent |} head).
Proof.
  intros E. unfold run_guest in E.
  inv_bind E; apply on_zfs_inv in Hrun as (z & Hd & ->); [|left; by eexists].
  inv_bind E; inv_pure; [|left; by eexists].
  inv_bind E; inv_pure. inv_bind E; [|by destruct tenant; inv_pure]. right. exists a, z.
  match type of Hrun with _ = (_, ?s) =>
    assert (w_zfs s = guest_writes t g z ∧ queue_of s = queue_of w) as [Hz Hq] by
      (destruct tenant; inv_pure; [|done]; split; [done|]; by rewrite queue_of_notifier; [|intros; apply stage_all_queue]) end.
  clear Hrun. inv_bind E.
  - exists a2. rewrite <-Hz. split; [done|].
    assert (settled t (w_zfs s) w s0 a2) as Hs.
    { destruct (gr_finishes g); [|inv_pure; by constructor].
      inv_bind Hrun. inv_pure. apply settle_inv in Hrun0 as (x & z3 & Ha & [= ->] & <- & Hx).
      constructor; [done|]. by rewrite <-Hq. }
    inv_bind E; apply lift_inv in Hrun0 as [Hh ->].
    + apply lift_inv in E as [<- <-]. by rewrite Hh.
    + by rewrite Hh.
  - destruct (gr_finishes g); [|done]. inv_bind Hrun; inv_pure.
    by apply settle_inv in Hrun0 as (? & ? & _ & [=] & _).
Qed.
(** ** What a tenant's run leaves of the others *)
(** [others t z z']: of every other tenant, the pool and all that a restart can
    find of it, and the control files, are as they were. *)
Definition others (t : bytes) (z z' : Zfs) : Prop :=
  (∀ t', t' ≠ t → pools z' !! t' = pools z !! t') ∧
  ctl_files (content (control z')) = ctl_files (content (control z)).
Section others.
Context (t : bytes) (z0 : Zfs).
Notation kept := (others t z0).
Lemma others_ext z z' : pools z' = pools z → control z' = control z → kept z → kept z'.
Proof. intros Hp Hc. unfold others. by rewrite Hp, Hc. Qed.
Lemma others_next_outcome : preserves kept next_outcome.
Proof. intros z Hz. unfold next_outcome. by destruct (faults z). Qed.
Lemma others_io : preserves kept io.
Proof. unfold io. apply preserves_bind; [apply others_next_outcome|]. intros []; solve_preserves. Qed.
Lemma others_draw w : preserves kept (draw w).
Proof. intros z Hz. unfold draw. by destruct (draws z). Qed.
Lemma others_ensure {E} b (e : E) : preserves kept (ensure b e).
Proof. by intros z. Qed.
Local Hint Resolve others_next_outcome others_io preserves_io_ others_draw others_ensure : preserves.
Lemma others_anchor_control : preserves kept anchor_control.
Proof.
  unfold anchor_control. apply preserves_get. intros z Hz. unfold_m.
  destruct (anchor_now (control z) z) as [r z1] eqn:E.
  destruct (anchor_now_cases _ _ _ _ E) as [(f & ->) Hp]. destruct r as [p|e]; [|done].
  destruct Hz as [H1 H2]. split; [done|]. destruct (Hp _ eq_refl) as [[-> _]|[-> | ->]]; exact H2.
Qed.
Lemma others_set_pool f z : kept z → kept (set_pools (alter f t (pools z)) z).
Proof. intros [H1 H2]. split; [|done]. intros t' Ht. cbn. rewrite lookup_alter_ne by done. by apply H1. Qed.
Lemma others_anchor_pool : preserves kept (anchor_pool t).
Proof.
  unfold anchor_pool. apply preserves_get. intros z Hz. destruct (pools z !! t) as [tp|] eqn:Et; [|done].
  unfold_m. destruct (anchor_now (tp_pool tp) z) as [r z1] eqn:E.
  destruct (anchor_now_cases _ _ _ _ E) as [(f & ->) _]. destruct r as [p|e]; [|done]. by apply others_set_pool.
Qed.
Local Hint Resolve others_anchor_control others_anchor_pool : preserves.
Lemma others_anchor_tenant : preserves kept (anchor_tenant t).
Proof.
  unfold anchor_tenant. apply preserves_get. intros z Hz. by_preserves.
  apply preserves_bind; [destruct (imported t z)|]; eauto with preserves.
Qed.
Lemma others_write_catalog e : preserves kept (write_catalog t e).
Proof. unfold write_catalog. solve_preserves. by apply preserves_modify. Qed.
Lemma others_read_catalog : preserves kept (read_catalog t).
Proof. unfold read_catalog. solve_preserves. Qed.
Lemma others_free_region : preserves kept free_region.
Proof. unfold free_region, catalog. apply preserves_bind; [solve_preserves|]. intros es. by intros z Hz. Qed.
Lemma others_tenant_spec r : preserves kept (tenant_spec r).
Proof.
  unfold tenant_spec. apply preserves_get. intros z Hz. by_preserves.
  apply preserves_bind; [by intros ?|]. intros; auto with preserves.
Qed.
Local Hint Resolve others_write_catalog others_read_catalog others_free_region others_tenant_spec : preserves.
Lemma others_create_tenant : preserves kept (create_tenant t).
Proof.
  unfold create_tenant. solve_preserves. apply preserves_modify. intros z [H1 H2]. split; [|done].
  intros t' Ht. cbn. rewrite lookup_insert_ne by done. by apply H1.
Qed.
Lemma others_import_tenant e : preserves kept (import_tenant t e).
Proof.
  unfold import_tenant. do 2 (apply preserves_bind; [auto with preserves|intros _]).
  apply preserves_get. intros z Hz. by_preserves. apply preserves_bind; [by intros ?|].
  intros. solve_preserves.
Qed.
Local Hint Resolve others_create_tenant others_import_tenant : preserves.
Lemma others_tenant_pool b : preserves kept (tenant_pool t b).
Proof.
  unfold tenant_pool. apply preserves_get. intros z Hz. by_preserves. apply preserves_bind.
  - case_decide; [auto with preserves|]. solve_preserves. by apply preserves_modify.
  - intros _. apply preserves_get. intros z' Hz'. by_preserves.
    destruct (imported t z'); [auto with preserves|].
    apply preserves_bind; [|intros _; by apply preserves_modify].
    unfold open_or_create_tenant. solve_preserves.
Qed.
Local Hint Resolve others_tenant_pool : preserves.
Lemma others_tenant_dir : preserves kept (tenant_dir t).
Proof. unfold tenant_dir. apply preserves_get. intros z Hz. by_preserves. solve_preserves. Qed.
Lemma others_writes g z : kept z → kept (guest_writes t g z).
Proof.
  unfold guest_writes. revert z. induction (gr_edits g) as [|e es IH]; intros z Hz; [done|]. cbn. apply IH. by apply others_set_pool.
Qed.
End others.
Lemma others_refl t z : others t z z.
Proof. done. Qed.
Lemma others_file t z z' t' d n : others t z z' → t' ≠ t → file z' (PTenant t' d n) = file z (PTenant t' d n).
Proof. intros [Hp _] Ht. unfold file. by rewrite Hp. Qed.

(** The wakes that a run adds are its tenant's, and of the other tenants' nothing
    is staged that was not, and nothing is lost. *)
Definition others_wakes (t : bytes) (n n' : Notifier) : Prop :=
  (∃ ks, queue n' = queue n ++ ks ∧ Forall (λ k, wk_tenant k = t) ks) ∧
  ∀ t', t' ≠ t → staged n' !! t' = staged n !! t'.
Lemma others_wakes_refl t n : others_wakes t n n.
Proof. split; [exists []; by rewrite app_nil_r|done]. Qed.
Lemma others_wakes_trans t n n1 n2 : others_wakes t n n1 → others_wakes t n1 n2 → others_wakes t n n2.
Proof.
  intros [(k1 & Q1 & F1) S1] [(k2 & Q2 & F2) S2]. split.
  - exists (k1 ++ k2). split; [by rewrite Q2, Q1, app_assoc|by apply Forall_app_2].
  - intros t' Ht. by rewrite S2, S1.
Qed.
Lemma others_wakes_stage t ws n : others_wakes t n (stage_all t ws n).
Proof.
  revert n. induction ws as [|[c r] ws IH]; intros n; [apply others_wakes_refl|]. cbn. eapply others_wakes_trans, IH.
  split; [exists []; by rewrite stage_queue, app_nil_r|]. intros t' Ht. unfold stage. run_m. by rewrite lookup_insert_ne.
Qed.
Lemma others_wakes_raise t c r n : others_wakes t n (raise t c r n).2.
Proof.
  unfold raise, try_send, attempt. run_m; try apply others_wakes_refl; (split; [|done]);
    first [by exists []; rewrite app_nil_r|eexists; split; [reflexivity|by repeat constructor]].
Qed.
Lemma others_wakes_raise_all t ws n : others_wakes t n (raise_all t ws n).
Proof.
  revert n. induction ws as [|[c r] ws IH]; intros n; [apply others_wakes_refl|]. cbn.
  eapply others_wakes_trans; [apply others_wakes_raise|apply IH].
Qed.
Lemma others_wakes_unstage t n : others_wakes t n (set_staged (delete t) n).
Proof. split; [exists []; by rewrite app_nil_r|]. intros t' Ht. cbn. by rewrite lookup_delete_ne. Qed.
Lemma others_wakes_deliver t n : others_wakes t n (deliver_staged t n).
Proof. eapply others_wakes_trans; [apply others_wakes_unstage|apply others_wakes_raise_all]. Qed.

(** [aside t w w']: a whole run of [t], as the rest of the world sees it. *)
Definition aside (t : bytes) (w w' : World) : Prop :=
  others t (w_zfs w) (w_zfs w') ∧
  match w_notifier w, w_notifier w' with
  | Some n, Some n' => others_wakes t n n'
  | None, None => True
  | _, _ => False
  end.
Lemma aside_others t w w' : aside t w w' → others t (w_zfs w) (w_zfs w').
Proof. by intros [? _]. Qed.
Lemma aside_refl t w : aside t w w.
Proof. split; [apply others_refl|]. destruct (w_notifier w); [apply others_wakes_refl|done]. Qed.
Section aside.
Context (t : bytes) (w0 : World).
Lemma aside_on_zfs {E A} (m : M Zfs E A) : preserves (others t (w_zfs w0)) m → preserves (aside t w0) (on_zfs m).
Proof.
  intros Hm w [Hz Hn]. unfold on_zfs, zoom. destruct (m (w_zfs w)) as [r z] eqn:Er. split; [|exact Hn].
  exact (preserves_ok _ _ _ _ _ Hm Hz Er).
Qed.
Lemma aside_notifier {E} f : (∀ n, others_wakes t n (f n)) → preserves (aside t w0) (modify (set_notifier f) : M World E ()).
Proof.
  intros Hf. apply preserves_modify. intros w [Hz Hn]. split; [exact Hz|]. cbn.
  destruct (w_notifier w0), (w_notifier w); try done. eapply others_wakes_trans; [exact Hn|apply Hf].
Qed.
Lemma aside_settle wakes : preserves (aside t w0) (settle t wakes).
Proof.
  unfold settle. apply preserves_bind; [apply preserves_attempt, aside_on_zfs, others_anchor_tenant|]. intros r.
  apply preserves_bind; [|intros; by apply preserves_ret].
  destruct wakes; [|by apply preserves_ret]. destruct r; apply aside_notifier; intros n; [apply others_wakes_deliver|apply others_wakes_unstage].
Qed.
Lemma aside_run_guest tenant head g : preserves (aside t w0) (run_guest t tenant head g).
Proof.
  unfold run_guest. apply preserves_bind; [apply aside_on_zfs, others_tenant_dir|intros _].
  apply preserves_bind; [by intros ?|intros _].
  apply preserves_bind; [apply preserves_modify; intros w [Hz Hn]; split; [by apply others_writes|done]|intros _].
  apply preserves_bind; [destruct tenant; [apply aside_notifier; intros n; apply others_wakes_stage|by apply preserves_ret]|intros _].
  apply preserves_bind; [|intros; apply preserves_bind; [apply preserves_lift|intros; apply preserves_lift]].
  destruct (gr_finishes g); [|apply preserves_ret]. apply preserves_bind; [apply aside_settle|intros; apply preserves_ret].
Qed.
End aside.
(** A run that answers leaves the tenant's own files as the guest last wrote them. *)
Lemma run_guest_own t tenant head g w resp w' : slots_ok (w_zfs w) → run_guest t tenant head g w = (Ok resp, w') →
  ∀ dir name o, last_edit (gr_edits g) (dir, name) = Some o → file (w_zfs w') (PTenant t dir name) = o.
Proof.
  intros Hsl [(e & [=] & _)|(a & z & sent & Hd & Hs & Hr)]%run_guest_inv dir name o Ho.
  destruct (tenant_dir_ready _ _ _ _ Hsl Hd) as [_ Hpool].
  destruct (edits_spec t (gr_edits g) z (dir, name) Hpool) as (_ & _ & H3). rewrite <-(H3 o Ho).
  destruct Hs as [x Ha _|Hz _]; [|by rewrite Hz]. by apply (frame_file _ _ (frame_anchor_tenant _ _ _ _ Ha)).
Qed.

(** C3: a complete answer is durable.  When the client of a tenant's request
    sees the response end cleanly, whatever its body's shape and whatever the
    anchor and the outside did, or when a wake of the call was queued for
    sending, then every restart that follows finds each file the guest wrote in
    that call as it last wrote it, and the control files and the catalog as the
    call left them. *)
Theorem answer_is_durable t tenant head g w r w' z'' :
  storage_ok (w_zfs w) → slots_ok (w_zfs w) → run_guest t tenant head g w = (r, w') → restart (w_zfs w') z'' →
  (∃ resp fs, r = Ok resp ∧ client_sees (hr_body resp) = (fs, Complete)) ∨ queue_of w' ≠ queue_of w →
  (∀ dir name o, last_edit (gr_edits g) (dir, name) = Some o → file z'' (PTenant t dir name) = o) ∧
  (∀ dir name, file z'' (PControl dir name) = file (w_zfs w') (PControl dir name)) ∧
  ctl_catalog (content (control z'')) = ctl_catalog (content (control (w_zfs w'))).
Proof.
  intros Hok Hsl [(e & -> & Hq)|(a & z & sent & Hd & Hs & Hr)]%run_guest_inv Hre Hseen.
  { exfalso. by destruct Hseen as [(resp & fs & [=] & _)|Hq']. }
  pose proof (preserves_ok _ _ _ _ _ (storage_ok_tenant_dir t) Hok Hd) as Hok1.
  destruct (tenant_dir_ready _ _ _ _ Hsl Hd) as [Himp Hpool].
  assert (anchor_tenant t (guest_writes t g z) = (Ok tt, w_zfs w')) as Ha.
  { destruct Hseen as [(resp & fs & -> & Hc)|Hq]; [|by destruct Hs as [x Ha Hx|Hx]; [rewrite (Hx Hq) in Ha|]].
    destruct (await_head (gr_head g)) as [h|e]; [|done]. simpl in Hr.
    symmetry in Hr. eapply complete_anchored in Hr; [|exact Hc]. simpl in Hr. subst sent. by inversion Hs. }
  pose proof (storage_ok_edits t (gr_edits g) z Hok1) as [Hwf _].
  destruct (anchored_restart _ _ _ _ Hwf Ha Hre) as [Hc Hp].
  assert (content (control (w_zfs w')) = content (control (guest_writes t g z))) as Hc'
    by by destruct (anchor_tenant_Ok _ _ _ Hwf Ha) as [-> _].
  split_and!; [|intros dir name; unfold file; by rewrite Hc, Hc'|by rewrite Hc, Hc'].
  intros dir name o Ho. destruct (edits_spec t (gr_edits g) z (dir, name) Hpool) as (H1 & [tp Ht] & H3).
  rewrite <-(H3 o Ho). destruct (Hp ltac:(by rewrite <-Himp) tp Ht) as (tp' & Ht' & Hcont).
  unfold file. cbn [fst snd]. rewrite Ht', Ht. simpl. by rewrite Hcont.
Qed.

(** ** Wakes of calls that fail *)
Lemma run_message_Err t edits wakes e w z : existing_tenant_dir t (w_zfs w) = (Ok tt, z) →
  run_message t edits wakes (Err e) w =
    (Err e, set_notifier (stage_all t wakes) (set_zfs (foldl (edit t) z edits) w)).
Proof. intros Hd. unfold run_message, on_zfs, zoom. unfold_m. by rewrite Hd. Qed.
