(* ===== verification/ServiceProps.v ===== *)
(** * Serving: what the guest is handed, and which answers carry a proof *)
From S2P Require Import Prelude Text Http Attestation Attest AuthToken RoutesProps Devices Notify Storage Credentials Gate Routes Serve ServeProps.

Section service.
Context `{WebAuthn, Sha256, !Codec (StoredCredential Passkey), !AuthJson, !Base64, !Base64Encode, !Nsm}.
Context (json_text : Body → bytes) (error_text : string → bytes).
Notation route := (route json_text error_text).
Notation service := (service json_text error_text).

Lemma forwardable_get_all name hs :
  header_get_all name (forwardable hs) = if decide (name ∈ AUTH_HEADERS) then [] else header_get_all name hs.
Proof.
  unfold header_get_all, forwardable. induction hs as [|h hs IH]; [simpl; by case_decide|].
  rewrite (filter_cons _ h hs). destruct (decide (h.1 ∉ AUTH_HEADERS)) as [Hn|Hn].
  - rewrite !filter_cons. destruct (decide (h.1 = name)) as [<-|]; [|exact IH].
    rewrite !fmap_cons, IH. rewrite !decide_False by done. done.
  - rewrite IH. apply dec_stable in Hn. rewrite filter_cons. destruct (decide (name ∈ AUTH_HEADERS)); [done|].
    by rewrite decide_False by (intros <-; done).
Qed.
(** What the gate makes of a request: the runtime's word for the tenant, no
    token, and the rest as it was sent. *)
Record handed_as (t : bytes) (r r' : Request) : Prop := {
  handed_line : rq_method r' = rq_method r ∧ rq_path r' = rq_path r ∧ rq_query r' = rq_query r;
  handed_tenant : header_get_all X_ENCLAVE_TENANT (rq_headers r') = [str_bytes (hex_encode t)];
  handed_token : header_get_all AUTHORIZATION_HEADER (rq_headers r') = [];
  handed_rest name : name ≠ X_ENCLAVE_TENANT → name ≠ AUTHORIZATION_HEADER →
    header_get_all name (rq_headers r') = header_get_all name (rq_headers r) }.
Lemma handed_spec t r : handed_as t r (handed (Some t) (set_headers forwardable r)).
Proof.
  split; simpl.
  - done.
  - apply header_get_all_insert.
  - rewrite header_get_all_insert_ne by done. rewrite forwardable_get_all. by rewrite decide_True by left.
  - intros name H1' H2'. rewrite header_get_all_insert_ne by done. rewrite forwardable_get_all.
    rewrite decide_False; [done|]. unfold AUTH_HEADERS. set_solver.
Qed.
Lemma redeem_request_inv now r s x s' : redeem_request now r s = (x, s') →
  ∃ g, Gate.redeem now r (gate (auth s)) = (x, g) ∧ s' = set_auth (set_gate g (auth s)) s.
Proof. unfold redeem_request. destruct (Gate.redeem _ _ _) as [v g]. intros [= <- <-]. eauto. Qed.

(** Redeeming a token is no matter of the storage or of the wakes. *)
Lemma redeem_request_world now r s x s' : redeem_request now r s = (x, s') → world s' = world s.
Proof.
  intros (g & Hr & ->)%redeem_request_inv. unfold world, set_auth. cbn.
  by destruct (gate_redeem_inv _ _ _ _ _ Hr) as [[-> _]|(tok & r0 & _ & _ & -> & _)].
Qed.
Lemma world_set_world w s : world (set_world w s) = w.
Proof. by destruct w. Qed.
(** C2: the guest sees only what the gate let through, as the tenant it let
    through.  In a deployment with a gate, a request to the public routes is
    answered by them without the guest, and raises no wake; one that the gate
    refuses leaves all storage and every wake as they were; any other was
    redeemed for a tenant, and then the guest is asked about exactly one request:
    the one that was sent, without its token and with that tenant's id as the
    only value of the tenant header, whatever the client put there.  Its run is
    that tenant's: every other tenant's pool, with all that a restart could find
    of it, the control files, and what is staged for others are as they were,
    and the wakes added are that tenant's; and when it is answered, the tenant's
    own files are as the guest last wrote them.  (Without tenancy the place of
    the tenant is the anonymous one.) *)
Theorem guest_behind_gate d e i s guest x s' :
  has_gate d = true → slots_ok (w_zfs (world s)) → route guest d e i s = (x, s') →
  (has_auth d = true ∧ starts_with AUTH_PREFIX (rq_path (rq i)) = true ∧ sv_notifier s' = sv_notifier s ∧
     ∀ guest', route guest' d e i s = (x, s')) ∨
  (∃ denied g, Gate.redeem (now e) (rq i) (gate (auth s)) = (Err denied, g) ∧
     x = Ok (refused error_text (status denied) (public_message denied)) ∧ world s' = world s) ∨
  ∃ v g r', Gate.redeem (now e) (rq i) (gate (auth s)) = (Ok v, g) ∧ handed_as (v_tenant_id v) (rq i) r' ∧
    (∀ guest', guest' r' = guest r' → route guest' d e i s = (x, s')) ∧
    let home := if has_tenancy d then v_tenant_id v else ANONYMOUS in
    aside home (world s) (world s') ∧
    ∀ resp, x = Ok resp → ∀ dir name o, last_edit (gr_edits (guest r')) (dir, name) = Some o →
      file (w_zfs (world s')) (PTenant home dir name) = o.
Proof.
  intros Hg Hsl. unfold Serve.route. destruct (has_auth d && starts_with AUTH_PREFIX (rq_path (rq i))) eqn:Ea.
  { intros E. left. apply andb_true_iff in Ea as [-> ->]. split_and!; [done|done| |done].
    destruct (rq_body i) as [body|]; [|by injection E as <- <-].
    destruct (handle e (rq_method (rq i)) (rq_path (rq i)) body (auth s)) as [o a]. by injection E as <- <-. }
  rewrite Hg. intros E. right.
  apply mbind_inv in E as [(r & s1 & E1 & E)|(err & E1 & _)]; unfold attempt in E1;
    destruct (redeem_request (now e) (rq i) s) as [v s2] eqn:Er; [|done]. injection E1 as <- <-.
  pose proof (redeem_request_world _ _ _ _ _ Er) as Hw. pose proof Er as (g & Hr & _)%redeem_request_inv.
  destruct v as [v|denied]; [right|left; exists denied, g; by injection E as <- <-].
  exists v, g, (handed (Some (v_tenant_id v)) (set_headers forwardable (rq i))).
  split; [done|]. split; [apply handed_spec|]. split.
  { intros guest' Heq. unfold attempt. unfold_m. rewrite Er. rewrite <- E. unfold handle_guest. by rewrite Heq. }
  unfold handle_guest in E. cbn zeta. set (r' := handed _ _) in *.
  assert (∃ tenant head w', run_guest (if has_tenancy d then v_tenant_id v else ANONYMOUS) tenant head (guest r') (world s) = (x, w') ∧
    world s' = w') as (tenant & head & w' & Hrun & ->).
  { apply zoom_inv in E as (w' & E & ->). rewrite Hw in E. rewrite world_set_world.
    destruct (has_tenancy d); [eexists true, _, w'|eexists false, _, w']; split; [exact E|done|exact E|done]. }
  split; [exact (preserves_ok _ _ _ _ _ (aside_run_guest _ _ _ _ _) (aside_refl _ _) Hrun)|].
  intros resp -> dir name o Ho. by eapply run_guest_own.
Qed.
(** And without a gate no request carries a tenant. *)
Lemma no_gate_no_tenant r : header_get_all X_ENCLAVE_TENANT (rq_headers (handed None r)) = [].
Proof. apply header_get_all_remove. Qed.

Lemma attach_get doc hs : header_get_all ATTESTATION_HEADER (attach doc hs) = [doc].
Proof. unfold attach. rewrite header_get_all_insert_ne by done. apply header_get_all_insert. Qed.
Lemma attach_cache doc hs : header_get_all "cache-control" (attach doc hs) = [str_bytes "no-store"].
Proof. apply header_get_all_insert. Qed.
Lemma strip_get hs : header_get_all ATTESTATION_HEADER (strip hs) = [].
Proof. apply header_get_all_remove. Qed.
(** C17: the proof header is the runtime's.  A request without a usable nonce is
    refused before anything runs.  Every other answer of a deployment with an
    attestor, to a path under [/auth/], carries exactly one proof: the device's
    document of this connection's certificate and this request's nonce, and is
    not to be stored; if the device gives none the answer is a 503 and nothing
    ran.  No other answer carries the header, whatever the guest set. *)
Theorem proof_is_the_runtimes guest d certificate e i s r s' :
  service guest d certificate e i s = (Ok r, s') →
  match nonce_from_headers (rq_headers (rq i)) with
  | Err err => s' = s ∧ hr_status r = 400 ∧ header_get_all ATTESTATION_HEADER (hr_headers r) = []
  | Ok nonce =>
      match attestor d with
      | Some a =>
          if starts_with AUTH_PREFIX (rq_path (rq i)) then
            match document a certificate nonce with
            | Ok doc => header_get_all ATTESTATION_HEADER (hr_headers r) = [doc] ∧
                header_get_all "cache-control" (hr_headers r) = [str_bytes "no-store"]
            | Err _ => s' = s ∧ hr_status r = 503 ∧ header_get_all ATTESTATION_HEADER (hr_headers r) = []
            end
          else header_get_all ATTESTATION_HEADER (hr_headers r) = []
      | None => header_get_all ATTESTATION_HEADER (hr_headers r) = []
      end
  end.
Proof.
  unfold Serve.service. destruct (nonce_from_headers _) as [nonce|err]; [|by intros [= <- <-]].
  destruct (attestor d) as [a|]; [destruct (starts_with _ _); [destruct (document a certificate nonce) as [doc|err]|]|].
  - intros E. inv_bind E. inv_pure. split; [apply attach_get|apply attach_cache].
  - by intros [= <- <-].
  - intros E. inv_bind E. inv_pure. apply strip_get.
  - intros E. inv_bind E. inv_pure. apply strip_get.
Qed.
End service.

(** ** Serving: the properties at concrete calls

    A tenant's request that writes one file and raises one wake, answered and
    anchored; a gated request; and a message whose failed run leaves its wake
    to the next. *)
From S2P Require Import Concrete Slots SlotsProps.

Module ServeWitness.
#[local] Existing Instances RoutesWitness.sha RoutesWitness.webauthn RoutesWitness.stored_codec RoutesWitness.hex64
  RoutesWitness.auth_json.
Definition t1 : bytes := replicate 16 Byte.x01.
Definition idle : Notifier :=
  {| queue := []; closed := false; inflight := ∅; staged := ∅; counters := no_counts |}.
Definition w0 : World := {| w_zfs := genesis 10 100 [] [[Byte.x0a]; [Byte.x0b]]; w_notifier := Some idle |}.
Definition run1 : GuestRun :=
  {| gr_instantiates := true; gr_edits := [(("wallet", "nonce"), Some [Byte.x2a])]; gr_wakes := [("signed", None)];
     gr_head := HeadSet 200 [] [Pending; Ready (Some (Ok (Data [Byte.x6f])))]; gr_finishes := true; gr_anchor_wait := 2 |}.
Definition answered := run_guest t1 true false run1 w0.
Definition w1 : World := answered.2.
Definition resp1 : HttpResponse := default {| hr_status := 0; hr_headers := []; hr_body := Full [] |} (to_option answered.1).
Lemma answered1 : run_guest t1 true false run1 w0 = (Ok resp1, w1).
Proof. unfold w1, answered. apply Concrete.run_split. vm_compute. reflexivity. Qed.
Lemma sees1 : client_sees (hr_body resp1) = ([Data [Byte.x6f]], Complete).
Proof. vm_compute. reflexivity. Qed.
Lemma in_order0 : storage_ok (w_zfs w0) ∧ slots_ok (w_zfs w0).
Proof.
  split; [apply storage_ok_init; do 4 eexists; split_and!; [| |reflexivity]; vm_compute; [done|by split]|].
  intros t. simpl. by rewrite lookup_empty.
Qed.
Lemma in_order1 : zfs_wf (w_zfs w1).
Proof.
  destruct (run_guest_inv _ _ _ _ _ _ _ answered1) as [(e & [=] & _)|(a & z & sent & Hd & Hs & _)].
  destruct in_order0 as [Hok _].
  pose proof (preserves_ok _ _ _ _ _ (storage_ok_tenant_dir t1) Hok Hd) as Hok1.
  pose proof (storage_ok_edits t1 (gr_edits run1) z Hok1) as Hok2.
  destruct Hs as [x Ha _|_ Hq].
  - exact (proj1 (preserves_ok _ _ _ _ _ (storage_ok_anchor_tenant t1) Hok2 Ha)).
  - exfalso. revert Hq. vm_compute. discriminate.
Qed.
Lemma answer_is_durable_witness : file (crash (w_zfs w1)) (PTenant t1 "wallet" "nonce") = Some [Byte.x2a].
Proof.
  destruct (answer_is_durable t1 true false run1 w0 (Ok resp1) w1 (crash (w_zfs w1)) (proj1 in_order0) (proj2 in_order0)
    answered1 (restart_crash _ in_order1)) as [Hf _].
  - left. exists resp1, [Data [Byte.x6f]]. split; [reflexivity|exact sees1].
  - apply Hf. vm_compute. reflexivity.
Defined.

(** ** A deployment *)
#[local] Instance encode64 : Base64Encode := λ b, hex_encode b.
#[local] Instance nsm : Nsm := λ r, Ok (default [] (ar_nonce r)).
Definition gated : Deployment :=
  {| has_auth := true; has_gate := true; has_tenancy := true; attestor := Some (attestor_new [Byte.x07]) |}.
Definition server (a : AuthEndpoints) : Server := {| auth := a; sv_notifier := None |}.
Definition echo : Request → GuestRun := λ r,
  {| gr_instantiates := true; gr_edits := []; gr_wakes := [];
     gr_head := HeadSet 200 (rq_headers r ++ [(ATTESTATION_HEADER, [Byte.x00])]) []; gr_finishes := true; gr_anchor_wait := 0 |}.
Definition forged : IncomingRequest :=
  {| rq := {| rq_method := "POST"; rq_path := "/sign"; rq_query := None;
              rq_headers := [("authorization", str_bytes "Bearer 2a "); ("x-enclave-tenant", str_bytes "00");
                             ("x-enclave-nonce", str_bytes "0102030405060708")] |}; rq_body := Some [] |}.
Definition at50 : Env := {| now := 50; later := 50; random := None; seed := [] |}.
Definition keeps_one : Request → GuestRun := λ r,
  {| gr_instantiates := true; gr_edits := [(("wallet", "nonce"), Some [Byte.x2a])]; gr_wakes := [];
     gr_head := HeadSet 200 [] []; gr_finishes := true; gr_anchor_wait := 0 |}.
Definition routed := route (λ _, []) (λ _, []) keeps_one gated at50 forged (server RoutesWitness.s4).
Lemma routed_ok : is_ok routed.1 = true.
Proof. vm_compute. reflexivity. Qed.
Lemma redeemed_other : match (Gate.redeem 50 (rq forged) (gate RoutesWitness.s4)).1 with
  | Ok v => negb (bool_decide (v_tenant_id v = t1)) | Err _ => false end = true.
Proof. vm_compute. reflexivity. Qed.
Lemma slots0 : slots_ok (w_zfs (world (server RoutesWitness.s4))).
Proof.
  assert (map_Forall (λ t b, b = true → is_Some (pools (w_zfs (world (server RoutesWitness.s4))) !! t))
    (tenants (w_zfs (world (server RoutesWitness.s4))))) as Hs by (apply (bool_decide_unpack _); vm_compute; exact I).
  intros t Ht. by apply (Hs t true Ht).
Qed.
Lemma t1_nothing : file (w_zfs (world (server RoutesWitness.s4))) (PTenant t1 "wallet" "nonce") = None.
Proof. vm_compute. reflexivity. Qed.
Lemma guest_behind_gate_witness :
  ∃ v g r', Gate.redeem 50 (rq forged) (gate RoutesWitness.s4) = (Ok v, g) ∧ handed_as (v_tenant_id v) (rq forged) r' ∧
    file (w_zfs (world routed.2)) (PTenant (v_tenant_id v) "wallet" "nonce") = Some [Byte.x2a] ∧
    file (w_zfs (world routed.2)) (PTenant t1 "wallet" "nonce") = None.
Proof.
  pose proof redeemed_other as Hd. pose proof routed_ok as Hok.
  destruct (guest_behind_gate (λ _, []) (λ _, []) gated at50 forged (server RoutesWitness.s4) keeps_one routed.1 routed.2
    eq_refl slots0 (surjective_pairing _)) as [(_ & Hp & _)|[(denied & g & Hr & _)|(v & g & r' & Hr & Hh & _ & Ho & Hf)]].
  - discriminate Hp.
  - change (now at50) with 50 in Hr. change (auth (server RoutesWitness.s4)) with RoutesWitness.s4 in Hr. rewrite Hr in Hd. discriminate Hd.
  - change (now at50) with 50 in Hr. change (auth (server RoutesWitness.s4)) with RoutesWitness.s4 in Hr. rewrite Hr in Hd. apply negb_true_iff, bool_decide_eq_false in Hd.
    exists v, g, r'. split; [exact Hr|]. split; [exact Hh|]. split.
    + destruct routed.1 as [resp|err]; [|discriminate Hok]. apply (Hf resp eq_refl). reflexivity.
    + rewrite (others_file _ _ _ t1 "wallet" "nonce" (aside_others _ _ _ Ho)); [exact t1_nothing|]. intros K. by apply Hd.
Defined.
Definition served := service (λ _, []) (λ _, []) echo gated (Some [Byte.x30]) at50 forged (server RoutesWitness.s4).
Definition served_resp : HttpResponse := default {| hr_status := 0; hr_headers := []; hr_body := Full [] |} (to_option served.1).
Lemma served_ok : served = (Ok served_resp, served.2).
Proof. apply Concrete.run_split. vm_compute. reflexivity. Qed.
Lemma proof_is_the_runtimes_witness : header_get_all ATTESTATION_HEADER (hr_headers served_resp) = [].
Proof.
  exact (proof_is_the_runtimes (λ _, []) (λ _, []) echo gated (Some [Byte.x30]) at50 forged (server RoutesWitness.s4)
    served_resp served.2 served_ok).
Defined.

(** ** Two calls of one tenant *)
Definition pool0 : TenantPool := pool_new default_limits.
Definition pool1 : TenantPool := (checkout 5 t1 pool0).2.
Definition waiting : Serving :=
  {| pool := (checkout 6 t1 pool1).2;
     calls := [{| c_tenant := t1; c_slot := (checkout 6 t1 pool1).1; c_holds := false |};
               {| c_tenant := t1; c_slot := (checkout 5 t1 pool0).1; c_holds := true |}] |}.
Lemma one_call_per_tenant_witness : (checkout 6 t1 pool1).1 = (checkout 5 t1 pool0).1.
Proof.
  assert (reachable serve_init serve_step waiting) as Hr.
  { eapply reachable_step; [|apply (serve_checkout {| pool := pool1;
      calls := [{| c_tenant := t1; c_slot := (checkout 5 t1 pool0).1; c_holds := true |}] |} 6 t1)].
    eapply reachable_step; [|apply (serve_lock {| pool := pool1;
      calls := [{| c_tenant := t1; c_slot := (checkout 5 t1 pool0).1; c_holds := false |}] |} []
      {| c_tenant := t1; c_slot := (checkout 5 t1 pool0).1; c_holds := false |} []); [done|by repeat constructor]].
    eapply reachable_step; [|apply (serve_checkout {| pool := pool0; calls := [] |} 5 t1)].
    apply reachable_init. by exists default_limits. }
  destruct (one_call_per_tenant waiting Hr) as [Heq _].
  apply (Heq {| c_tenant := t1; c_slot := (checkout 6 t1 pool1).1; c_holds := false |}
             {| c_tenant := t1; c_slot := (checkout 5 t1 pool0).1; c_holds := true |}); [by left|by right; left|done].
Defined.

(** ** A wake that outlives the call that raised it *)
(** The next call delivers what a failed one raised.  A message run that
    fails keeps the wakes it staged, for no exit but the last looks at them; the
    tenant's next run, which raises nothing, queues them. *)
Theorem failed_call_leaves_wakes :
  ∃ (w wf w' : World) t category e,
    (staged <$> w_notifier w) = Some ∅ ∧
    run_message t [] [(category, None)] (Err e) w = (Err e, wf) ∧
    run_message t [] [] (Ok []) wf = (Ok [], w') ∧
    (∃ n n' k, w_notifier w = Some n ∧ w_notifier w' = Some n' ∧ queue n' = queue n ++ [k] ∧ wk_category k = category).
Proof.
  exists w1, (run_message t1 [] [("moved", None)] (Err "guest trapped") w1).2,
    (run_message t1 [] [] (Ok []) (run_message t1 [] [("moved", None)] (Err "guest trapped") w1).2).2, t1, "moved", "guest trapped".
  split_and!.
  - vm_compute. reflexivity.
  - apply Concrete.run_split. vm_compute. reflexivity.
  - apply Concrete.run_split. vm_compute. reflexivity.
  - do 3 eexists. split_and!; [vm_compute; reflexivity..|]. vm_compute. reflexivity.
Qed.
End ServeWitness.
