(* ===== verification/Backend.v ===== *)
(** * The object store: its interface and its in-memory implementation

    store/error.rs, store/backend/mod.rs and store/backend/memory.rs.  Instants
    are milliseconds; every operation that reads the clock takes it as [now].
    SipHash, which only makes e-tags differ, is a parameter. *)
From S2P Require Import Prelude.
From Stdlib Require Strings.String.

Inductive StoreError :=
  | SE_NotFound | SE_AccessDenied | SE_AlreadyExists | SE_IsDirectory | SE_NotDirectory | SE_NotEmpty
  | SE_NameTooLong | SE_IllegalByteSequence | SE_FileTooLarge | SE_NotSupported | SE_NotPermitted
  | SE_Invalid (what : string) | SE_OutOfMemory | SE_Loop | SE_CrossDevice | SE_BadDescriptor | SE_WouldBlock
  | SE_Conflict | SE_NoFilesystem | SE_Integrity (what : string) | SE_Rollback (expected found : Z)
  | SE_IoTimeout | SE_Io (what : string) | SE_Network (what : string).
#[export] Instance store_error_eq_dec : EqDecision StoreError.
Proof. solve_decision. Defined.
Definition is_transient (e : StoreError) : bool :=
  match e with SE_IoTimeout | SE_Network _ | SE_WouldBlock => true | _ => false end.
Definition store_error_display (e : StoreError) : string :=
  match e with
  | SE_NotFound => "not found" | SE_AccessDenied => "access denied" | SE_AlreadyExists => "already exists"
  | SE_IsDirectory => "is a directory" | SE_NotDirectory => "not a directory"
  | SE_NotEmpty => "directory not empty" | SE_NameTooLong => "name too long"
  | SE_IllegalByteSequence => "illegal byte sequence in path or key" | SE_FileTooLarge => "file too large"
  | SE_NotSupported => "operation not supported" | SE_NotPermitted => "operation not permitted"
  | SE_Invalid w => "invalid argument: " +:+ w | SE_OutOfMemory => "out of memory"
  | SE_Loop => "symlink loop or recursion limit exceeded" | SE_CrossDevice => "cross-device link or rename"
  | SE_BadDescriptor => "bad descriptor" | SE_WouldBlock => "would block"
  | SE_Conflict => "precondition / CAS conflict" | SE_NoFilesystem => "the store holds no filesystem"
  | SE_Integrity w => "integrity check failed: " +:+ w
  | SE_Rollback e f => "rollback detected: root seq " +:+ pretty f +:+ " is not newer than " +:+ pretty e
  | SE_IoTimeout => "i/o timeout" | SE_Io w => "i/o error: " +:+ w | SE_Network w => "network error: " +:+ w
  end.

(** ** What the methods take and give *)
Inductive ObjectLockMode := Governance | Compliance.
Record ObjectLock := { ol_mode : ObjectLockMode; retain_until : Z }.
Record Capabilities := {
  conditional_put : bool; upload_part_copy : bool; batch_delete : bool; metadata_in_listings : bool;
  cap_object_lock : bool }.
Record BlobMeta := {
  bm_key : string; bm_e_tag : string; bm_size : Z; bm_last_modified : Z; bm_content_type : option string;
  bm_metadata : gmap string string; is_dir_marker : bool }.
Record BlobItem := { bi_key : string; bi_e_tag : string; bi_size : Z; bi_last_modified : Z }.
Record ListBlobsInput := {
  li_prefix : string; li_delimiter : option string; li_max_keys : option Z; li_start_after : option string;
  li_continuation_token : option string }.
Record ListBlobsOutput := {
  lo_items : list BlobItem; lo_prefixes : list string; next_continuation_token : option string;
  is_truncated : bool }.
Record GetBlobOutput := { go_meta : BlobMeta; go_body : bytes }.
Record PutBlobInput := {
  pi_key : string; pi_body : bytes; pi_metadata : gmap string string; pi_content_type : option string;
  pi_object_lock : option ObjectLock }.
Definition put_input_new (key : string) (body : bytes) : PutBlobInput :=
  {| pi_key := key; pi_body := body; pi_metadata := ∅; pi_content_type := None; pi_object_lock := None |}.
Definition with_object_lock (lock : ObjectLock) (i : PutBlobInput) : PutBlobInput :=
  {| pi_key := pi_key i; pi_body := pi_body i; pi_metadata := pi_metadata i;
     pi_content_type := pi_content_type i; pi_object_lock := Some lock |}.
Record CopyBlobInput := {
  source_key : string; destination_key : string; replace_metadata : option (gmap string string);
  replace_content_type : option string }.
Record CompletedPart := { cp_part_number : Z; cp_e_tag : string }.

(** ** The state of the in-memory backend *)
Record StoredBlob := {
  body : bytes; e_tag : string; last_modified : Z; content_type : option string;
  metadata : gmap string string; object_lock : option ObjectLock }.
Definition is_retained (now : Z) (b : StoredBlob) : bool :=
  match object_lock b with Some lock => now <? retain_until lock | None => false end.
Record MpuPart := { mp_body : bytes; mp_e_tag : string }.
Record ActiveMpu := {
  mpu_key : string; mpu_metadata : gmap string string; mpu_content_type : option string;
  mpu_object_lock : option ObjectLock; mpu_parts : gmap Z MpuPart }.
Record MemoryBackend := {
  objects : gmap string StoredBlob; delete_markers : gset string; pinned : gmap string StoredBlob;
  mpus : gmap string ActiveMpu; next_mpu_id : Z; next_etag : Z; fail_next_put : option StoreError }.
Definition memory_new : MemoryBackend :=
  {| objects := ∅; delete_markers := ∅; pinned := ∅; mpus := ∅; next_mpu_id := 1; next_etag := 1;
     fail_next_put := None |}.
Definition set_objects (f : gmap string StoredBlob → gmap string StoredBlob) (m : MemoryBackend) :=
  {| objects := f (objects m); delete_markers := delete_markers m; pinned := pinned m; mpus := mpus m;
     next_mpu_id := next_mpu_id m; next_etag := next_etag m; fail_next_put := fail_next_put m |}.
Definition set_markers (f : gset string → gset string) (m : MemoryBackend) :=
  {| objects := objects m; delete_markers := f (delete_markers m); pinned := pinned m; mpus := mpus m;
     next_mpu_id := next_mpu_id m; next_etag := next_etag m; fail_next_put := fail_next_put m |}.
Definition set_pinned (f : gmap string StoredBlob → gmap string StoredBlob) (m : MemoryBackend) :=
  {| objects := objects m; delete_markers := delete_markers m; pinned := f (pinned m); mpus := mpus m;
     next_mpu_id := next_mpu_id m; next_etag := next_etag m; fail_next_put := fail_next_put m |}.
Definition set_mpus (f : gmap string ActiveMpu → gmap string ActiveMpu) (m : MemoryBackend) :=
  {| objects := objects m; delete_markers := delete_markers m; pinned := pinned m; mpus := f (mpus m);
     next_mpu_id := next_mpu_id m; next_etag := next_etag m; fail_next_put := fail_next_put m |}.
Definition set_counters (mpu etag : Z) (fail : option StoreError) (m : MemoryBackend) :=
  {| objects := objects m; delete_markers := delete_markers m; pinned := pinned m; mpus := mpus m;
     next_mpu_id := mpu; next_etag := etag; fail_next_put := fail |}.

(** [State::current], [State::retained], [State::pin_before_overwrite], [delete_one]. *)
Definition current (key : string) (m : MemoryBackend) : option StoredBlob :=
  if decide (key ∈ delete_markers m) then None else objects m !! key.
Definition retained (key : string) (m : MemoryBackend) : option StoredBlob :=
  match pinned m !! key with Some b => Some b | None => objects m !! key end.
Definition pin_before_overwrite (key : string) (now : Z) (m : MemoryBackend) : MemoryBackend :=
  match pinned m !! key with
  | Some _ => m
  | None =>
      match objects m !! key with
      | Some b => if is_retained now b then set_pinned <[key := b]> m else m
      | None => m
      end
  end.
Definition held (key : string) (now : Z) (m : MemoryBackend) : bool :=
  match objects m !! key with Some b => is_retained now b | None => false end.
Definition delete_one (now : Z) (key : string) (m : MemoryBackend) : MemoryBackend :=
  if held key now m then set_markers (λ s, {[key]} ∪ s) m
  else set_markers (λ s, s ∖ {[key]}) (set_objects (delete key) m).

(** ** The operations *)
Section memory.
Context (siphash : Z → bytes → Z).
Notation op := (M MemoryBackend StoreError).

Definition quote : string := String (Ascii.ascii_of_N 34) "".
Definition etag_text (counter : Z) (b : bytes) : string :=
  quote +:+ hex_encode (be_bytes 16 (siphash counter b)) +:+ quote.
Definition make_etag (b : bytes) : op string := λ m,
  (Ok (etag_text (next_etag m) b),
   set_counters (next_mpu_id m) (wrapping_add (next_etag m) 1) (fail_next_put m) m).
Definition meta_from_stored (key : string) (b : StoredBlob) : BlobMeta :=
  {| bm_key := key; bm_e_tag := e_tag b; bm_size := len (body b); bm_last_modified := last_modified b;
     bm_content_type := content_type b; bm_metadata := metadata b; is_dir_marker := ends_with "/" key |}.
Definition capabilities : Capabilities :=
  {| conditional_put := true; upload_part_copy := true; batch_delete := true; metadata_in_listings := false;
     cap_object_lock := true |}.
Definition head_blob (key : string) : op BlobMeta :=
  m ← get; b ← unwrap (current key m) SE_NotFound; mret (meta_from_stored key b).
Definition get_blob (key : string) (range : option (Z * Z)) : op GetBlobOutput :=
  m ← get;
  b ← unwrap (current key m) SE_NotFound;
  body ← lift (match range with
    | None => Ok (body b)
    | Some (start, end_) =>
        let start := Z.min start (len (body b)) in let end_ := Z.min end_ (len (body b)) in
        _ ← check (start <=? end_) (SE_Invalid "range start > end");
        Ok (take (Z.to_nat (end_ - start)) (drop (Z.to_nat start) (body b)))
    end);
  mret {| go_meta := meta_from_stored key b; go_body := body |}.
Definition get_retained_blob (key : string) : op GetBlobOutput :=
  m ← get;
  b ← unwrap (retained key m) SE_NotFound;
  mret {| go_meta := meta_from_stored key b; go_body := body b |}.

(** [fail_next_put.write().take()] *)
Definition take_failure : op () := λ m,
  match fail_next_put m with
  | Some e => (Err e, set_counters (next_mpu_id m) (next_etag m) None m)
  | None => (Ok tt, m)
  end.
Definition stored_of (i : PutBlobInput) (tag : string) (now : Z) : StoredBlob :=
  {| body := pi_body i; e_tag := tag; last_modified := now; content_type := pi_content_type i;
     metadata := pi_metadata i; object_lock := pi_object_lock i |}.
Definition put_blob (now : Z) (i : PutBlobInput) : op BlobMeta :=
  _ ← take_failure;
  tag ← make_etag (pi_body i);
  m ← get;
  _ ← ensure (negb (held (pi_key i) now m)) SE_AccessDenied;
  _ ← modify (set_objects <[pi_key i := stored_of i tag now]>);
  mret (meta_from_stored (pi_key i) (stored_of i tag now)).
Definition put_blob_if_not_exists (now : Z) (i : PutBlobInput) : op BlobMeta :=
  _ ← take_failure;
  m ← get;
  _ ← ensure (bool_decide (current (pi_key i) m = None)) SE_AlreadyExists;
  _ ← modify (pin_before_overwrite (pi_key i) now);
  _ ← modify (set_markers (λ s, s ∖ {[pi_key i]}));
  tag ← make_etag (pi_body i);
  _ ← modify (set_objects <[pi_key i := stored_of i tag now]>);
  mret (meta_from_stored (pi_key i) (stored_of i tag now)).
Definition delete_blob (now : Z) (key : string) : op () := modify (delete_one now key).
Definition delete_blobs (now : Z) (keys : list string) : op () :=
  modify (λ m, foldl (λ m k, delete_one now k m) m keys).
Definition copy_blob (now : Z) (i : CopyBlobInput) : op BlobMeta :=
  m ← get;
  src ← unwrap (objects m !! source_key i) SE_NotFound;
  _ ← ensure (negb (held (destination_key i) now m)) SE_AccessDenied;
  tag ← make_etag (body src);
  let stored := {| body := body src; e_tag := tag; last_modified := now;
    content_type := match replace_content_type i with Some c => Some c | None => content_type src end;
    metadata := default (metadata src) (replace_metadata i); object_lock := None |} in
  _ ← modify (set_objects <[destination_key i := stored]>);
  mret (meta_from_stored (destination_key i) stored).

(** ** Listing, a page at a time *)
(** What one key of the listing gives: itself, or the common prefix it falls under. *)
Definition common_prefix (i : ListBlobsInput) (k : string) : option string :=
  match li_delimiter i with
  | Some delim =>
      after ← strip_prefix (li_prefix i) k;
      d ← String.index 0 delim after;
      Some (li_prefix i +:+ String.substring 0 d after +:+ delim)
  | None => None
  end.
Definition item_of (m : MemoryBackend) (k : string) : list BlobItem :=
  match objects m !! k with
  | Some b => [{| bi_key := k; bi_e_tag := e_tag b; bi_size := len (body b); bi_last_modified := last_modified b |}]
  | None => []
  end.
Record Page := { pg_items : list BlobItem; pg_prefixes : list string; pg_last : option string; pg_left : list string }.
Fixpoint list_loop (fuel : nat) (i : ListBlobsInput) (m : MemoryBackend) (left emitted : Z) (keys : list string)
    (p : Page) : Page :=
  match fuel, keys with
  | S fuel, k :: rest =>
      if emitted <? left then
        match common_prefix i k with
        | Some cp =>
            let under := take_while (starts_with cp) keys in
            let keys := drop (length under) keys in
            list_loop fuel i m left (emitted + 1) keys
              {| pg_items := pg_items p; pg_prefixes := pg_prefixes p ++ [cp];
                 pg_last := match last under with Some k => Some k | None => pg_last p end; pg_left := keys |}
        | None =>
            list_loop fuel i m left (emitted + 1) rest
              {| pg_items := pg_items p ++ item_of m k; pg_prefixes := pg_prefixes p; pg_last := Some k;
                 pg_left := rest |}
        end
      else p
  | _, _ => p
  end.
Definition listed_keys (i : ListBlobsInput) (m : MemoryBackend) : list string :=
  let keys := sorted_elements (filter (λ k, starts_with (li_prefix i) k = true ∧ k ∉ delete_markers m)
                (map_to_list (objects m)).*1) in
  match (match li_continuation_token i with Some c => Some c | None => li_start_after i end) with
  | Some c => filter (λ k, ord_lt c k) keys
  | None => keys
  end.
Definition list_blobs (i : ListBlobsInput) : op ListBlobsOutput :=
  m ← get;
  let keys := listed_keys i m in
  let p := list_loop (length keys) i m (default 1000 (li_max_keys i)) 0 keys
    {| pg_items := []; pg_prefixes := []; pg_last := None; pg_left := keys |} in
  let truncated := negb (bool_decide (pg_left p = [])) in
  mret {| lo_items := pg_items p; lo_prefixes := pg_prefixes p;
          next_continuation_token := if truncated then pg_last p else None; is_truncated := truncated |}.

(** ** Multipart uploads *)
Definition part_number_ok (n : Z) : bool := negb ((n =? 0) || (10000 <? n)).
Definition multipart_begin (i : PutBlobInput) : op string :=
  m ← get;
  let id := "mpu-" +:+ pretty (next_mpu_id m) in
  _ ← modify (set_counters (wrapping_add (next_mpu_id m) 1) (next_etag m) (fail_next_put m));
  _ ← modify (set_mpus <[id := {| mpu_key := pi_key i; mpu_metadata := pi_metadata i;
        mpu_content_type := pi_content_type i; mpu_object_lock := pi_object_lock i; mpu_parts := ∅ |}]>);
  mret id.
Definition add_part (id : string) (n : Z) (p : MpuPart) : MemoryBackend → MemoryBackend :=
  set_mpus (alter (λ u, {| mpu_key := mpu_key u; mpu_metadata := mpu_metadata u;
    mpu_content_type := mpu_content_type u; mpu_object_lock := mpu_object_lock u;
    mpu_parts := <[n := p]> (mpu_parts u) |}) id).
Definition multipart_upload_part (key id : string) (n : Z) (b : bytes) : op string :=
  _ ← ensure (part_number_ok n) (SE_Invalid "part_number out of range");
  tag ← make_etag b;
  m ← get;
  u ← unwrap (mpus m !! id) (SE_Io "unknown upload_id");
  _ ← ensure (bool_decide (mpu_key u = key)) (SE_Invalid "upload_id key mismatch");
  _ ← modify (add_part id n {| mp_body := b; mp_e_tag := tag |});
  mret tag.
Definition multipart_upload_part_copy (key id : string) (n : Z) (source : string) (range : Z * Z) : op string :=
  _ ← ensure (part_number_ok n) (SE_Invalid "part_number out of range");
  m ← get;
  src ← unwrap (objects m !! source) SE_NotFound;
  _ ← ensure (negb ((len (body src) <? range.2) || (range.2 <? range.1))) (SE_Invalid "source_range out of bounds");
  let b := take (Z.to_nat (range.2 - range.1)) (drop (Z.to_nat range.1) (body src)) in
  tag ← make_etag b;
  m ← get;
  u ← unwrap (mpus m !! id) (SE_Io "unknown upload_id");
  _ ← ensure (bool_decide (mpu_key u = key)) (SE_Invalid "upload_id key mismatch");
  _ ← modify (add_part id n {| mp_body := b; mp_e_tag := tag |});
  mret tag.
(** The parts in ascending order, each present and with the tag it was given. *)
Definition by_number (x y : CompletedPart) : Prop := cp_part_number x ≤ cp_part_number y.
#[local] Instance by_number_dec : RelDecision by_number := λ x y, decide (cp_part_number x ≤ cp_part_number y).
Fixpoint assemble (parts : gmap Z MpuPart) (ps : list CompletedPart) : result StoreError bytes :=
  match ps with
  | [] => Ok []
  | cp :: ps =>
      part ← ok_or (parts !! cp_part_number cp) (SE_Invalid "missing part on complete");
      _ ← check (bool_decide (mp_e_tag part = cp_e_tag cp)) (SE_Invalid "etag mismatch on complete");
      rest ← assemble parts ps;
      Ok (mp_body part ++ rest)
  end.
(** The upload is taken out first, and put back only when the key is wrong. *)
Definition multipart_complete (now : Z) (key id : string) (parts : list CompletedPart) : op BlobMeta :=
  m ← get;
  u ← unwrap (mpus m !! id) (SE_Io "unknown upload_id");
  _ ← ensure (bool_decide (mpu_key u = key)) (SE_Invalid "upload_id key mismatch");
  _ ← modify (set_mpus (delete id));
  b ← lift (assemble (mpu_parts u) (merge_sort by_number parts));
  tag ← make_etag b;
  m ← get;
  _ ← ensure (negb (held key now m)) SE_AccessDenied;
  let stored := {| body := b; e_tag := tag; last_modified := now; content_type := mpu_content_type u;
    metadata := mpu_metadata u; object_lock := mpu_object_lock u |} in
  _ ← modify (set_objects <[key := stored]>);
  mret (meta_from_stored key stored).
Definition multipart_abort (key id : string) : op () :=
  m ← get;
  match mpus m !! id with
  | None => mret tt
  | Some u =>
      _ ← ensure (bool_decide (mpu_key u = key)) (SE_Invalid "upload_id key mismatch");
      modify (set_mpus (delete id))
  end.
End memory.
