(* ===== verification/BackendProps.v ===== *)
(** * The in-memory object store: retained versions and listings *)
From S2P Require Import Prelude Backend.

(** ** What a call does to a key's versions *)
Section calls.
Context (siphash : Z → bytes → Z).

(** The calls of the interface that change anything, each at its own instant. *)
Inductive call :=
  | CPut (now : Z) (i : PutBlobInput) | CPutIfNotExists (now : Z) (i : PutBlobInput)
  | CDelete (now : Z) (key : string) | CDeletes (now : Z) (keys : list string) | CCopy (now : Z) (i : CopyBlobInput)
  | CBegin (i : PutBlobInput) | CPart (key id : string) (n : Z) (b : bytes)
  | CPartCopy (key id : string) (n : Z) (source : string) (range : Z * Z)
  | CComplete (now : Z) (key id : string) (parts : list CompletedPart) | CAbort (key id : string).
Definition run_call (c : call) (m : MemoryBackend) : MemoryBackend :=
  match c with
  | CPut now i => (put_blob siphash now i m).2
  | CPutIfNotExists now i => (put_blob_if_not_exists siphash now i m).2
  | CDelete now k => (delete_blob now k m).2
  | CDeletes now ks => (delete_blobs now ks m).2
  | CCopy now i => (copy_blob siphash now i m).2
  | CBegin i => (multipart_begin i m).2
  | CPart k id n b => (multipart_upload_part siphash k id n b m).2
  | CPartCopy k id n s r => (multipart_upload_part_copy siphash k id n s r m).2
  | CComplete now k id ps => (multipart_complete siphash now k id ps m).2
  | CAbort k id => (multipart_abort k id m).2
  end.
Definition run_calls (cs : list call) (m : MemoryBackend) : MemoryBackend := foldl (λ m c, run_call c m) m cs.
(** The clock a call reads, when it reads one. *)
Definition before (t : Z) (c : call) : Prop :=
  match c with
  | CPut now _ | CPutIfNotExists now _ | CDelete now _ | CDeletes now _ | CCopy now _ | CComplete now _ _ _ => now < t
  | _ => True
  end.

(** A version with this body stands at a key until [t]: it was set aside, or
    it is stored under a lock that outlasts [t]. *)
Definition stands (key : string) (b : bytes) (t : Z) (m : MemoryBackend) : Prop :=
  match pinned m !! key with
  | Some v => body v = b
  | None => ∃ v, objects m !! key = Some v ∧ body v = b ∧ ∀ now, now < t → is_retained now v = true
  end.
Lemma stands_retained key b t m : stands key b t m → ∃ v, retained key m = Some v ∧ body v = b.
Proof. unfold stands, retained. destruct (pinned m !! key); [eauto|]. intros (v & -> & ? & _). eauto. Qed.

(** The writes of a backend either leave a key's stored object, or replace one
    that is not held, or set the held one aside first. *)
Lemma stands_same key b t m m' : stands key b t m → pinned m' = pinned m → objects m' !! key = objects m !! key →
  stands key b t m'.
Proof. unfold stands. by intros ? -> ->. Qed.
Lemma stands_insert key b t now k v m : now < t → held k now m = false → stands key b t m →
  stands key b t (set_objects <[k := v]> m).
Proof.
  intros Hn Hh Hs. unfold stands in *. cbn. destruct (pinned m !! key); [done|].
  destruct Hs as (w & Hw & Hb & Hr). destruct (decide (k = key)) as [->|Hne].
  - unfold held in Hh. rewrite Hw, Hr in Hh by done. done.
  - exists w. by rewrite lookup_insert_ne.
Qed.
Lemma stands_delete_one key b t now k m : now < t → stands key b t m → stands key b t (delete_one now k m).
Proof.
  intros Hn Hs. unfold delete_one. destruct (held k now m) eqn:Hh; [done|].
  unfold stands in *. cbn. destruct (pinned m !! key); [done|]. destruct Hs as (w & Hw & Hb & Hr).
  destruct (decide (k = key)) as [->|Hne].
  - unfold held in Hh. rewrite Hw, Hr in Hh by done. done.
  - exists w. by rewrite lookup_delete_ne.
Qed.
Lemma stands_deletes key b t now ks m : now < t → stands key b t m →
  stands key b t (foldl (λ m k, delete_one now k m) m ks).
Proof. intros Hn. revert m. induction ks as [|k ks IH]; intros m Hs; simpl; [done|]. by apply IH, stands_delete_one. Qed.
Lemma stands_pin key b t now k v m : now < t → stands key b t m →
  stands key b t (set_objects <[k := v]> (set_markers (λ s, s ∖ {[k]}) (pin_before_overwrite k now m))).
Proof.
  intros Hn Hs. unfold pin_before_overwrite. destruct (pinned m !! k) as [p|] eqn:Hp.
  - unfold stands in *. cbn. destruct (decide (k = key)) as [->|Hne]; [by rewrite Hp in *|].
    destruct (pinned m !! key); [done|]. destruct Hs as (w & ? & ? & ?). exists w. by rewrite lookup_insert_ne.
  - destruct (objects m !! k) as [w|] eqn:Ho; [destruct (is_retained now w) eqn:Hw|].
    + unfold stands in *. cbn. destruct (decide (k = key)) as [->|Hne].
      * rewrite lookup_insert_eq. rewrite Hp in Hs. destruct Hs as (w' & ? & ? & _). congruence.
      * rewrite lookup_insert_ne by done. destruct (pinned m !! key); [done|].
        destruct Hs as (w' & ? & ? & ?). exists w'. by rewrite lookup_insert_ne.
    + apply (stands_insert _ _ _ now); [done| |exact Hs]. unfold held. cbn. by rewrite Ho.
    + apply (stands_insert _ _ _ now); [done| |exact Hs]. unfold held. cbn. by rewrite Ho.
Qed.
Lemma stands_counters key b t x y f m : stands key b t m → stands key b t (set_counters x y f m).
Proof. done. Qed.
Lemma stands_mpus key b t f m : stands key b t m → stands key b t (set_mpus f m).
Proof. done. Qed.
Lemma held_counters k now x y f m : held k now (set_counters x y f m) = held k now m.
Proof. done. Qed.
(** No call undoes retention. *)
Lemma stands_call key b t c m : before t c → stands key b t m → stands key b t (run_call c m).
Proof.
  intros Hc Hs. destruct c as [now i|now i|now k|now ks|now i|i|k id n x|k id n src r|now k id ps|k id]; cbn in Hc |- *;
    unfold put_blob, put_blob_if_not_exists, delete_blob, delete_blobs, copy_blob, multipart_begin,
      multipart_upload_part, multipart_upload_part_copy, multipart_complete, multipart_abort, take_failure, make_etag,
      add_part, current;
    unfold_m; cbn beta iota zeta;
    repeat (case_match; simplify_eq/=; try done);
    eauto using stands_counters, stands_mpus, stands_delete_one, stands_deletes.
  all: repeat match goal with H : negb ?b = true |- _ => apply negb_true_iff in H end.
  all: repeat match goal with H : lift _ _ = _ |- _ => apply lift_inv in H as [? ->] end.
  all: try exact Hs.
  all: match goal with
    | |- stands _ _ _ (set_objects <[_ := ?v]> _) =>
        first [exact (stands_pin key b t now (pi_key i) v m0 Hc Hs)
              |apply (stands_insert _ _ _ now); [exact Hc|eassumption|exact Hs]]
    end.
Qed.
Lemma stands_calls key b t cs m : Forall (before t) cs → stands key b t m → stands key b t (run_calls cs m).
Proof. revert m. induction cs as [|c cs IH]; intros m Hc Hs; simpl; [done|]. inversion Hc; subst. by apply IH, stands_call. Qed.
(** After a conditional create, the version a later read finds stands. *)
Lemma stands_created now i lock m meta m1 : put_blob_if_not_exists siphash now i m = (Ok meta, m1) →
  pi_object_lock i = Some lock → ∃ b, stands (pi_key i) b (retain_until lock) m1.
Proof.
  intros H Hl. unfold put_blob_if_not_exists in H. do 7 inv_bind H. inv_pure.
  unfold stands. cbn. destruct (pinned _ !! pi_key i); [eauto|].
  rewrite lookup_insert_eq. exists (pi_body i). eexists. split_and!; [done|done|].
  intros now' Hn. unfold is_retained. cbn. rewrite Hl. by apply Z.ltb_lt.
Qed.
Lemma get_retained_inv key m r m' : get_retained_blob key m = (r, m') →
  m' = m ∧ match r with
           | Ok out => ∃ v, retained key m = Some v ∧ go_body out = body v
           | Err e => e = SE_NotFound ∧ retained key m = None
           end.
Proof.
  unfold get_retained_blob. unfold_m. destruct (retained key m) as [v|] eqn:E; intros [= <- <-]; [|done].
  split; [done|]. eauto.
Qed.

(** C19: a conditional create that reads back as written is there to stay.  Whatever
    anyone does to the store between the create and the read, and whatever
    anyone does after it, deletes, overwrites, copies and uploads included, as
    long as the clock has not passed the lock's end the key's retained version
    is the body that was written. *)
Theorem retained_version_survives now i lock m meta m1 cs out cs' :
  put_blob_if_not_exists siphash now i m = (Ok meta, m1) → pi_object_lock i = Some lock →
  Forall (before (retain_until lock)) (cs ++ cs') →
  get_retained_blob (pi_key i) (run_calls cs m1) = (Ok out, run_calls cs m1) → go_body out = pi_body i →
  ∃ out', get_retained_blob (pi_key i) (run_calls (cs ++ cs') m1) = (Ok out', run_calls (cs ++ cs') m1) ∧
    go_body out' = pi_body i.
Proof.
  intros Hp Hl Hb Hg Heq. destruct (stands_created _ _ _ _ _ _ Hp Hl) as [b Hs].
  pose proof (proj1 (proj1 (Forall_app _ _ _) Hb)) as Hb1.
  destruct (stands_retained _ _ _ _ (stands_calls _ _ _ _ _ Hb1 Hs)) as (v & Hv & Hvb).
  apply get_retained_inv in Hg as (_ & v' & Hv' & Hout).
  destruct (stands_retained _ _ _ _ (stands_calls _ _ _ _ _ Hb Hs)) as (w & Hw & Hwb).
  unfold get_retained_blob. unfold_m. rewrite Hw. eexists. split; [done|]. cbn. congruence.
Qed.
End calls.

(** ** Listings *)
Lemma list_loop_plain fuel i m max em keys p : li_delimiter i = None → pg_left p = keys → (length keys ≤ fuel)%nat →
  0 ≤ em ≤ max →
  list_loop fuel i m max em keys p =
    {| pg_items := pg_items p ++ (take (Z.to_nat (max - em)) keys ≫= item_of m); pg_prefixes := pg_prefixes p;
       pg_last := match last (take (Z.to_nat (max - em)) keys) with Some k => Some k | None => pg_last p end;
       pg_left := drop (Z.to_nat (max - em)) keys |}.
Proof.
  intros Hd. revert em keys p. induction fuel as [|fuel IH]; intros em [|k keys] p Hp Hf Hm; cbn in Hf; [|lia| |].
  - rewrite take_nil, drop_nil. cbn. rewrite app_nil_r. destruct p; cbn in *; by subst.
  - rewrite take_nil, drop_nil. cbn. rewrite app_nil_r. destruct p; cbn in *; by subst.
  - cbn [list_loop]. destruct (em <? max) eqn:He.
    + apply Z.ltb_lt in He. unfold common_prefix. rewrite Hd, IH by (cbn; first [done|lia]).
      replace (Z.to_nat (max - em)) with (S (Z.to_nat (max - (em + 1)))) by lia. cbn. rewrite <- app_assoc. f_equal.
      rewrite last_cons. by destruct (last (take _ keys)).
    + apply Z.ltb_ge in He. replace (Z.to_nat (max - em)) with 0%nat by lia. cbn. rewrite app_nil_r.
      destruct p; cbn in *; by subst.
Qed.

(** A client that reads a listing to its end, a page at a time. *)
Definition with_token (t : option string) (i : ListBlobsInput) : ListBlobsInput :=
  {| li_prefix := li_prefix i; li_delimiter := li_delimiter i; li_max_keys := li_max_keys i;
     li_start_after := li_start_after i; li_continuation_token := t |}.
Fixpoint list_pages (fuel : nat) (i : ListBlobsInput) (m : MemoryBackend) : option (list (list BlobItem)) :=
  match fuel with
  | O => None
  | S fuel =>
      match (list_blobs i m).1 with
      | Ok o =>
          match next_continuation_token o with
          | Some t => pages ← list_pages fuel (with_token (Some t) i) m; Some (lo_items o :: pages)
          | None => Some [lo_items o]
          end
      | Err _ => None
      end
  end.
Definition cursor (i : ListBlobsInput) : option string :=
  match li_continuation_token i with Some c => Some c | None => li_start_after i end.
(** The keys that a listing is of: those in sight under the prefix, past the cursor. *)
Definition in_sight (i : ListBlobsInput) (m : MemoryBackend) (k : string) : Prop :=
  is_Some (current k m) ∧ starts_with (li_prefix i) k = true ∧ ∀ c, cursor i = Some c → ord_lt c k.
Lemma elem_of_listed i m k : k ∈ listed_keys i m ↔ in_sight i m k.
Proof.
  unfold listed_keys, in_sight, cursor, current.
  assert (k ∈ sorted_elements (filter (λ k, starts_with (li_prefix i) k = true ∧ k ∉ delete_markers m)
    (map_to_list (objects m)).*1) ↔ is_Some (if decide (k ∈ delete_markers m) then None else objects m !! k) ∧
    starts_with (li_prefix i) k = true) as Hbase.
  { unfold sorted_elements. rewrite (merge_sort_Permutation ord_le), list_elem_of_filter, list_elem_of_fmap.
    split.
    - intros [[? ?] ([k' v] & -> & Hv%elem_of_map_to_list)]. rewrite decide_False by done. eauto.
    - case_decide as Hm; [by intros [[? [=]] _]|]. intros [[v Hv] ?]. split; [done|]. exists (k, v).
      by rewrite elem_of_map_to_list. }
  destruct (li_continuation_token i) as [c|]; [|destruct (li_start_after i) as [c|]];
    rewrite ?list_elem_of_filter, Hbase; naive_solver.
Qed.

Lemma StronglySorted_filter {A} (R : A → A → Prop) (P : A → Prop) `{∀ x, Decision (P x)} (l : list A) :
  StronglySorted R l → StronglySorted R (filter P l).
Proof.
  induction 1 as [|x l Hs IH Hall]; [constructor|]. rewrite filter_cons. case_decide; [|done].
  constructor; [done|]. rewrite Forall_forall in Hall |- *. intros y [_ Hy]%list_elem_of_filter. by apply Hall.
Qed.
Lemma StronglySorted_lt_NoDup `{OrdLaws A} (l : list A) : StronglySorted ord_lt l → NoDup l.
Proof.
  induction 1 as [|x l Hs IH Hall]; [constructor|]. apply NoDup_cons. split; [|done].
  intros Hx. rewrite Forall_forall in Hall. by apply (ord_lt_irrefl x), Hall.
Qed.
(** Two ascending lists of the same elements are the same list. *)
Lemma ascending_unique `{OrdLaws A} (l l' : list A) : StronglySorted ord_lt l → StronglySorted ord_lt l' →
  (∀ x, x ∈ l ↔ x ∈ l') → l = l'.
Proof.
  intros Hs Hs' Heq. apply (StronglySorted_unique_strong ord_lt); [|done|done|].
  - intros x y _ _ Hxy Hyx. by apply ord_lt_asym in Hxy.
  - by apply NoDup_Permutation; [apply StronglySorted_lt_NoDup..|].
Qed.
Lemma listed_sorted i m : StronglySorted ord_lt (listed_keys i m).
Proof.
  unfold listed_keys.
  set (base := sorted_elements _).
  assert (StronglySorted ord_lt base) as Hbase.
  { assert (StronglySorted ord_le base) as Hs by (apply StronglySorted_merge_sort; apply _).
    assert (NoDup base) as Hn.
    { unfold base, sorted_elements. rewrite (merge_sort_Permutation ord_le).
      apply NoDup_filter, NoDup_fst_map_to_list. }
    clearbody base. induction base as [|k l IH]; [constructor|].
    inversion Hs as [|?? Hs' Hall]; subst. apply NoDup_cons in Hn as [Hni Hn]. constructor; [by apply IH|].
    rewrite Forall_forall in Hall |- *. intros x Hx. apply ord_le_ne; [by apply Hall|]. by intros ->. }
  clearbody base. destruct (li_continuation_token i) as [c|]; [|destruct (li_start_after i) as [c|]; [|done]];
    by apply StronglySorted_filter.
Qed.
(** The next page's keys are the ones this page left. *)
Lemma listed_next i m n c : last (take n (listed_keys i m)) = Some c →
  listed_keys (with_token (Some c) i) m = drop n (listed_keys i m).
Proof.
  intros Hc. pose proof (listed_sorted i m) as Hs. pose proof (elem_of_listed i m) as Hin.
  rewrite <- (take_drop n (listed_keys i m)) in Hs, Hin. apply StronglySorted_app in Hs as (Hlt & Hs1 & Hs2).
  apply last_Some in Hc as [l Hl]. assert (c ∈ take n (listed_keys i m)) as Hcin by (rewrite Hl; set_solver).
  apply ascending_unique; [apply listed_sorted|done|]. intros k. rewrite elem_of_listed. split.
  - intros (Hk & Hp & Hcur). specialize (Hcur _ eq_refl).
    assert (in_sight i m k) as [Hk'|Hk']%Hin%elem_of_app; [|exfalso|done].
    + split_and!; [done..|]. intros c0 Hc0. apply (ord_lt_trans _ c); [|done].
      assert (c ∈ take n (listed_keys i m) ++ drop n (listed_keys i m)) as (_ & _ & Hcc)%Hin by set_solver. by apply Hcc.
    + rewrite Hl in Hk', Hs1. apply StronglySorted_app in Hs1 as (Hll & _ & _).
      apply elem_of_app in Hk' as [Hk'|Hk'%list_elem_of_singleton]; [|subst; by apply ord_lt_irrefl in Hcur].
      apply (ord_lt_asym k c); [|done]. apply Hll; [done|set_solver].
  - intros Hk. assert (in_sight i m k) as (? & ? & _) by (apply Hin; set_solver).
    split_and!; [done..|]. intros c' [= <-]. by apply Hlt.
Qed.
Lemma items_keys i m ks : (∀ k, k ∈ ks → in_sight i m k) → bi_key <$> (ks ≫= item_of m) = ks.
Proof.
  induction ks as [|k ks IH]; intros Hk; [done|]. cbn. rewrite fmap_app. fold (mbind (item_of m) ks).
  rewrite IH by set_solver. destruct (Hk k) as ([v Hv] & _); [by left|]. unfold current in Hv. case_decide; [done|].
  unfold item_of. by rewrite Hv.
Qed.
Definition page_size (i : ListBlobsInput) : Z := default 1000 (li_max_keys i).
Lemma list_blobs_plain i m : li_delimiter i = None → 0 ≤ page_size i →
  let n := Z.to_nat (page_size i) in
  ∃ o, list_blobs i m = (Ok o, m) ∧ lo_items o = take n (listed_keys i m) ≫= item_of m ∧ lo_prefixes o = [] ∧
    is_truncated o = negb (bool_decide (drop n (listed_keys i m) = [])) ∧
    next_continuation_token o = if is_truncated o then last (take n (listed_keys i m)) else None.
Proof.
  intros Hd Hp n. unfold list_blobs. unfold_m. rewrite list_loop_plain by (first [done|unfold page_size in Hp; lia]).
  rewrite Z.sub_0_r. fold (page_size i). fold n. eexists. split; [done|]. cbn. split_and!; [done..|].
  case_match; [|done]. by destruct (last (take n (listed_keys i m))).
Qed.
(** Reading a listing to its end reads all of it.  Without a delimiter and
    with a page of at least one key, following the continuation tokens ends
    after no more pages than there are keys and one, no page is longer than the
    caller asked for, and the pages together are the keys in sight under the
    prefix past the cursor, each once and in ascending order. *)
Theorem listing_complete i m : li_delimiter i = None → 0 < page_size i →
  ∃ pages, list_pages (S (length (listed_keys i m))) i m = Some pages ∧
    Forall (λ p, len p ≤ page_size i) pages ∧ StronglySorted ord_lt (bi_key <$> concat pages) ∧
    ∀ k, k ∈ bi_key <$> concat pages ↔ in_sight i m k.
Proof.
  intros Hd Hp.
  enough (∀ fuel i', li_delimiter i' = None → page_size i' = page_size i → (length (listed_keys i' m) < fuel)%nat →
    ∃ pages, list_pages fuel i' m = Some pages ∧ Forall (λ p, len p ≤ page_size i) pages ∧
      bi_key <$> concat pages = listed_keys i' m) as Hall.
  { destruct (Hall (S (length (listed_keys i m))) i) as (pages & Hl & Hf & Heq); [done..|lia|].
    exists pages. rewrite Heq. split_and!; [done..|apply listed_sorted|apply elem_of_listed]. }
  induction fuel as [|fuel IH]; intros i' Hd' Hp' Hfu; [lia|].
  destruct (list_blobs_plain i' m Hd') as (o & Ho & Hit & _ & Htr & Htok); [lia|].
  set (n := Z.to_nat (page_size i')) in *. cbn [list_pages]. rewrite Ho. cbn [fst].
  assert (len (lo_items o) ≤ page_size i) as Hlen.
  { unfold len. rewrite Hit, <- (length_fmap bi_key), (items_keys i'), length_take; [lia|].
    intros k Hk. apply elem_of_listed. by eapply elem_of_take in Hk as (j & ?%list_elem_of_lookup_2 & _). }
  assert (bi_key <$> lo_items o = take n (listed_keys i' m)) as Hkeys.
  { rewrite Hit. apply (items_keys i'). intros k Hk. apply elem_of_listed.
    by eapply elem_of_take in Hk as (j & ?%list_elem_of_lookup_2 & _). }
  rewrite Htok, Htr. case_bool_decide as Hdrop; cbn [negb].
  - exists [lo_items o]. split_and!; [done|by repeat constructor|]. cbn. rewrite app_nil_r, Hkeys.
    by rewrite <- (take_drop n (listed_keys i' m)) at 2; rewrite Hdrop, app_nil_r.
  - destruct (last (take n (listed_keys i' m))) as [c|] eqn:Hc.
    + apply listed_next in Hc as Hn.
      destruct (IH (with_token (Some c) i')) as (pages & -> & Hf & Heq); [done..| |].
      * rewrite Hn, length_drop. assert (length (listed_keys i' m) ≠ 0)%nat; [|unfold n; lia].
        intros E%nil_length_inv. by rewrite E, drop_nil in Hdrop.
      * exists (lo_items o :: pages). split_and!; [done|by constructor|]. cbn. by rewrite fmap_app, Hkeys, Heq, Hn, take_drop.
    + exfalso. apply last_None in Hc. destruct (listed_keys i' m); [by rewrite drop_nil in Hdrop|].
      destruct n eqn:En; [unfold n in En; lia|done].
Qed.
