(* ===== verification/Anchor.v ===== *)
(** * Anchors: the signed chain that says which state of a pool is current

    zfs.rs.  A pool's handle seals an anchor over the state that reached the
    disk and publishes it in the object store, once per sequence number; a boot
    admits a pool only if the newest anchor vouches for what the kernel loaded.

    BLAKE3 and Ed25519 are parameters.  The object store is reached through the
    interface [Roots]: the two calls of the backend the chain is built on.  The
    kernel's ZFS is a record of what is on the disk; each command takes an
    outcome from a list, and says how many transaction groups reached the disk
    meanwhile. *)
From S2P Require Import Prelude Text Http Backend.

(** ** Hashes and signatures (store/crypto/hash.rs, sign.rs, keys.rs) *)
Class Blake3 := blake3 : bytes → bytes.
Class Blake3Laws `{Blake3} := blake3_length b : length (blake3 b) = 32%nat.
Class Ed25519 := { SigningKey : Type; ed25519_sign : SigningKey → bytes → bytes;
                   ed25519_verify : bytes → bytes → bytes → bool }.
Definition ED25519_PUBLIC_KEY_LEN : nat := 32.
Definition ED25519_SIGNATURE_LEN : nat := 64.
Definition ZERO : bytes := replicate 32 Byte.x00.
Definition hash_of `{Blake3} (b : bytes) : bytes := blake3 b.
Definition is_zero (h : bytes) : bool := bool_decide (h = ZERO).
Record KeyMaterial `{Ed25519} := { signing_key : SigningKey; public_key : bytes; fs_uuid : bytes }.
(** A key pair as [Ed25519KeyPair] gives it: what it signs, its public key verifies. *)
Class KeyLaws `{Ed25519} (keys : KeyMaterial) := {
  sign_length m : length (ed25519_sign (signing_key keys) m) = ED25519_SIGNATURE_LEN;
  sign_verifies m : ed25519_verify (public_key keys) m (ed25519_sign (signing_key keys) m) = true;
  public_key_length : length (public_key keys) = ED25519_PUBLIC_KEY_LEN;
  fs_uuid_length : length (fs_uuid keys) = 16%nat }.
Definition sign `{Ed25519} (k : SigningKey) (m : bytes) : bytes := ed25519_sign k m.
Definition verify `{Ed25519} (pk m sig : bytes) : result StoreError () :=
  check (ed25519_verify pk m sig) (SE_Integrity "root signature verification failed").

(** ** The anchor and its encoding *)
Definition PROPERTY : string := "enclave:anchor".
Definition ANCHOR_MAGIC : bytes := str_bytes "ZFSANCH2".
Definition OFF_SEQ : nat := 8.
Definition OFF_PREV : nat := OFF_SEQ + 8.
Definition OFF_FS_UUID : nat := OFF_PREV + 32.
Definition OFF_KIND : nat := OFF_FS_UUID + 16.
Definition OFF_POOL_ID : nat := OFF_KIND + 1.
Definition OFF_TENANT_ID : nat := OFF_POOL_ID + 16.
Definition OFF_POOL_GUID : nat := OFF_TENANT_ID + 16.
Definition OFF_TXG : nat := OFF_POOL_GUID + 8.
Definition OFF_NONCE : nat := OFF_TXG + 8.
Definition OFF_PUBKEY : nat := OFF_NONCE + 32.
Definition SIGNED_LEN : nat := OFF_PUBKEY + ED25519_PUBLIC_KEY_LEN.
Definition ANCHOR_LEN : nat := SIGNED_LEN + ED25519_SIGNATURE_LEN.

Inductive PoolKind := Control | Tenant.
#[export] Instance pool_kind_eq_dec : EqDecision PoolKind.
Proof. solve_decision. Defined.
Definition kind_byte (k : PoolKind) : byte := match k with Control => Byte.x00 | Tenant => Byte.x01 end.
Definition from_byte (b : byte) : option PoolKind :=
  match byteZ b with 0 => Some Control | 1 => Some Tenant | _ => None end.
Definition CONTROL_POOL_ID : bytes := str_bytes "enclave-control!".
Definition u64_at (b : bytes) (off : nat) : Z := be_word (slice off (off + 8) b).
Definition id_at (b : bytes) (off : nat) : bytes := slice off (off + 16) b.
Definition to_be_bytes (n : Z) : bytes := be_bytes 8 n.

Record Anchor := {
  seq : Z; prev : bytes; kind : PoolKind; pool_id : bytes; tenant_id : bytes; pool_guid : Z; txg : Z;
  nonce : bytes; encoded : bytes }.
(** The value of the pool's property: which anchor the state is waiting for. *)
Definition marker (seq : Z) (nonce prev : bytes) : string :=
  pretty seq +:+ "-" +:+ hex_encode nonce +:+ "-" +:+ hex_encode prev.
Definition property (a : Anchor) : string := marker (seq a) (nonce a) (prev a).
Definition hash `{Blake3} (a : Anchor) : bytes := hash_of (encoded a).

Section codec.
Context `{Blake3, Ed25519} (keys : KeyMaterial).
(** What is signed. *)
Definition layout (seq : Z) (prev : bytes) (kind : PoolKind) (pool_id tenant_id : bytes) (pool_guid txg : Z)
    (nonce : bytes) : bytes :=
  ANCHOR_MAGIC ++ to_be_bytes seq ++ prev ++ fs_uuid keys ++ [kind_byte kind] ++ pool_id ++ tenant_id ++
  to_be_bytes pool_guid ++ to_be_bytes txg ++ nonce ++ public_key keys.
Definition next_seq (p : option Anchor) : Z := match p with Some p => wrapping_add (seq p) 1 | None => 0 end.
Definition prev_hash (p : option Anchor) : bytes := match p with Some p => hash p | None => ZERO end.
Definition seal (p : option Anchor) (kind : PoolKind) (pool_id tenant_id : bytes) (pool_guid txg : Z)
    (nonce : bytes) : Anchor :=
  let b := layout (next_seq p) (prev_hash p) kind pool_id tenant_id pool_guid txg nonce in
  {| seq := next_seq p; prev := prev_hash p; kind := kind; pool_id := pool_id; tenant_id := tenant_id;
     pool_guid := pool_guid; txg := txg; nonce := nonce; encoded := b ++ sign (signing_key keys) b |}.
Definition decode_and_verify (b : bytes) (expected_seq : Z) (expected_pool_id : bytes) : result StoreError Anchor :=
  let bad e := SE_Integrity ("zfs anchor: " +:+ e) in
  _ ← check (bool_decide (length b = ANCHOR_LEN ∧ slice 0 8 b = ANCHOR_MAGIC)) (bad "not an anchor");
  _ ← check (bool_decide (slice OFF_PUBKEY SIGNED_LEN b = public_key keys)) (bad "signed by an unexpected key");
  _ ← verify (public_key keys) (take SIGNED_LEN b) (drop SIGNED_LEN b);
  _ ← check (bool_decide (slice OFF_FS_UUID OFF_KIND b = fs_uuid keys)) (bad "belongs to another filesystem");
  _ ← check (bool_decide (id_at b OFF_POOL_ID = expected_pool_id)) (bad "belongs to another pool");
  kind ← ok_or (k ← b !! OFF_KIND; from_byte k) (bad "unknown pool kind");
  let seq := u64_at b OFF_SEQ in
  _ ← check (seq =? expected_seq) (bad "sequence does not match its key");
  let prev := slice OFF_PREV OFF_FS_UUID b in
  _ ← check (negb ((seq =? 0) && negb (is_zero prev))) (bad "genesis has a predecessor");
  Ok {| seq := seq; prev := prev; kind := kind; pool_id := id_at b OFF_POOL_ID; tenant_id := id_at b OFF_TENANT_ID;
        pool_guid := u64_at b OFF_POOL_GUID; txg := u64_at b OFF_TXG; nonce := slice OFF_NONCE OFF_PUBKEY b;
        encoded := b |}.

(** ** Generations *)
Definition GEN_MAGIC : bytes := str_bytes "ZFSGEN01".
Definition GEN_OFF_G : nat := 8.
Definition GEN_OFF_FS_UUID : nat := GEN_OFF_G + 8.
Definition GEN_OFF_PUBKEY : nat := GEN_OFF_FS_UUID + 16.
Definition GEN_SIGNED_LEN : nat := GEN_OFF_PUBKEY + ED25519_PUBLIC_KEY_LEN.
Definition GEN_LEN : nat := GEN_SIGNED_LEN + ED25519_SIGNATURE_LEN.
Definition gen_layout (generation : Z) : bytes :=
  GEN_MAGIC ++ to_be_bytes generation ++ fs_uuid keys ++ public_key keys.
Definition seal_generation (generation : Z) : bytes :=
  gen_layout generation ++ sign (signing_key keys) (gen_layout generation).
Definition verify_generation (b : bytes) (expected : Z) : result StoreError () :=
  let bad e := SE_Integrity ("zfs generation: " +:+ e) in
  _ ← check (bool_decide (length b = GEN_LEN ∧ slice 0 8 b = GEN_MAGIC)) (bad "not a generation");
  _ ← check (bool_decide (slice GEN_OFF_PUBKEY GEN_SIGNED_LEN b = public_key keys)) (bad "signed by an unexpected key");
  _ ← verify (public_key keys) (take GEN_SIGNED_LEN b) (drop GEN_SIGNED_LEN b);
  _ ← check (bool_decide (slice GEN_OFF_FS_UUID GEN_OFF_PUBKEY b = fs_uuid keys)) (bad "belongs to another filesystem");
  check (u64_at b GEN_OFF_G =? expected) (bad "number does not match its key").
End codec.
Definition hex16 (n : Z) : string := hex_encode (be_bytes 8 n).
Definition generation_key (prefix : string) (generation : Z) : string :=
  prefix +:+ "zfs/generations/" +:+ hex16 generation.

(** ** What is outside: the store, the clock, the entropy and the disk *)
(** The two calls of the backend: [get_retained_blob], of whose answer only the
    body is used, and [put_blob_if_not_exists]. *)
Class Roots (B : Type) := {
  roots_get : string → M B StoreError bytes;
  roots_put : PutBlobInput → M B StoreError () }.
Inductive anchor_error := FromStore (e : StoreError) | Bail (what : string) | OutOfFuel.
(** What a pool's device holds: the newest transaction group that reached it and
    wrote something, the marker in that state, the pool's guid. *)
Record Zpool := { z_guid : Z; z_txg : Z; z_marker : string }.
(** A command's outcome and how many transaction groups were written meanwhile;
    a [zfs set] that fails may have [taken] effect. *)
Inductive cmd := CmdOk (written : Z) | CmdErr (written : Z) (taken : bool).
Record World {B : Type} := {
  roots : B; clocks : list (option Z); cmds : list cmd; draws : list (option bytes); disk : option Zpool }.
Arguments World : clear implicits.

Section chain.
Context `{Blake3, Ed25519, Roots B} (keys : KeyMaterial).
Notation op := (M (World B) anchor_error).
Definition set_roots (b : B) (w : World B) : World B :=
  {| roots := b; clocks := clocks w; cmds := cmds w; draws := draws w; disk := disk w |}.
Definition set_disk (d : option Zpool) (w : World B) : World B :=
  {| roots := roots w; clocks := clocks w; cmds := cmds w; draws := draws w; disk := d |}.
Definition on_roots {A} (m : M B StoreError A) : M (World B) StoreError A := zoom roots set_roots m.
Definition store {A} (m : M B StoreError A) : op A :=
  λ w, let '(r, w) := on_roots m w in (map_err FromStore r, w).
(** [retain_until]: the trusted clock, which can fail, and the retention. *)
Definition lock_until (retention : Z) : op Z := λ w,
  match clocks w with
  | Some now :: cs => (Ok (now + retention),
      {| roots := roots w; clocks := cs; cmds := cmds w; draws := draws w; disk := disk w |})
  | _ :: cs => (Err (Bail "the trusted clock failed"),
      {| roots := roots w; clocks := cs; cmds := cmds w; draws := draws w; disk := disk w |})
  | [] => (Err (Bail "the trusted clock failed"), w)
  end.
Definition fill : op bytes := λ w,
  match draws w with
  | d :: ds => (ok_or d (Bail "getrandom"),
      {| roots := roots w; clocks := clocks w; cmds := cmds w; draws := ds; disk := disk w |})
  | [] => (Err (Bail "getrandom"), w)
  end.
(** [run] of a command on the pool: what it writes moves the pool's txg on. *)
Definition run (effect : Zpool → Zpool) : op () := λ w,
  match cmds w with
  | c :: cs =>
      let w := {| roots := roots w; clocks := clocks w; cmds := cs; draws := draws w; disk := disk w |} in
      let later n z := {| z_guid := z_guid z; z_txg := saturating_add (z_txg z) (Z.max 0 n); z_marker := z_marker z |} in
      match c with
      | CmdOk n => (Ok tt, set_disk (later n ∘ effect <$> disk w) w)
      | CmdErr n taken => (Err (Bail "the command failed"),
          set_disk ((if taken then later n ∘ effect else later n) <$> disk w) w)
      end
  | [] => (Err (Bail "the command failed"), w)
  end.
(** [zpool sync], then [synced_txg]: the newest txg on the disk. *)
Definition synced : op Z :=
  _ ← run id; w ← get; z ← unwrap (disk w) (Bail "the pool's txg history shows nothing written"); mret (z_txg z).
Definition zfs_set (value : string) : op () :=
  run (λ z, {| z_guid := z_guid z; z_txg := z_txg z; z_marker := value |}).

(** ** A contiguous chain of retained objects *)
Definition exists_raw (key : string) : op bool :=
  r ← attempt (on_roots (roots_get key));
  match r with
  | Ok _ => mret true
  | Err SE_NotFound => mret false
  | Err e => fail (FromStore e)
  end.
Definition saturating_mul (a b : Z) : Z := Z.min u64_max (a * b).
(** The gallop, with what it ends at, and the bisection. *)
Fixpoint gallop (fuel : nat) (key : Z → string) (lo step : Z) : op (Z * Z) :=
  match checked_add lo step with
  | None => mret (lo, step)
  | Some next =>
      match fuel with
      | O => fail OutOfFuel
      | S fuel =>
          e ← exists_raw (key next);
          if e : bool then gallop fuel key next (saturating_mul step 2) else mret (lo, step)
      end
  end.
Fixpoint bisect (fuel : nat) (key : Z → string) (lo hi : Z) : op Z :=
  if 1 <? hi - lo then
    match fuel with
    | O => fail OutOfFuel
    | S fuel =>
        let mid := lo + (hi - lo) / 2 in
        e ← exists_raw (key mid);
        if e : bool then bisect fuel key mid hi else bisect fuel key lo mid
    end
  else mret lo.
Definition CHAIN_FUEL : nat := 66.
Definition chain_tip (key : Z → string) : op (option Z) :=
  e ← exists_raw (key 0);
  if e : bool then
    '(lo, step) ← gallop CHAIN_FUEL key 0 1;
    lo ← bisect CHAIN_FUEL key lo (saturating_add lo step);
    mret (Some lo)
  else mret None.

(** ** Generations *)
Definition generation_exists (prefix : string) (generation : Z) : op bool :=
  let key := generation_key prefix generation in
  e ← exists_raw key;
  if e : bool then
    b ← store (roots_get key);
    _ ← lift (map_err FromStore (verify_generation keys b generation));
    mret true
  else mret false.
Definition locked (key : string) (b : bytes) (until : Z) : PutBlobInput :=
  with_object_lock {| ol_mode := Compliance; retain_until := until |} (put_input_new key b).
Fixpoint claim_loop (tries : nat) (prefix : string) (retention : Z) : op Z :=
  match tries with
  | O => fail (Bail "could not claim an enclave generation after 1024 tries; the store is being raced")
  | S tries =>
      tip ← chain_tip (generation_key prefix);
      let generation := match tip with Some t => wrapping_add t 1 | None => 0 end in
      let key := generation_key prefix generation in
      let body := seal_generation keys generation in
      until ← lock_until retention;
      r ← attempt (on_roots (roots_put (locked key body until)));
      match r with
      | Ok _ =>
          b ← store (roots_get key);
          if decide (b = body) then mret generation else claim_loop tries prefix retention
      | Err SE_AlreadyExists => claim_loop tries prefix retention
      | Err e => fail (FromStore e)
      end
  end.
Definition claim_generation (prefix : string) (retention : Z) : op Z := claim_loop 1024 prefix retention.

(** ** A pool's handle (struct Pool) *)
Record Pool := {
  p_prefix : string; p_anchor_prefix : string; p_retention : Z; p_kind : PoolKind; p_pool_id : bytes;
  p_tenant_id : bytes; is_pool : bool; p_pool_guid : Z; genesis : bytes; p_generation : Z;
  last : result string Anchor }.
Record PoolSpec := {
  sp_kind : PoolKind; sp_pool_id : bytes; sp_tenant_id : bytes; sp_anchor_prefix : string; sp_is_pool : bool }.
Definition attach (prefix : string) (retention : Z) (spec : PoolSpec) (generation : Z) : Pool :=
  {| p_prefix := prefix; p_anchor_prefix := sp_anchor_prefix spec; p_retention := retention; p_kind := sp_kind spec;
     p_pool_id := sp_pool_id spec; p_tenant_id := sp_tenant_id spec; is_pool := sp_is_pool spec; p_pool_guid := 0;
     genesis := ZERO; p_generation := generation; last := Err "not opened" |}.
Definition opened (guid : Z) (g : bytes) (a : Anchor) (h : Pool) : Pool :=
  {| p_prefix := p_prefix h; p_anchor_prefix := p_anchor_prefix h; p_retention := p_retention h; p_kind := p_kind h;
     p_pool_id := p_pool_id h; p_tenant_id := p_tenant_id h; is_pool := is_pool h; p_pool_guid := guid;
     genesis := g; p_generation := p_generation h; last := Ok a |}.
Definition set_guid (guid : Z) (h : Pool) : Pool :=
  {| p_prefix := p_prefix h; p_anchor_prefix := p_anchor_prefix h; p_retention := p_retention h; p_kind := p_kind h;
     p_pool_id := p_pool_id h; p_tenant_id := p_tenant_id h; is_pool := is_pool h; p_pool_guid := guid;
     genesis := genesis h; p_generation := p_generation h; last := last h |}.
Definition set_last (l : result string Anchor) (h : Pool) : Pool :=
  {| p_prefix := p_prefix h; p_anchor_prefix := p_anchor_prefix h; p_retention := p_retention h; p_kind := p_kind h;
     p_pool_id := p_pool_id h; p_tenant_id := p_tenant_id h; is_pool := is_pool h; p_pool_guid := p_pool_guid h;
     genesis := genesis h; p_generation := p_generation h; last := l |}.

Definition anchor_key (h : Pool) (seq : Z) : string := p_anchor_prefix h +:+ "anchors/" +:+ hex16 seq.
Definition load (h : Pool) (seq : Z) : op Anchor :=
  b ← store (roots_get (anchor_key h seq));
  lift (map_err FromStore (decode_and_verify keys b seq (p_pool_id h))).
Definition find_tip (h : Pool) : op (option Z) := chain_tip (anchor_key h).
Definition publish (h : Pool) (seq : Z) (b : bytes) : op () :=
  let key := anchor_key h seq in
  until ← lock_until (p_retention h);
  r ← attempt (on_roots (roots_put (locked key b until)));
  _ ← lift (match r with
    | Ok _ => Ok tt
    | Err SE_AlreadyExists => Err (Bail "another writer published this anchor")
    | Err e => Err (FromStore e)
    end);
  read ← store (roots_get key);
  ensure (bool_decide (read = b)) (Bail "another writer published this anchor first").
(** [seal_and_publish]: the marker and what it takes to the disk, the fence,
    then the anchor itself. *)
Definition mark (h : Pool) (p : option Anchor) (nonce : bytes) : op Z :=
  if is_pool h then
    _ ← zfs_set (marker (next_seq p) nonce (prev_hash p));
    t ← synced;
    _ ← ensure (match p with Some p => txg p <? t | None => true end) (Bail "zfs set reached a txg not past the anchor");
    mret t
  else mret 0.
Definition fence (h : Pool) (p : option Anchor) : op () :=
  match p with
  | Some _ =>
      newer ← generation_exists (p_prefix h) (wrapping_add (p_generation h) 1);
      ensure (negb newer) (Bail "a newer enclave generation exists; this one is superseded and will not anchor")
  | None => mret tt
  end.
Definition seal_and_publish (h : Pool) (p : option Anchor) : op Anchor :=
  nonce ← fill;
  txg ← mark h p nonce;
  _ ← fence h p;
  let a := seal keys p (p_kind h) (p_pool_id h) (p_tenant_id h) (p_pool_guid h) txg nonce in
  _ ← publish h (next_seq p) (encoded a);
  mret a.

(** [anchor]: it changes the handle's [last], which every later call reads. *)
Definition display (e : anchor_error) : string :=
  match e with FromStore e => store_error_display e | Bail w => w | OutOfFuel => "unreachable" end.
Definition anchor_now (h : Pool) (w : World B) : result anchor_error () * (Pool * World B) :=
  if negb (is_pool h) then (Ok tt, (h, w))
  else match last h with
  | Err _ => (Err (Bail "zfs anchoring stopped after a failure"), (h, w))
  | Ok p =>
      match synced w with
      | (Err e, w) => (Err e, (h, w))
      | (Ok t, w) =>
          if t =? txg p then (Ok tt, (h, w))
          else match seal_and_publish h (Some p) w with
          | (Ok a, w) => (Ok tt, (set_last (Ok a) h, w))
          | (Err e, w) => (Err e, (set_last (Err (display e)) h, w))
          end
      end
  end.

(** ** Creating a pool, and admitting one *)
(** [pool_present]: what the tool prints, whatever it exits with. *)
Definition pool_present : op bool :=
  r ← attempt (run id); w ← get; mret (match r with Ok _ => bool_decide (is_Some (disk w)) | Err _ => false end).
(** [zpool create -f] and the pool of the [guid] it draws. *)
Definition zpool_create (guid : Z) : op () := λ w,
  let made n := Some {| z_guid := guid; z_txg := Z.min u64_max (Z.max 0 n); z_marker := "-" |} in
  match cmds w with
  | c :: cs =>
      let w := {| roots := roots w; clocks := clocks w; cmds := cs; draws := draws w; disk := disk w |} in
      match c with
      | CmdOk n => (Ok tt, set_disk (made n) w)
      | CmdErr n taken => (Err (Bail "the command failed"), if taken then set_disk (made n) w else w)
      end
  | [] => (Err (Bail "the command failed"), w)
  end.
Definition datasets (k : PoolKind) : list string :=
  match k with Control => ["runtime"] | Tenant => ["data"; "runtime"] end.
Fixpoint create_datasets (ds : list string) : op () :=
  match ds with
  | [] => mret tt
  | d :: ds =>
      _ ← run id;
      _ ← (if decide (d = "runtime") then run id else mret tt);
      create_datasets ds
  end.
Definition pool_guid_of : op Z :=
  _ ← run id; w ← get; z ← unwrap (disk w) (Bail "the command failed"); mret (z_guid z).
Definition create_pool (guid : Z) (h : Pool) : op Pool :=
  p ← pool_present;
  _ ← ensure (negb p) (Bail "the device holds a pool but no anchor names it; refusing to guess");
  _ ← zpool_create guid;
  _ ← create_datasets (datasets (p_kind h));
  g ← pool_guid_of;
  mret (set_guid g h).
Definition create (prefix : string) (retention : Z) (spec : PoolSpec) (generation guid : Z) : op Pool :=
  let h := attach prefix retention spec generation in
  tip ← find_tip h;
  _ ← ensure (bool_decide (tip = None))
        (Bail "this pool's chain already has anchors; genesis would start a second history");
  h ← (if is_pool h then create_pool guid h else mret h);
  a ← seal_and_publish h None;
  mret (opened (p_pool_guid h) (hash a) a h).

Definition admit_state (tip : Anchor) (loaded : option Z) (m : string) (guid : Z) : result string () :=
  loaded ← ok_or loaded "the kernel did not say which txg it loaded";
  _ ← check (guid =? pool_guid tip) "it is another pool, not the anchored one";
  _ ← check (txg tip <=? loaded) "it loaded a txg older than the anchored one";
  if decide (m = property tip) then Ok tt
  else
    let bad := Err "it holds another anchor than the newest one" in
    match split_on (Ascii.ascii_of_N 45) m with
    | [s; n; p] =>
        if bool_decide (s = pretty (wrapping_add (seq tip) 1)) && (strlen n =? 64) &&
           bool_decide (p = hex_encode (hash tip)) then Ok tt else bad
    | _ => bad
    end.
(** [zpool import], its notes in the debug log when there are any, and what
    [zfs get] and [zpool get] then say of the pool. *)
Definition import (log : bool) : op (option Z * string * Z) :=
  _ ← run id;
  w ← get;
  z ← unwrap (disk w) (Bail "importing the pool");
  _ ← run id;
  w ← get;
  z' ← unwrap (disk w) (Bail "the command failed");
  g ← pool_guid_of;
  mret (if log then Some (z_txg z) else None, z_marker z', g).
(** The parts of [open]: the tip's link to the anchor before it, the history's
    first anchor, and what is on the device. *)
Definition check_link (h : Pool) (tip : Anchor) (seq : Z) : op () :=
  if 0 <? seq then
    before ← load h (seq - 1); ensure (bool_decide (hash before = prev tip)) (Bail "the anchor chain is broken")
  else mret tt.
Definition first_hash (h : Pool) (tip : Anchor) (seq : Z) : op bytes :=
  if seq =? 0 then mret (hash tip) else a ← load h 0; mret (hash a).
Definition admit_disk (h : Pool) (tip : Anchor) (log : bool) : op () :=
  if is_pool h then
    '(loaded, m, guid) ← import log;
    match admit_state tip loaded (trim m) guid with
    | Ok _ => run id
    | Err why => _ ← attempt (run id); fail (Bail ("refusing the pool: " +:+ why))
    end
  else mret tt.
Definition open (prefix : string) (retention : Z) (spec : PoolSpec) (generation : Z) (min_seq : option Z)
    (expect_genesis : option bytes) (log : bool) : op Pool :=
  let h := attach prefix retention spec generation in
  tip ← find_tip h;
  seq ← unwrap tip (Bail "this pool's chain has no anchors; there is nothing to resume");
  _ ← ensure (match min_seq with Some min => min <=? seq | None => true end)
        (Bail "the newest anchor is below the floor: refusing a rolled-back store");
  tip ← load h seq;
  _ ← check_link h tip seq;
  g ← first_hash h tip seq;
  _ ← ensure (match expect_genesis with Some e => bool_decide (g = e) | None => true end)
        (Bail "this pool is a different history than its catalog entry names");
  _ ← admit_disk h tip log;
  mret (opened (pool_guid tip) g tip h).
End chain.

(** ** The kernel's own accounts *)
(** The txg that the import of [pool] loaded, from the debug log. *)
Definition note_of (tag line : string) : option string :=
  p ← split_once tag line; q ← split_once "): " p.2; Some (trim q.2).
Definition loaded_step (tag : string) (st : option Z * option Z) (line : string) : option Z * option Z :=
  let '(current_txg, loaded) := st in
  match note_of tag line with
  | None => st
  | Some note =>
      match strip_prefix "using uberblock with txg=" note with
      | Some t => (parse_uint u64_max t, loaded)
      | None =>
          if decide (note = "LOADED") then (current_txg, current_txg)
          else if bool_decide (note = "LOADING" ∨ note = "UNLOADING") || starts_with "FAILED" note then (None, None)
          else st
      end
  end.
Definition loaded_txg (dbgmsg pool : string) : option Z :=
  (foldl (loaded_step ("spa_load(" +:+ pool +:+ ", config ")) (None, None) (str_lines dbgmsg)).2.
(** The newest txg that was committed and wrote something. *)
Definition column (name : string) (cols : list string) : option nat := fst <$> list_find (λ c, c = name) cols.
Definition witness_row (txg state written : nat) (l : string) : option Z :=
  let f := words l in
  n ← (f !! written) ≫= parse_uint u64_max;
  s ← f !! state;
  if decide (s = "C" ∧ 0 < n) then (f !! txg) ≫= parse_uint u64_max else None.
Fixpoint skip_to (p : string → bool) (ls : list string) : list string :=
  match ls with [] => [] | l :: ls => if p l then l :: ls else skip_to p ls end.
Definition witness (kstat : string) : option Z :=
  match skip_to (starts_with "txg") (str_lines kstat) with
  | [] => None
  | header :: rows =>
      let cols := words header in
      txg ← column "txg" cols;
      state ← column "state" cols;
      written ← column "nwritten" cols;
      foldl (λ o t, Some (match o with Some m => Z.max m t | None => t end)) None (omap (witness_row txg state written) rows)
  end.
