(* ===== verification/AnchorProps.v ===== *)
(** * Anchors: what decodes, what a marker says, where a chain ends *)
From S2P Require Import Prelude Text Http Egress EgressProps Backend BackendProps Anchor.

(** ** A byte string cut into fields *)
(** The fields stand one after the other in a byte string from an offset. *)
Fixpoint fields (off : nat) (parts : list bytes) (b : bytes) : Prop :=
  match parts with
  | [] => True
  | p :: ps => slice off (off + length p) b = p ∧ fields (off + length p) ps b
  end.
Lemma fields_spec parts off b : length b = (off + length (concat parts))%nat →
  drop off b = concat parts ↔ fields off parts b.
Proof.
  revert off. induction parts as [|p ps IH]; intros off Hb; cbn in *.
  { split; [done|]. intros _. apply nil_length_inv. rewrite length_drop. lia. }
  rewrite length_app in Hb. rewrite <- IH by lia. unfold slice.
  replace (off + length p - off)%nat with (length p) by lia. rewrite <- drop_drop.
  split.
  - intros ->. by rewrite take_app_length, drop_app_length.
  - intros [Ht Hd]. by rewrite <- (take_drop (length p) (drop off b)), Ht, Hd.
Qed.
Lemma concat_fields parts b : length b = length (concat parts) → b = concat parts ↔ fields 0 parts b.
Proof. apply (fields_spec parts 0). Qed.

(** ** The encoding *)
Lemma to_be_bytes_length n : length (to_be_bytes n) = 8%nat.
Proof. apply be_bytes_length. Qed.
Lemma u64_of_bytes n : is_u64 n → be_word (to_be_bytes n) = n.
Proof.
  intros Hn. unfold to_be_bytes. rewrite be_word_bytes. apply Z.mod_small. unfold is_u64, u64_max in Hn.
  change (256 ^ Z.of_nat 8) with 18446744073709551616. lia.
Qed.
Lemma hex16_inj i j : is_u64 i → is_u64 j → hex16 i = hex16 j → i = j.
Proof.
  unfold hex16. intros Hi Hj E%(inj hex_encode). rewrite <- (u64_of_bytes i), <- (u64_of_bytes j) by done.
  unfold to_be_bytes. by rewrite E.
Qed.
Section codec.
Context `{Blake3, Ed25519} (keys : KeyMaterial).
Context (pk_length : length (public_key keys) = 32%nat) (uuid_length : length (fs_uuid keys) = 16%nat).
(** The shapes of an anchor's fields: what Rust's types say of them. *)
Record anchor_wf (a : Anchor) : Prop := {
  wf_seq : is_u64 (seq a); wf_prev : length (prev a) = 32%nat; wf_pool_id : length (pool_id a) = 16%nat;
  wf_tenant_id : length (tenant_id a) = 16%nat; wf_guid : is_u64 (pool_guid a); wf_txg : is_u64 (txg a);
  wf_nonce : length (nonce a) = 32%nat }.
Definition layout_of (a : Anchor) : bytes :=
  layout keys (seq a) (prev a) (kind a) (pool_id a) (tenant_id a) (pool_guid a) (txg a) (nonce a).
Lemma u64_at_range b off : (off + 8 ≤ length b)%nat → is_u64 (u64_at b off).
Proof.
  intros Hb. unfold u64_at. pose proof (be_word_range (slice off (off + 8) b)) as Hr.
  rewrite slice_length in Hr by done. replace (off + 8 - off)%nat with 8%nat in Hr by lia.
  unfold is_u64, u64_max. change (256 ^ Z.of_nat 8) with 18446744073709551616 in Hr. lia.
Qed.
Lemma slice_u64 b off n : (off + 8 ≤ length b)%nat → is_u64 n →
  slice off (off + 8) b = to_be_bytes n ↔ u64_at b off = n.
Proof.
  intros Hb Hn. unfold u64_at. split; [intros ->; by apply u64_of_bytes|]. intros <-.
  unfold to_be_bytes. rewrite <- (be_bytes_word (slice off (off + 8) b)) at 1.
  rewrite slice_length by done. by replace (off + 8 - off)%nat with 8%nat by lia.
Qed.
Lemma kind_of_byte b k : from_byte b = Some k ↔ b = kind_byte k.
Proof.
  split; [|by intros ->; destruct k].
  unfold from_byte. intros Hk. rewrite <- (Zbyte_byteZ b). pose proof (byteZ_range b).
  destruct (byteZ b) as [|[]|]; by simplify_eq.
Qed.
Lemma slice_one i b x : slice i (i + 1) b = [x] ↔ b !! i = Some x.
Proof.
  unfold slice. replace (i + 1 - i)%nat with 1%nat by lia. rewrite <- (Nat.add_0_r i) at 2. rewrite <- lookup_drop.
  destruct (drop i b); cbn; [done|]. split; [by intros [= ->]|by intros [= ->]].
Qed.
Lemma layout_length a : anchor_wf a → length (layout_of a) = SIGNED_LEN.
Proof.
  intros []. unfold layout_of, layout. rewrite !length_app, !to_be_bytes_length, pk_length, uuid_length.
  change SIGNED_LEN with 177%nat. change (length ANCHOR_MAGIC) with 8%nat. change (length [kind_byte (kind a)]) with 1%nat. lia.
Qed.
(** The signed part is its fields one after the other, and nothing else is. *)
Lemma layout_fields b a : anchor_wf a → length b = SIGNED_LEN →
  b = layout_of a ↔
    slice 0 8 b = ANCHOR_MAGIC ∧ u64_at b OFF_SEQ = seq a ∧ slice OFF_PREV OFF_FS_UUID b = prev a ∧
    slice OFF_FS_UUID OFF_KIND b = fs_uuid keys ∧ b !! OFF_KIND = Some (kind_byte (kind a)) ∧
    id_at b OFF_POOL_ID = pool_id a ∧ id_at b OFF_TENANT_ID = tenant_id a ∧ u64_at b OFF_POOL_GUID = pool_guid a ∧
    u64_at b OFF_TXG = txg a ∧ slice OFF_NONCE OFF_PUBKEY b = nonce a ∧ slice OFF_PUBKEY SIGNED_LEN b = public_key keys.
Proof.
  intros Hwf Hb.
  set (parts := [ANCHOR_MAGIC; to_be_bytes (seq a); prev a; fs_uuid keys; [kind_byte (kind a)]; pool_id a;
    tenant_id a; to_be_bytes (pool_guid a); to_be_bytes (txg a); nonce a; public_key keys]).
  assert (layout_of a = concat parts) as Hlay by (unfold layout_of, layout, parts; cbn [concat]; by rewrite app_nil_r).
  pose proof (layout_length a Hwf) as Hlen. destruct Hwf. rewrite Hlay in *.
  rewrite concat_fields by congruence. unfold parts. cbn [fields].
  rewrite !to_be_bytes_length, pk_length, uuid_length, wf_prev0, wf_pool_id0, wf_tenant_id0, wf_nonce0.
  change (length ANCHOR_MAGIC) with 8%nat. change (length [kind_byte (kind a)]) with 1%nat.
  rewrite !slice_u64, slice_one by (first [done|rewrite Hb; cbn; lia]). unfold id_at. cbn. tauto.
Qed.
Lemma u64_at_app t sig off : (off + 8 ≤ length t)%nat → u64_at (t ++ sig) off = u64_at t off.
Proof. intros. unfold u64_at. by rewrite slice_app_l. Qed.
Lemma id_at_app t sig off : (off + 16 ≤ length t)%nat → id_at (t ++ sig) off = id_at t off.
Proof. intros. unfold id_at. by rewrite slice_app_l. Qed.
Lemma decode_app t sig s id a : length t = SIGNED_LEN →
  decode_and_verify keys (t ++ sig) s id = Ok a ↔
  length sig = ED25519_SIGNATURE_LEN ∧ anchor_wf a ∧ t = layout_of a ∧ encoded a = t ++ sig ∧ seq a = s ∧
  pool_id a = id ∧ (seq a = 0 → prev a = ZERO) ∧ ed25519_verify (public_key keys) t sig = true.
Proof.
  intros Ht. unfold decode_and_verify.
  assert (SIGNED_LEN = 177%nat) as HL by done.
  rewrite (take_app_length' t sig), (drop_app_length' t sig) by done.
  rewrite !u64_at_app, !id_at_app, !slice_app_l, lookup_app_l by (rewrite Ht; cbn; lia).
  unfold verify. rewrite bind_Ok. setoid_rewrite check_Ok. setoid_rewrite bool_decide_eq_true.
  rewrite length_app, Ht. split.
  - intros (_ & [Hl Hm] & E). apply bind_Ok in E as (_ & Hk%check_Ok%bool_decide_eq_true & E).
    apply bind_Ok in E as (_ & Hv%check_Ok & E). apply bind_Ok in E as (_ & Hu%check_Ok%bool_decide_eq_true & E).
    apply bind_Ok in E as (_ & Hi%check_Ok%bool_decide_eq_true & E). apply bind_Ok in E as (k & Hkind%ok_or_Ok & E).
    apply bind_Ok in E as (_ & Hs%check_Ok%Z.eqb_eq & E). apply bind_Ok in E as (_ & Hp%check_Ok & [= <-]).
    apply bind_Some in Hkind as (kb & Hkb & Hkb'%kind_of_byte). subst kb.
    assert (anchor_wf {| seq := u64_at t OFF_SEQ; prev := slice OFF_PREV OFF_FS_UUID t; kind := k;
      pool_id := id_at t OFF_POOL_ID; tenant_id := id_at t OFF_TENANT_ID; pool_guid := u64_at t OFF_POOL_GUID;
      txg := u64_at t OFF_TXG; nonce := slice OFF_NONCE OFF_PUBKEY t; encoded := t ++ sig |}) as Hwf.
    { split; cbn [seq prev pool_id tenant_id pool_guid txg nonce]; unfold id_at;
        first [apply u64_at_range|rewrite slice_length; [done|]]; rewrite Ht; cbn; lia. }
    cbn [seq prev kind pool_id tenant_id pool_guid txg nonce encoded].
    split_and!; [by rewrite HL in Hl; unfold ANCHOR_LEN in Hl; rewrite HL in Hl; lia|done| |done|done|done| |done].
    + apply layout_fields; [done|done|]. cbn [seq prev kind pool_id tenant_id pool_guid txg nonce]. by split_and!.
    + intros Hz. unfold is_zero in Hp. rewrite Hz in Hp. cbn in Hp. apply negb_true_iff, negb_false_iff, bool_decide_eq_true in Hp. done.
  - intros (Hl & Hwf & Hlay & He & Hs & Hi & Hz & Hv).
    apply (layout_fields t a Hwf Ht) in Hlay as (Hm & Hsq & Hpr & Hu & Hk & Hpi & Hti & Hg & Htx & Hn & Hpk).
    exists tt. split; [split; [unfold ANCHOR_LEN; by rewrite Hl|done]|].
    apply bind_Ok. exists tt. split; [by apply check_Ok, bool_decide_eq_true_2|].
    apply bind_Ok. exists tt. split; [by apply check_Ok|].
    apply bind_Ok. exists tt. split; [by apply check_Ok, bool_decide_eq_true_2|].
    apply bind_Ok. exists tt. split; [apply check_Ok, bool_decide_eq_true_2; congruence|].
    apply bind_Ok. exists (kind a). split; [apply ok_or_Ok; rewrite Hk; by apply kind_of_byte|].
    apply bind_Ok. exists tt. split; [apply check_Ok, Z.eqb_eq; congruence|].
    apply bind_Ok. exists tt. split; [|f_equal; destruct a; cbn in *; congruence].
    apply check_Ok. rewrite Hsq, Hpr. destruct (seq a =? 0) eqn:E; [|done]. apply Z.eqb_eq in E.
    unfold is_zero. by rewrite bool_decide_eq_true_2 by auto.
Qed.
(** C20: what decodes as an anchor.  Bytes read from a key are accepted, as the
    anchor [a], exactly when they are [a]'s fields in their places followed by
    64 bytes, [a] is at the sequence number and of the pool that the key says,
    names no predecessor if it is the first, and this filesystem's own key, and
    not whatever key the bytes name, signed all of the fields. *)
Theorem decode_spec b s id a :
  decode_and_verify keys b s id = Ok a ↔
  anchor_wf a ∧ encoded a = b ∧ seq a = s ∧ pool_id a = id ∧ (seq a = 0 → prev a = ZERO) ∧
  ∃ sig, length sig = ED25519_SIGNATURE_LEN ∧ b = layout_of a ++ sig ∧
    ed25519_verify (public_key keys) (layout_of a) sig = true.
Proof.
  split.
  - intros E. assert (length b = ANCHOR_LEN) as Hb.
    { unfold decode_and_verify in E. apply bind_Ok in E as (_ & [Hb _]%check_Ok%bool_decide_eq_true & _). done. }
    rewrite <- (take_drop SIGNED_LEN b) in E |- *.
    apply decode_app in E as (? & ? & Ht & ? & ? & ? & ? & ?); [|rewrite length_take, Hb; done].
    split_and!; [done..|]. eexists. split_and!; [done|by rewrite <- Ht|by rewrite <- Ht].
  - intros (? & ? & ? & ? & ? & sig & ? & -> & ?). apply decode_app; [by apply layout_length|]. by split_and!.
Qed.
End codec.

(** ** What the chain relies on in the store *)
(** Before [horizon], the store keeps what was created under a lock that lasts
    to it: once a body is [stored] at a key it stays, whoever else calls.  A read
    answers what is stored by its end, or that nothing was at its start.  A
    creation that succeeds leaves a body stored, not always the one it gave: the
    first, when there was one under a delete marker. *)
Class RootsLaws (B : Type) `{Roots B} := {
  roots_ok : B → Prop;
  stored : B → string → option bytes;
  later : B → B → Prop;
  horizon : Z;
  later_refl b : later b b;
  later_trans b b' b'' : later b b' → later b' b'' → later b b'';
  later_stored b b' k x : later b b' → stored b k = Some x → stored b' k = Some x;
  get_spec b k r b' : roots_ok b → roots_get k b = (r, b') →
    roots_ok b' ∧ later b b' ∧
    match r with
    | Ok x => stored b' k = Some x
    | Err SE_NotFound => stored b k = None
    | Err _ => True
    end;
  put_spec b i lock r b' : roots_ok b → pi_object_lock i = Some lock → horizon ≤ retain_until lock →
    roots_put i b = (r, b') → roots_ok b' ∧ later b b' ∧ (r = Ok tt → is_Some (stored b' (pi_key i))) }.

Section store.
Context `{Blake3, Ed25519, Roots B, !RootsLaws B} (keys : KeyMaterial).
(** A world whose store has moved on, and nothing else. *)
Record moved (w w' : World B) : Prop := {
  moved_ok : roots_ok (roots w'); moved_later : later (roots w) (roots w'); moved_rest : w' = set_roots (roots w') w }.
Lemma moved_refl w : roots_ok (roots w) → moved w w.
Proof. split; [done|apply later_refl|by destruct w]. Qed.
Lemma moved_trans w w' w'' : moved w w' → moved w' w'' → moved w w''.
Proof.
  intros [_ Hl Hr] [Ho Hl' Hr']. split; [done|by eapply later_trans|]. rewrite Hr', Hr. by destruct w''.
Qed.
Lemma moved_absent w w' k : moved w w' → stored (roots w') k = None → stored (roots w) k = None.
Proof.
  intros [_ Hl _] Hn. destruct (stored (roots w) k) as [x|] eqn:E; [|done].
  by rewrite (later_stored _ _ _ _ Hl E) in Hn.
Qed.
Lemma moved_present w w' k : moved w w' → is_Some (stored (roots w) k) → is_Some (stored (roots w') k).
Proof. intros [_ Hl _] [x Hx]. exists x. by eapply later_stored. Qed.
Lemma on_roots_get k w r w' : roots_ok (roots w) → on_roots (roots_get k) w = (r, w') →
  moved w w' ∧ match r with
               | Ok x => stored (roots w') k = Some x
               | Err SE_NotFound => stored (roots w) k = None
               | Err _ => True
               end.
Proof.
  intros Hok E. unfold on_roots in E. apply zoom_inv in E as (b & E & ->).
  apply get_spec in E as (Ho & Hl & Hr); [|done]. split; [by split|done].
Qed.
Lemma exists_raw_spec k w r w' : roots_ok (roots w) → exists_raw k w = (r, w') →
  moved w w' ∧ match r with
               | Ok true => is_Some (stored (roots w') k)
               | Ok false => stored (roots w) k = None
               | Err e => ∃ e', e = FromStore e'
               end.
Proof.
  intros Hok E. unfold exists_raw, attempt in E. unfold_m.
  destruct (on_roots (roots_get k) w) as [x w1] eqn:Eg. apply on_roots_get in Eg as [Hm Hx]; [|done].
  destruct x as [b|e]; [injection E as <- <-; eauto|].
  destruct e; injection E as <- <-; eauto.
Qed.

(** ** Where a chain ends *)
Section tip.
Context (key : Z → string) (w0 : World B).
(** The state of the search: how far the chain is known to reach by now, and
    where it is known not to have reached at the start. *)
Record searched (lo : Z) (w : World B) : Prop := {
  s_moved : moved w0 w; s_lo : is_u64 lo; s_present : is_Some (stored (roots w) (key lo)) }.
Definition bounded (hi : Z) : Prop := hi = u64_max ∨ stored (roots w0) (key hi) = None.
Lemma search_step lo mid w e w' : searched lo w → is_u64 mid → exists_raw (key mid) w = (e, w') →
  match e with
  | Ok true => searched mid w'
  | Ok false => searched lo w' ∧ bounded mid
  | Err e => moved w0 w' ∧ ∃ e', e = FromStore e'
  end.
Proof.
  intros [Hm Hl Hp] Hmid E. apply exists_raw_spec in E as [Hm' He]; [|apply Hm].
  pose proof (moved_trans _ _ _ Hm Hm') as Hmm. destruct e as [[]|e].
  - by split.
  - split; [split; [done..|by apply (moved_present w)]|]. right. by apply (moved_absent w0 w).
  - done.
Qed.
Lemma bisect_spec fuel lo hi w r w' : searched lo w → bounded hi → lo < hi ∨ lo = u64_max → is_u64 hi →
  hi - lo ≤ 2 ^ Z.of_nat fuel → bisect fuel key lo hi w = (r, w') →
  match r with
  | Ok t => searched t w' ∧ (t + 1 < u64_max → stored (roots w0) (key (t + 1)) = None)
  | Err e => moved w0 w' ∧ ∃ e', e = FromStore e'
  end.
Proof.
  revert lo hi w. induction fuel as [|fuel IH]; intros lo hi w Hs Hb Hle Hhi Hf E; cbn [bisect] in E;
    destruct (1 <? hi - lo) eqn:Hlt; [apply Z.ltb_lt in Hlt; cbn in Hf; lia| | |].
  1, 3: apply Z.ltb_ge in Hlt; injection E as <- <-; split; [done|]; intros Ht;
    replace (lo + 1) with hi by lia; destruct Hb; [lia|done].
  apply Z.ltb_lt in Hlt. rewrite Nat2Z.inj_succ, Z.pow_succ_r in Hf by lia.
  pose proof (s_lo _ _ Hs). assert (0 ≤ (hi - lo) / 2 ∧ 2 * ((hi - lo) / 2) ≤ hi - lo < 2 * ((hi - lo) / 2) + 2) as Hdiv
    by (pose proof (Z.div_mod (hi - lo) 2); pose proof (Z.mod_pos_bound (hi - lo) 2); lia).
  set (mid := lo + (hi - lo) / 2) in *. assert (is_u64 mid) as Hmid by (unfold is_u64 in *; lia).
  apply mbind_inv in E as [([] & w1 & E1 & E)|(e & E1 & ->)]; apply (search_step lo) in E1; try done.
  - eapply IH, E; [done|done|lia|done|lia].
  - destruct E1 as [Hs1 Hb1]. eapply IH, E; [done|done|lia|done|lia].
Qed.
(** The gallop doubles: after [i] steps the chain is known to reach 2^i - 1. *)
Lemma gallop_spec n i fuel lo step w r w' : searched lo w → i + Z.of_nat n = 64 → 0 ≤ i → (n < fuel)%nat →
  lo = 2 ^ i - 1 → step = Z.min u64_max (2 ^ i) → gallop fuel key lo step w = (r, w') →
  match r with
  | Ok (lo, step) => let hi := saturating_add lo step in
      searched lo w' ∧ bounded hi ∧ (lo < hi ∨ lo = u64_max) ∧ is_u64 hi ∧ hi - lo ≤ 2 ^ 64
  | Err e => moved w0 w' ∧ ∃ e', e = FromStore e'
  end.
Proof.
  revert i fuel lo step w. induction n as [|n IH]; intros i fuel lo step w Hs Hi Hge Hf Hlo Hst E;
    (destruct fuel as [|fuel]; [lia|]); cbn [gallop] in E; unfold checked_add in E.
  - assert (i = 64) as -> by lia. change (2 ^ 64) with (u64_max + 1) in *.
    rewrite Z.min_l in Hst by lia. subst lo step.
    destruct (_ <=? u64_max) eqn:Hc; [apply Z.leb_le in Hc; unfold u64_max in *; lia|]. injection E as <- <-.
    unfold saturating_add, is_u64. split_and!; try (unfold u64_max in *; lia); [done|]. left. unfold u64_max. lia.
  - assert (2 ^ i ≤ 2 ^ 63) as Hp by (apply Z.pow_le_mono_r; lia). assert (0 < 2 ^ i) by (apply Z.pow_pos_nonneg; lia).
    change (2 ^ 63) with 9223372036854775808 in Hp.
    assert (step = 2 ^ i) as Hst' by (unfold u64_max in *; lia). clear Hst. subst step.
    destruct (lo + 2 ^ i <=? u64_max) eqn:Hc; [|apply Z.leb_gt in Hc; unfold u64_max in *; lia].
    apply mbind_inv in E as [([] & w1 & E1 & E)|(e & E1 & ->)]; apply (search_step lo) in E1;
      try done; try (apply Z.leb_le in Hc; unfold is_u64; lia).
    + eapply (IH (i + 1)), E; [done|lia|lia|lia| |].
      * rewrite Z.pow_add_r by lia. lia.
      * unfold saturating_mul. rewrite Z.pow_add_r by lia. done.
    + apply Z.leb_le in Hc. injection E as <- <-. destruct E1 as [Hs1 Hb1]. unfold saturating_add.
      rewrite Z.min_r by lia. split_and!; [done|done|lia|unfold is_u64; lia|].
      change (2 ^ 64) with 18446744073709551616. lia.
Qed.
End tip.
Lemma chain_tip_run key w r w' : roots_ok (roots w) → chain_tip key w = (r, w') →
  moved w w' ∧ match r with
  | Ok None => stored (roots w) (key 0) = None
  | Ok (Some t) => is_u64 t ∧ is_Some (stored (roots w') (key t)) ∧
      (t + 1 < u64_max → stored (roots w) (key (t + 1)) = None)
  | Err e => ∃ e', e = FromStore e'
  end.
Proof.
  intros Hok E. unfold chain_tip in E.
  apply mbind_inv in E as [(e & w1 & E1 & E)|(e & E1 & ->)]; apply exists_raw_spec in E1 as [Hm He]; [|done| |done]; [|done].
  destruct e; [|by injection E as <- <-].
  assert (searched key w 0 w1) as Hs by (split; [done|unfold is_u64, u64_max; lia|done]).
  apply mbind_inv in E as [([lo step] & w2 & E2 & E)|(e & E2 & ->)];
    (eapply (gallop_spec key w 64 0) in E2; [|done|lia|lia|unfold CHAIN_FUEL; lia|done|done]); cbn zeta in E2; [|done].
  destruct E2 as (Hs2 & Hb & Hlt & Hhi & Hd).
  apply mbind_inv in E as [(t & w3 & E3 & E)|(e & E3 & ->)];
    (eapply (bisect_spec key w) in E3; [|done|exact Hb|done|done|]);
    try (etransitivity; [exact Hd|]; apply Z.pow_le_mono_r; unfold CHAIN_FUEL; lia); [|done].
  destruct E3 as [[] Ht]. by injection E as <- <-.
Qed.
(** C21: a search for a chain's newest entry ends, and finds it.  The search makes
    at most 132 rounds, so it never runs out of the fuel the definition gives
    it: it fails only when the store does.  On a chain without holes it answers
    [None] only if the chain was empty when it started, and otherwise an entry
    that is there, past which the chain had none when it started, however much
    others append to it meanwhile and short of 2^64 - 1 entries. *)
Theorem chain_tip_spec key w r w' : roots_ok (roots w) → chain_tip key w = (r, w') →
  (∀ i j, 0 ≤ i ≤ j → j ≤ u64_max → is_Some (stored (roots w) (key j)) → is_Some (stored (roots w) (key i))) →
  match r with
  | Ok None => ∀ j, 0 ≤ j ≤ u64_max → stored (roots w) (key j) = None
  | Ok (Some t) => 0 ≤ t ∧ is_Some (stored (roots w') (key t)) ∧
      (t + 1 < u64_max → ∀ j, t < j ≤ u64_max → stored (roots w) (key j) = None)
  | Err e => ∃ e', e = FromStore e'
  end.
Proof.
  intros Hok E Hc. apply chain_tip_run in E as [_ Hr]; [|done]. destruct r as [[t|]|e]; [| |done].
  - destruct Hr as ([Hge _] & Ht & Hn). split_and!; [done..|]. intros Hlt j Hj. apply eq_None_not_Some. intros Hs.
    apply (Hc (t + 1)) in Hs; [|lia..]. by rewrite Hn in Hs by done; destruct Hs.
  - intros j Hj. apply eq_None_not_Some. intros Hs. apply (Hc 0) in Hs; [|lia..]. rewrite Hr in Hs. by destruct Hs.
Qed.
End store.

(** ** Markers, and the states an anchor vouches for *)
Definition DASH : Ascii.ascii := Ascii.ascii_of_N 45.
Definition no_dash (s : string) : Prop := all_chars (λ c, bool_decide (c ≠ DASH)) s = true.
Lemma split_on_nonempty d s : split_on d s ≠ [].
Proof. destruct s as [|c s]; cbn; [done|]. case_decide; [done|]. by destruct (split_on d s). Qed.
Lemma split_on_one s a : split_on DASH s = [a] ↔ no_dash a ∧ s = a.
Proof.
  revert a. induction s as [|c s IH]; intros a; cbn [split_on].
  - split; [by intros [= <-]|]. by intros [_ <-].
  - case_decide as Hc.
    + subst c. split; [intros [= _ Hs]; by apply split_on_nonempty in Hs|]. by intros [Hn <-].
    + destruct (split_on DASH s) as [|w [|w' ws]] eqn:E; [by apply split_on_nonempty in E| |].
      * destruct (proj1 (IH w) eq_refl) as [Hn ->]. split.
        -- intros [= <-]. split; [|done]. unfold no_dash. cbn. by rewrite bool_decide_eq_true_2.
        -- by intros [_ <-].
      * split; [done|]. intros [Hn <-]. unfold no_dash in Hn. cbn in Hn. apply andb_true_iff in Hn as [_ Hn].
        discriminate (proj2 (IH s) (conj Hn eq_refl)).
Qed.
Lemma split_on_cons s a w ws : split_on DASH s = a :: w :: ws ↔
  ∃ r, no_dash a ∧ s = a +:+ String DASH r ∧ split_on DASH r = w :: ws.
Proof.
  revert a. induction s as [|c s IH]; intros a; cbn [split_on].
  - split; [done|]. intros (r & _ & Hs & _). by destruct a.
  - case_decide as Hc.
    + subst c. split; [intros [= <- Hs]; by exists s|]. intros (r & Hn & Hs & Hr). destruct a as [|c a]; cbn in Hs.
      * injection Hs as ->. by rewrite Hr.
      * injection Hs as <- ->. done.
    + split.
      * destruct (split_on DASH s) as [|v vs] eqn:E; [done|]. intros [= <- ->].
        destruct (proj1 (IH v) eq_refl) as (r & Hn & -> & Hr). exists r. split_and!; [|done..].
        unfold no_dash. cbn. by rewrite bool_decide_eq_true_2.
      * intros (r & Hn & Hs & Hr). destruct a as [|c' a]; cbn in Hs; [by injection Hs as ->|]. injection Hs as -> ->.
        unfold no_dash in Hn. cbn in Hn. apply andb_true_iff in Hn as [_ Hn].
        by rewrite (proj2 (IH a)) by eauto.
Qed.
Lemma split_three s a b c : split_on DASH s = [a; b; c] ↔
  no_dash a ∧ no_dash b ∧ no_dash c ∧ s = a +:+ "-" +:+ b +:+ "-" +:+ c.
Proof.
  rewrite split_on_cons. setoid_rewrite split_on_cons. setoid_rewrite split_on_one. split.
  - intros (r & ? & -> & r' & ? & -> & ? & ->). done.
  - intros (? & ? & ? & ->). eexists. split_and!; [done|reflexivity|]. eexists. split_and!; [done|reflexivity|done..].
Qed.
Lemma hex_digit_no_dash n : 0 ≤ n < 16 → bool_decide (hex_digit n ≠ DASH) = true.
Proof.
  intros Hn. assert (n ∈ seqZ 0 16) as Hin by (apply elem_of_seqZ; lia).
  assert (Forall (λ n, bool_decide (hex_digit n ≠ DASH) = true) (seqZ 0 16)) as Hall
    by (vm_compute; repeat constructor).
  rewrite Forall_forall in Hall. exact (Hall n Hin).
Qed.
Lemma hex_no_dash b : no_dash (hex_encode b).
Proof.
  unfold no_dash. induction b as [|x b IH]; [done|]. cbn [hex_encode all_chars]. pose proof (byteZ_range x).
  rewrite !hex_digit_no_dash, IH; [done| |].
  - apply Z.mod_pos_bound. lia.
  - split; [apply Z.div_pos; lia|apply Z.div_lt_upper_bound; lia].
Qed.
Lemma pretty_no_dash n : 0 ≤ n → no_dash (pretty n).
Proof.
  intros Hn. destruct (pretty_digits n Hn) as (Hd & _ & _). unfold no_dash. eapply all_chars_impl; [|exact Hd].
  intros c Hc. apply bool_decide_eq_true_2. by intros ->.
Qed.
Lemma split_marker s n p : 0 ≤ s → split_on DASH (marker s n p) = [pretty s; hex_encode n; hex_encode p].
Proof. intros Hs. apply split_three. split_and!; [by apply pretty_no_dash|apply hex_no_dash..|done]. Qed.
Section admission.
Context `{Blake3}.
(** The markers an anchor's state may hold: its own, or one written after it
    for an anchor that names it as its predecessor. *)
Definition marked (tip : Anchor) (m : string) : Prop :=
  m = property tip ∨ ∃ n, strlen n = 64 ∧ no_dash n ∧
    m = pretty (wrapping_add (seq tip) 1) +:+ "-" +:+ n +:+ "-" +:+ hex_encode (hash tip).
Lemma wrapping_nonneg a b : 0 ≤ wrapping_add a b.
Proof. unfold wrapping_add. by apply Z.mod_pos_bound. Qed.
Lemma admit_state_Ok tip loaded m guid : admit_state tip loaded m guid = Ok tt ↔
  ∃ t, loaded = Some t ∧ guid = pool_guid tip ∧ txg tip ≤ t ∧ marked tip m.
Proof.
  unfold admit_state. rewrite bind_Ok. setoid_rewrite ok_or_Ok. f_equiv. intros t. split.
  - intros [-> E]. apply bind_Ok in E as (_ & Hg%check_Ok%Z.eqb_eq & E).
    apply bind_Ok in E as (_ & Ht%check_Ok%Z.leb_le & E). split_and!; [done..|]. unfold marked.
    case_decide as Hm; [by left|]. destruct (split_on _ m) as [|s [|n [|p []]]] eqn:Hs; try done.
    apply split_three in Hs as (_ & Hn & _ & ->). case_match eqn:Hb; [|done]. right. exists n.
    apply andb_true_iff in Hb as [[->%bool_decide_eq_true Hl%Z.eqb_eq]%andb_true_iff ->%bool_decide_eq_true]. done.
  - intros (-> & -> & Ht & Hm). split; [done|]. apply bind_Ok. exists tt. split; [apply check_Ok, Z.eqb_refl|].
    apply bind_Ok. exists tt. split; [by apply check_Ok, Z.leb_le|]. case_decide as Hd; [done|].
    destruct Hm as [|(n & Hl & Hn & ->)]; [done|].
    rewrite (proj2 (split_three _ _ n _)) by (split_and!; [apply pretty_no_dash, wrapping_nonneg|done|apply hex_no_dash|done]).
    by rewrite !bool_decide_eq_true_2, Hl by done.
Qed.
Lemma marked_next tip n : length n = 32%nat → marked tip (marker (wrapping_add (seq tip) 1) n (hash tip)).
Proof.
  intros Hn. right. exists (hex_encode n). split_and!; [|apply hex_no_dash|done].
  unfold strlen. rewrite hex_encode_length, Hn. done.
Qed.
(** A marker has no white space around it. *)
Lemma hex_encode_app x y : hex_encode (x ++ y) = hex_encode x +:+ hex_encode y.
Proof. induction x as [|b x IH]; [done|]. cbn [hex_encode app]. by rewrite IH. Qed.
Lemma hex_digit_graphic n : 0 ≤ n < 16 → graphic (hex_digit n) = true.
Proof.
  intros Hn. assert (n ∈ seqZ 0 16) as Hin by (apply elem_of_seqZ; lia).
  assert (Forall (λ n, graphic (hex_digit n) = true) (seqZ 0 16)) as Hall by (vm_compute; repeat constructor).
  rewrite Forall_forall in Hall. exact (Hall n Hin).
Qed.
Lemma trim_marker s n p : 0 ≤ s → p ≠ [] →
  trim (pretty s +:+ "-" +:+ n +:+ "-" +:+ hex_encode p) = pretty s +:+ "-" +:+ n +:+ "-" +:+ hex_encode p.
Proof.
  intros Hs Hp. destruct (pretty_digits s Hs) as (Hd & Hne & _).
  destruct (exists_last Hp) as (p0 & x & ->). rewrite hex_encode_app. cbn [hex_encode].
  destruct (pretty s) as [|c u]; [done|]. apply andb_true_iff in Hd as [Hd _].
  set (m := u +:+ "-" +:+ n +:+ "-" +:+ hex_encode p0 +:+ String (hex_digit (byteZ x / 16)) "").
  set (d := hex_digit (byteZ x mod 16)).
  assert (String c u +:+ "-" +:+ n +:+ "-" +:+ hex_encode p0 +:+ String (hex_digit (byteZ x / 16)) (String d "") =
    String c (m +:+ String d "")) as ->.
  { unfold m. rewrite <- !string_app_assoc. done. }
  apply (trim_graphic _ _ d (string_rev (String c m))).
  - by rewrite string_rev_cons, string_rev_involutive.
  - by apply digit_graphic.
  - apply hex_digit_graphic, Z.mod_pos_bound. lia.
Qed.
End admission.
