(* ===== verification/MemoryRoots.v ===== *)
(** * The in-memory store keeps what an anchor chain relies on

    An instance of the interface [Roots]: the in-memory backend at one instant,
    before the end of every lock, with other callers' operations run before each
    of its own, and the proof of the interface's laws. *)
From S2P Require Import Prelude Text Http Backend BackendProps Anchor AnchorProps.

(** A backend that others call too: what they do before the next operation, and
    before the ones after it. *)
Record Shared := { mem : MemoryBackend; others : list (list call) }.
Section shared.
Context (siphash : Z → bytes → Z) (now until : Z) (in_time : now < until).
(** The others run their next calls. *)
Definition interleave (s : Shared) : Shared :=
  match others s with
  | cs :: rest => {| mem := run_calls siphash cs (mem s); others := rest |}
  | [] => s
  end.
Definition shared_get (key : string) : M Shared StoreError bytes := λ s,
  let s := interleave s in
  let '(r, m) := get_retained_blob key (mem s) in (go_body <$> r, {| mem := m; others := others s |}).
Definition shared_put (i : PutBlobInput) : M Shared StoreError () := λ s,
  let s := interleave s in
  let '(r, m) := put_blob_if_not_exists siphash now i (mem s) in
  ((λ _, tt) <$> r, {| mem := m; others := others s |}).
#[export] Instance shared_roots : Roots Shared := {| roots_get := shared_get; roots_put := shared_put |}.

(** Everything stored is locked, and what others do is in time and stores
    nothing that is not: they may delete and overwrite as they like. *)
Definition lasts (o : option ObjectLock) : Prop := ∃ l, o = Some l ∧ until ≤ retain_until l.
Definition lawful (c : call) : Prop :=
  match c with
  | CPut _ i | CPutIfNotExists _ i => lasts (pi_object_lock i)
  | CCopy _ _ | CComplete _ _ _ _ => False
  | _ => True
  end.
Definition all_locked (m : MemoryBackend) : Prop := ∀ k v, objects m !! k = Some v → lasts (object_lock v).
Definition shared_ok (s : Shared) : Prop :=
  all_locked (mem s) ∧ Forall (Forall (λ c, before until c ∧ lawful c)) (others s).
Definition kept (k : string) (s : Shared) : option bytes := body <$> retained k (mem s).
Lemma lasts_retained v t : lasts (object_lock v) → t < until → is_retained t v = true.
Proof. intros (l & Hl & Hu) Ht. unfold is_retained. rewrite Hl. apply Z.ltb_lt. lia. Qed.
Lemma kept_stands k s x : all_locked (mem s) → kept k s = Some x → stands k x until (mem s).
Proof.
  unfold kept, retained, stands. intros Hl Hk. destruct (pinned (mem s) !! k) as [v|]; cbn in Hk; [by injection Hk|].
  destruct (objects (mem s) !! k) as [v|] eqn:Ho; [|done]. injection Hk as <-. exists v. split_and!; [done..|].
  intros t Ht. apply lasts_retained; [by eapply Hl|done].
Qed.
Lemma stands_kept k s x : stands k x until (mem s) → kept k s = Some x.
Proof. intros (v & Hv & Hb)%stands_retained. unfold kept. by rewrite Hv, <- Hb. Qed.

Lemma locked_insert k v m : lasts (object_lock v) → all_locked m → all_locked (set_objects <[k := v]> m).
Proof. intros Hv Hm k' v'. cbn. intros [[<- <-]|[_ ?]]%lookup_insert_Some; [done|by eapply Hm]. Qed.
Lemma locked_delete t k m : all_locked m → all_locked (delete_one t k m).
Proof.
  intros Hm. unfold delete_one. destruct (held k t m); [done|]. intros k' v. cbn.
  intros [_ ?]%lookup_delete_Some. by eapply Hm.
Qed.
Lemma locked_call c m : lawful c → all_locked m → all_locked (run_call siphash c m).
Proof.
  intros Hc Hm. destruct c as [t i|t i|t k|t ks|t i|i|k id n x|k id n src r|t k id ps|k id]; cbn in Hc |- *; try done.
  - unfold put_blob, take_failure, make_etag. unfold_m. cbn. repeat (case_match; simplify_eq/=; try done).
    by apply locked_insert.
  - unfold put_blob_if_not_exists, take_failure, make_etag, current. unfold_m. cbn.
    repeat (case_match; simplify_eq/=; try done); (apply locked_insert; [done|]); intros k v; cbn;
      unfold pin_before_overwrite; repeat case_match; cbn; apply Hm.
  - by apply locked_delete.
  - revert m Hm. induction ks as [|k ks IH]; intros m Hm; [done|]. cbn. by apply IH, locked_delete.
  - unfold multipart_upload_part, make_etag, add_part. unfold_m. cbn. by repeat (case_match; simplify_eq/=; try done).
  - unfold multipart_upload_part_copy, make_etag, add_part. unfold_m. cbn.
    repeat (case_match; simplify_eq/=; try done); repeat match goal with H : lift _ _ = _ |- _ => apply lift_inv in H as [? ->] end; done.
  - unfold multipart_abort. unfold_m. cbn. by repeat (case_match; simplify_eq/=; try done).
Qed.
Lemma locked_calls cs m : Forall lawful cs → all_locked m → all_locked (run_calls siphash cs m).
Proof. revert m. induction cs as [|c cs IH]; intros m Hc Hm; [done|]. inversion Hc; subst. by apply IH; [|apply locked_call]. Qed.

(** A state is later than another when it keeps all that the other kept. *)
Definition no_earlier (s s' : Shared) : Prop := ∀ k x, kept k s = Some x → kept k s' = Some x.
Lemma interleave_ok s : shared_ok s → shared_ok (interleave s) ∧ no_earlier s (interleave s).
Proof.
  intros [Hl Ho]. unfold interleave. destruct s as [m [|cs rest]]; cbn in *; [split; [by split|by intros k x]|].
  inversion Ho as [|?? Hcs Hrest]; subst. apply Forall_and in Hcs as [Hb Hc]. split.
  - split; cbn; [by apply locked_calls|done].
  - intros k x Hk. apply kept_stands in Hk; [|done]. apply stands_kept. cbn. by apply stands_calls.
Qed.
Lemma shared_get_spec s k r s' : shared_ok s → shared_get k s = (r, s') →
  shared_ok s' ∧ no_earlier s s' ∧
  match r with Ok x => kept k s' = Some x | Err SE_NotFound => kept k s = None | Err _ => True end.
Proof.
  intros Hok E. unfold shared_get in E. destruct (interleave_ok s Hok) as [Hi Hle].
  destruct (get_retained_blob k (mem (interleave s))) as [x m] eqn:Eg. apply get_retained_inv in Eg as [-> Hx].
  assert ({| mem := mem (interleave s); others := others (interleave s) |} = interleave s) as Hsame
    by by destruct (interleave s).
  rewrite Hsame in E. injection E as <- <-. split_and!; [done..|]. destruct x as [out|e]; cbn.
  - destruct Hx as (v & Hv & ->). unfold kept. by rewrite Hv.
  - destruct Hx as [-> Hx]. destruct (kept k s) as [x|] eqn:Hk; [|done]. apply Hle in Hk. unfold kept in Hk. by rewrite Hx in Hk.
Qed.
Lemma put_kept i m meta m' o : put_blob_if_not_exists siphash now i m = (Ok meta, m') →
  is_Some (kept (pi_key i) {| mem := m'; others := o |}).
Proof.
  unfold put_blob_if_not_exists, take_failure, make_etag, kept, retained. unfold_m. intros E. cbn in E.
  repeat (case_match; simplify_eq/=; try done).
  rewrite lookup_insert_eq. by eexists.
Qed.
Lemma shared_put_spec s i lock r s' : shared_ok s → pi_object_lock i = Some lock → until ≤ retain_until lock →
  shared_put i s = (r, s') → shared_ok s' ∧ no_earlier s s' ∧ (r = Ok tt → is_Some (kept (pi_key i) s')).
Proof.
  intros Hok Hl Hu E. unfold shared_put in E. destruct (interleave_ok s Hok) as [[Hi Ho] Hle].
  destruct (put_blob_if_not_exists siphash now i (mem (interleave s))) as [x m] eqn:Ep. injection E as Hx <-.
  assert (r = Ok tt → is_Some (kept (pi_key i) {| mem := m; others := others (interleave s) |})) as Hput.
  { intros ->. destruct x as [meta|]; [|done]. by eapply put_kept. }
  assert (m = run_call siphash (CPutIfNotExists now i) (mem (interleave s))) as -> by (cbn; by rewrite Ep).
  split; [split; cbn [mem others]|split; [|done]].
  - apply locked_call; [by exists lock|done].
  - done.
  - intros k y Hk. apply stands_kept. cbn [mem]. apply stands_call; [exact in_time|].
    apply kept_stands; [done|]. by apply Hle.
Qed.
#[export] Instance shared_laws : RootsLaws Shared.
Proof.
  refine {| roots_ok := shared_ok; stored := λ s k, kept k s; later := no_earlier; horizon := until |}.
  - by intros b k x.
  - intros b b' b'' H1 H2 k x Hk. by apply H2, H1.
  - intros b b' k x Hle. apply Hle.
  - apply shared_get_spec.
  - apply shared_put_spec.
Defined.
End shared.
