(* ===== verification/PoolProps.v ===== *)
(** * A pool's handle: what publishing an anchor leaves, and what a boot accepts *)
From S2P Require Import Prelude Text Http Egress EgressProps Backend BackendProps Anchor AnchorProps.

Section handle.
Context `{Blake3, !Blake3Laws, Ed25519, Roots B, !RootsLaws B} (keys : KeyMaterial) `{!KeyLaws keys}.

(** ** How far a run can have gone *)
(** The store moved on, the pool's txg did not go back, and its marker is the
    one it had or the one the run was writing. *)
Record went (v : option string) (w w' : World B) : Prop := {
  went_ok : roots_ok (roots w'); went_later : later (roots w) (roots w');
  went_draws : draws w' ⊆ draws w; went_clocks : clocks w' ⊆ clocks w;
  went_disk z : disk w = Some z → z_txg z ≤ u64_max → ∃ z', disk w' = Some z' ∧ z_guid z' = z_guid z ∧
    z_txg z ≤ z_txg z' ≤ u64_max ∧ (z_marker z' = z_marker z ∨ Some (z_marker z') = v) }.
Lemma went_refl v w : roots_ok (roots w) → went v w w.
Proof. intros. split; [done|apply later_refl|done|done|]. intros z -> Hz. exists z. split_and!; [done..|lia|done|by left]. Qed.
Lemma went_trans v w w' w'' : went v w w' → went v w' w'' → went v w w''.
Proof.
  intros [Ho1 Hl1 Hd1 Hc1 Hz1] [Ho2 Hl2 Hd2 Hc2 Hz2].
  split; [done|by eapply later_trans|by etransitivity..|]. intros z Hz Hm.
  destruct (Hz1 z Hz Hm) as (z1 & Hz' & Hg1 & Ht1 & Hm1). destruct (Hz2 z1 Hz') as (z2 & Hz'' & Hg2 & Ht2 & Hm2); [lia|].
  exists z2. split_and!; [done|congruence|lia|lia|]. destruct Hm2 as [->|]; [done|by right].
Qed.
Lemma went_weaken v w w' : went None w w' → went v w w'.
Proof.
  intros [? ? ? ? Hz]. split; [done..|]. intros z Hd Hm. destruct (Hz z Hd Hm) as (z' & ? & ? & ? & [|[=]]).
  exists z'. split_and!; naive_solver lia.
Qed.
Lemma went_stored v w w' k x : went v w w' → stored (roots w) k = Some x → stored (roots w') k = Some x.
Proof. intros [_ Hl _ _ _]. by apply later_stored. Qed.
Lemma went_absent v w w' k : went v w w' → stored (roots w') k = None → stored (roots w) k = None.
Proof.
  intros Hw Hn. destruct (stored (roots w) k) as [x|] eqn:E; [|done]. by rewrite (went_stored _ _ _ _ _ Hw E) in Hn.
Qed.
Lemma moved_went v w w' : moved w w' → went v w w'.
Proof. intros [Ho Hl Hr]. apply went_weaken. split; [done..| | |]; rewrite Hr; [done..|]. intros z Hz Hm. exists z. split_and!; [done..|lia|done|by left]. Qed.

(** Every lock taken now lasts to the store's horizon. *)
Context (retention : Z).
Definition ready (w : World B) : Prop :=
  roots_ok (roots w) ∧ ∀ now, Some now ∈ clocks w → horizon ≤ now + retention.
Lemma went_ready v w w' : went v w w' → ready w → ready w'.
Proof. intros Hw [_ Hl]. split; [apply Hw|]. intros now Hn. apply Hl. by apply (went_clocks _ _ _ Hw). Qed.
Definition goes (v : option string) {A} (m : M (World B) anchor_error A) : Prop :=
  ∀ w r w', ready w → m w = (r, w') → went v w w'.
Lemma goes_ret v {A} (a : A) : goes v (mret a).
Proof. intros w r w' [Hok _] [= <- <-]. by apply went_refl. Qed.
Lemma goes_fail v {A} e : goes v (fail (A:=A) e).
Proof. intros w r w' [Hok _] [= <- <-]. by apply went_refl. Qed.
Lemma goes_lift v {A} (x : result anchor_error A) : goes v (lift x).
Proof. intros w r w' [Hok _] [= <- <-]. by apply went_refl. Qed.
Lemma goes_ensure v b e : goes v (ensure b e).
Proof. intros w r w' [Hok _] [= <- <-]. by apply went_refl. Qed.
Lemma goes_bind v {A C} (m : M (World B) anchor_error A) (f : A → M (World B) anchor_error C) :
  goes v m → (∀ a, goes v (f a)) → goes v (m ≫= f).
Proof.
  intros Hm Hf w r w' Hok E. apply mbind_inv in E as [(a & w1 & E1 & E)|(e & E1 & ->)].
  - pose proof (Hm _ _ _ Hok E1) as Hw. eapply went_trans; [exact Hw|]. eapply Hf, E. by eapply went_ready.
  - by eapply Hm.
Qed.
Lemma goes_get v {A} (f : World B → M (World B) anchor_error A) : (∀ w, goes v (f w)) → goes v (get ≫= f).
Proof. intros Hf w r w' Hok E. by eapply (Hf w w). Qed.
Lemma goes_weaken v {A} (m : M (World B) anchor_error A) : goes None m → goes v m.
Proof. intros Hm w r w' Hok E. by apply went_weaken, (Hm w r). Qed.
Lemma goes_exists_raw v k : goes v (exists_raw k).
Proof. intros w r w' [Hok _] E. by apply moved_went; apply exists_raw_spec in E as [? _]. Qed.
Lemma goes_store_get v k : goes v (store (roots_get k)).
Proof.
  intros w r w' [Hok _] E. unfold store in E. destruct (on_roots _ w) as [x w1] eqn:E1. injection E as <- <-.
  by apply moved_went; apply on_roots_get in E1 as [? _].
Qed.
Lemma goes_chain_tip v key : goes v (chain_tip key).
Proof. intros w r w' [Hok _] E. by apply moved_went; apply chain_tip_run in E as [? _]. Qed.
Lemma goes_fill v : goes v fill.
Proof.
  intros w r w' [Hok _] E. unfold fill in E. apply went_weaken.
  destruct w as [b cl cm [|d ds] di]; cbn in E; injection E as <- <-; [by apply went_refl|].
  split; cbn; [done|apply later_refl|set_solver|done|]. intros z Hz Hm. exists z. split_and!; [done..|lia|done|by left].
Qed.
Lemma goes_run v effect : (∀ z, z_guid (effect z) = z_guid z ∧ z_txg (effect z) = z_txg z ∧
    (z_marker (effect z) = z_marker z ∨ Some (z_marker (effect z)) = v)) → goes v (run effect).
Proof.
  intros He w r w' [Hok _] E. unfold run in E.
  destruct w as [b cl [|c cs] ds di]; cbn in E; [injection E as <- <-; by apply went_refl|].
  destruct c as [n|n taken]; injection E as <- <-; (split; cbn; [done|apply later_refl|done|done|]);
    intros z -> Hz; cbn; eexists; (split; [done|]).
  - cbn. unfold saturating_add. destruct (He z) as (? & Ht & ?). split_and!; [done|lia|lia|done].
  - destruct taken; cbn; unfold saturating_add; destruct (He z) as (? & Ht & ?); split_and!; try done; try lia. by left.
Qed.
Lemma lock_until_spec v w r w' : ready w → lock_until retention w = (r, w') →
  went v w w' ∧ match r with Ok u => horizon ≤ u | Err _ => True end.
Proof.
  intros [Hok Hl] E. unfold lock_until in E.
  destruct w as [b [|c cl] cm ds di]; cbn in *; [injection E as <- <-; split; [by apply went_refl|done]|].
  assert (went v {| roots := b; clocks := c :: cl; cmds := cm; draws := ds; disk := di |}
               {| roots := b; clocks := cl; cmds := cm; draws := ds; disk := di |}) as Hw.
  { apply went_weaken. split; cbn; [done|apply later_refl|done|set_solver|]. intros z Hz Hm. exists z. split_and!; [done..|lia|done|by left]. }
  destruct c; injection E as <- <-; (split; [exact Hw|]); [|done]. apply Hl. by left.
Qed.
Lemma on_roots_put_went v i lock w r w' : ready w → pi_object_lock i = Some lock → horizon ≤ retain_until lock →
  on_roots (roots_put i) w = (r, w') → went v w w'.
Proof.
  intros [Hok _] Hl Hh E. unfold on_roots in E. apply zoom_inv in E as (b & E & ->).
  eapply put_spec in E as (Ho & Hla & _); [|done..]. apply went_weaken.
  split; cbn; [done..|]. intros z Hz Hm. exists z. split_and!; [done..|lia|done|by left].
Qed.
Lemma publish_spec v h s b w r w' : p_retention h = retention → ready w → publish h s b w = (r, w') →
  went v w w' ∧ (r = Ok tt → stored (roots w') (anchor_key h s) = Some b).
Proof.
  intros Hret Hr E. unfold publish in E. rewrite Hret in E.
  apply mbind_inv in E as [(u & w1 & E1 & E)|(e & E1 & ->)];
    apply (lock_until_spec v) in E1 as [Hw1 Hu]; try done.
  apply mbind_inv in E as [(x & w2 & E2 & E)|(e & E2 & _)]; [|unfold attempt in E2; by destruct (on_roots _ w1)].
  unfold attempt in E2. destruct (on_roots _ w1) as [x' w2'] eqn:Ep. injection E2 as -> ->.
  eapply (on_roots_put_went v) in Ep; [|by eapply went_ready|reflexivity|done].
  pose proof (went_trans _ _ _ _ Hw1 Ep) as Hw2. pose proof (went_ready _ _ _ Hw2 Hr) as Hr2.
  apply mbind_inv in E as [(y & w3 & E3 & E)|(e & E3 & ->)]; apply lift_inv in E3 as [_ ->]; [|done].
  apply mbind_inv in E as [(read & w4 & E4 & E)|(e & E4 & ->)].
  - pose proof (goes_store_get v _ _ _ _ Hr2 E4) as Hw4. unfold store in E4.
    destruct (on_roots _ w2) as [[z|z] w4'] eqn:Eg; [|done]. injection E4 as -> ->.
    apply on_roots_get in Eg as [_ Hst]; [|apply Hr2]. apply ensure_inv in E as [-> ->].
    split; [by eapply went_trans|]. case_bool_decide as Hb; [|done]. intros _. by rewrite <- Hb.
  - pose proof (goes_store_get v _ _ _ _ Hr2 E4) as Hw4. split; [by eapply went_trans|done].
Qed.
Lemma goes_synced v : goes v synced.
Proof.
  unfold synced. apply goes_bind; [apply goes_run; intros z; split_and!; [done..|by left]|]. intros _.
  apply goes_get. intros w. apply goes_bind; [apply goes_lift|]. intros z. apply goes_ret.
Qed.
Lemma synced_Ok (w : World B) t w' : synced w = (Ok t, w') → ∃ z, disk w' = Some z ∧ z_txg z = t.
Proof.
  unfold synced. intros E. do 2 inv_bind E. inv_pure. inv_bind E. inv_pure. eauto.
Qed.
Lemma goes_zfs_set m : goes (Some m) (zfs_set m).
Proof. apply goes_run. intros z. split_and!; [done..|by right]. Qed.
Lemma zfs_set_Ok m (w : World B) u w' z : zfs_set m w = (Ok u, w') → disk w' = Some z → z_marker z = m.
Proof.
  unfold zfs_set, run. destruct w as [b cl [|[n|n t] cs] ds [d|]]; cbn; intros [= <- <-] Hz; cbn in Hz; [|done].
  by injection Hz as <-.
Qed.
Lemma goes_generation_exists v prefix g : goes v (generation_exists keys prefix g).
Proof.
  unfold generation_exists. apply goes_bind; [apply goes_exists_raw|]. intros []; [|apply goes_ret].
  apply goes_bind; [apply goes_store_get|]. intros b. apply goes_bind; [apply goes_lift|]. intros _. apply goes_ret.
Qed.
Lemma generation_absent prefix g w w' : ready w → generation_exists keys prefix g w = (Ok false, w') →
  stored (roots w) (generation_key prefix g) = None.
Proof.
  intros [Hok _] E. unfold generation_exists in E. inv_bind E. apply exists_raw_spec in Hrun as [_ Hx]; [|done].
  destruct a; [|done]. do 2 inv_bind E. inv_pure.
Qed.

(** ** Sealing *)
Record handle_wf (h : Pool) : Prop := {
  h_pool : is_pool h = true; h_retention : p_retention h = retention;
  h_pool_id : length (p_pool_id h) = 16%nat; h_tenant_id : length (p_tenant_id h) = 16%nat;
  h_guid : is_u64 (p_pool_guid h) }.
Definition sealed (h : Pool) (p : option Anchor) (t : Z) (n : bytes) : Anchor :=
  seal keys p (p_kind h) (p_pool_id h) (p_tenant_id h) (p_pool_guid h) t n.
Lemma wrapping_u64 a b : is_u64 (wrapping_add a b).
Proof. unfold wrapping_add, is_u64, u64_max. pose proof (Z.mod_pos_bound (a + b) (2 ^ 64)). lia. Qed.
Lemma sealed_wf h p t n : handle_wf h → is_u64 t → length n = 32%nat → anchor_wf (sealed h p t n).
Proof.
  intros [] Ht Hn. split; cbn; try done.
  - destruct p; [apply wrapping_u64|unfold is_u64, u64_max; cbn; lia].
  - destruct p; [apply blake3_length|done].
Qed.
Lemma sealed_decodes h p t n : handle_wf h → is_u64 t → length n = 32%nat →
  (∀ a, p = Some a → 0 ≤ seq a < u64_max) →
  decode_and_verify keys (encoded (sealed h p t n)) (seq (sealed h p t n)) (p_pool_id h) = Ok (sealed h p t n).
Proof.
  intros Hh Ht Hn Hp. apply (decode_spec keys public_key_length fs_uuid_length).
  split_and!; [by apply sealed_wf|done..| |].
  - intros Hz. destruct p as [a|]; [|done]. cbn in Hz. destruct (Hp a eq_refl). unfold wrapping_add in Hz.
    rewrite Z.mod_small in Hz by (unfold u64_max in *; lia). lia.
  - exists (ed25519_sign (signing_key keys) (layout_of keys (sealed h p t n))).
    split_and!; [apply sign_length|done|apply sign_verifies].
Qed.

Lemma mark_spec h p n w r w' : handle_wf h → ready w → mark h p n w = (r, w') →
  went (Some (marker (next_seq p) n (prev_hash p))) w w' ∧
  ∀ t, r = Ok t → (∀ a, p = Some a → txg a < t) ∧ (∀ z, disk w = Some z → z_txg z ≤ u64_max → z_txg z ≤ t) ∧
    ∃ z', disk w' = Some z' ∧ z_txg z' = t ∧ (∀ z, disk w = Some z → z_txg z ≤ u64_max → z_marker z' = marker (next_seq p) n (prev_hash p)).
Proof.
  intros Hh Hr E. unfold mark in E. rewrite (h_pool h Hh) in E. set (m := marker (next_seq p) n (prev_hash p)) in *.
  apply mbind_inv in E as [(u & w1 & E1 & E)|(e & E1 & ->)]; [|split; [by eapply goes_zfs_set|done]].
  pose proof (goes_zfs_set m _ _ _ Hr E1) as W1. pose proof (went_ready _ _ _ W1 Hr) as Hr1.
  apply mbind_inv in E as [(t & w2 & E2 & E)|(e & E2 & ->)];
    [|split; [eapply went_trans; [exact W1|by eapply goes_synced]|done]].
  pose proof (goes_synced None _ _ _ Hr1 E2) as W2.
  assert (went (Some m) w w2) as W by (eapply went_trans; [exact W1|by apply went_weaken]).
  apply mbind_inv in E as [(u' & w3 & E3 & E)|(e & E3 & ->)]; apply ensure_inv in E3 as [-> Hc]; [|done].
  injection E as <- <-. split; [done|]. intros t' [= <-]. split_and!.
  - intros a ->. destruct (txg a <? t) eqn:Ht; [by apply Z.ltb_lt|done].
  - intros z Hz Hm. destruct (went_disk _ _ _ W z Hz Hm) as (z' & Hz' & _ & Ht & _).
    apply synced_Ok in E2 as (z'' & Hz'' & <-). assert (z' = z'') as <- by congruence. lia.
  - pose proof E2 as (z' & Hz' & Ht)%synced_Ok. exists z'. split_and!; [done..|]. intros z Hz Hm.
    destruct (went_disk _ _ _ W1 z Hz Hm) as (z1 & Hz1 & _ & Ht1 & _).
    destruct (went_disk _ _ _ W2 z1 Hz1) as (z2 & Hz2 & _ & _ & [Heq|[=]]); [lia|].
    assert (z' = z2) as -> by congruence. rewrite Heq. by eapply zfs_set_Ok.
Qed.
Lemma goes_fence v h p : goes v (fence keys h p).
Proof.
  unfold fence. destruct p; [|apply goes_ret]. apply goes_bind; [apply goes_generation_exists|]. intros b. apply goes_ensure.
Qed.
Lemma fence_Ok h a w u w' : ready w → fence keys h (Some a) w = (Ok u, w') →
  stored (roots w) (generation_key (p_prefix h) (wrapping_add (p_generation h) 1)) = None.
Proof.
  intros Hr E. unfold fence in E. inv_bind E. apply ensure_inv in E as [-> Hc]. destruct a0; [done|].
  by eapply generation_absent.
Qed.
(** What publishing over an anchor can leave: the marker it wrote, when it got
    that far, waits for an anchor that names this one; if it succeeded, that
    anchor is over a later state that is on the disk, it is what the store
    keeps at the next sequence number, and no newer generation had booted. *)
Lemma seal_and_publish_spec h p w r w' : handle_wf h → ready w → (∀ n, Some n ∈ draws w → length n = 32%nat) →
  (∃ z, disk w = Some z ∧ 0 ≤ z_txg z ≤ u64_max) → seal_and_publish keys h p w = (r, w') →
  ∃ n, length n = 32%nat ∧ went (Some (marker (next_seq p) n (prev_hash p))) w w' ∧
    ∀ b, r = Ok b → ∃ t z', b = sealed h p t n ∧ is_u64 t ∧ (∀ a, p = Some a → txg a < t) ∧ t ≤ z_txg z' ∧ disk w' = Some z' ∧
      (∀ z, disk w = Some z → z_txg z ≤ t) ∧ z_marker z' = marker (next_seq p) n (prev_hash p) ∧
      stored (roots w') (anchor_key h (next_seq p)) = Some (encoded b) ∧
      (is_Some p → stored (roots w) (generation_key (p_prefix h) (wrapping_add (p_generation h) 1)) = None).
Proof.
  intros Hh Hr Hd (z & Hz & Hzm) E. unfold seal_and_publish in E.
  apply mbind_inv in E as [(n & w1 & E1 & E)|(e & E1 & ->)];
    [|exists (replicate 32 Byte.x00); split_and!; [done|by eapply goes_fill|done]].
  assert (length n = 32%nat ∧ disk w1 = disk w) as [Hn Hd1].
  { unfold fill in E1. destruct (draws w) as [|[d|] ds]; try done. injection E1 as -> <-. split; [apply Hd; by left|done]. }
  set (m := marker (next_seq p) n (prev_hash p)). exists n. split; [done|].
  pose proof (goes_fill (Some m) _ _ _ Hr E1) as W1. pose proof (went_ready _ _ _ W1 Hr) as Hr1.
  apply mbind_inv in E as [(t & w2 & E2 & E)|(e & E2 & ->)]; apply mark_spec in E2 as [W2 Ht]; try done;
    [|split; [by eapply went_trans|done]].
  pose proof (went_trans _ _ _ _ W1 W2) as W12. pose proof (went_ready _ _ _ W12 Hr) as Hr2.
  destruct (Ht t eq_refl) as (Hat & Hzt & z2 & Hz2 & Hzt2 & Hmark). rewrite Hd1 in Hzt, Hmark.
  apply mbind_inv in E as [(u & w3 & E3 & E)|(e & E3 & ->)];
    pose proof (goes_fence None _ _ _ _ _ Hr2 E3) as W3; [|split; [eapply went_trans; [exact W12|by apply went_weaken]|done]].
  pose proof (went_ready _ _ _ W3 Hr2) as Hr3.
  apply mbind_inv in E as [(u' & w4 & E4 & E)|(e & E4 & ->)]; apply (publish_spec None) in E4 as [W4 Hst]; try done;
    [|apply Hh|split; [eapply went_trans; [exact W12|]; apply went_weaken; by eapply went_trans|done]|apply Hh].
  injection E as <- <-. pose proof (went_trans _ _ _ _ W3 W4) as W34.
  split; [eapply went_trans; [exact W12|by apply went_weaken]|]. intros b [= <-].
  assert (is_u64 t) as Htm.
  { destruct (went_disk _ _ _ W12 z Hz) as (z2' & ? & _ & Hb & _); [lia|]. assert (z2' = z2) as -> by congruence. unfold is_u64. lia. }
  destruct (went_disk _ _ _ W34 z2 Hz2) as (z4 & Hz4 & _ & Ht4 & [Hm4|[=]]); [by rewrite Hzt2; apply Htm|]. exists t, z4. split_and!; try done.
  - lia.
  - intros z' Hz'. assert (z' = z) as -> by congruence. apply Hzt; [done|lia].
  - rewrite Hm4. apply (Hmark z); [done|lia].
  - by apply Hst; destruct u'.
  - intros [a ->]. eapply went_absent; [exact W12|]. by eapply fence_Ok.
Qed.

(** ** Anchoring *)
(** A handle in order: its newest anchor is the one the store keeps, and the
    disk is a state that anchor vouches for. *)
Record anchored (h : Pool) (w : World B) (a : Anchor) : Prop := {
  an_handle : handle_wf h; an_ready : ready w; an_draws n : Some n ∈ draws w → length n = 32%nat;
  an_last : last h = Ok a; an_guid : pool_guid a = p_pool_guid h;
  an_decodes : decode_and_verify keys (encoded a) (seq a) (p_pool_id h) = Ok a;
  an_stored : stored (roots w) (anchor_key h (seq a)) = Some (encoded a);
  an_disk : ∃ z, disk w = Some z ∧ z_guid z = pool_guid a ∧ txg a ≤ z_txg z ≤ u64_max ∧ marked a (trim (z_marker z)) }.
(** What a boot would make of the disk under an anchor: it is in the store, and
    the state the kernel loads is admitted. *)
Definition vouches (h : Pool) (w : World B) (a : Anchor) : Prop :=
  decode_and_verify keys (encoded a) (seq a) (p_pool_id h) = Ok a ∧
  stored (roots w) (anchor_key h (seq a)) = Some (encoded a) ∧
  ∃ z, disk w = Some z ∧ admit_state a (Some (z_txg z)) (trim (z_marker z)) (z_guid z) = Ok tt.
Lemma marked_trim a m : 0 ≤ seq a → length (prev a) = 32%nat → marked a m → trim m = m.
Proof.
  intros Hs Hp [->|(n & _ & _ & ->)]; apply trim_marker.
  - done.
  - by intros E; rewrite E in Hp.
  - apply wrapping_nonneg.
  - intros E. pose proof (blake3_length (encoded a)) as Hl. unfold hash, hash_of in E. by rewrite E in Hl.
Qed.
Lemma anchor_fields_wf h w a : anchored h w a → anchor_wf a.
Proof.
  intros Ha. pose proof (an_decodes _ _ _ Ha) as Hd.
  by apply (decode_spec keys public_key_length fs_uuid_length) in Hd as [].
Qed.
Lemma anchored_vouches h w a : anchored h w a → vouches h w a.
Proof.
  intros Ha. split_and!; [apply Ha..|]. destruct (an_disk _ _ _ Ha) as (z & Hz & Hg & Ht & Hm). exists z.
  split; [done|]. apply admit_state_Ok. exists (z_txg z). split_and!; [done..|lia|done].
Qed.
(** The disk may go on, and be marked for a successor, and the anchor vouches for it still. *)
Lemma anchored_went h w w' a n : length n = 32%nat → anchored h w a →
  went (Some (marker (next_seq (Some a)) n (hash a))) w w' → anchored h w' a.
Proof.
  intros Hn Ha W. destruct (an_disk _ _ _ Ha) as (z & Hz & Hg & Ht & Hm).
  destruct (went_disk _ _ _ W z Hz) as (z' & Hz' & Hg' & Ht' & Hm'); [lia|].
  split; try apply Ha.
  - eapply went_ready; [exact W|apply Ha].
  - intros x Hx. apply (an_draws _ _ _ Ha). by apply (went_draws _ _ _ W).
  - eapply went_stored; [exact W|apply Ha].
  - exists z'. split_and!; [done|congruence|lia|lia|]. destruct Hm' as [->|[= ->]]; [done|].
    pose proof (anchor_fields_wf _ _ _ Ha) as Hwf. rewrite (marked_trim a); [by apply marked_next|apply Hwf..|by apply marked_next].
Qed.
Lemma went_none_anchored h w w' a : anchored h w a → went None w w' → anchored h w' a.
Proof.
  intros Ha W. eapply (anchored_went h w w' a (replicate 32 Byte.x00)); [done|done|by apply went_weaken].
Qed.
(** C7: acknowledged writes survive, and the pool stays bootable.  Run the anchor of
    a handle in order, at any point of which a command, the store, the clock or
    the entropy may fail, as a crash there would: the disk it leaves is one that
    a boot admits under the anchor that was newest.  If the call succeeds, a boot
    admits it under an anchor over everything that was on the disk when it was
    called, which is the same one or the next in the chain, at the next sequence
    number, naming the hash of the last, over a later state, and published before
    any newer generation had booted.  If it fails, the handle is as it was or
    has stopped for good. *)
Theorem anchor_keeps_bootable h w a r h' w' : anchored h w a → seq a < u64_max →
  anchor_now keys h w = (r, (h', w')) →
  vouches h' w' a ∧
  match r with
  | Ok _ => ∃ b, anchored h' w' b ∧ vouches h' w' b ∧ (∀ z, disk w = Some z → z_txg z ≤ txg b) ∧
      (b = a ∨ seq b = seq a + 1 ∧ prev b = hash a ∧ txg a < txg b ∧
               stored (roots w) (generation_key (p_prefix h) (wrapping_add (p_generation h) 1)) = None)
  | Err _ => h' = h ∨ ∃ why, h' = set_last (Err why) h
  end.
Proof.
  intros Ha Hseq E. unfold anchor_now in E. rewrite (h_pool _ (an_handle _ _ _ Ha)), (an_last _ _ _ Ha) in E.
  cbn in E. destruct (synced w) as [[t|e] w1] eqn:E1; pose proof (goes_synced None _ _ _ (an_ready _ _ _ Ha) E1) as W1;
    pose proof (went_none_anchored _ _ _ _ Ha W1) as Ha1;
    [|injection E as <- <- <-; split; [by apply anchored_vouches|by left]].
  assert (∀ z, disk w = Some z → z_txg z ≤ t) as Hcov.
  { intros z Hz. destruct (an_disk _ _ _ Ha) as (z0 & Hz0 & _ & Ht0 & _). assert (z0 = z) as -> by congruence.
    destruct (went_disk _ _ _ W1 z Hz) as (z' & Hz' & _ & Ht & _); [lia|].
    apply synced_Ok in E1 as (z'' & Hz'' & <-). assert (z'' = z') as -> by congruence. lia. }
  destruct (Z.eqb_spec t (txg a)) as [->|Hne].
  { injection E as <- <- <-. split; [by apply anchored_vouches|]. exists a.
    split_and!; [done|by apply anchored_vouches|done|by left]. }
  destruct (seal_and_publish keys h (Some a) w1) as [x w2] eqn:E2.
  apply seal_and_publish_spec in E2 as (n & Hn & W2 & Hb); [|apply Ha1..|].
  2: { destruct (an_disk _ _ _ Ha1) as (z & ? & _ & ? & _). destruct (wf_txg _ (anchor_fields_wf _ _ _ Ha)). exists z. split; [done|lia]. }
  pose proof (anchored_went _ _ _ _ _ Hn Ha1 W2) as Ha2.
  destruct x as [b|e]; injection E as <- <- <-; [|split; [exact (anchored_vouches _ _ _ Ha2)|by right; eexists]].
  split; [exact (anchored_vouches _ _ _ Ha2)|]. exists b.
  destruct (Hb b eq_refl) as (t' & z' & -> & Htu & Hat & Htz & Hz' & Hcov' & Hmk & Hst & Hgen).
  specialize (Hat a eq_refl). specialize (Hgen ltac:(eauto)).
  set (b := sealed h (Some a) t' n) in *. destruct (an_disk _ _ _ Ha2) as (z2 & Hz2 & Hg2 & Hzm & _).
  assert (z2 = z') as -> by congruence.
  assert (anchored (set_last (Ok b) h) w2 b) as Hab.
  { pose proof (anchor_fields_wf _ _ _ Ha) as Hwf. destruct (wf_seq _ Hwf) as [Hs0 _]. destruct (wf_txg _ Hwf) as [Ht0 _].
    split; [|exact (an_ready _ _ _ Ha2)|exact (an_draws _ _ _ Ha2)|done|done| |exact Hst|].
    - by destruct (an_handle _ _ _ Ha).
    - refine (sealed_decodes h (Some a) t' n (an_handle _ _ _ Ha) Htu Hn _). intros ? [= <-]. lia.
    - exists z'. rewrite Hg2, (an_guid _ _ _ Ha). change (txg b) with t'.
      split_and!; [done..|lia|lia|].
      rewrite Hmk. change (marker _ n _) with (property b). rewrite (marked_trim b); [by left|apply wrapping_nonneg|apply blake3_length|by left]. }
  split_and!; [done|by apply anchored_vouches| |].
  - intros z Hz. destruct (an_disk _ _ _ Ha) as (z0 & Hz0 & _ & Ht0 & _). assert (z0 = z) as -> by congruence.
    destruct (went_disk _ _ _ W1 z Hz) as (z1 & Hz1 & _ & Ht1 & _); [lia|]. specialize (Hcov' z1 Hz1). cbn. lia.
  - right. pose proof (wf_seq _ (anchor_fields_wf _ _ _ Ha)) as [Hs0 _]. split_and!; [|done|done|by eapply went_absent].
    cbn. unfold wrapping_add. apply Z.mod_small. unfold u64_max in Hseq. lia.
Qed.

(** ** Booting *)
Lemma load_spec h s w r w' : ready w → load keys h s w = (r, w') →
  went None w w' ∧ ∀ a, r = Ok a → stored (roots w') (anchor_key h s) = Some (encoded a) ∧
    decode_and_verify keys (encoded a) s (p_pool_id h) = Ok a.
Proof.
  intros Hr E. unfold load in E.
  apply mbind_inv in E as [(b & w1 & E1 & E)|(e & E1 & ->)]; pose proof (goes_store_get None _ _ _ _ Hr E1) as W1; [|done].
  apply lift_inv in E as [E ->]. split; [done|]. intros a ->. unfold store in E1.
  destruct (on_roots _ w) as [[x|x] w1'] eqn:Eg; [|done]. injection E1 as -> ->.
  apply on_roots_get in Eg as [_ Hst]; [|apply Hr].
  destruct (decode_and_verify _ _ _ _) as [a'|] eqn:Ed; [|done]. injection E as ->.
  pose proof Ed as (_ & Heq & _)%(decode_spec keys public_key_length fs_uuid_length). by rewrite Heq.
Qed.
Lemma goes_id v : goes v (run id).
Proof. apply goes_run. intros z. split_and!; [done..|by left]. Qed.
Lemma goes_pool_guid v : goes v pool_guid_of.
Proof.
  unfold pool_guid_of. apply goes_bind; [apply goes_id|]. intros _.
  apply goes_get. intros w. apply goes_bind; [apply goes_lift|]. intros z. apply goes_ret.
Qed.
Lemma goes_import v log : goes v (import log).
Proof.
  unfold import. apply goes_bind; [apply goes_id|]. intros _. apply goes_get. intros w. apply goes_bind; [apply goes_lift|].
  intros z. apply goes_bind; [apply goes_id|]. intros _. apply goes_get. intros w'. apply goes_bind; [apply goes_lift|].
  intros z'. apply goes_bind; [apply goes_pool_guid|]. intros g. apply goes_ret.
Qed.
Lemma pool_guid_Ok g (w w' : World B) : pool_guid_of w = (Ok g, w') → ∃ z, disk w' = Some z ∧ g = z_guid z.
Proof. unfold pool_guid_of. intros E. do 2 inv_bind E. inv_pure. inv_bind E. inv_pure. eauto. Qed.
(** The pool on the disk after the import is the one that was loaded, gone on. *)
Lemma import_Ok log w loaded m g w' : ready w → (∃ z, disk w = Some z ∧ z_txg z ≤ u64_max) →
  import log w = (Ok (loaded, m, g), w') →
  ∃ z t, disk w' = Some z ∧ loaded = (if log then Some t else None) ∧ t ≤ z_txg z ≤ u64_max ∧ m = z_marker z ∧ g = z_guid z.
Proof.
  unfold import. intros Hr (z0 & Hz0 & Hm0) E.
  apply mbind_inv in E as [(u & w1 & E1 & E)|(e & _ & [=])]. pose proof (goes_id None _ _ _ Hr E1) as W1.
  pose proof (went_ready _ _ _ W1 Hr) as Hr1. inv_bind E. inv_pure.
  apply mbind_inv in E as [(z & w1' & Ez & E)|(e & _ & [=])]. apply unwrap_inv in Ez as [-> Ez].
  destruct (disk w1) as [z1|] eqn:Hz1; [injection Ez as ->|done].
  apply mbind_inv in E as [(u' & w2 & E2 & E)|(e & _ & [=])]. pose proof (goes_id None _ _ _ Hr1 E2) as W2.
  pose proof (went_ready _ _ _ W2 Hr1) as Hr2. inv_bind E. inv_pure.
  apply mbind_inv in E as [(z' & w2' & Ez & E)|(e & _ & [=])]. apply unwrap_inv in Ez as [-> Ez].
  destruct (disk w2) as [z2|] eqn:Hz2; [injection Ez as ->|done].
  apply mbind_inv in E as [(g' & w3 & E3 & E)|(e & _ & [=])]. pose proof (goes_pool_guid None _ _ _ Hr2 E3) as W3.
  apply pool_guid_Ok in E3 as (z3 & Hz3 & ->). injection E as <- <- <- <-.
  destruct (went_disk _ _ _ W1 _ Hz0 Hm0) as (z1' & Hz1' & _ & Ht1 & _). assert (z1' = z1) as -> by congruence.
  destruct (went_disk _ _ _ W2 _ Hz1) as (z2' & Hz2' & _ & Ht2 & _); [lia|]. assert (z2' = z2) as -> by congruence.
  destruct (went_disk _ _ _ W3 _ Hz2) as (z3' & Hz3' & _ & Ht3 & [Hm|[=]]); [lia|]. assert (z3' = z3) as -> by congruence.
  exists z3, (z_txg z1). split_and!; [done..|lia|lia|congruence|done].
Qed.
Lemma check_link_spec h tip s w r w' : ready w → check_link keys h tip s w = (r, w') →
  went None w w' ∧ (r = Ok tt → 0 < s → ∃ b, stored (roots w') (anchor_key h (s - 1)) = Some (encoded b) ∧
    decode_and_verify keys (encoded b) (s - 1) (p_pool_id h) = Ok b ∧ hash b = prev tip).
Proof.
  intros Hr E. unfold check_link in E. destruct (0 <? s) eqn:Hs.
  - apply mbind_inv in E as [(b & w1 & E1 & E)|(e & E1 & ->)]; apply load_spec in E1 as [W1 Hb]; try done.
    apply ensure_inv in E as [-> ->]. split; [done|]. intros Hok _. destruct (Hb b eq_refl). exists b.
    split_and!; [done..|]. by case_bool_decide.
  - injection E as <- <-. split; [by apply went_refl, Hr|]. intros _ ?. by apply Z.ltb_ge in Hs; lia.
Qed.
Lemma first_hash_spec h tip s w r w' : ready w → first_hash keys h tip s w = (r, w') →
  stored (roots w) (anchor_key h s) = Some (encoded tip) →
  went None w w' ∧ ∀ g, r = Ok g → ∃ a0, stored (roots w') (anchor_key h 0) = Some (encoded a0) ∧ g = hash a0.
Proof.
  intros Hr E Hst. unfold first_hash in E. destruct (Z.eqb_spec s 0) as [->|Hs].
  - injection E as <- <-. split; [by apply went_refl, Hr|]. intros g [= <-]. by exists tip.
  - apply mbind_inv in E as [(b & w1 & E1 & E)|(e & E1 & ->)]; apply load_spec in E1 as [W1 Hb]; try done.
    injection E as <- <-. split; [done|]. intros g [= <-]. exists b. by destruct (Hb b eq_refl).
Qed.
Lemma admit_disk_spec h tip log w r w' : is_pool h = true → ready w → (∃ z, disk w = Some z ∧ z_txg z ≤ u64_max) →
  admit_disk h tip log w = (r, w') →
  went None w w' ∧ (r = Ok tt → ∃ z, disk w' = Some z ∧ z_guid z = pool_guid tip ∧ txg tip ≤ z_txg z ∧
    marked tip (trim (z_marker z))).
Proof.
  intros Hp Hr Hz E. unfold admit_disk in E. rewrite Hp in E.
  apply mbind_inv in E as [([[l m] g] & w1 & E1 & E)|(e & E1 & ->)]; pose proof (goes_import None _ _ _ _ Hr E1) as W1; [|done].
  apply import_Ok in E1 as (z & t & Hz1 & -> & Ht & -> & ->); [|done..]. pose proof (went_ready _ _ _ W1 Hr) as Hr1.
  destruct (admit_state tip _ _ _) as [[]|why] eqn:Ead.
  - pose proof (goes_id None _ _ _ Hr1 E) as W2. split; [by eapply went_trans|]. intros _.
    apply admit_state_Ok in Ead as (t' & Hl & Hg & Hle & Hmk). destruct log; [|done]. injection Hl as <-.
    destruct (went_disk _ _ _ W2 _ Hz1) as (z2 & Hz2 & Hg2 & Ht2 & [Hm|[=]]); [lia|].
    exists z2. rewrite Hm, Hg2. split_and!; [done..|lia|done].
  - apply mbind_inv in E as [(x & w2 & E2 & E)|(e & E2 & ->)]; [|unfold attempt in E2; by destruct (run id w1)].
    unfold attempt in E2. destruct (run id w1) as [y w2'] eqn:Er. injection E2 as <- <-. injection E as <- <-.
    split; [|done]. eapply went_trans; [exact W1|]. by eapply goes_id.
Qed.
(** C8: what a boot accepts.  A pool is opened only if its chain's newest entry, at
    or above the floor, is an anchor this filesystem's key signed for that
    sequence number and this pool; the entry before it is one too and hashes to
    what it names; the first entry hashes to the genesis, which is the expected
    one; and the disk's newest state is of the anchored pool, no older than the
    anchor, and marked by it or by a successor that names it.  The handle is
    then in order. *)
Theorem open_spec prefix spec gen min eg log w h w' :
  ready w → (∀ n, Some n ∈ draws w → length n = 32%nat) → sp_is_pool spec = true →
  length (sp_pool_id spec) = 16%nat → length (sp_tenant_id spec) = 16%nat →
  (∃ z, disk w = Some z ∧ z_txg z ≤ u64_max) →
  open keys prefix retention spec gen min eg log w = (Ok h, w') →
  ∃ tip, anchored h w' tip ∧ (seq tip + 1 < u64_max → stored (roots w) (anchor_key h (seq tip + 1)) = None) ∧
    (∀ m, min = Some m → m ≤ seq tip) ∧
    (0 < seq tip → ∃ b, stored (roots w') (anchor_key h (seq tip - 1)) = Some (encoded b) ∧
      decode_and_verify keys (encoded b) (seq tip - 1) (p_pool_id h) = Ok b ∧ hash b = prev tip) ∧
    (∃ a0, stored (roots w') (anchor_key h 0) = Some (encoded a0) ∧ genesis h = hash a0) ∧
    (∀ g, eg = Some g → genesis h = g).
Proof.
  intros Hr Hd Hp Hid Htid (z0 & Hz0 & Hz0m) E. unfold open in E.
  set (h0 := attach prefix retention spec gen) in *.
  apply mbind_inv in E as [(t & w1 & E1 & E)|(e & _ & [=])].
  pose proof (goes_chain_tip None _ _ _ _ Hr E1) as W1. apply chain_tip_run in E1 as [_ Ht]; [|apply Hr].
  apply mbind_inv in E as [(sq & w2 & E2 & E)|(e & _ & [=])]. apply unwrap_inv in E2 as [-> E2].
  destruct t as [t|]; [|done]. injection E2 as ->. destruct Ht as (Hsq & _ & Htip).
  apply mbind_inv in E as [(u & w3 & E3 & E)|(e & _ & [=])]. apply ensure_inv in E3 as [-> Hmin].
  pose proof (went_ready _ _ _ W1 Hr) as Hr1.
  apply mbind_inv in E as [(tip & w4 & E4 & E)|(e & _ & [=])]. apply load_spec in E4 as [W4 H4]; [|done].
  destruct (H4 tip eq_refl) as [Hst Hdec]. clear H4. pose proof (went_ready _ _ _ W4 Hr1) as Hr4.
  pose proof Hdec as (Hwf & _ & <- & _)%(decode_spec keys public_key_length fs_uuid_length).
  apply mbind_inv in E as [([] & w5 & E5 & E)|(e & _ & [=])]. apply check_link_spec in E5 as [W5 Hlink]; [|done].
  pose proof (went_ready _ _ _ W5 Hr4) as Hr5.
  apply mbind_inv in E as [(g & w6 & E6 & E)|(e & _ & [=])].
  apply first_hash_spec in E6 as [W6 Hg]; [|done|by eapply went_stored].
  pose proof (went_ready _ _ _ W6 Hr5) as Hr6.
  apply mbind_inv in E as [(u' & w7 & E7 & E)|(e & _ & [=])]. apply ensure_inv in E7 as [-> Heg].
  apply mbind_inv in E as [([] & w8 & E8 & E)|(e & _ & [=])]. apply admit_disk_spec in E8 as [W8 Hz]; [|done|done|].
  2: { destruct (went_disk _ _ _ (went_trans _ _ _ _ W1 (went_trans _ _ _ _ W4 (went_trans _ _ _ _ W5 W6))) z0 Hz0 Hz0m)
         as (z & Hz & _ & Hle & _). exists z. split; [exact Hz|lia]. }
  injection E as <- <-. pose proof (went_trans _ _ _ _ W5 (went_trans _ _ _ _ W6 W8)) as W58.
  pose proof (went_trans _ _ _ _ W1 (went_trans _ _ _ _ W4 W58)) as W.
  exists tip. split_and!.
  - destruct (Hz eq_refl) as (z & Hzd & Hgd & Htx & Hmk). destruct (went_disk _ _ _ W z0 Hz0 Hz0m) as (z' & Hz' & _ & Hle & _).
    assert (z' = z) as -> by congruence.
    split; [| |intros n Hn; apply Hd; by apply (went_draws _ _ _ W)|done|done|done|exact (went_stored _ _ _ _ _ W58 Hst)|].
    + split; cbn; [done|done|done|done|apply Hwf].
    + by eapply went_ready.
    + exists z. split_and!; [done..|lia|done].
  - done.
  - intros m ->. destruct (m <=? seq tip) eqn:Hm; [by apply Z.leb_le|done].
  - intros Hpos. destruct (Hlink eq_refl Hpos) as (b & Hb & ? & ?). exists b. split_and!; [|done..].
    eapply went_stored; [|exact Hb]. by eapply went_trans.
  - destruct (Hg g eq_refl) as (a0 & Ha0 & ->). exists a0. split; [exact (went_stored _ _ _ _ _ W8 Ha0)|done].
  - intros g' ->. cbn. by case_bool_decide.
Qed.
Definition fresh (guid : Z) : Zpool := {| z_guid := guid; z_txg := 0; z_marker := "-" |}.
Lemma goes_datasets v ds : goes v (create_datasets ds).
Proof.
  induction ds as [|d ds IH]; [apply goes_ret|]. cbn [create_datasets]. apply goes_bind; [apply goes_id|]. intros _.
  apply goes_bind; [case_decide; [apply goes_id|apply goes_ret]|]. intros _. exact IH.
Qed.
Lemma goes_present v : goes v pool_present.
Proof.
  intros w r w' Hr E. unfold pool_present, attempt in E. destruct (run id w) as [x w1] eqn:E1.
  apply mbind_inv in E as [(y & w2 & E2 & E)|(e & E2 & ->)]; rewrite E1 in E2; [|done]. injection E2 as <- <-.
  injection E as <- <-. by eapply goes_id.
Qed.
Lemma zpool_create_Ok guid w u w' : ready w → zpool_create guid w = (Ok u, w') →
  went None (set_disk (Some (fresh guid)) w) w'.
Proof.
  intros [Hok _] E. unfold zpool_create in E. destruct w as [b cl [|[n|n t] cs] ds d]; cbn in E; [done| |done].
  injection E as _ <-. split; cbn; [done|apply later_refl|done|done|]. intros z [= <-] _. eexists. split; [done|].
  cbn. unfold u64_max. split_and!; [done|lia|lia|by left].
Qed.
Lemma create_pool_Ok guid h w h' w' : ready w → create_pool guid h w = (Ok h', w') →
  h' = set_guid guid h ∧ ∃ w1, went None w w1 ∧ went None (set_disk (Some (fresh guid)) w1) w'.
Proof.
  intros Hr E. unfold create_pool in E.
  apply mbind_inv in E as [(p & w1 & E1 & E)|(e & _ & [=])]. pose proof (goes_present None _ _ _ Hr E1) as W1.
  pose proof (went_ready _ _ _ W1 Hr) as Hr1.
  apply mbind_inv in E as [(u & w1' & E2 & E)|(e & _ & [=])]. apply ensure_inv in E2 as [-> _].
  apply mbind_inv in E as [(u' & w2 & E3 & E)|(e & _ & [=])]. apply zpool_create_Ok in E3 as W2; [|done].
  assert (ready (set_disk (Some (fresh guid)) w1)) as Hrf by exact Hr1. pose proof (went_ready _ _ _ W2 Hrf) as Hr2.
  apply mbind_inv in E as [(u'' & w3 & E4 & E)|(e & _ & [=])]. pose proof (goes_datasets None _ _ _ _ Hr2 E4) as W3.
  apply mbind_inv in E as [(g & w4 & E5 & E)|(e & _ & [=])].
  pose proof (goes_pool_guid None _ _ _ (went_ready _ _ _ W3 Hr2) E5) as W4. injection E as <- <-.
  pose proof (went_trans _ _ _ _ W2 (went_trans _ _ _ _ W3 W4)) as W. split; [|by exists w1].
  apply pool_guid_Ok in E5 as (z & Hz & ->). destruct (went_disk _ _ _ W _ eq_refl) as (z' & Hz' & Hg & _); [done|].
  by assert (z' = z) as <- by congruence; rewrite Hg.
Qed.

(** A pool that is created is in order: its handle's newest anchor is the
    genesis, which the store keeps and the disk is marked by. *)
Theorem create_anchored prefix spec gen guid w h w' :
  ready w → (∀ n, Some n ∈ draws w → length n = 32%nat) → sp_is_pool spec = true →
  length (sp_pool_id spec) = 16%nat → length (sp_tenant_id spec) = 16%nat → is_u64 guid →
  create keys prefix retention spec gen guid w = (Ok h, w') →
  ∃ a, anchored h w' a ∧ seq a = 0 ∧ prev a = ZERO ∧ genesis h = hash a ∧
    stored (roots w) (anchor_key h 0) = None.
Proof.
  intros Hr Hd Hp Hid Htid Hg E. unfold create in E. set (h0 := attach prefix retention spec gen) in *.
  apply mbind_inv in E as [(t & w1 & E1 & E)|(e & _ & [=])].
  pose proof (goes_chain_tip None _ _ _ _ Hr E1) as W1. apply chain_tip_run in E1 as [Hmv Ht]; [|apply Hr].
  apply mbind_inv in E as [(u & w2 & E2 & E)|(e & _ & [=])]. apply ensure_inv in E2 as [-> E2].
  destruct t as [t|]; [done|]. change (is_pool h0) with (sp_is_pool spec) in E. rewrite Hp in E.
  apply mbind_inv in E as [(h1 & w4 & E4 & E)|(e & _ & [=])].
  apply create_pool_Ok in E4 as (-> & w3 & W3 & W4); [|by eapply went_ready].
  pose proof (went_trans _ _ _ _ W1 W3) as W13. assert (ready (set_disk (Some (fresh guid)) w3)) as Hr3 by exact (went_ready _ _ _ W13 Hr).
  assert (handle_wf (set_guid guid h0)) as Hwf by by split.
  assert (∀ n, Some n ∈ draws w4 → length n = 32%nat) as Hd4.
  { intros n Hn. apply Hd, (went_draws _ _ _ W13), (went_draws _ _ _ W4). done. }
  apply mbind_inv in E as [(a & w5 & E5 & E)|(e & _ & [=])]. injection E as <- <-.
  destruct (went_disk _ _ _ W4 _ eq_refl) as (z4 & Hz4 & Hg4 & Ht4 & _); [done|].
  apply seal_and_publish_spec in E5 as (n & Hn & W5 & Hb); [|done|by eapply went_ready|done|by exists z4].
  destruct (Hb a eq_refl) as (t & z' & -> & Htu & _ & Htz & Hz' & _ & Hmk & Hst & _). clear Hb.
  set (a := sealed (set_guid guid h0) None t n) in *.
  destruct (went_disk _ _ _ W5 z4 Hz4) as (z5 & Hz5 & Hg5 & Ht5 & _); [apply Ht4|]. assert (z5 = z') as -> by congruence.
  exists a. split_and!; [|done|done|done|exact Ht].
  split; [done|by eapply went_ready, went_ready|intros x Hx; by apply Hd4, (went_draws _ _ _ W5)|done|done| |exact Hst|].
  - by refine (sealed_decodes (set_guid guid h0) None t n Hwf Htu Hn _).
  - exists z'. change (txg a) with t. split_and!; [done|by rewrite Hg5, Hg4|lia|lia|].
    rewrite Hmk. change (marker _ n _) with (property a). rewrite (marked_trim a); [by left|done|done|by left].
Qed.
End handle.
