(* ===== verification/AnchorWitness.v ===== *)
(** * Anchors and the store: the properties at concrete runs

    A pool is made, written to, anchored and booted over an in-memory store
    that somebody else deletes from and overwrites between the calls. *)
From S2P Require Import Prelude Text Http Backend BackendProps Anchor AnchorProps MemoryRoots PoolProps.
From S2P Require Import Concrete.

Module AnchorWitness.
#[local] Instance toy_blake3 : Blake3 := Concrete.digest.
#[local] Instance toy_blake3_laws : Blake3Laws := Concrete.digest_length.
(** A stand-in for Ed25519: the tag of a message under a key is both digests. *)
Definition tag (k m : bytes) : bytes := Concrete.digest k ++ Concrete.digest m.
#[local] Instance toy_ed25519 : Ed25519 :=
  {| SigningKey := bytes; ed25519_sign := tag; ed25519_verify pk m sig := bool_decide (sig = tag pk m) |}.
Definition keys : KeyMaterial :=
  {| signing_key := replicate 32 Byte.x0a; public_key := replicate 32 Byte.x0a; fs_uuid := replicate 16 Byte.x0f |}.
#[local] Instance toy_keys : KeyLaws keys.
Proof.
  split; [|intros m; by apply bool_decide_eq_true|done|done].
  intros m. change (length (tag (signing_key keys) m) = 64%nat). unfold tag. by rewrite length_app, !Concrete.digest_length.
Qed.
Definition siphash (n : Z) (_ : bytes) : Z := n.
#[local] Instance roots1 : Roots Shared := shared_roots siphash 10.
Lemma in_time : 10 < 1000.
Proof. reflexivity. Qed.
#[local] Instance laws1 : RootsLaws Shared := shared_laws siphash 10 1000 in_time.

Definition spec1 : PoolSpec :=
  {| sp_kind := Tenant; sp_pool_id := replicate 16 Byte.x01; sp_tenant_id := replicate 16 Byte.x02;
     sp_anchor_prefix := "p/zfs/"; sp_is_pool := true |}.
(** Others delete and overwrite the first anchor; the disk is written to meanwhile. *)
Definition first_key : string := "p/zfs/anchors/" +:+ hex16 0.
Definition overwrite : PutBlobInput :=
  with_object_lock {| ol_mode := Governance; retain_until := 1000 |} (put_input_new first_key [Byte.x2a]).
Definition meddling : list (list call) :=
  [[]; []; []; [CDelete 20 first_key]; []; [CPutIfNotExists 30 overwrite; CDelete 40 first_key]; []].
Definition w0 : World Shared :=
  {| roots := {| mem := memory_new; others := meddling |};
     clocks := [Some 10; Some 20; None]; cmds := [CmdErr 0 false; CmdOk 1; CmdOk 1; CmdOk 1; CmdOk 0; CmdOk 0; CmdOk 2; CmdOk 0;
       CmdOk 5; CmdOk 1; CmdOk 0; CmdOk 4; CmdOk 1; CmdOk 0; CmdOk 3];
     draws := [Some (replicate 32 Byte.x07); Some (replicate 32 Byte.x08); Some (replicate 32 Byte.x09)]; disk := None |}.
Definition retention : Z := 2000.
Lemma ready0 : ready retention w0.
Proof.
  split.
  - split; [by intros k v|]. repeat constructor; try reflexivity; by eexists.
  - intros now Hn. change (1000 ≤ now + 2000). cbn in Hn.
    repeat (apply elem_of_cons in Hn as [Hn1|Hn]; [simplify_eq; lia|]). by apply not_elem_of_nil in Hn.
Qed.
Lemma draws0 n : Some n ∈ draws w0 → length n = 32%nat.
Proof. cbn. intros Hn. repeat (apply elem_of_cons in Hn as [[= ->]|Hn]; [reflexivity|]). by apply not_elem_of_nil in Hn. Qed.

Definition made := create keys "p/" retention spec1 0 77 w0.
Definition h1 : Pool := match made.1 with Ok h => h | Err _ => attach "p/" retention spec1 0 end.
Definition w1 : World Shared := made.2.
Lemma made_Ok : create keys "p/" retention spec1 0 77 w0 = (Ok h1, w1).
Proof. unfold h1, w1. apply Concrete.run_split. vm_compute. reflexivity. Qed.
Lemma create_anchored_witness : ∃ a, anchored keys retention h1 w1 a ∧ seq a = 0 ∧ genesis h1 = hash a.
Proof.
  destruct (create_anchored keys retention "p/" spec1 0 77 w0 h1 w1 ready0 draws0 eq_refl eq_refl eq_refl)
    as (a & Ha & Hs & _ & Hg & _); [by vm_compute|exact made_Ok|].
  exists a. exact (conj Ha (conj Hs Hg)).
Defined.

(** The pool is anchored, with what the disk gained since. *)
Definition a1 : Anchor :=
  match last h1 with Ok a => a | Err _ => seal keys None Tenant [] [] 0 0 [] end.
Lemma anchored1 : anchored keys retention h1 w1 a1.
Proof.
  destruct create_anchored_witness as (a & Ha & _). enough (a1 = a) as -> by exact Ha.
  unfold a1. by rewrite (an_last _ _ _ _ _ Ha).
Qed.
Lemma seq1 : seq a1 = 0.
Proof. vm_compute. reflexivity. Qed.
Definition h2 : Pool := (anchor_now keys h1 w1).2.1.
Definition w2 : World Shared := (anchor_now keys h1 w1).2.2.
Lemma run1 : anchor_now keys h1 w1 = (Ok tt, (h2, w2)).
Proof. unfold h2, w2. rewrite <- surjective_pairing. apply Concrete.run_split. vm_compute. reflexivity. Qed.
(** The next anchor meets a clock that fails: the handle stops. *)
Definition h3 : Pool := (anchor_now keys h2 w2).2.1.
Definition w3 : World Shared := (anchor_now keys h2 w2).2.2.
Lemma run2 : anchor_now keys h2 w2 = (Err (Bail "the trusted clock failed"), (h3, w3)).
Proof. unfold h3, w3. rewrite <- surjective_pairing. apply Concrete.run_split. vm_compute. reflexivity. Qed.
Lemma anchor_keeps_bootable_witness :
  ∃ b, seq b = 1 ∧ prev b = hash a1 ∧ 11 ≤ txg b ∧ vouches keys h2 w2 b ∧ vouches keys h3 w3 b ∧
    z_txg <$> disk w3 = Some 16 ∧ h3 = set_last (Err "the trusted clock failed") h2.
Proof.
  destruct (anchor_keeps_bootable keys retention h1 w1 a1 (Ok tt) h2 w2 anchored1 ltac:(by rewrite seq1) run1)
    as (_ & b & Hb & Hv & Hcov & Hnext).
  assert (last h2 = Ok b) as Hl by apply Hb.
  assert (seq b = 1 ∧ prev b = hash a1 ∧ 11 ≤ txg b) as (Hs & Hp & Ht).
  { replace b with (match last h2 with Ok b => b | Err _ => a1 end) by (by rewrite Hl).
    split_and!; vm_compute; [reflexivity..|done]. }
  exists b. refine (conj Hs (conj Hp (conj Ht (conj Hv (conj _ (conj _ _)))))).
  - exact (proj1 (anchor_keeps_bootable keys retention h2 w2 b _ h3 w3 Hb ltac:(by rewrite Hs) run2)).
  - vm_compute. reflexivity.
  - vm_compute. reflexivity.
Defined.

(** A boot with the chain's floor and the catalog's genesis known. *)
Definition opened1 := open keys "p/" retention spec1 1 (Some 0) (Some (genesis h1)) true w1.
Definition h4 : Pool := match opened1.1 with Ok h => h | Err _ => h1 end.
Lemma opened1_Ok : open keys "p/" retention spec1 1 (Some 0) (Some (genesis h1)) true w1 = (Ok h4, opened1.2).
Proof. unfold h4. apply Concrete.run_split. vm_compute. reflexivity. Qed.
Lemma open_spec_witness :
  ∃ tip, anchored keys retention h4 opened1.2 tip ∧ 0 ≤ seq tip ∧ genesis h4 = genesis h1 ∧
    stored (roots w1) (anchor_key h4 (seq tip + 1)) = None.
Proof.
  destruct (open_spec keys retention "p/" spec1 1 (Some 0) (Some (genesis h1)) true w1 h4 opened1.2)
    as (tip & Ha & Hnext & Hmin & _ & _ & Heg).
  - apply (an_ready _ _ _ _ _ anchored1).
  - apply (an_draws _ _ _ _ _ anchored1).
  - reflexivity.
  - reflexivity.
  - reflexivity.
  - destruct (an_disk _ _ _ _ _ anchored1) as (z & Hz & _ & Ht & _). exists z. split; [exact Hz|apply Ht].
  - exact opened1_Ok.
  - exists tip. split_and!; [exact Ha|by apply Hmin|by apply Heg|].
    apply Hnext. assert (last h4 = Ok tip) as Hl by apply Ha.
    replace tip with (match last h4 with Ok b => b | Err _ => a1 end) by (by rewrite Hl). vm_compute. reflexivity.
Defined.
Lemma decode_spec_witness :
  decode_and_verify keys (encoded a1) 0 (replicate 16 Byte.x01) = Ok a1 ∧ anchor_wf a1.
Proof.
  assert (decode_and_verify keys (encoded a1) 0 (replicate 16 Byte.x01) = Ok a1) as E by (vm_compute; reflexivity).
  split; [exact E|]. by apply (decode_spec keys public_key_length fs_uuid_length) in E as [].
Defined.
Lemma prefix1 : p_anchor_prefix h1 = "p/zfs/".
Proof. vm_compute. reflexivity. Qed.
(** All that is stored is the genesis. *)
Lemma only_first k : is_Some (stored (roots w1) k) → k = first_key.
Proof.
  set (m := mem (roots w1)). intros [x Hx].
  assert (k ∈ (map_to_list (pinned m) ++ map_to_list (objects m)).*1) as Hk.
  { change (body <$> retained k m = Some x) in Hx. unfold retained in Hx. rewrite fmap_app. apply elem_of_app.
    destruct (pinned m !! k) as [v|] eqn:Ep; [left|destruct (objects m !! k) as [v|] eqn:Eo; [right|done]];
      apply list_elem_of_fmap; exists (k, v); (split; [done|]); by apply elem_of_map_to_list. }
  assert ((map_to_list (pinned m) ++ map_to_list (objects m)).*1 = [first_key]) as E by (vm_compute; reflexivity).
  rewrite E in Hk. by apply list_elem_of_singleton in Hk.
Qed.
Lemma chain_tip_spec_witness :
  (chain_tip (anchor_key h1) w1).1 = Ok (Some 0) ∧ ∀ j, 0 < j ≤ u64_max → stored (roots w1) (anchor_key h1 j) = None.
Proof.
  split; [vm_compute; reflexivity|].
  apply (chain_tip_spec (anchor_key h1) w1 (Ok (Some 0)) (chain_tip (anchor_key h1) w1).2).
  - apply (an_ready _ _ _ _ _ anchored1).
  - apply Concrete.run_split. vm_compute. reflexivity.
  - intros i j Hij Hj Hx. assert (j = 0) as ->.
    { apply only_first in Hx. apply (hex16_inj j 0); [clear Hx; split; lia|clear; by vm_compute|].
      unfold anchor_key in Hx. rewrite prefix1 in Hx.
      exact (proj2 (string_app_inj_len "p/zfs/anchors/" _ "p/zfs/anchors/" _ eq_refl Hx)). }
    assert (i = 0) as -> by (clear Hx; lia). exact Hx.
  - vm_compute. reflexivity.
Defined.

(** What another caller does to a store between a conditional create, the read
    of it and everything after. *)
Definition m1 : MemoryBackend := (put_blob_if_not_exists siphash 10 overwrite memory_new).2.
Definition between : list call := [CDelete 20 first_key; CPutIfNotExists 30 (put_input_new first_key [Byte.x01])].
Definition after : list call := [CDelete 40 first_key; CPut 50 (put_input_new first_key [Byte.x02])].
Lemma retained_version_survives_witness :
  go_body <$> (get_retained_blob first_key (run_calls siphash (between ++ after) m1)).1 = Ok [Byte.x2a] ∧
  body <$> current first_key (run_calls siphash (between ++ after) m1) = Some [Byte.x02].
Proof.
  assert (∃ meta, put_blob_if_not_exists siphash 10 overwrite memory_new = (Ok meta, m1)) as [meta Hp].
  { eexists. unfold m1. apply Concrete.run_split. vm_compute. reflexivity. }
  assert (∃ out, get_retained_blob (pi_key overwrite) (run_calls siphash between m1) =
    (Ok out, run_calls siphash between m1) ∧ go_body out = [Byte.x2a]) as (out & Hg & Hb).
  { eexists. split; vm_compute; reflexivity. }
  split; [|vm_compute; reflexivity].
  destruct (retained_version_survives siphash 10 overwrite {| ol_mode := Governance; retain_until := 1000 |}
    memory_new meta m1 between out after Hp eq_refl) as (out' & Ho & Hb').
  - repeat constructor.
  - exact Hg.
  - exact Hb.
  - cbn [pi_key overwrite with_object_lock put_input_new] in Ho. rewrite Ho. cbn. by rewrite Hb'.
Defined.
Definition shelf : MemoryBackend :=
  run_calls siphash [CPut 1 (put_input_new "a/2" [Byte.x02]); CPut 1 (put_input_new "b" []);
    CPut 1 (put_input_new "a/1" [Byte.x01]); CPut 1 (put_input_new "a/3" []); CPut 1 (put_input_new "a/10" [])] memory_new.
Definition two_at_a_time : ListBlobsInput :=
  {| li_prefix := "a/"; li_delimiter := None; li_max_keys := Some 2; li_start_after := None;
     li_continuation_token := None |}.
Lemma listing_complete_witness :
  ∃ pages, list_pages (S (length (listed_keys two_at_a_time shelf))) two_at_a_time shelf = Some pages ∧
    bi_key <$> concat pages = ["a/1"; "a/10"; "a/2"; "a/3"] ∧ (∀ k, k ∈ bi_key <$> concat pages ↔ in_sight two_at_a_time shelf k).
Proof.
  destruct (listing_complete two_at_a_time shelf eq_refl ltac:(by vm_compute)) as (pages & Hl & _ & _ & Hk).
  exists pages. split; [exact Hl|split; [|exact Hk]].
  assert (list_pages (S (length (listed_keys two_at_a_time shelf))) two_at_a_time shelf ≫= (λ p, Some (bi_key <$> concat p)) =
    Some ["a/1"; "a/10"; "a/2"; "a/3"]) as E by (vm_compute; reflexivity).
  rewrite Hl in E. by injection E.
Defined.

(** ** The kernel's accounts, on the logs of the source's tests *)
Definition kstat : string := "13 0 0x01 6 672 1234 5678
txg      birth            state ndirty       nread        nwritten     reads    writes   otime        qtime        wtime        stime
26       100              C     0            0            90112        0        12       10           10           10           10
27       200              C     0            0            0            0        0        10           10           10           10
28       300              C     0            0            0            0        0        10           10           10           10
29       400              C     4096         0            86016        0        11       10           10           10           10
30       500              S     4096         0            0            0        0        10           10           0            0
31       600              O     0            0            0            0        0        0            0            0            0
".
Definition PLAIN_IMPORT : string := "timestamp    message
1791607760   ffff8880052b5140 spa_misc.c:431:spa_load_note(): spa_load($import, config untrusted): using uberblock with txg=900
1791607760   ffff8880052b5140 spa_misc.c:431:spa_load_note(): spa_load(enclave, config trusted): LOADING
1791607760   ffff8880052b5140 spa_misc.c:431:spa_load_note(): spa_load(enclave, config untrusted): using uberblock with txg=845
1791607760   ffff8880052b5140 spa_misc.c:431:spa_load_note(): spa_load(enclave, config trusted): LOADED
1791607760   ffff8880052b5140 spa_misc.c:431:spa_load_note(): spa_load(enclave, config trusted): UNLOADING
1791607760   ffff8880052b5140 spa_misc.c:431:spa_load_note(): spa_load(enclave, config trusted): LOADING
1791607760   ffff8880052b5140 spa_misc.c:431:spa_load_note(): spa_load(enclave, config untrusted): using uberblock with txg=846
1791607760   ffff8880052b5140 spa_misc.c:431:spa_load_note(): spa_load(enclave, config trusted): Read 9 log space maps (9 total blocks - blksz = 131072 bytes) in 1 ms
1791607760   ffff8880052b5140 spa_misc.c:431:spa_load_note(): spa_load(enclave, config trusted): LOADED
".
Definition RETRIED_IMPORT : string := "1791607707   ffff888003fe2080 spa_misc.c:431:spa_load_note(): spa_load(enclave, config trusted): LOADING
1791607707   ffff888003fe2080 spa_misc.c:431:spa_load_note(): spa_load(enclave, config untrusted): using uberblock with txg=810
1791607707   ffff888003fe2080 spa_misc.c:417:spa_load_failed(): spa_load(enclave, config untrusted): FAILED: couldn't get 'config' value in MOS directory [error=5]
1791607707   ffff888003fe2080 spa_misc.c:431:spa_load_note(): spa_load(enclave, config untrusted): UNLOADING
1791607707   ffff888003fe2080 spa_misc.c:431:spa_load_note(): spa_load(enclave, config untrusted): spa_load_retry: rewind, max txg: 809
1791607707   ffff888003fe2080 spa_misc.c:431:spa_load_note(): spa_load(enclave, config untrusted): LOADING
1791607707   ffff888003fe2080 spa_misc.c:431:spa_load_note(): spa_load(enclave, config untrusted): using uberblock with txg=809
1791607707   ffff888003fe2080 spa_misc.c:431:spa_load_note(): spa_load(enclave, config trusted): LOADED
".
Example witness_newest_written : witness kstat = Some 29.
Proof. vm_compute. reflexivity. Qed.
Example plain_import_loads : loaded_txg PLAIN_IMPORT "enclave" = Some 846.
Proof. vm_compute. reflexivity. Qed.
Example retried_import_loads : loaded_txg RETRIED_IMPORT "enclave" = Some 809.
Proof. vm_compute. reflexivity. Qed.
Example another_pool_loads_nothing : loaded_txg PLAIN_IMPORT "encl" = None.
Proof. vm_compute. reflexivity. Qed.
End AnchorWitness.
