(* ===== verification/Ber.v ===== *)
(** * From BER to DER: [keys/ber.rs]

    The answer of the key service comes in BER; [to_der] rewrites it in DER.
    The parent proxies these bytes, so any input at all must be met with bytes
    or an error. *)
From S2P Require Import Prelude.

Definition MAX_DEPTH : Z := 64.

(** An ASN.1 length, [None] for indefinite, and the input after it. *)
Definition read_len (input : bytes) : result string (option Z * bytes) :=
  match input with
  | [] => Err "a truncated length"
  | first :: rest =>
      let b := byteZ first in
      if b =? 128 then Ok (None, rest)
      else if Z.land b 128 =? 0 then Ok (Some b, rest)
      else
        let n := Z.to_nat (Z.land b 127) in
        if ((n <=? length rest)%nat && (n <=? 4)%nat)
        then Ok (Some (foldl (λ l x, Z.lor (Z.shiftl l 8) (byteZ x)) 0 (take n rest)), drop n rest)
        else Err "a bad long-form length"
  end.
(** The bytes of a length, with the leading zeros of the [usize] off. *)
Fixpoint significant (b : bytes) : bytes :=
  match b with
  | [] => []
  | [x] => [x]
  | x :: b => if decide (x = Byte.x00) then significant b else x :: b
  end.
Definition emit (id : byte) (content : bytes) : bytes :=
  let l := len content in
  (if l <? 128 then [id; Zbyte l]
   else let s := significant (be_bytes 8 l) in id :: Zbyte (Z.lor 128 (len s)) :: s) ++ content.
(** The value of a transcoded primitive OCTET STRING. *)
Definition octet_value (der : bytes) : result string bytes :=
  _ ← check (bool_decide (head der = Some Byte.x04)) "a chunk of an OCTET STRING is not an OCTET STRING";
  '(l, content) ← read_len (tail der);
  l ← ok_or l "an indefinite OCTET STRING chunk";
  _ ← check (l <=? len content) "a truncated OCTET STRING chunk";
  Ok (take (Z.to_nat l) content).
Fixpoint octet_values (ders : list bytes) : result string bytes :=
  match ders with
  | [] => Ok []
  | d :: ds => v ← octet_value d; vs ← octet_values ds; Ok (v ++ vs)
  end.

Definition id_land (id : byte) (m : Z) : Z := Z.land (byteZ id) m.
Definition context_octets (id : byte) (children : list bytes) : bool :=
  (id_land id 192 =? 128) && negb (bool_decide (children = [])) &&
  forallb (λ c, bool_decide (head c = Some Byte.x04)) children.
(** What a constructed value with these transcoded children becomes. *)
Definition close (id : byte) (children : list bytes) : result string bytes :=
  let universal_octets := bool_decide (id = Byte.x24) in
  if universal_octets || context_octets id children then
    body ← octet_values children;
    Ok (emit (if universal_octets then Byte.x04 else Zbyte (Z.land (byteZ id) (255 - 32))) body)
  else Ok (emit id (concat children)).

Definition end_of_contents : bytes := [Byte.x00; Byte.x00].
Definition out_of_fuel : string := "unreachable".
(** One TLV: its DER, and the input after it.  [region]: the values up to the
    end of their parent; [contents]: those up to the end-of-contents. *)
Fixpoint transcode (fuel : nat) (input : bytes) (depth : Z) : result string (bytes * bytes) :=
  match fuel with
  | O => Err out_of_fuel
  | S fuel =>
      _ ← check (depth <=? MAX_DEPTH) "nested deeper than 64 levels";
      id ← ok_or (head input) "unexpected end of input";
      _ ← check (negb (id_land id 31 =? 31)) "high tag numbers are not supported";
      '(l, after_len) ← read_len (tail input);
      if id_land id 32 =? 0 then
        l ← ok_or l "an indefinite length on a primitive value";
        _ ← check (l <=? len after_len) "a primitive value runs past the end";
        Ok (emit id (take (Z.to_nat l) after_len), drop (Z.to_nat l) after_len)
      else
        '(children, after) ← (match l with
          | Some l =>
              _ ← check (l <=? len after_len) "a constructed value runs past the end";
              children ← region fuel (take (Z.to_nat l) after_len) (depth + 1);
              Ok (children, drop (Z.to_nat l) after_len)
          | None => contents fuel after_len (depth + 1)
          end);
        d ← close id children;
        Ok (d, after)
  end
with region (fuel : nat) (input : bytes) (depth : Z) : result string (list bytes) :=
  match input with
  | [] => Ok []
  | _ =>
      match fuel with
      | O => Err out_of_fuel
      | S fuel =>
          '(child, rest) ← transcode fuel input depth;
          children ← region fuel rest depth;
          Ok (child :: children)
      end
  end
with contents (fuel : nat) (input : bytes) (depth : Z) : result string (list bytes * bytes) :=
  if decide (take 2 input = end_of_contents) then Ok ([], drop 2 input)
  else
    match fuel with
    | O => Err out_of_fuel
    | S fuel =>
        '(child, rest) ← transcode fuel input depth;
        '(children, rest) ← contents fuel rest depth;
        Ok (child :: children, rest)
    end.
(** Each level and each value takes at least two bytes of input. *)
Definition to_der (input : bytes) : result string bytes :=
  '(out, rest) ← transcode (S (length input)) input 0;
  _ ← check (bool_decide (rest = [])) "bytes after the end of the value";
  Ok out.

(** The vectors of the source's tests. *)
Definition b (z : Z) : byte := Zbyte z.
Definition DER : bytes := b <$> [48; 3; 2; 1; 1].
Definition CHUNKS : bytes := b <$> [4; 2; 97; 98; 4; 2; 99; 100].
Example der_unchanged : to_der DER = Ok DER.
Proof. vm_compute. reflexivity. Qed.
Example indefinite_becomes_der : to_der (b <$> [48; 128; 2; 1; 1; 0; 0]) = Ok DER.
Proof. vm_compute. reflexivity. Qed.
Example chunks_become_one : to_der ((b <$> [36; 128]) ++ CHUNKS ++ (b <$> [0; 0])) = Ok (b <$> [4; 4; 97; 98; 99; 100]).
Proof. vm_compute. reflexivity. Qed.
Example context_chunks_become_one :
  to_der ((b <$> [160; 128]) ++ CHUNKS ++ (b <$> [0; 0])) = Ok (b <$> [128; 4; 97; 98; 99; 100]).
Proof. vm_compute. reflexivity. Qed.
Example five_byte_length_refused : is_ok (to_der (b <$> [4; 133; 1; 1; 1; 1; 1])) = false.
Proof. vm_compute. reflexivity. Qed.
Example deep_refused : is_ok (to_der (concat (replicate 70 (b <$> [48; 128])) ++ replicate 140 Byte.x00)) = false.
Proof. vm_compute. reflexivity. Qed.
(** An EXPLICIT context tag around an OCTET STRING, DER already, is taken for a
    chunked IMPLICIT one. *)
Example explicit_octet_string_collapses : to_der (b <$> [160; 3; 4; 1; 97]) = Ok (b <$> [128; 1; 97]).
Proof. vm_compute. reflexivity. Qed.
