(* ===== verification/BerProps.v ===== *)
(** * From BER to DER: the transcoder against the grammar *)
From S2P Require Import Prelude Ber.

(** ** The grammar of BER, as far as it is supported *)
Inductive tlv := Prim (id : byte) (content : bytes) | Cons (id : byte) (children : list tlv).
Definition low_tag (id : byte) : Prop := id_land id 31 ≠ 31.
Inductive length_octets : Z → bytes → Prop :=
  | length_short n : 0 ≤ n < 128 → length_octets n [Zbyte n]
  | length_long be : (1 ≤ length be ≤ 4)%nat → length_octets (be_word be) (Zbyte (128 + len be) :: be).
Inductive ber : tlv → bytes → Prop :=
  | ber_primitive id c l : low_tag id → id_land id 32 = 0 → length_octets (len c) l → ber (Prim id c) (id :: l ++ c)
  | ber_definite id ts body l : low_tag id → id_land id 32 ≠ 0 → ber_values ts body → length_octets (len body) l →
      ber (Cons id ts) (id :: l ++ body)
  | ber_indefinite id ts body : low_tag id → id_land id 32 ≠ 0 → ber_contents ts body →
      ber (Cons id ts) (id :: Byte.x80 :: body ++ end_of_contents)
with ber_values : list tlv → bytes → Prop :=
  | ber_values_nil : ber_values [] []
  | ber_values_cons t ts x y : ber t x → ber_values ts y → ber_values (t :: ts) (x ++ y)
with ber_contents : list tlv → bytes → Prop :=
  | ber_contents_nil : ber_contents [] []
  | ber_contents_cons t ts x y : ber t x → take 2 x ≠ end_of_contents → ber_contents ts y → ber_contents (t :: ts) (x ++ y).
Scheme ber_mut := Minimality for ber Sort Prop
  with ber_values_mut := Minimality for ber_values Sort Prop
  with ber_contents_mut := Minimality for ber_contents Sort Prop.
Combined Scheme ber_mutual from ber_mut, ber_values_mut, ber_contents_mut.

(** How deep a value nests. *)
Fixpoint height (t : tlv) : Z :=
  match t with Prim _ _ => 0 | Cons _ ts => foldr (λ t m, Z.max (1 + height t) m) 0 ts end.
(** Chunked strings become one: the universal OCTET STRING, and an implicit one. *)
Definition octets (t : tlv) : option bytes :=
  match t with Prim id c => if decide (id = Byte.x04) then Some c else None | Cons _ _ => None end.
Definition collapse (id : byte) (ts : list tlv) : option tlv :=
  if decide (id = Byte.x24) then cs ← mapM octets ts; Some (Prim Byte.x04 (concat cs))
  else match mapM octets ts with
  | Some (c :: cs) => if id_land id 192 =? 128 then Some (Prim (Zbyte (Z.land (byteZ id) (255 - 32))) (concat (c :: cs)))
                      else Some (Cons id ts)
  | _ => Some (Cons id ts)
  end.
Fixpoint norm (t : tlv) : option tlv :=
  match t with Prim id c => Some (Prim id c) | Cons id ts => ts' ← mapM norm ts; collapse id ts' end.
(** The DER of a value: every length definite and as short as it goes. *)
Fixpoint der (t : tlv) : bytes :=
  match t with Prim id c => emit id c | Cons id ts => emit id (concat (map der ts)) end.

(** ** Lengths *)
Lemma lor_shift l x : 0 ≤ x < 256 → Z.lor (Z.shiftl l 8) x = l * 256 + x.
Proof.
  intros Hx. assert (Z.land (Z.shiftl l 8) x = 0) as Hl.
  { apply Z.bits_inj'. intros n Hn. rewrite Z.land_spec, Z.bits_0. destruct (Z.lt_ge_cases n 8).
    - by rewrite Z.shiftl_spec_low.
    - rewrite <- (Z.mod_small x (2 ^ 8)), Z.mod_pow2_bits_high by lia. apply andb_false_r. }
  rewrite <- Z.lxor_lor, <- Z.add_nocarry_lxor by done. by rewrite Z.shiftl_mul_pow2.
Qed.
Lemma fold_word a l : foldl (λ l x, Z.lor (Z.shiftl l 8) (byteZ x)) a l = a * 256 ^ len l + be_word l.
Proof.
  revert a. induction l as [|x l IH]; intros a; cbn [foldl be_word]; [change (len (@nil byte)) with 0; lia|].
  rewrite IH, lor_shift by apply byteZ_range. unfold len. cbn [length]. rewrite Nat2Z.inj_succ, Z.pow_succ_r by lia. ring.
Qed.
Lemma first_octet x : byteZ x = 128 ∨ (byteZ x <> 128 ∧ Z.land (byteZ x) 128 = 0 ∧ byteZ x < 128) ∨
  (byteZ x <> 128 ∧ Z.land (byteZ x) 128 <> 0 ∧ byteZ x = 128 + Z.land (byteZ x) 127 ∧ 0 < Z.land (byteZ x) 127).
Proof. destruct x; vm_compute; intuition congruence. Qed.
Lemma read_len_octets n l r : length_octets n l → read_len (l ++ r) = Ok (Some n, r).
Proof.
  intros [n' Hn|be Hbe].
  - cbn. rewrite byteZ_Zbyte, Z.mod_small by lia. destruct (Z.eqb_spec n' 128); [lia|].
    replace (Z.land n' 128) with 0; [done|]. rewrite <- (Z.mod_small n' (2 ^ 7)) by lia.
    by rewrite <- Z.land_ones, <- Z.land_assoc, Z.land_0_r by lia.
  - unfold read_len. cbn [app]. rewrite byteZ_Zbyte.
    assert (len be = 1 ∨ len be = 2 ∨ len be = 3 ∨ len be = 4) as Hk by (unfold len; lia).
    replace (Z.to_nat (Z.land ((128 + len be) mod 256) 127)) with (length be)
      by (destruct Hk as [E|[E|[E|E]]]; rewrite E; unfold len in E; vm_compute (Z.to_nat _); lia).
    replace ((128 + len be) mod 256 =? 128) with false by (by destruct Hk as [-> |[-> |[-> | ->]]]).
    replace (Z.land ((128 + len be) mod 256) 128 =? 0) with false by (by destruct Hk as [-> |[-> |[-> | ->]]]).
    rewrite length_app, (proj2 (Nat.leb_le _ _)), (proj2 (Nat.leb_le (length be) 4)) by lia.
    cbn [andb]. by rewrite take_app_length, drop_app_length, fold_word.
Qed.
Lemma read_len_Ok x n r : read_len x = Ok (n, r) →
  match n with Some n => ∃ l, x = l ++ r ∧ length_octets n l | None => x = Byte.x80 :: r end.
Proof.
  unfold read_len. destruct x as [|f x]; [done|]. pose proof (byteZ_range f) as Hf.
  destruct (first_octet f) as [H1|[(H1 & H2 & H3)|(H1 & H2 & H3 & H4)]].
  - rewrite H1. intros [= <- <-]. f_equal. by apply (inj byteZ).
  - rewrite (proj2 (Z.eqb_neq _ _)), H2 by done. intros [= <- <-]. exists [f]. split; [done|].
    rewrite <- (Zbyte_byteZ f) at 2. constructor. lia.
  - rewrite (proj2 (Z.eqb_neq _ _)), (proj2 (Z.eqb_neq _ 0)) by done. set (k := Z.land (byteZ f) 127) in *.
    destruct (_ && _) eqn:Hk; [|done]. apply andb_true_iff in Hk as [Hk1%Nat.leb_le Hk2%Nat.leb_le].
    intros [= <- <-]. exists (f :: take (Z.to_nat k) x). split; [cbn; by rewrite take_drop|].
    rewrite fold_word, Z.mul_0_l, Z.add_0_l. assert (length (take (Z.to_nat k) x) = Z.to_nat k) as Hl by (rewrite length_take; lia).
    replace f with (Zbyte (128 + len (take (Z.to_nat k) x))); [constructor; lia|].
    unfold len. rewrite Hl, Z2Nat.id, <- H3 by lia. apply Zbyte_byteZ.
Qed.
(** What [emit] writes is a length. *)
Lemma significant_cons x y s :
  significant (x :: y :: s) = if decide (x = Byte.x00) then significant (y :: s) else x :: y :: s.
Proof. done. Qed.
Lemma be_word_significant s : be_word (significant s) = be_word s.
Proof.
  induction s as [|x [|y s] IH]; [done..|]. rewrite significant_cons. case_decide as Hx; [|done]. rewrite IH. by subst x.
Qed.
Lemma significant_length s k : (1 ≤ k)%nat → be_word s < 256 ^ Z.of_nat k → s ≠ [] → (1 ≤ length (significant s) ≤ k)%nat.
Proof.
  intros Hk. induction s as [|x [|y s] IH]; intros Hs Hn; [done|cbn; lia|]. rewrite significant_cons.
  case_decide as Hx; [apply IH; [by subst x|done]|]. cbn [length]. split; [lia|].
  cbn [be_word length] in Hs. change (byteZ y * 256 ^ Z.of_nat (length s) + be_word s) with (be_word (y :: s)) in Hs.
  pose proof (be_word_range (y :: s)). assert (0 < byteZ x).
  { pose proof (byteZ_range x). destruct (Z.eq_dec (byteZ x) 0) as [E|]; [|lia]. destruct Hx. by apply (inj byteZ). }
  assert (256 ^ Z.of_nat (S (length s)) < 256 ^ Z.of_nat k) as Hp by (cbn [length] in *; nia).
  apply Z.pow_lt_mono_r_iff in Hp; lia.
Qed.
Lemma emit_octets id c : len c < 2 ^ 32 → ∃ l, emit id c = id :: l ++ c ∧ length_octets (len c) l.
Proof.
  intros Hc. unfold emit. destruct (Z.ltb_spec (len c) 128) as [Hs|Hs].
  - exists [Zbyte (len c)]. split; [done|]. constructor. unfold len in *. lia.
  - set (s := significant (be_bytes 8 (len c))). exists (Zbyte (Z.lor 128 (len s)) :: s). split; [done|].
    assert (be_word s = len c) as Hw.
    { unfold s. rewrite be_word_significant, be_word_bytes. apply Z.mod_small. cbn. lia. }
    assert (1 ≤ length s ≤ 4)%nat as Hl.
    { apply significant_length; [lia| |done]. rewrite be_word_bytes, Z.mod_small; cbn; lia. }
    rewrite <- Hw. replace (Z.lor 128 (len s)) with (128 + len s); [by constructor|].
    assert (len s = 1 ∨ len s = 2 ∨ len s = 3 ∨ len s = 4) as Hk by (unfold len; lia). by destruct Hk as [-> |[-> |[-> | ->]]].
Qed.
Lemma octet_value_emit c : len c < 2 ^ 32 → octet_value (emit Byte.x04 c) = Ok c.
Proof.
  intros Hc. destruct (emit_octets Byte.x04 c Hc) as (l & -> & Hl). unfold octet_value. cbn [head tail].
  rewrite bool_decide_eq_true_2 by done. cbn [check mbind result_bind]. rewrite (read_len_octets _ _ _ Hl). cbn.
  rewrite Z.leb_refl. cbn. unfold len. by rewrite Nat2Z.id, firstn_all.
Qed.

(** ** Closing a constructed value *)
Definition content_len (t : tlv) : Z := match t with Prim _ c => len c | Cons _ _ => 0 end.
Definition constructed (t : tlv) : Prop := match t with Prim _ _ => True | Cons id _ => id_land id 32 ≠ 0 end.
Definition sum (zs : list Z) : Z := foldr Z.add 0 zs.
Lemma sum_cons x l : sum (x :: l) = x + sum l.
Proof. done. Qed.
Lemma content_sum ts : 0 ≤ sum (content_len <$> ts).
Proof.
  induction ts as [|t ts IH]; [done|]. rewrite fmap_cons. rewrite sum_cons.
  destruct t; unfold content_len at 1; unfold len; lia.
Qed.
Lemma octets_len ts cs : mapM octets ts = Some cs → len (concat cs) = sum (content_len <$> ts).
Proof.
  revert cs. induction ts as [|t ts IH]; intros cs; cbn; [by intros [= <-]|].
  intros (c & Hc & (cs' & Hcs & [= <-])%bind_Some)%bind_Some. cbn [concat]. rewrite len_app, (IH _ Hcs).
  f_equal. destruct t as [id c'|]; [|done]. cbn in Hc. case_decide; [by injection Hc as ->|done].
Qed.
Lemma head_der t : head (der t) = Some (match t with Prim id _ => id | Cons id _ => id end).
Proof. destruct t as [id c|id ts]; cbn [der]; unfold emit; by case_match. Qed.
Lemma head_octet t : constructed t → bool_decide (head (der t) = Some Byte.x04) = bool_decide (is_Some (octets t)).
Proof.
  intros Ht. rewrite head_der. apply bool_decide_ext. destruct t as [id c|id ts]; cbn in *.
  - case_decide; split; [by eexists|by subst|congruence|by intros []].
  - split; [by intros [= ->]|by intros []].
Qed.
Lemma octet_value_der t : constructed t → content_len t < 2 ^ 32 → to_option (octet_value (der t)) = octets t.
Proof.
  intros Ht Hl. pose proof (head_octet t Ht) as Hh. destruct (octets t) as [c|] eqn:Ho.
  - destruct t as [id c'|]; [|done]. cbn in Ho. case_decide as Hid; [|done]. injection Ho as ->. subst id.
    cbn [der]. by rewrite octet_value_emit.
  - unfold octet_value. rewrite Hh, bool_decide_eq_false_2 by (by intros []). done.
Qed.
Lemma octet_values_der ts : Forall constructed ts → Forall (λ t, content_len t < 2 ^ 32) ts →
  to_option (octet_values (map der ts)) = mapM octets ts ≫= λ cs, Some (concat cs).
Proof.
  induction ts as [|t ts IH]; intros Hc Hl; [done|]. inversion Hc; inversion Hl; subst. cbn [map octet_values].
  cbn [mapM]. rewrite <- octet_value_der by done. destruct (octet_value (der t)) as [v|]; [|done]. cbn.
  specialize (IH ltac:(done) ltac:(done)). destruct (octet_values (map der ts)) as [vs|], (mapM octets ts) as [cs|]; cbn in *; try done.
  by injection IH as ->.
Qed.
Lemma small_contents ts n : sum (content_len <$> ts) < n → Forall (λ t, content_len t < n) ts.
Proof.
  induction ts as [|t ts IH]; intros Hs; [done|]. rewrite fmap_cons, sum_cons in Hs. pose proof (content_sum ts).
  assert (0 ≤ content_len t) by (destruct t; cbn; unfold len; lia). constructor; [lia|apply IH; lia].
Qed.
Lemma mapM_octets_all ts : forallb (λ t, bool_decide (is_Some (octets t))) ts = bool_decide (is_Some (mapM octets ts)).
Proof.
  induction ts as [|t ts IH]; [done|]. cbn [forallb]. rewrite IH. cbn.
  destruct (octets t) as [c|]; cbn; [|done]. by destruct (mapM octets ts).
Qed.
Lemma close_der id ts : Forall constructed ts → sum (content_len <$> ts) < 2 ^ 32 →
  to_option (close id (map der ts)) = der <$> collapse id ts.
Proof.
  intros Hc Hs. pose proof (octet_values_der ts Hc (small_contents _ _ Hs)) as Hv. unfold close, collapse.
  destruct (decide (id = Byte.x24)) as [->|Hid].
  - rewrite bool_decide_eq_true_2 by done. cbn [orb]. destruct (octet_values _), (mapM octets ts); cbn in *; try done.
    by injection Hv as ->.
  - rewrite bool_decide_eq_false_2 by done. cbn [orb].
    assert (context_octets id (map der ts) =
      (id_land id 192 =? 128) && match mapM octets ts with Some (_ :: _) => true | _ => false end) as ->.
    { unfold context_octets. rewrite <- andb_assoc. f_equal.
      assert (forallb (λ c, bool_decide (head c = Some Byte.x04)) (map der ts) = bool_decide (is_Some (mapM octets ts))) as ->.
      { rewrite <- mapM_octets_all. clear -Hc. induction Hc as [|t ts Ht Hc IH]; [done|]. cbn [map forallb]. by rewrite IH, head_octet. }
      destruct ts as [|t ts]; [done|]. destruct (mapM octets (t :: ts)) as [[|c cs]|] eqn:Em; [|done..].
      by apply length_mapM in Em. }
    destruct (mapM octets ts) as [[|c cs]|]; cbn [andb]; rewrite ?andb_false_r, ?andb_true_r; [done| |done].
    destruct (id_land id 192 =? 128); [|done]. cbn in Hv. destruct (octet_values _); [|done]. by injection Hv as ->.
Qed.

(** ** What the normal form of an accepted value looks like *)
Lemma collapse_good id ts t' n : id_land id 32 ≠ 0 → sum (content_len <$> ts) ≤ n → collapse id ts = Some t' →
  constructed t' ∧ content_len t' ≤ n.
Proof.
  intros Hid Hs. pose proof (content_sum ts). assert (constructed (Cons id ts) ∧ content_len (Cons id ts) ≤ n) as Hsame by (split; [done|cbn; lia]).
  unfold collapse. case_decide; [|destruct (mapM octets ts) as [[|c cs]|] eqn:Em; [by intros [= <-]| |by intros [= <-]]].
  - intros (cs & Hcs & [= <-])%bind_Some. split; [done|]. rewrite <- (octets_len _ _ Hcs) in Hs. exact Hs.
  - case_match; intros [= <-]; [|done]. split; [done|]. rewrite <- (octets_len _ _ Em) in Hs. exact Hs.
Qed.
Definition values_good (ts : list tlv) (y : bytes) : Prop :=
  ∀ ts', mapM norm ts = Some ts' → Forall constructed ts' ∧ sum (content_len <$> ts') ≤ len y.
Definition value_good (t : tlv) (x : bytes) : Prop := ∀ t', norm t = Some t' → constructed t' ∧ content_len t' ≤ len x.
Lemma values_good_cons t ts x y : value_good t x → values_good ts y → values_good (t :: ts) (x ++ y).
Proof.
  intros Ht Hts ts'. cbn. intros (t' & Ht' & (ts'' & Hts'' & [= <-])%bind_Some)%bind_Some.
  destruct (Ht _ Ht'), (Hts _ Hts''). rewrite fmap_cons, sum_cons, len_app. split; [by constructor|lia].
Qed.
Lemma ber_good : (∀ t x, ber t x → value_good t x) ∧ (∀ ts y, ber_values ts y → values_good ts y) ∧
  (∀ ts y, ber_contents ts y → values_good ts y).
Proof.
  apply ber_mutual.
  - intros id c l _ _ _ t' [= <-]. split; [done|]. cbn [content_len]. unfold len. cbn [length]. rewrite length_app. lia.
  - intros id ts body l _ Hid _ IH _ t'. cbn. intros (ts' & Hts' & Hc)%bind_Some. destruct (IH _ Hts') as [_ Hs].
    apply (collapse_good id ts'); [done| |done]. unfold len in *. cbn [length]. rewrite length_app. lia.
  - intros id ts body _ Hid _ IH t'. cbn. intros (ts' & Hts' & Hc)%bind_Some. destruct (IH _ Hts') as [_ Hs].
    apply (collapse_good id ts'); [done| |done]. unfold len in *. cbn [length]. rewrite length_app. lia.
  - intros ts' [= <-]. by split.
  - intros t ts x y _ Ht _ Hts. by apply values_good_cons.
  - intros ts' [= <-]. by split.
  - intros t ts x y _ Ht _ _ Hts. by apply values_good_cons.
Qed.
Lemma height_cons d id ts : d ≤ MAX_DEPTH →
  d + height (Cons id ts) ≤ MAX_DEPTH ↔ Forall (λ t, d + 1 + height t ≤ MAX_DEPTH) ts.
Proof.
  intros Hd. induction ts as [|t ts IH]; [cbn; split; [by constructor|lia]|]. rewrite Forall_cons, <- IH.
  cbn [height foldr]. fold (foldr (λ t m, Z.max (1 + height t) m) 0 ts). cbn [height] in *. lia.
Qed.

(** ** The transcoder reads the grammar *)
Lemma close_Ok id ts ts' y o : id_land id 32 ≠ 0 → values_good ts y → len y < 2 ^ 32 → mapM norm ts = Some ts' →
  close id (map der ts') = Ok o ↔ ∃ t', norm (Cons id ts) = Some t' ∧ o = der t'.
Proof.
  intros Hid Hg Hy Hn. destruct (Hg _ Hn) as [Hc Hs]. pose proof (close_der id ts' Hc ltac:(lia)) as E.
  cbn [norm]. rewrite Hn. cbn [mbind option_bind].
  destruct (close id (map der ts')) as [o'|e], (collapse id ts') as [t'|]; cbn in E; try done.
  - injection E as ->. split; [intros [= <-]; by exists t'|]. by intros (? & [= <-] & ->).
  - split; [done|]. by intros (? & ? & _).
Qed.
Lemma length_octets_pos n l : length_octets n l → (1 ≤ length l)%nat.
Proof. by intros [|]; cbn; lia. Qed.
Lemma ber_length t x : ber t x → (2 ≤ length x)%nat.
Proof.
  intros [id c l _ _ Hl|id ts body l _ _ _ Hl|id ts body _ _ _]; cbn; rewrite ?length_app; cbn;
    try apply length_octets_pos in Hl; lia.
Qed.
Definition reads (t : tlv) (x : bytes) : Prop := ∀ t' rest d fuel, norm t = Some t' → d + height t ≤ MAX_DEPTH →
  len x < 2 ^ 32 → (length x < fuel)%nat → transcode fuel (x ++ rest) d = Ok (der t', rest).
Definition reads_values (ts : list tlv) (y : bytes) : Prop := ∀ ts' d fuel, mapM norm ts = Some ts' →
  Forall (λ t, d + height t ≤ MAX_DEPTH) ts → len y < 2 ^ 32 → (S (length y) < fuel)%nat →
  region fuel y d = Ok (map der ts').
Definition reads_contents (ts : list tlv) (y : bytes) : Prop := ∀ ts' rest d fuel, mapM norm ts = Some ts' →
  Forall (λ t, d + height t ≤ MAX_DEPTH) ts → len y < 2 ^ 32 → (S (length y) < fuel)%nat →
  contents fuel (y ++ end_of_contents ++ rest) d = Ok (map der ts', rest).
Lemma height_nonneg t : 0 ≤ height t.
Proof. destruct t as [|id ts]; [done|]. cbn. induction ts; cbn; lia. Qed.
Lemma transcode_S fuel id input d : d ≤ MAX_DEPTH → low_tag id →
  transcode (S fuel) (id :: input) d =
    ('(l, after_len) ← read_len input;
     if id_land id 32 =? 0 then
       l ← ok_or l "an indefinite length on a primitive value";
       _ ← check (l <=? len after_len) "a primitive value runs past the end";
       Ok (emit id (take (Z.to_nat l) after_len), drop (Z.to_nat l) after_len)
     else
       '(children, after) ← (match l with
         | Some l =>
             _ ← check (l <=? len after_len) "a constructed value runs past the end";
             children ← region fuel (take (Z.to_nat l) after_len) (d + 1);
             Ok (children, drop (Z.to_nat l) after_len)
         | None => contents fuel after_len (d + 1)
         end);
       d ← close id children;
       Ok (d, after)).
Proof.
  intros Hd Hid. cbn [transcode head tail]. rewrite (proj2 (Z.leb_le _ _)) by done. cbn [check mbind result_bind ok_or].
  by rewrite (proj2 (Z.eqb_neq (id_land id 31) 31) Hid).
Qed.
Lemma reads_primitive id c l : low_tag id → id_land id 32 = 0 → length_octets (len c) l → reads (Prim id c) (id :: l ++ c).
Proof.
  intros Hid Hp Hl t' rest d [|fuel] [= <-] Hd _ Hf; [lia|]. cbn [height] in Hd.
  change ((id :: l ++ c) ++ rest) with (id :: (l ++ c) ++ rest). rewrite transcode_S by (done || lia).
  rewrite <- app_assoc, (read_len_octets _ _ _ Hl). cbn [mbind result_bind]. rewrite Hp. cbn.
  rewrite len_app, (proj2 (Z.leb_le _ _)) by (unfold len; lia). cbn. unfold len. rewrite Nat2Z.id.
  by rewrite take_app_length, drop_app_length.
Qed.
Lemma reads_constructed id ts t' d : norm (Cons id ts) = Some t' → d + height (Cons id ts) ≤ MAX_DEPTH →
  d ≤ MAX_DEPTH ∧ Forall (λ t, d + 1 + height t ≤ MAX_DEPTH) ts ∧ ∃ ts', mapM norm ts = Some ts'.
Proof.
  intros Hn Hd. pose proof (height_nonneg (Cons id ts)). split; [lia|]. split; [apply (height_cons d id); lia|].
  cbn in Hn. apply bind_Some in Hn as (ts' & ? & _). by exists ts'.
Qed.
Lemma reads_definite id ts body l : low_tag id → id_land id 32 ≠ 0 → ber_values ts body → reads_values ts body →
  length_octets (len body) l → reads (Cons id ts) (id :: l ++ body).
Proof.
  intros Hid Hc Hb IH Hl t' rest d [|fuel] Hn Hd Hs Hf; [lia|].
  destruct (reads_constructed _ _ _ _ Hn Hd) as (Hd0 & Hds & ts' & Hts').
  change ((id :: l ++ body) ++ rest) with (id :: (l ++ body) ++ rest). rewrite transcode_S by done.
  rewrite <- app_assoc, (read_len_octets _ _ _ Hl). cbn [mbind result_bind].
  rewrite (proj2 (Z.eqb_neq _ _)) by done. rewrite len_app, (proj2 (Z.leb_le _ _)) by (unfold len; lia).
  cbn [check mbind result_bind]. unfold len at 1 2. rewrite Nat2Z.id, take_app_length, drop_app_length.
  pose proof (length_octets_pos _ _ Hl). cbn [length] in Hf. rewrite length_app in Hf.
  assert (len body < 2 ^ 32) as Hlb by (unfold len in *; cbn [length] in Hs; rewrite length_app in Hs; lia).
  rewrite (IH ts' (d + 1) fuel) by (done || lia). cbn [mbind result_bind].
  by rewrite (proj2 (close_Ok id ts ts' body (der t') Hc (proj1 (proj2 ber_good) _ _ Hb) Hlb Hts')) by eauto.
Qed.
Lemma reads_indefinite id ts body : low_tag id → id_land id 32 ≠ 0 → ber_contents ts body → reads_contents ts body →
  reads (Cons id ts) (id :: Byte.x80 :: body ++ end_of_contents).
Proof.
  intros Hid Hc Hb IH t' rest d [|fuel] Hn Hd Hs Hf; [lia|].
  destruct (reads_constructed _ _ _ _ Hn Hd) as (Hd0 & Hds & ts' & Hts').
  change ((id :: Byte.x80 :: body ++ end_of_contents) ++ rest) with (id :: Byte.x80 :: (body ++ end_of_contents) ++ rest).
  rewrite transcode_S by done. cbn [read_len]. change (byteZ Byte.x80 =? 128) with true. cbn [mbind result_bind].
  rewrite (proj2 (Z.eqb_neq _ _)), <- app_assoc by done. cbn [length] in Hf. rewrite length_app in Hf.
  assert (len body < 2 ^ 32) as Hlb by (unfold len in *; cbn [length] in Hs; rewrite length_app in Hs; lia).
  rewrite (IH ts' rest (d + 1) fuel) by (done || cbn in Hf; lia). cbn [mbind result_bind].
  by rewrite (proj2 (close_Ok id ts ts' body (der t') Hc (proj2 (proj2 ber_good) _ _ Hb) Hlb Hts')) by eauto.
Qed.
Lemma ber_reads : (∀ t x, ber t x → reads t x) ∧ (∀ ts y, ber_values ts y → reads_values ts y) ∧
  (∀ ts y, ber_contents ts y → reads_contents ts y).
Proof.
  apply ber_mutual.
  - intros. by apply reads_primitive.
  - intros. by apply reads_definite.
  - intros. by apply reads_indefinite.
  - intros ts' d fuel [= <-] _ _ Hf. by destruct fuel.
  - intros t ts x y Hb Ht _ IH ts' d [|fuel] Hn Hd Hs Hf; [lia|]. pose proof (ber_length _ _ Hb) as Hx.
    cbn in Hn. apply bind_Some in Hn as (t' & Ht' & (ts'' & Hts'' & [= <-])%bind_Some).
    apply Forall_cons in Hd as [Hd Hds]. rewrite length_app in Hf. rewrite len_app in Hs.
    assert (0 ≤ len x ∧ 0 ≤ len y) as [Hlx Hly] by (unfold len; lia).
    cbn [region]. destruct (x ++ y) as [|z zs] eqn:Exy; [destruct x; [cbn in Hx; lia|done]|]. rewrite <- Exy.
    rewrite (Ht t' y d fuel) by (done || lia). cbn [mbind result_bind]. by rewrite (IH ts'' d fuel) by (done || lia).
  - intros ts' rest d fuel [= <-] _ _ Hf. destruct fuel; [lia|]. done.
  - intros t ts x y Hb Ht Hne _ IH ts' rest d [|fuel] Hn Hd Hs Hf; [lia|]. pose proof (ber_length _ _ Hb) as Hx.
    cbn in Hn. apply bind_Some in Hn as (t' & Ht' & (ts'' & Hts'' & [= <-])%bind_Some).
    apply Forall_cons in Hd as [Hd Hds]. rewrite length_app in Hf. rewrite len_app in Hs.
    assert (0 ≤ len x ∧ 0 ≤ len y) as [Hlx Hly] by (unfold len; lia).
    cbn [contents]. rewrite <- app_assoc, decide_False by (rewrite take_app_le by done; done).
    rewrite (Ht t' _ d fuel) by (done || lia). cbn [mbind result_bind]. by rewrite (IH ts'' rest d fuel) by (done || lia).
Qed.

(** ** What the transcoder answers, the grammar derives *)
Definition derives (input : bytes) (d : Z) (o rest : bytes) : Prop := ∃ t t' x, input = x ++ rest ∧ ber t x ∧
  d + height t ≤ MAX_DEPTH ∧ norm t = Some t' ∧ o = der t'.
Definition derives_values (y : bytes) (d : Z) (cs : list bytes) : Prop := ∃ ts ts', ber_values ts y ∧
  Forall (λ t, d + height t ≤ MAX_DEPTH) ts ∧ mapM norm ts = Some ts' ∧ cs = map der ts'.
Definition derives_contents (input : bytes) (d : Z) (cs : list bytes) (rest : bytes) : Prop := ∃ ts ts' y,
  input = y ++ end_of_contents ++ rest ∧ ber_contents ts y ∧
  Forall (λ t, d + height t ≤ MAX_DEPTH) ts ∧ mapM norm ts = Some ts' ∧ cs = map der ts'.
Lemma derives_transcode fuel input d o rest :
  (∀ y cs, len y < 2 ^ 32 → region fuel y (d + 1) = Ok cs → derives_values y (d + 1) cs) →
  (∀ y cs rest, len y < 2 ^ 32 → contents fuel y (d + 1) = Ok (cs, rest) → derives_contents y (d + 1) cs rest) →
  len input < 2 ^ 32 → transcode (S fuel) input d = Ok (o, rest) → derives input d o rest.
Proof.
  intros IHr IHc Hs E. cbn [transcode] in E. apply bind_Ok in E as (_ & Hd%check_Ok%Z.leb_le & E).
  apply bind_Ok in E as (id & Hid%ok_or_Ok & E). destruct input as [|i input]; [done|]. injection Hid as ->.
  apply bind_Ok in E as (_ & Htag%check_Ok%negb_true_iff%Z.eqb_neq & E).
  apply bind_Ok in E as ([l after] & Hl & E). cbn [tail] in Hl. apply read_len_Ok in Hl.
  assert (len input < 2 ^ 32) as Hsi by (unfold len in *; cbn [length] in Hs; lia).
  destruct (Z.eqb_spec (id_land id 32) 0) as [Hp|Hc].
  - apply bind_Ok in E as (n & Hn%ok_or_Ok & E). destruct l as [n'|]; [|done]. injection Hn as ->.
    apply bind_Ok in E as (_ & Hle%check_Ok%Z.leb_le & E). injection E as <- <-. destruct Hl as (lb & -> & Hlb).
    set (c := take (Z.to_nat n) after). assert (len c = n) as Hcl.
    { unfold c, len in *. rewrite length_take. assert (0 ≤ n) by (destruct Hlb; [lia|apply be_word_range]). lia. }
    exists (Prim id c), (Prim id c), (id :: lb ++ c). split_and!; [|by constructor; rewrite ?Hcl|cbn; lia|done|done].
    cbn. unfold c. by rewrite <- app_assoc, take_drop.
  - apply bind_Ok in E as ([children rest'] & Hch & E). apply bind_Ok in E as (o' & Hcl & E). injection E as <- <-.
    destruct l as [n|].
    + apply bind_Ok in Hch as (_ & Hle%check_Ok%Z.leb_le & Hch). apply bind_Ok in Hch as (cs & Hr & Hch). injection Hch as <- <-.
      destruct Hl as (lb & -> & Hlb). set (body := take (Z.to_nat n) after) in *. assert (len body = n) as Hbl.
      { unfold body, len in *. rewrite length_take. assert (0 ≤ n) by (destruct Hlb; [lia|apply be_word_range]). lia. }
      assert (len body < 2 ^ 32) as Hsb by (rewrite len_app in Hsi; unfold len in *; lia).
      destruct (IHr _ _ Hsb Hr) as (ts & ts' & Hb & Hds & Hn & ->).
      apply (close_Ok id ts ts' body) in Hcl as (t' & Ht' & ->); [|done|by apply (proj1 (proj2 ber_good))|done..].
      exists (Cons id ts), t', (id :: lb ++ body). split_and!; [|by constructor; rewrite ?Hbl|by apply height_cons|done|done].
      cbn. unfold body. by rewrite <- app_assoc, take_drop.
    + subst input. assert (len after < 2 ^ 32) as Hsa by (unfold len in *; cbn [length] in Hsi; lia).
      destruct (IHc _ _ _ Hsa Hch) as (ts & ts' & y & -> & Hb & Hds & Hn & ->).
      assert (len y < 2 ^ 32) as Hsy by (rewrite len_app in Hsa; unfold len in *; lia).
      apply (close_Ok id ts ts' y) in Hcl as (t' & Ht' & ->); [|done|by apply (proj2 (proj2 ber_good))|done..].
      exists (Cons id ts), t', (id :: Byte.x80 :: y ++ end_of_contents).
      split_and!; [cbn; by rewrite <- app_assoc|by constructor|by apply height_cons|done|done].
Qed.
Lemma transcode_derives fuel :
  (∀ input d o rest, len input < 2 ^ 32 → transcode fuel input d = Ok (o, rest) → derives input d o rest) ∧
  (∀ y d cs, len y < 2 ^ 32 → region fuel y d = Ok cs → derives_values y d cs) ∧
  (∀ y d cs rest, len y < 2 ^ 32 → contents fuel y d = Ok (cs, rest) → derives_contents y d cs rest).
Proof.
  induction fuel as [|fuel (IHt & IHr & IHc)].
  - split_and!; [done| |].
    + intros [|z y] d cs _ E; [injection E as <-|done]. exists [], []. by split_and!; [constructor|..].
    + intros y d cs rest _ E. cbn [contents] in E. case_decide as Hy; [|done]. injection E as <- <-. exists [], [], [].
      split_and!; [|constructor|done..]. cbn [app]. by rewrite <- Hy, take_drop.
  - split_and!.
    + intros input d o rest Hs E. apply (derives_transcode fuel); [intros; by apply IHr|intros; by apply IHc|done..].
    + intros [|z y] d cs Hs E; [injection E as <-; exists [], []; by split_and!; [constructor|..]|].
      cbn [region] in E. apply bind_Ok in E as ([c rest] & Hc & E). apply bind_Ok in E as (cs' & Hcs & E). injection E as <-.
      destruct (IHt _ _ _ _ Hs Hc) as (t & t' & x & Hx & Hb & Hd & Hn & ->). rewrite Hx in Hs |- *.
      rewrite len_app in Hs. destruct (IHr rest d cs') as (ts & ts' & Hbs & Hds & Hns & ->); [unfold len in *; lia|done|].
      exists (t :: ts), (t' :: ts'). split_and!; [by constructor|by constructor| |done]. cbn. by rewrite Hn, Hns.
    + intros y d cs rest Hs E. cbn [contents] in E. case_decide as Hy.
      { injection E as <- <-. exists [], [], []. split_and!; [|constructor|done..]. cbn [app]. by rewrite <- Hy, take_drop. }
      apply bind_Ok in E as ([c rest'] & Hc & E). apply bind_Ok in E as ([cs' rest''] & Hcs & E). injection E as <- <-.
      destruct (IHt _ _ _ _ Hs Hc) as (t & t' & x & -> & Hb & Hd & Hn & ->). rewrite len_app in Hs.
      destruct (IHc rest' d cs' rest'') as (ts & ts' & y' & -> & Hbs & Hds & Hns & ->); [unfold len in *; lia|done|].
      exists (t :: ts), (t' :: ts'), (x ++ y'). split_and!; [by rewrite <- app_assoc| |by constructor| |done].
      * constructor; [done| |done]. intros Hx. apply Hy. rewrite take_app_le; [done|by eapply ber_length].
      * cbn. by rewrite Hn, Hns.
Qed.

(** C27: what the transcoder computes.  It answers, and with these bytes, exactly
    when the input is one value of the grammar, of any length encoding, chunked
    or not, and no deeper than the limit; the answer is the DER of that value
    with its chunked strings joined.  So the fuel the definition gives is enough, and any
    other input, however made, is an error. *)
Theorem to_der_spec x y : len x < 2 ^ 32 →
  (to_der x = Ok y ↔ ∃ t t', ber t x ∧ height t ≤ MAX_DEPTH ∧ norm t = Some t' ∧ y = der t').
Proof.
  intros Hs. unfold to_der. rewrite bind_Ok. split.
  - intros ([o rest] & E & Hr). apply bind_Ok in Hr as (_ & Hr%check_Ok%bool_decide_eq_true & [= <-]). subst rest.
    apply transcode_derives in E as (t & t' & x' & -> & Hb & Hd & Hn & ->); [|done]. exists t, t'. by rewrite app_nil_r.
  - intros (t & t' & Hb & Hd & Hn & ->). exists (der t', []). split; [|done].
    rewrite <- (app_nil_r x) at 2. by apply (proj1 ber_reads t x Hb); [..|lia].
Qed.
