(* ===== verification/Policy.v ===== *)
(** * The key policy: [keys/policy.rs]

    What the runtime insists on before it lets the key service near its master
    secret.  [serde_json] is a parameter: what a text is as a value.  Error
    texts are abbreviated. *)
From S2P Require Import Prelude.

Inductive Json :=
  | JNull | JBool (b : bool) | JNumber (text : string) | JString (s : string) | JArray (vs : list Json)
  | JObject (kvs : list (string * Json)).
Class JsonText := json_from_str : string → option Json.
Definition as_object (v : Json) : option (list (string * Json)) := match v with JObject o => Some o | _ => None end.
Definition as_str (v : Json) : option string := match v with JString s => Some s | _ => None end.
(** [Map::get]: a map holds a key once. *)
Fixpoint field (name : string) (o : list (string * Json)) : option Json :=
  match o with [] => None | (k, v) :: o => if decide (k = name) then Some v else field name o end.

Definition UNCONDITIONED : list string :=
  ["kms:describekey"; "kms:getkeypolicy"; "kms:getkeyrotationstatus"; "kms:listgrants"; "kms:listkeypolicies";
   "kms:listresourcetags"; "kms:schedulekeydeletion"; "kms:cancelkeydeletion"].
Definition RELEASING : list string := ["kms:decrypt"; "kms:generatedatakey"].
Definition PCR0 : string := "kms:recipientattestation:pcr0".
Definition PCR16 : string := "kms:recipientattestation:pcr16".

(** What the service says of a key, its enumerations by the names they have on
    the wire. *)
Record KeyMetadata := {
  origin : option string; key_manager : option string; multi_region : option bool; key_spec : option string;
  key_usage : option string }.
Definition check_key (m : KeyMetadata) : result string () :=
  _ ← check (bool_decide (origin m = Some "AWS_KMS")) "its key material did not originate in KMS";
  _ ← check (bool_decide (key_manager m = Some "CUSTOMER")) "it is not a customer managed key";
  _ ← check (bool_decide (multi_region m ≠ Some true)) "it is a multi-region key";
  check (bool_decide (key_spec m = Some "SYMMETRIC_DEFAULT") && bool_decide (key_usage m = Some "ENCRYPT_DECRYPT"))
    "it is not a symmetric encryption key".

Definition only_fields (o : list (string * Json)) (known : list string) : result string () :=
  check (bool_decide (Forall (λ kv, kv.1 ∈ known) o)) "has a field this check does not know".
Fixpoint all_strings (vs : list Json) : result string (list string) :=
  match vs with
  | [] => Ok []
  | v :: vs => s ← ok_or (as_str v) "lists something that is not a string"; ss ← all_strings vs; Ok (s :: ss)
  end.
Definition strings (v : Json) : result string (list string) :=
  match v with
  | JString s => Ok [s]
  | JArray vs => all_strings vs
  | _ => Err "has a value that is neither a string nor a list of strings"
  end.
Definition eq_ignore_ascii_case (a b : string) : bool := bool_decide (to_ascii_lowercase a = to_ascii_lowercase b).

(** One key of a condition, with the registers pinned so far. *)
Definition pin_key (pcr0 pcr16 : string) (pins : bool * bool) (key : string) (values : Json) : result string (bool * bool) :=
  let lower := to_ascii_lowercase key in
  let pin want pins :=
    vs ← strings values;
    _ ← check (negb (bool_decide (vs = [])) && forallb (λ v, eq_ignore_ascii_case v want) vs)
          "releases the secret to another enclave too";
    Ok pins in
  if decide (lower = PCR0) then pin pcr0 (true, pins.2)
  else if decide (lower = PCR16) then pin pcr16 (pins.1, true)
  else Ok pins.
Fixpoint pin_keys (pcr0 pcr16 : string) (pins : bool * bool) (keys : list (string * Json)) : result string (bool * bool) :=
  match keys with
  | [] => Ok pins
  | (key, values) :: keys => pins ← pin_key pcr0 pcr16 pins key values; pin_keys pcr0 pcr16 pins keys
  end.
Definition exact_operator (operator : string) : bool :=
  eq_ignore_ascii_case operator "StringEquals" || eq_ignore_ascii_case operator "StringEqualsIgnoreCase".
Fixpoint pin_operators (pcr0 pcr16 : string) (pins : bool * bool) (condition : list (string * Json)) :
    result string (bool * bool) :=
  match condition with
  | [] => Ok pins
  | (operator, keys) :: condition =>
      if exact_operator operator then
        keys ← ok_or (as_object keys) "has a malformed condition";
        pins ← pin_keys pcr0 pcr16 pins keys;
        pin_operators pcr0 pcr16 pins condition
      else pin_operators pcr0 pcr16 pins condition
  end.
Definition pinned_to (condition : option Json) (pcr0 pcr16 : string) : result string () :=
  condition ← ok_or (condition ≫= as_object) "releases the secret with no condition";
  pins ← pin_operators pcr0 pcr16 (false, false) condition;
  check (pins.1 && pins.2) "releases the secret without pinning both PCR0 and PCR16 to this enclave's".

(** The actions a statement allows: whether one of them releases the secret. *)
Fixpoint check_actions (actions : list string) : result string bool :=
  match actions with
  | [] => Ok false
  | a :: actions =>
      let lower := to_ascii_lowercase a in
      _ ← check (bool_decide (lower ∈ RELEASING ∨ lower ∈ UNCONDITIONED)) "allows an action it does not need";
      r ← check_actions actions;
      Ok (bool_decide (lower ∈ RELEASING) || r)
  end.
Definition STATEMENT_FIELDS : list string :=
  ["Sid"; "Effect"; "Principal"; "NotPrincipal"; "Action"; "NotAction"; "Resource"; "NotResource"; "Condition"].
Definition INVERTED : list string := ["NotPrincipal"; "NotAction"; "NotResource"].
Definition check_statement (statement : Json) (pcr0 pcr16 : string) : result string () :=
  st ← ok_or (as_object statement) "is not an object";
  _ ← only_fields st STATEMENT_FIELDS;
  let effect := field "Effect" st ≫= as_str in
  if decide (effect = Some "Deny") then Ok tt
  else
    _ ← check (bool_decide (effect = Some "Allow")) "has another Effect";
    _ ← check (forallb (λ i, bool_decide (field i st = None)) INVERTED) "grants everything it does not name";
    action ← ok_or (field "Action" st) "allows no Action";
    actions ← strings action;
    releases ← check_actions actions;
    if releases : bool then pinned_to (field "Condition" st) pcr0 pcr16 else Ok tt.
Fixpoint check_statements (statements : list Json) (pcr0 pcr16 : string) : result string () :=
  match statements with
  | [] => Ok tt
  | s :: statements => _ ← check_statement s pcr0 pcr16; check_statements statements pcr0 pcr16
  end.
Definition statements_of (doc : list (string * Json)) : option (list Json) :=
  match field "Statement" doc with
  | Some (JArray all) => Some all
  | Some (JObject one) => Some [JObject one]
  | _ => None
  end.
Definition check_policy `{JsonText} (policy : string) (pcr0 pcr16 : bytes) : result string () :=
  doc ← ok_or (json_from_str policy) "the key policy is not JSON";
  doc ← ok_or (as_object doc) "the key policy is not a JSON object";
  _ ← only_fields doc ["Version"; "Id"; "Statement"];
  _ ← check (bool_decide (field "Version" doc ≫= as_str = Some "2012-10-17")) "the key policy is not version 2012-10-17";
  statements ← ok_or (statements_of doc) "the key policy has no statements";
  check_statements statements (hex_encode pcr0) (hex_encode pcr16).
