(* ===== verification/PolicyProps.v ===== *)
(** * The key policy: what a policy that passes grants *)
From S2P Require Import Prelude Policy.

(** ** What a policy grants

    The documented evaluation of a key policy, as far as allowing goes: a
    statement that denies only takes away. *)
Definition STAR : Ascii.ascii := Ascii.ascii_of_N 42.
Definition QUESTION : Ascii.ascii := Ascii.ascii_of_N 63.
Inductive glob : string → string → Prop :=
  | glob_end : glob "" ""
  | glob_same c p s : c ≠ STAR → c ≠ QUESTION → glob p s → glob (String c p) (String c s)
  | glob_one c p s : glob p s → glob (String QUESTION p) (String c s)
  | glob_skip p s : glob p s → glob (String STAR p) s
  | glob_more c p s : glob (String STAR p) s → glob (String STAR p) (String c s).
(** A request: its action, and the attributes that conditions are about. *)
Record KmsRequest := { rq_action : string; rq_attribute : string → option string }.
Definition listed (v : Json) : list string :=
  match v with JString s => [s] | JArray vs => omap as_str vs | _ => [] end.
Definition names_action (rq : KmsRequest) (a : string) : Prop :=
  glob (to_ascii_lowercase a) (to_ascii_lowercase (rq_action rq)).
Section semantics.
(** The operators other than the exact ones may be anything. *)
Context (other_clause : string → string → Json → KmsRequest → Prop).
Definition clause (rq : KmsRequest) (operator key : string) (values : Json) : Prop :=
  if eq_ignore_ascii_case operator "StringEquals" then
    ∃ v, v ∈ listed values ∧ rq_attribute rq (to_ascii_lowercase key) = Some v
  else if eq_ignore_ascii_case operator "StringEqualsIgnoreCase" then
    ∃ v w, v ∈ listed values ∧ rq_attribute rq (to_ascii_lowercase key) = Some w ∧ eq_ignore_ascii_case v w = true
  else other_clause operator key values rq.
Definition conditions_hold (rq : KmsRequest) (st : list (string * Json)) : Prop :=
  ∀ ops operator keys key values, field "Condition" st = Some (JObject ops) → (operator, JObject keys) ∈ ops →
    (key, values) ∈ keys → clause rq operator key values.
Definition covers (rq : KmsRequest) (st : list (string * Json)) : Prop :=
  (∃ v a, field "Action" st = Some v ∧ a ∈ listed v ∧ names_action rq a) ∨
  (∃ v, field "NotAction" st = Some v ∧ ∀ a, a ∈ listed v → ¬ names_action rq a).
Definition allows (doc : Json) (rq : KmsRequest) : Prop :=
  ∃ o sts st, doc = JObject o ∧ statements_of o = Some sts ∧ JObject st ∈ sts ∧
    field "Effect" st = Some (JString "Allow") ∧ covers rq st ∧ conditions_hold rq st.

(** ** Literal names *)
Definition literal (s : string) : bool :=
  all_chars (λ c, negb (bool_decide (c = STAR)) && negb (bool_decide (c = QUESTION))) s.
Lemma glob_literal p s : literal p = true → glob p s → p = s.
Proof.
  intros Hl Hg. induction Hg as [|c p s ? ? Hg IH|c p s Hg IH|p s Hg IH|c p s Hg IH]; cbn in Hl;
    apply andb_true_iff in Hl as [Hc Hl] || idtac; [done|by rewrite IH|done..].
Qed.
Lemma known_literal : Forall (λ s, literal s = true) (RELEASING ++ UNCONDITIONED).
Proof. repeat constructor. Qed.

(** ** The parts of the check *)
Lemma strings_listed v ss : strings v = Ok ss → listed v = ss.
Proof.
  destruct v as [| | |s|vs|]; try done; cbn; [by intros [= <-]|]. revert ss. induction vs as [|v vs IH]; intros ss; cbn; [by intros [= <-]|].
  intros (s & Hs%ok_or_Ok & E)%bind_Ok. apply bind_Ok in E as (ss' & Hss & [= <-]). by rewrite Hs, (IH _ Hss).
Qed.
Lemma check_actions_Ok actions r : check_actions actions = Ok r →
  (∀ a, a ∈ actions → to_ascii_lowercase a ∈ RELEASING ++ UNCONDITIONED) ∧
  (∀ a, a ∈ actions → to_ascii_lowercase a ∈ RELEASING → r = true).
Proof.
  revert r. induction actions as [|a actions IH]; intros r; cbn; [intros _; set_solver|].
  intros (_ & Ha%check_Ok%bool_decide_eq_true & E)%bind_Ok. apply bind_Ok in E as (r' & Hr & [= <-]).
  destruct (IH _ Hr) as [H1 H2]. split; intros a' [->|Ha']%elem_of_cons; [set_solver|by apply H1| |].
  - intros Hrel. by rewrite bool_decide_eq_true_2.
  - intros Hrel. rewrite (H2 a') by done. apply orb_true_r.
Qed.
(** A register that is pinned by some exact clause, to the wanted value alone. *)
Definition pinned (ops : list (string * Json)) (register want : string) : Prop :=
  ∃ operator keys key values, (operator, JObject keys) ∈ ops ∧ exact_operator operator = true ∧ (key, values) ∈ keys ∧
    to_ascii_lowercase key = register ∧ ∀ v, v ∈ listed values → eq_ignore_ascii_case v want = true.
Lemma pin_key_Ok p0 p16 pins key values pins' : pin_key p0 p16 pins key values = Ok pins' →
  (pins'.1 = true → pins.1 = true ∨ (to_ascii_lowercase key = PCR0 ∧ ∀ v, v ∈ listed values → eq_ignore_ascii_case v p0 = true)) ∧
  (pins'.2 = true → pins.2 = true ∨ (to_ascii_lowercase key = PCR16 ∧ ∀ v, v ∈ listed values → eq_ignore_ascii_case v p16 = true)).
Proof.
  unfold pin_key. intros E. destruct (decide (to_ascii_lowercase key = PCR0)) as [H0|H0];
    [|destruct (decide (to_ascii_lowercase key = PCR16)) as [H16|H16]; [|injection E as <-; split; by left]].
  all: apply bind_Ok in E as (vs & Hvs%strings_listed & E); apply bind_Ok in E as (_ & Hc%check_Ok & [= <-]);
    apply andb_true_iff in Hc as [_ Hc]; split; cbn; intros Hp; try (by left); right; (split; [done|]); intros v; rewrite Hvs;
    intros Hv; rewrite forallb_forall in Hc; apply Hc; by apply list_elem_of_In.
Qed.
Lemma pin_keys_Ok p0 p16 keys pins pins' : pin_keys p0 p16 pins keys = Ok pins' →
  (pins'.1 = true → pins.1 = true ∨ ∃ key values, (key, values) ∈ keys ∧ to_ascii_lowercase key = PCR0 ∧
    ∀ v, v ∈ listed values → eq_ignore_ascii_case v p0 = true) ∧
  (pins'.2 = true → pins.2 = true ∨ ∃ key values, (key, values) ∈ keys ∧ to_ascii_lowercase key = PCR16 ∧
    ∀ v, v ∈ listed values → eq_ignore_ascii_case v p16 = true).
Proof.
  revert pins. induction keys as [|[key values] keys IH]; intros pins; cbn; [intros [= <-]; split; by left|].
  intros (pins1 & [H1 H2]%pin_key_Ok & [H3 H4]%IH)%bind_Ok. split; intros Hp.
  - destruct (H3 Hp) as [[|(Hk & Hv)]%H1|(k & v & ? & ?)]; [by left|right; exists key, values; set_solver|right; exists k, v; set_solver].
  - destruct (H4 Hp) as [[|(Hk & Hv)]%H2|(k & v & ? & ?)]; [by left|right; exists key, values; set_solver|right; exists k, v; set_solver].
Qed.
Lemma pin_operators_Ok p0 p16 ops pins pins' : pin_operators p0 p16 pins ops = Ok pins' →
  (pins'.1 = true → pins.1 = true ∨ pinned ops PCR0 p0) ∧ (pins'.2 = true → pins.2 = true ∨ pinned ops PCR16 p16).
Proof.
  revert pins. induction ops as [|[operator keys] ops IH]; intros pins; cbn [pin_operators]; [intros [= <-]; split; by left|].
  assert (∀ register want, pinned ops register want → pinned ((operator, keys) :: ops) register want) as Hmore.
  { intros register want (o & ks & k & v & ? & ?). exists o, ks, k, v. set_solver. }
  destruct (exact_operator operator) eqn:Ho; [|intros [H1 H2]%IH; split; intros Hp; naive_solver].
  intros (ks & Hks%ok_or_Ok & E)%bind_Ok. destruct keys as [| | | | |keys]; try done. injection Hks as ->.
  apply bind_Ok in E as (pins1 & [H1 H2]%pin_keys_Ok & [H3 H4]%IH). split; intros Hp.
  - destruct (H3 Hp) as [[|(k & v & ? & ? & ?)]%H1|Hr]; [by left|right|right; by apply Hmore].
    exists operator, ks, k, v. split_and!; [by left|done..].
  - destruct (H4 Hp) as [[|(k & v & ? & ? & ?)]%H2|Hr]; [by left|right|right; by apply Hmore].
    exists operator, ks, k, v. split_and!; [by left|done..].
Qed.
(** A request that meets a statement's conditions has the values it pins. *)
Lemma pinned_holds rq st ops register want : field "Condition" st = Some (JObject ops) → pinned ops register want →
  conditions_hold rq st → ∃ w, rq_attribute rq register = Some w ∧ eq_ignore_ascii_case w want = true.
Proof.
  intros Hf (operator & keys & key & values & Hop & Hex & Hkey & Hr & Hv) Hc.
  specialize (Hc _ _ _ _ _ Hf Hop Hkey). unfold clause in Hc. rewrite Hr in Hc. unfold exact_operator in Hex.
  destruct (eq_ignore_ascii_case operator "StringEquals").
  - destruct Hc as (v & Hin & ?). exists v. split; [done|by apply Hv].
  - cbn in Hex. rewrite Hex in Hc. destruct Hc as (v & w & Hin & ? & Hvw). exists w. split; [done|].
    specialize (Hv _ Hin). unfold eq_ignore_ascii_case in *. rewrite bool_decide_eq_true in *. congruence.
Qed.
Lemma check_statement_Ok st p0 p16 rq : check_statement (JObject st) p0 p16 = Ok tt →
  field "Effect" st = Some (JString "Allow") → covers rq st → conditions_hold rq st →
  to_ascii_lowercase (rq_action rq) ∈ UNCONDITIONED ∨
  (to_ascii_lowercase (rq_action rq) ∈ RELEASING ∧
   (∃ w, rq_attribute rq PCR0 = Some w ∧ eq_ignore_ascii_case w p0 = true) ∧
   (∃ w, rq_attribute rq PCR16 = Some w ∧ eq_ignore_ascii_case w p16 = true)).
Proof.
  intros E He Hcov Hcond. cbn in E. apply bind_Ok in E as (_ & _ & E). rewrite He in E. cbn in E.
  apply bind_Ok in E as (_ & _ & E). apply bind_Ok in E as (_ & Hinv%check_Ok & E). apply bind_Ok in E as (action & Ha%ok_or_Ok & E).
  apply bind_Ok in E as (actions & Hl%strings_listed & E). apply bind_Ok in E as (r & [Hk Hrel]%check_actions_Ok & E).
  destruct Hcov as [(v & a & Hv & Hin & Hg)|(v & Hv & _)].
  2: { rewrite Hv in Hinv. apply andb_true_iff in Hinv as [_ Hinv]. by apply andb_true_iff in Hinv as [Hinv _]. }
  rewrite Ha in Hv. injection Hv as <-. rewrite Hl in Hin. unfold names_action in Hg.
  apply glob_literal in Hg; [|by apply (proj1 (Forall_forall _ _) known_literal), Hk].
  rewrite <- Hg. specialize (Hk _ Hin). apply elem_of_app in Hk as [Hr|]; [right|by left].
  rewrite (Hrel _ Hin Hr) in E. split; [done|]. unfold pinned_to in E. apply bind_Ok in E as (ops & Hops%ok_or_Ok & E).
  apply bind_Some in Hops as (c & Hc & Hops). destruct c as [| | | | |ops']; try done. injection Hops as ->.
  apply bind_Ok in E as (pins & [H1 H2]%pin_operators_Ok & [Hp1 Hp2]%check_Ok%andb_true_iff).
  destruct (H1 Hp1) as [|Hn1], (H2 Hp2) as [|Hn2]; try done. split; by eapply pinned_holds.
Qed.

(** The requests a trusted key may allow: to read or delete it, and for the
    secret with an attestation of one runtime image and one guest. *)
Definition harmless (rq : KmsRequest) : Prop := to_ascii_lowercase (rq_action rq) ∈ UNCONDITIONED.
Definition attested_release (pcr0 pcr16 : bytes) (rq : KmsRequest) : Prop :=
  to_ascii_lowercase (rq_action rq) ∈ RELEASING ∧
  (∃ w, rq_attribute rq PCR0 = Some w ∧ eq_ignore_ascii_case w (hex_encode pcr0) = true) ∧
  (∃ w, rq_attribute rq PCR16 = Some w ∧ eq_ignore_ascii_case w (hex_encode pcr16) = true).
(** Whatever a key policy that passes the check says, and however the operators
    it does not inspect are evaluated, it allows no other request. *)
Lemma check_policy_sound `{JsonText} policy pcr0 pcr16 doc rq :
  check_policy policy pcr0 pcr16 = Ok tt → json_from_str policy = Some doc → allows doc rq →
  harmless rq ∨ attested_release pcr0 pcr16 rq.
Proof.
  intros E Hdoc (o & sts & st & -> & Hsts & Hst & He & Hcov & Hcond). unfold check_policy in E. rewrite Hdoc in E. cbn in E.
  apply bind_Ok in E as (_ & _ & E). apply bind_Ok in E as (_ & _ & E). rewrite Hsts in E. cbn in E.
  clear Hsts. induction sts as [|s sts IH]; [by apply elem_of_nil in Hst|]. cbn in E. apply bind_Ok in E as ([] & Hs & E).
  apply elem_of_cons in Hst as [<-|Hst]; [by apply (check_statement_Ok st)|by apply IH].
Qed.
End semantics.
