(* ===== verification/Nsm.v ===== *)
(** * The security module: [nitro-nsm/src/lib.rs] and the guest's measurement, guest.rs

    The requests and answers of the device in CBOR, the trait the runtime uses
    it by, the test double's registers, and the measurement of the guest.  The
    ioctl, CBOR (ciborium) and the hashes are parameters.  Errors keep their
    fixed text. *)
From S2P Require Import Prelude Attestation Attest Backend.

Definition REQUEST_MAX : Z := 4096.
Definition RESPONSE_MAX : Z := 12288.
Record Pcr := { locked : bool; value : bytes }.
Definition PCR_ZERO : bytes := replicate 48 Byte.x00.
Definition pcr_extend `{Sha384} (current data : bytes) : bytes := sha384 (current ++ data).

(** ** Requests and answers *)
Section codec.
Context `{!Codec Value}.
Definition encode_pcr_request (name : string) (index : Z) (data : option bytes) : bytes :=
  to_vec (Map [(Text name, Map ((Text "index", Integer index) ::
    match data with Some d => [(Text "data", Bytes d)] | None => [] end))]).
(** The value that an answer gives under its one name. *)
Definition answer_to (name : string) (v : Value) : result string Value :=
  outer ← ok_or (as_map v) "NSM response is not a map";
  '(key, inner) ← ok_or (head outer) "NSM response map is empty";
  _ ← check (bool_decide (default "<non-text>" (as_text key) = name)) "NSM answered something else";
  Ok inner.
Definition pcr_response_fields (cbor : bytes) (name : string) : result string (list (Value * Value)) :=
  v ← ok_or (from_slice cbor) "decoding the NSM response";
  inner ← answer_to name v;
  ok_or (as_map inner) "the value is not a map".
Definition as_bool (v : Value) : option bool := match v with Bool b => Some b | _ => None end.
Definition decode_describe_pcr (cbor : bytes) : result string Pcr :=
  fields ← pcr_response_fields cbor "DescribePCR";
  l ← ok_or (map_get fields "lock" ≫= as_bool) "DescribePCR has no boolean 'lock'";
  d ← ok_or (map_get fields "data" ≫= as_bytes) "DescribePCR has no 'data'";
  Ok {| locked := l; value := d |}.
Definition decode_extend_pcr (cbor : bytes) : result string bytes :=
  fields ← pcr_response_fields cbor "ExtendPCR";
  ok_or (map_get fields "data" ≫= as_bytes) "ExtendPCR has no 'data'".
Definition decode_lock_pcr (cbor : bytes) : result string () :=
  v ← ok_or (from_slice cbor) "decoding the NSM LockPCR response";
  check (bool_decide (as_text v = Some "LockPCR")) "NSM answered something else instead of LockPCR".
Definition present (name : string) (o : option bytes) : list (Value * Value) :=
  match o with Some b => [(Text name, Bytes b)] | None => [] end.
Definition encode_attestation (r : AttestationRequest) : bytes :=
  to_vec (Map [(Text "Attestation", Map (present "user_data" (ar_user_data r) ++ present "nonce" (ar_nonce r) ++
    present "public_key" (ar_public_key r)))]).
Definition decode_attestation (cbor : bytes) : result string bytes :=
  inner ← pcr_response_fields cbor "Attestation";
  v ← ok_or (map_get inner "document") "Attestation response has no 'document' field";
  doc ← ok_or (as_bytes v) "Attestation 'document' field is not a byte string";
  _ ← check (negb (bool_decide (doc = []))) "NSM returned an empty attestation document";
  Ok doc.
Definition encode_get_random : bytes := to_vec (Text "GetRandom").
Definition decode_get_random (cbor : bytes) : result string bytes :=
  inner ← pcr_response_fields cbor "GetRandom";
  v ← ok_or (map_get inner "random") "GetRandom response has no 'random' field";
  ok_or (as_bytes v) "GetRandom 'random' field is not a byte string".
End codec.

(** ** The trait *)
Class Nsm (D : Type) := {
  get_random : nat → M D string bytes;
  attest : AttestationRequest → M D string bytes;
  describe_pcr : Z → M D string Pcr;
  extend_pcr : Z → bytes → M D string bytes;
  lock_pcr : Z → M D string () }.

(** [NsmDevice]: the ioctl fills a buffer and says how much it wrote. *)
Section device.
Context {D : Type} `{!Codec Value} (ioctl : bytes → M D string (bytes * Z)).
Definition request (cbor : bytes) : M D string bytes :=
  _ ← ensure (len cbor <=? REQUEST_MAX) "NSM request is over the limit";
  '(response, written) ← ioctl cbor;
  _ ← ensure (negb (written =? 0)) "NSM returned an empty response";
  _ ← ensure (written <=? RESPONSE_MAX) "NSM reported more bytes than the buffer holds";
  mret (take (Z.to_nat written) response).
Fixpoint fill_random (fuel n : nat) : M D string bytes :=
  match n with
  | O => mret []
  | _ =>
      match fuel with
      | O => fail "unreachable"
      | S fuel =>
          response ← request encode_get_random;
          b ← lift (decode_get_random response);
          _ ← ensure (negb (bool_decide (b = []))) "NSM GetRandom returned no bytes";
          let took := take n b in
          rest ← fill_random fuel (n - length took);
          mret (took ++ rest)
      end
  end.
(** Every round gives a byte at least. *)
Definition device_get_random (n : nat) : M D string bytes := fill_random n n.
Definition device_attest (r : AttestationRequest) : M D string bytes :=
  response ← request (encode_attestation r); lift (decode_attestation response).
Definition device_describe_pcr (index : Z) : M D string Pcr :=
  response ← request (encode_pcr_request "DescribePCR" index None); lift (decode_describe_pcr response).
Definition device_extend_pcr (index : Z) (data : bytes) : M D string bytes :=
  response ← request (encode_pcr_request "ExtendPCR" index (Some data)); lift (decode_extend_pcr response).
Definition device_lock_pcr (index : Z) : M D string () :=
  response ← request (encode_pcr_request "LockPCR" index None); lift (decode_lock_pcr response).
Definition nsm_device : Nsm D :=
  {| get_random := device_get_random; attest := device_attest; describe_pcr := device_describe_pcr;
     extend_pcr := device_extend_pcr; lock_pcr := device_lock_pcr |}.
(** [NsmDevice::open] probes the device. *)
Definition open_device : M D string () := _ ← device_get_random 32; mret tt.
End device.

(** ** The test double *)
Section fake.
Context `{Sha384}.
Record FakeNsm := {
  calls : Z; empty : bool; chunk : nat; attestation : bytes; last_request : option AttestationRequest;
  pcrs : list Pcr }.
Definition fake_pcr (i : nat) : Pcr :=
  {| locked := (i <? 16)%nat; value := if (i <? 3)%nat then replicate 48 (Zbyte (16 + Z.of_nat i)) else PCR_ZERO |}.
Definition fake_new : FakeNsm :=
  {| calls := 0; empty := false; chunk := 256; attestation := str_bytes "not-a-signed-attestation-document";
     last_request := None; pcrs := fake_pcr <$> List.seq 0 32 |}.
Definition set_pcrs (ps : list Pcr) (d : FakeNsm) : FakeNsm :=
  {| calls := calls d; empty := empty d; chunk := chunk d; attestation := attestation d;
     last_request := last_request d; pcrs := ps |}.
Definition fake_bytes (n : Z) (took : nat) : bytes :=
  (λ i, Zbyte (n mod 256 * 31 + Z.of_nat i + 1)) <$> List.seq 0 took.
Fixpoint fake_fill (fuel n : nat) : M FakeNsm string bytes :=
  match n with
  | O => mret []
  | _ =>
      match fuel with
      | O => fail "a chunk of no bytes never fills"
      | S fuel =>
          d ← get;
          _ ← modify (λ d, {| calls := wrapping_add (calls d) 1; empty := empty d; chunk := chunk d;
                attestation := attestation d; last_request := last_request d; pcrs := pcrs d |});
          let took := Nat.min (chunk d) n in
          rest ← fake_fill fuel (n - took);
          mret (fake_bytes (calls d) took ++ rest)
      end
  end.
Definition fake_get_random (n : nat) : M FakeNsm string bytes :=
  d ← get; _ ← ensure (negb (empty d)) "NSM GetRandom returned no bytes"; fake_fill n n.
Definition fake_attest (r : AttestationRequest) : M FakeNsm string bytes :=
  d ← get;
  _ ← ensure (negb (empty d)) "NSM returned an empty attestation document";
  _ ← modify (λ d, {| calls := calls d; empty := empty d; chunk := chunk d; attestation := attestation d;
        last_request := Some r; pcrs := pcrs d |});
  mret (attestation d).
Definition fake_pcr_at (index : Z) (d : FakeNsm) : option Pcr := if index <? 0 then None else pcrs d !! Z.to_nat index.
Definition fake_describe_pcr (index : Z) : M FakeNsm string Pcr := d ← get; unwrap (fake_pcr_at index d) "no such PCR".
(** Changes a register that is not locked. *)
Definition write_pcr (index : Z) (f : Pcr → Pcr) : M FakeNsm string Pcr :=
  d ← get;
  p ← unwrap (fake_pcr_at index d) "no such PCR";
  _ ← ensure (negb (locked p)) "the PCR is read-only";
  _ ← modify (set_pcrs (<[Z.to_nat index := f p]> (pcrs d)));
  mret (f p).
Definition fake_extend_pcr (index : Z) (data : bytes) : M FakeNsm string bytes :=
  p ← write_pcr index (λ p, {| locked := locked p; value := pcr_extend (value p) data |}); mret (value p).
Definition fake_lock_pcr (index : Z) : M FakeNsm string () :=
  _ ← write_pcr index (λ p, {| locked := true; value := value p |}); mret tt.
#[export] Instance fake_nsm : Nsm FakeNsm :=
  {| get_random := fake_get_random; attest := fake_attest; describe_pcr := fake_describe_pcr;
     extend_pcr := fake_extend_pcr; lock_pcr := fake_lock_pcr |}.
End fake.

(** ** The guest: guest.rs *)
Definition MAX_GUEST_BYTES : Z := 64 * 1024 * 1024.
(** [fetch_bounded] of an object of the roots bucket. *)
Definition fetch_bounded (key : string) (limit : Z) : M MemoryBackend string bytes :=
  r ← attempt (get_blob key (Some (0, limit + 1)));
  b ← lift (match r with
    | Ok out => Ok (go_body out)
    | Err SE_NotFound => Err ("no guest component at " +:+ key +:+ " in the roots bucket")
    | Err other => Err ("reading the guest component " +:+ key +:+ ": " +:+ store_error_display other)
    end);
  _ ← ensure (len b <=? limit) ("the guest component from roots-bucket object " +:+ key +:+ " is over the limit");
  _ ← ensure (negb (bool_decide (b = []))) ("the guest component from roots-bucket object " +:+ key +:+ " is empty");
  mret b.
Definition fetch_guest (key : string) : M MemoryBackend string bytes := fetch_bounded key MAX_GUEST_BYTES.
Definition measure_guest `{Nsm D, Sha384, Sha256} (component : bytes) : M D string bytes :=
  before ← describe_pcr PCR_GUEST;
  _ ← ensure (negb (locked before)) "PCR16 is already locked";
  _ ← ensure (bool_decide (value before = PCR_ZERO)) "PCR16 was extended before the guest was measured";
  let expected := guest_pcr component in
  extended ← extend_pcr PCR_GUEST (sha256 component);
  _ ← ensure (bool_decide (extended = expected)) "PCR16 reads another value after extending";
  _ ← lock_pcr PCR_GUEST;
  after ← describe_pcr PCR_GUEST;
  _ ← ensure (locked after) "PCR16 still reads unlocked after LockPCR succeeded";
  _ ← ensure (bool_decide (value after = expected)) "PCR16 changed while being locked";
  mret expected.
