(* ===== verification/Keys.v ===== *)
(** * The master secret: keys/, store/crypto/keys.rs and the ids of mount.rs

    Where the secret comes from at genesis and at every later boot: from
    configuration in the clear, or from KMS, which releases it to an attested
    key pair.  AWS, the CMS parser, RSA-OAEP and AES-CBC are parameters; error
    texts are abbreviated. *)
From S2P Require Import Prelude Text Http Attestation Attest Policy Ber Nsm.

(** ** Ids and secrets in hex: [parse_fs_id], [MasterSecret::from_hex] *)
Inductive text_error := Refused (why : string) | Panicked.
(** [u8::from_str_radix(_, 16)] of two bytes: it takes a sign. *)
Definition from_str_radix_16 (a b : Ascii.ascii) : option Z :=
  if decide (a = Ascii.ascii_of_N 43) then hex_value b
  else x ← hex_value a; y ← hex_value b; Some (16 * x + y).
(** [&s[i * 2..i * 2 + 2]] for each byte; a slice that does not end on a
    character's boundary panics. *)
Fixpoint hex_pairs (n : nat) (s : string) : result text_error bytes :=
  match n, s with
  | O, _ => Ok []
  | S n, String a (String b s) =>
      _ ← check (negb (match s with String c _ => is_continuation c | "" => false end)) Panicked;
      z ← ok_or (from_str_radix_16 a b) (Refused "not valid hex");
      rest ← hex_pairs n s;
      Ok (Zbyte z :: rest)
  | _, _ => Err Panicked
  end.
Definition parse_fs_id (s : string) : result text_error bytes :=
  let s := trim s in
  _ ← check (strlen s =? 32) (Refused "filesystem id must be 32 hex characters");
  hex_pairs 16 s.
Definition from_hex (s : string) : result text_error bytes :=
  let s := trim s in
  _ ← check (strlen s =? 64) (Refused "master key must be 64 hex characters");
  hex_pairs 32 s.

(** ** The key source *)
Definition SealedKey := bytes.
Class MasterKeySource (D : Type) := { mint : M D string (bytes * SealedKey); open_key : SealedKey → M D string bytes }.
Definition UNSEALED_MAGIC : bytes := str_bytes "enclave-UNSEALED-development-key-v1" ++ [Byte.x0a].
Fixpoint strip_bytes (p b : bytes) : option bytes :=
  match p, b with
  | [], _ => Some b
  | x :: p, y :: b => if decide (x = y) then strip_bytes p b else None
  | _, [] => None
  end.
Definition static_mint {D} (secret : bytes) : M D string (bytes * SealedKey) := mret (secret, UNSEALED_MAGIC ++ secret).
Definition static_open {D} (sealed : SealedKey) : M D string bytes :=
  raw ← unwrap (strip_bytes UNSEALED_MAGIC sealed) "this filesystem's key was sealed by something else";
  _ ← ensure (len raw =? 32) "unsealed key blob is not 32 bytes after its marker";
  mret raw.
Definition static_key {D} (secret : bytes) : MasterKeySource D :=
  {| mint := static_mint secret; open_key := static_open |}.

(** ** Which pair this is: boot.rs [Pair] *)
Record Pair := { pcr0 : bytes; pcr16 : bytes }.
Definition register (v : bytes) : result string bytes := _ ← check (len v =? 48) "a SHA-384 register is 48 bytes"; Ok v.
Definition pair_read `{Nsm D} : M D string Pair :=
  p0 ← describe_pcr 0;
  guest ← describe_pcr PCR_GUEST;
  _ ← ensure (locked guest) "PCR16 is not locked";
  _ ← ensure (negb (bool_decide (value guest = PCR_ZERO))) "PCR16 is locked but was never extended";
  p0 ← lift (register (value p0));
  p16 ← lift (register (value guest));
  mret {| pcr0 := p0; pcr16 := p16 |}.

(** ** The answer to a recipient: recipient.rs *)
Definition ID_ENVELOPED_DATA : string := "1.2.840.113549.1.7.3".
Definition ID_DATA : string := "1.2.840.113549.1.7.1".
Definition ID_RSAES_OAEP : string := "1.2.840.113549.1.1.7".
Definition ID_AES_256_CBC : string := "2.16.840.1.101.3.4.1.42".
Inductive RecipientInfo := Ktri (key_enc_alg : string) (enc_key : bytes) | OtherRecipient.
(** [ec_iv]: the algorithm's parameters, as an OCTET STRING when they are one. *)
Record EnvelopedData := {
  recip_infos : list RecipientInfo; ec_content_type : string; ec_alg : string; ec_iv : option (option bytes);
  ec_content : option bytes }.
Class Cms := {
  content_info_from_der : bytes → option (string * bytes);
  enveloped_from_der : bytes → option EnvelopedData }.
Class RecipientCrypto := {
  RecipientKey : Type;
  public_key_der : RecipientKey → bytes;
  oaep_decrypt : RecipientKey → bytes → option bytes;
  aes_256_cbc_decrypt : bytes → bytes → bytes → option bytes }.
Section recipient.
Context `{Cms, RecipientCrypto}.
Definition parse_enveloped (ciphertext : bytes) : result string EnvelopedData :=
  der ← to_der ciphertext;
  '(content_type, inner) ← ok_or (content_info_from_der der) "parsing CiphertextForRecipient as CMS";
  _ ← check (bool_decide (content_type = ID_ENVELOPED_DATA)) "expected CMS enveloped-data";
  ok_or (enveloped_from_der inner) "parsing the CMS enveloped-data".
Definition unwrap_key (key : RecipientKey) (e : EnvelopedData) : result string bytes :=
  match recip_infos e with
  | [Ktri alg enc_key] =>
      _ ← check (bool_decide (alg = ID_RSAES_OAEP)) "expected RSAES-OAEP key transport";
      ok_or (oaep_decrypt key enc_key) "unwrapping the content-encryption key"
  | [OtherRecipient] => Err "expected a key-transport recipient"
  | _ => Err "expected exactly one CMS recipient"
  end.
Definition decrypt_content (e : EnvelopedData) (cek : bytes) : result string bytes :=
  _ ← check (bool_decide (ec_content_type e = ID_DATA)) "expected id-data inside the envelope";
  _ ← check (bool_decide (ec_alg e = ID_AES_256_CBC)) "expected AES-256-CBC content encryption";
  iv ← ok_or (ec_iv e) "AES-CBC algorithm parameters are missing the IV";
  iv ← ok_or iv "AES-CBC IV is not an OCTET STRING";
  _ ← check (len iv =? 16) "AES-CBC IV is not 16 bytes";
  content ← ok_or (ec_content e) "the envelope carries no encrypted content";
  _ ← check (len cek =? 32) "content-encryption key is not 32 bytes";
  ok_or (aes_256_cbc_decrypt cek iv content) "decrypting the enveloped content".
Definition unwrap_ciphertext (key : RecipientKey) (ciphertext : bytes) : result string bytes :=
  e ← parse_enveloped ciphertext; cek ← unwrap_key key e; decrypt_content e cek.
End recipient.

(** ** The pointer to the key: kms.rs *)
Notation EncryptionContext := (gmap string string) (only parsing).
Record KeyPointer := {
  kp_parameter : string; kp_key_id : string; kp_context : EncryptionContext; ciphertext_sha256 : bytes }.
Definition POINTER_VERSION : Z := 1.
Section pointer.
Context `{!Codec Value}.
Definition encode_pointer (p : KeyPointer) : SealedKey :=
  to_vec (Array [Integer POINTER_VERSION; Text (kp_parameter p); Text (kp_key_id p);
    Map ((λ kv, (Text kv.1, Text kv.2)) <$> btree_iter (kp_context p)); Bytes (ciphertext_sha256 p)]).
Fixpoint read_context (entries : list (Value * Value)) (c : EncryptionContext) : result string EncryptionContext :=
  match entries with
  | [] => Ok c
  | (k, v) :: entries =>
      k ← ok_or (as_text k) "key pointer context key is not text";
      v ← ok_or (as_text v) "key pointer context value is not text";
      read_context entries (<[k := v]> c)
  end.
Definition decode_fields (fields : list Value) : result string KeyPointer :=
  match fields with
  | [version; parameter; key_id; context; digest] =>
      version ← ok_or (as_integer version) "pointer version is not an integer";
      _ ← check (version =? POINTER_VERSION) "key pointer is another version";
      entries ← ok_or (as_map context) "key pointer encryption context is not a map";
      context ← read_context entries ∅;
      digest ← ok_or (as_bytes digest) "key pointer digest is not bytes";
      _ ← check (len digest =? 32) "key pointer digest is not 32 bytes";
      parameter ← ok_or (as_text parameter) "key pointer parameter name is not text";
      key_id ← ok_or (as_text key_id) "key pointer key id is not text";
      Ok {| kp_parameter := parameter; kp_key_id := key_id; kp_context := context; ciphertext_sha256 := digest |}
  | _ => Err "key pointer has another number of fields"
  end.
Definition decode_pointer (sealed : SealedKey) : result string KeyPointer :=
  v ← ok_or (from_slice sealed) "decoding the key pointer";
  fields ← ok_or (as_array v) "key pointer is not an array";
  decode_fields fields.
End pointer.

(** ** Release by KMS *)
Record KmsKeyConfig := { kc_key_id : string; kc_parameter : string; environment : string; kc_fs_id : bytes }.
Definition config_context (c : KmsKeyConfig) : EncryptionContext :=
  <["fs-id" := hex_encode (kc_fs_id c)]> (<["environment" := environment c]> ∅).
(** What the enclave asks of AWS: the fields it reads of each answer.  A
    recipient is the attestation document that names its public key. *)
Class Aws (D : Type) := {
  describe_key : string → M D string (option KeyMetadata);
  get_key_policy : string → M D string (option string);
  list_grants : string → M D string (list string * bool);
  generate_data_key : string → Z → EncryptionContext → bytes → M D string (option bytes * option bytes);
  decrypt : bytes → string → EncryptionContext → bytes → M D string (option bytes);
  get_parameter : string → M D string (option string);
  put_parameter : string → string → bool → M D string () }.
Section kms.
Context `{Nsm D, Aws D, JsonText, Cms, RecipientCrypto, !Codec Value, Sha256, Base64Standard, Base64Encode}.
(** [RecipientKey::generate] draws a key pair. *)
Context (generate : M D string RecipientKey) (config : KmsKeyConfig).
Definition MASTER_SECRET_LEN : Z := 32.
Definition recipient : M D string (RecipientKey * bytes) :=
  key ← generate;
  document ← attest {| ar_user_data := None; ar_nonce := None; ar_public_key := Some (public_key_der key) |};
  mret (key, document).
Definition verify_key (key_id : string) : M D string () :=
  pair ← pair_read;
  described ← describe_key key_id;
  meta ← unwrap described "KMS described no key";
  _ ← lift (check_key meta);
  policy ← get_key_policy key_id;
  policy ← unwrap policy "KMS returned no key policy";
  _ ← lift (check_policy policy (pcr0 pair) (pcr16 pair));
  '(grants, truncated) ← list_grants key_id;
  ensure (bool_decide (grants = []) && negb truncated) "refusing KMS key: it has grants".
Definition read_ciphertext (p : KeyPointer) : M D string bytes :=
  encoded ← get_parameter (kp_parameter p);
  encoded ← unwrap encoded "SSM parameter has no value";
  ciphertext ← unwrap (base64_decode (trim encoded)) "SSM parameter is not base64";
  _ ← ensure (bool_decide (sha256 ciphertext = ciphertext_sha256 p)) "SSM parameter does not match the attested pointer";
  mret ciphertext.
Definition to_secret (b : bytes) : result string bytes := _ ← check (len b =? 32) "KMS returned another number of bytes"; Ok b.
Definition secret_for (key : RecipientKey) (for_recipient : option bytes) : result string bytes :=
  c ← ok_or for_recipient "KMS returned no CiphertextForRecipient"; b ← unwrap_ciphertext key c; to_secret b.
Definition kms_mint : M D string (bytes * SealedKey) :=
  _ ← verify_key (kc_key_id config);
  '(key, document) ← recipient;
  '(blob, for_recipient) ← generate_data_key (kc_key_id config) MASTER_SECRET_LEN (config_context config) document;
  ciphertext ← unwrap blob "KMS returned no CiphertextBlob";
  secret ← lift (secret_for key for_recipient);
  let pointer := {| kp_parameter := kc_parameter config; kp_key_id := kc_key_id config;
    kp_context := config_context config; ciphertext_sha256 := sha256 ciphertext |} in
  _ ← put_parameter (kc_parameter config) (base64_encode ciphertext) false;
  mret (secret, encode_pointer pointer).
Definition kms_open (sealed : SealedKey) : M D string bytes :=
  pointer ← lift (decode_pointer sealed);
  _ ← ensure (bool_decide (kp_context pointer = config_context config))
        "this filesystem was created under another encryption context";
  _ ← verify_key (kp_key_id pointer);
  ciphertext ← read_ciphertext pointer;
  '(key, document) ← recipient;
  for_recipient ← decrypt ciphertext (kp_key_id pointer) (kp_context pointer) document;
  lift (secret_for key for_recipient).
Definition kms_attested_key : MasterKeySource D := {| mint := kms_mint; open_key := kms_open |}.
End kms.

(** ** Which source a deployment runs: mod.rs *)
Inductive MasterKeySourceKind := KmsKind | StaticKind.
Definition parse_kind (s : string) : result string MasterKeySourceKind :=
  let s := to_ascii_lowercase (trim s) in
  if bool_decide (s = "kms" ∨ s = "kms-attested") then Ok KmsKind
  else if bool_decide (s = "static" ∨ s = "unsealed") then Ok StaticKind
  else Err "expected one of kms, static".
Record MasterKeyConfig := {
  mk_kind : MasterKeySourceKind; master_key : option string; kms_key_id : option string; mk_parameter : option string;
  mk_environment : string; mk_fs_id : bytes; access_key_id : option string; secret_access_key : option string }.
(** What [open_key_source] builds: a source, or the configuration of one. *)
Inductive KeySource := StaticSource (secret : bytes) | KmsSource (c : KmsKeyConfig).
Definition open_key_source (c : MasterKeyConfig) : result text_error KeySource :=
  match mk_kind c with
  | StaticKind =>
      _ ← check (bool_decide (kms_key_id c = None) && bool_decide (mk_parameter c = None))
            (Refused "static was given alongside KMS settings");
      hex ← ok_or (master_key c) (Refused "static needs --master-key");
      StaticSource <$> from_hex hex
  | KmsKind =>
      _ ← check (bool_decide (master_key c = None)) (Refused "--master-key was given alongside kms");
      key_id ← ok_or (kms_key_id c) (Refused "KMS release needs --kms-key-id");
      parameter ← ok_or (mk_parameter c) (Refused "KMS release needs --master-key-parameter");
      Ok (KmsSource {| kc_key_id := key_id; kc_parameter := parameter; environment := mk_environment c;
                       kc_fs_id := mk_fs_id c |})
  end.
(** The box as the source it holds, on the enclave's device, KMS and parameters. *)
Definition source_of `{Nsm D, Aws D, JsonText, Cms, RecipientCrypto, !Codec Value, Sha256, Base64Standard, Base64Encode}
    (generate : M D string RecipientKey) (k : KeySource) : MasterKeySource D :=
  match k with StaticSource secret => static_key secret | KmsSource c => kms_attested_key generate c end.
(** Whether the AWS clients sign with given keys, or as the instance's role. *)
Definition static_credentials (c : MasterKeyConfig) : option (string * string) :=
  id ← access_key_id c; secret ← secret_access_key c; Some (id, secret).
