(* ===== verification/Boot.v ===== *)
(** * Boot: is this enclave entitled to the state it is about to load?

    boot.rs, the key hierarchy of store/crypto/keys.rs and the control pool of
    zfs.rs.  A boot runs over the store, the clock and the disk of the anchor
    chain ([World]) and over the device: the security module, the key source and
    the host's disk.  HKDF, Ed25519's key from a seed, the attestation root's
    certificate and what the host's tools do are parameters. *)
From S2P Require Import Prelude Text Http Backend Attestation Storage Nsm Keys Anchor.

(** ** The key hierarchy: keys.rs *)
(** [hkdf secret salt info n] and [Ed25519KeyPair::from_seed_unchecked]. *)
Class Hkdf := hkdf : bytes → bytes → bytes → nat → option bytes.
Class Ed25519Seed `{Ed25519} := from_seed : bytes → option (SigningKey * bytes).
Definition INFO_ROOTSIGN : bytes := str_bytes "enclave/anchor-sign/v1".
Definition INFO_RUNTIME_SEAL : bytes := str_bytes "enclave/runtime-seal/v1".
(** [KeyMaterial::derive]; the sealing key it also sets up seals certificates. *)
Definition derive `{Hkdf, Ed25519, !Ed25519Seed} (master uuid : bytes) : result StoreError KeyMaterial :=
  _ ← ok_or (hkdf master uuid INFO_RUNTIME_SEAL 32) (SE_Io "HKDF expansion failed");
  seed ← ok_or (hkdf master uuid INFO_ROOTSIGN 32) (SE_Io "HKDF expansion failed");
  '(sk, pk) ← ok_or (from_seed seed) (SE_Io "Ed25519 key derivation failed");
  Ok {| signing_key := sk; public_key := pk; fs_uuid := uuid |}.

(** ** What a receipt commits to *)
Definition PURPOSE_STATE_ORIGIN : string := "state-origin".
Definition PURPOSE_PAIR : string := "state-pair".
Definition STATE_ROOT_SCHEMA : string := "zfs/state-origin/v2".
Record StateIdentity := {
  si_fs_uuid : bytes; si_roots_bucket : string; si_bucket_prefix : string; genesis_anchor_hash : bytes;
  sealed_key_sha256 : bytes }.
Definition identity_value (i : StateIdentity) : Value :=
  Array [Text STATE_ROOT_SCHEMA; Bytes (si_fs_uuid i); Text (si_roots_bucket i); Text (si_bucket_prefix i);
         Bytes (genesis_anchor_hash i); Bytes (sealed_key_sha256 i)].
Definition state_root `{!Codec Value, Blake3} (i : StateIdentity) : bytes := blake3 (to_vec (identity_value i)).
Definition receipt_payload `{!Codec Value} (purpose : string) (root : bytes) : bytes :=
  to_vec (Map [(Text "purpose", Text purpose); (Text "state_root", Bytes root)]).
Definition receipt_key (prefix : string) (uuid : bytes) : string := prefix +:+ "origin/" +:+ hex_encode uuid +:+ ".receipt".
Definition sealed_key_key (prefix : string) (uuid : bytes) : string := prefix +:+ "origin/" +:+ hex_encode uuid +:+ ".key".
Definition record_key `{Sha256} (p : Pair) (prefix : string) (uuid : bytes) : string :=
  prefix +:+ "origin/" +:+ hex_encode uuid +:+ ".pair." +:+ hex_encode (sha256 (pcr0 p ++ pcr16 p)).
Inductive ReceiptTrust := Required | UnsignedEmulator.
Definition parse_trust (testing : bool) (s : string) : result string ReceiptTrust :=
  let s := to_ascii_lowercase (trim s) in
  if bool_decide (s = "required" ∨ s = "signed") then Ok Required
  else if testing && bool_decide (s = "unsigned-emulator" ∨ s = "unsigned") then Ok UnsignedEmulator
  else Err "expected one of required, unsigned-emulator".

Section receipts.
Context `{X509, Coset, Base64Standard, !Codec Value} (AWS_NITRO_ROOT_G1_PEM : bytes).
(** As of when it was signed. *)
Definition verify_as_signed (document trust_root : bytes) : result string Verified :=
  d ← parse document;
  v ← Attestation.verify document {| trust_root := trust_root; now := timestamp d; allow_untrusted_root := false |};
  match trust v with ChainVerified => Ok v | _ => Err "receipt is not chain-verified" end.
Definition open_receipt (document : bytes) (t : ReceiptTrust) (expected : Expectations) (now : Z) : result string Verified :=
  v ← match t with
      | Required => verify_as_signed document AWS_NITRO_ROOT_G1_PEM
      | UnsignedEmulator => d ← parse document; Ok {| document := d; trust := Unsigned |}
      end;
  _ ← expect (Attestation.document v) expected now;
  Ok v.
Definition origin_expectations (root : bytes) : Expectations :=
  {| want_pcrs := ∅; want_nonce := None; want_user_data := Some (receipt_payload PURPOSE_STATE_ORIGIN root); max_age := None |}.
Definition pair_expectations (p : Pair) (root : bytes) : Expectations :=
  {| want_pcrs := <[PCR_GUEST := pcr16 p]> (<[0 := pcr0 p]> ∅); want_nonce := None;
     want_user_data := Some (receipt_payload PURPOSE_PAIR root); max_age := None |}.
Definition verify_origin (receipt : bytes) (t : ReceiptTrust) (root : bytes) (now : Z) : result string () :=
  _ ← open_receipt receipt t (origin_expectations root) now; Ok tt.
Definition verify_pair_record (document : bytes) (t : ReceiptTrust) (p : Pair) (root : bytes) (now : Z) : result string () :=
  _ ← open_receipt document t (pair_expectations p root) now; Ok tt.
End receipts.

(** ** The machine a boot runs on *)
(** The host's disk: its size in sectors once it is attached, a mapping made,
    the catalog's files. *)
Class Host (D : Type) := {
  bring_up_disk : M D string Z;
  dmsetup : list string → string → M D string ();
  read_entries : M D string (list (bytes * CatalogEntry)) }.
Record Machine {B D : Type} := { world : World B; device : D }.
Arguments Machine : clear implicits.
Inductive Disk := Parent | Directory.
Record MountConfig := {
  roots_bucket : string; bucket_prefix : string; fs_id : bytes; min_root_seq : option Z; root_retention : Z }.
Record BootConfig := { bc_trust : ReceiptTrust; bc_disk : Disk }.
Definition SECTORS_PER_MIB : Z := 1024 * 1024 / 512.
Definition DEFAULT_REGION_MIB : Z := 200.
Definition SCRATCH_REGIONS : Z := 64.
(** The manager of pools, as boot makes it. *)
Record Zfs := {
  zf_control : Pool; zf_is_pool : bool; zf_generation : Z; zf_region_sectors : Z; zf_disk_sectors : Z; zf_max_pools : Z }.
Inductive BootMode := Genesis | Resume | Upgrade.
#[export] Instance boot_mode_eq_dec : EqDecision BootMode.
Proof. solve_decision. Defined.

Section machine.
Context `{Blake3, Ed25519, !Ed25519Seed, Hkdf, Roots B, Host D, Nsm D, MasterKeySource D}.
Context `{X509, Coset, Base64Standard, !Codec Value, Sha256} (AWS_NITRO_ROOT_G1_PEM : bytes).
(** What the kernel draws for a new pool, and whether it logs an import. *)
Context (guid : Z) (log : bool).
Notation op := (M (Machine B D) anchor_error).
Definition set_world (w : World B) (s : Machine B D) : Machine B D := {| world := w; device := device s |}.
Definition set_device (d : D) (s : Machine B D) : Machine B D := {| world := world s; device := d |}.
Definition on_world {A} (m : M (World B) anchor_error A) : op A := zoom world set_world m.
Definition on_device {A} (m : M D string A) : op A := zoom device set_device (λ d, let '(r, d) := m d in (map_err Bail r, d)).
Definition hoist {A} (r : result string A) : op A := lift (map_err Bail r).

(** ** The control pool: [Zfs::create] and [Zfs::open] *)
Definition dmcrypt_info (k : PoolKind) (pool_id : bytes) : bytes :=
  str_bytes "zfs/dmcrypt/v2" ++ [kind_byte k] ++ pool_id.
Definition dmcrypt_table (key : bytes) (offset len : Z) : string :=
  "0 " +:+ pretty len +:+ " crypt aes-xts-plain64 " +:+ hex_encode key +:+ " 0 /dev/nbd0 " +:+ pretty offset +:+
  " 1 sector_size:4096" +:+ String (Ascii.ascii_of_N 10) "".
Definition map_region (master uuid : bytes) (k : PoolKind) (pool_id : bytes) (dev_name : string) (offset len : Z) : op () :=
  key ← lift (ok_or (hkdf master uuid (dmcrypt_info k pool_id) 64) (FromStore (SE_Io "HKDF expansion failed")));
  on_device (dmsetup ["create"; dev_name; "--noudevsync"] (dmcrypt_table key offset len)).
Definition bring_up (disk : Disk) : op (bool * Z) :=
  match disk with
  | Parent => sectors ← on_device bring_up_disk; mret (true, sectors)
  | Directory => mret (false, DEFAULT_REGION_MIB * SECTORS_PER_MIB * SCRATCH_REGIONS)
  end.
Definition control_spec (master : bytes) (keys : KeyMaterial) (prefix : string) (is_pool : bool)
    (region_sectors disk_sectors : Z) : op PoolSpec :=
  '(offset, len) ← unwrap (region_bounds 0 region_sectors disk_sectors)
                     (Bail "the disk is too small for even the control region");
  _ ← (if is_pool then map_region master (fs_uuid keys) Control CONTROL_POOL_ID "zcrypt-control" offset len else mret tt);
  mret {| sp_kind := Control; sp_pool_id := CONTROL_POOL_ID; sp_tenant_id := replicate 16 Byte.x00;
          sp_anchor_prefix := prefix +:+ "zfs/control/"; sp_is_pool := is_pool |}.
Definition assemble (is_pool : bool) (region_sectors disk_sectors generation : Z) (control : Pool) : Zfs :=
  {| zf_control := control; zf_is_pool := is_pool; zf_generation := generation; zf_region_sectors := region_sectors;
     zf_disk_sectors := disk_sectors; zf_max_pools := region_count region_sectors disk_sectors |}.
Definition zfs_create (disk : Disk) (keys : KeyMaterial) (master : bytes) (prefix : string) (retention : Z) : op Zfs :=
  '(is_pool, disk_sectors) ← bring_up disk;
  let region_sectors := DEFAULT_REGION_MIB * SECTORS_PER_MIB in
  generation ← on_world (claim_generation keys prefix retention);
  spec ← control_spec master keys prefix is_pool region_sectors disk_sectors;
  control ← on_world (create keys prefix retention spec generation guid);
  mret (assemble is_pool region_sectors disk_sectors generation control).
(** A store of the layout before pools per tenant. *)
Definition is_v1 (prefix : string) : op bool :=
  v2 ← on_world (exists_raw (prefix +:+ "zfs/control/anchors/" +:+ hex16 0));
  if v2 : bool then mret false else on_world (exists_raw (prefix +:+ "zfs/anchors/" +:+ hex16 0)).
Definition validate_catalog (z : Zfs) : op () :=
  entries ← on_device read_entries; hoist (validate_entries (zf_max_pools z) entries [] []).
Definition zfs_open (disk : Disk) (keys : KeyMaterial) (master : bytes) (prefix : string) (retention : Z)
    (min_seq : option Z) : op Zfs :=
  '(is_pool, disk_sectors) ← bring_up disk;
  let region_sectors := DEFAULT_REGION_MIB * SECTORS_PER_MIB in
  v1 ← is_v1 prefix;
  _ ← ensure (negb v1) (Bail "this roots bucket holds a store from before the per-tenant pool layout (v1)");
  generation ← on_world (claim_generation keys prefix retention);
  spec ← control_spec master keys prefix is_pool region_sectors disk_sectors;
  control ← on_world (open keys prefix retention spec generation min_seq None log);
  let z := assemble is_pool region_sectors disk_sectors generation control in
  _ ← validate_catalog z;
  mret z.

(** ** The boot machine *)
Record Booted := {
  mode : BootMode; zfs : Zfs; booted_keys : KeyMaterial; booted_root : bytes; booted_pair : Pair; master_secret : bytes }.
(** Absence is a decision: what the store retains, not what it shows. *)
Definition maybe_get (key : string) : op (option bytes) :=
  r ← on_world (attempt (on_roots (roots_get key)));
  match r with
  | Ok b => mret (Some b)
  | Err SE_NotFound => mret None
  | Err e => fail (FromStore e)
  end.
Definition trusted_now : op Z := on_world (λ w,
  let rest cs := {| roots := roots w; clocks := cs; cmds := cmds w; draws := draws w; disk := disk w |} in
  match clocks w with
  | Some now :: cs => (Ok now, rest cs)
  | _ :: cs => (Err (Bail "the trusted clock failed"), rest cs)
  | [] => (Err (Bail "the trusted clock failed"), w)
  end).
Definition locked (key : string) (b : bytes) (retention now : Z) : PutBlobInput := Anchor.locked key b (now + retention).
Definition put_new (key : string) (b : bytes) (retention now : Z) : op (result StoreError ()) :=
  on_world (attempt (on_roots (roots_put (locked key b retention now)))).
Definition identity_of (z : Zfs) (c : MountConfig) (sealed : SealedKey) : StateIdentity :=
  {| si_fs_uuid := fs_id c; si_roots_bucket := roots_bucket c; si_bucket_prefix := bucket_prefix c;
     genesis_anchor_hash := Anchor.genesis (zf_control z); sealed_key_sha256 := sha256 sealed |}.
Definition derive_keys (master : bytes) (c : MountConfig) : op KeyMaterial :=
  lift (map_err FromStore (derive master (fs_id c))).

(** Whether this boot is the pair's first on this state: a record that is there
    already is verified, one that is not is attested, verified and stored. *)
Definition record_pair (c : MountConfig) (t : ReceiptTrust) (p : Pair) (root : bytes) (now : Z) : op bool :=
  let key := record_key p (bucket_prefix c) (fs_id c) in
  existing ← maybe_get key;
  match existing with
  | Some existing =>
      _ ← hoist (verify_pair_record AWS_NITRO_ROOT_G1_PEM existing t p root now); mret false
  | None =>
      document ← on_device (attest (Attest.with_user_data (receipt_payload PURPOSE_PAIR root)));
      _ ← hoist (verify_pair_record AWS_NITRO_ROOT_G1_PEM document t p root now);
      r ← put_new key document (root_retention c) now;
      _ ← match r with
          | Ok _ => mret tt
          | Err SE_AlreadyExists =>
              theirs ← maybe_get key;
              theirs ← unwrap theirs (Bail "the record was reported present and then was not");
              hoist (verify_pair_record AWS_NITRO_ROOT_G1_PEM theirs t p root now)
          | Err other => fail (FromStore other)
          end;
      mret true
  end.
(** [genesis]: the sealed key first, as the lease; the receipt last but the record. *)
Definition run_genesis (c : MountConfig) (b : BootConfig) (p : Pair) : op Booted :=
  now ← trusted_now;
  '(master, sealed) ← on_device mint;
  r ← put_new (sealed_key_key (bucket_prefix c) (fs_id c)) sealed (root_retention c) now;
  _ ← lift (map_err FromStore r);
  keys ← derive_keys master c;
  z ← zfs_create (bc_disk b) keys master (bucket_prefix c) (root_retention c);
  let root := state_root (identity_of z c sealed) in
  document ← on_device (attest (Attest.with_user_data (receipt_payload PURPOSE_STATE_ORIGIN root)));
  r ← put_new (receipt_key (bucket_prefix c) (fs_id c)) document (root_retention c) now;
  _ ← lift (map_err FromStore r);
  _ ← record_pair c (bc_trust b) p root now;
  mret {| mode := Genesis; zfs := z; booted_keys := keys; booted_root := root; booted_pair := p; master_secret := master |}.
Definition resume (c : MountConfig) (b : BootConfig) (p : Pair) (receipt : bytes) (sealed : SealedKey) : op Booted :=
  master ← on_device (open_key sealed);
  keys ← derive_keys master c;
  z ← zfs_open (bc_disk b) keys master (bucket_prefix c) (root_retention c) (min_root_seq c);
  let root := state_root (identity_of z c sealed) in
  now ← trusted_now;
  _ ← hoist (verify_origin AWS_NITRO_ROOT_G1_PEM receipt (bc_trust b) root now);
  first ← record_pair c (bc_trust b) p root now;
  mret {| mode := if first : bool then Upgrade else Resume; zfs := z; booted_keys := keys; booted_root := root;
          booted_pair := p; master_secret := master |}.
Definition boot (c : MountConfig) (b : BootConfig) : op Booted :=
  p ← on_device pair_read;
  receipt ← maybe_get (receipt_key (bucket_prefix c) (fs_id c));
  sealed ← maybe_get (sealed_key_key (bucket_prefix c) (fs_id c));
  match receipt, sealed with
  | Some receipt, Some sealed => resume c b p receipt sealed
  | None, None => run_genesis c b p
  | Some _, None => fail (Bail "this filesystem has a state-origin receipt but no sealed key")
  | None, Some _ => fail (Bail "this filesystem has a sealed key but no state-origin receipt")
  end.
End machine.
