(* ===== verification/BootProps.v ===== *)
(** * Boot: when a genesis runs, and that all boots of a store agree *)
From S2P Require Import Prelude Text Http Backend Attestation Storage Nsm Keys Anchor AnchorProps PoolProps Boot.

(** ** Runs that only move a state on *)
Section advances.
Context {S : Type} (I : S → Prop) (R : S → S → Prop) `{!PreOrder R}.
Definition advances {E A} (m : M S E A) : Prop := ∀ s r s', I s → m s = (r, s') → I s' ∧ R s s'.
Context {E : Type}.
Lemma advances_ret {A} (a : A) : advances (mret a : M S E A).
Proof. intros s r s' Hs [= _ <-]. by split. Qed.
Lemma advances_fail {A} (e : E) : advances (fail e : M S E A).
Proof. intros s r s' Hs [= _ <-]. by split. Qed.
Lemma advances_lift {A} (x : result E A) : advances (lift x : M S E A).
Proof. intros s r s' Hs [= _ <-]. by split. Qed.
Lemma advances_ensure b (e : E) : advances (ensure b e : M S E ()).
Proof. intros s r s' Hs [= _ <-]. by split. Qed.
Lemma advances_bind_run {A C} (m : M S E A) (f : A → M S E C) :
  advances m → (∀ s a s1, I s → m s = (Ok a, s1) → advances (f a)) → advances (m ≫= f).
Proof.
  intros Hm Hf s r s' Hs Er. apply mbind_inv in Er as [(a & s1 & E1 & Er)|(e & E1 & ->)]; [|by eapply Hm].
  destruct (Hm _ _ _ Hs E1) as [H1 R1]. destruct (Hf _ _ _ Hs E1 _ _ _ H1 Er) as [H2 R2].
  split; [done|by etransitivity].
Qed.
Lemma advances_bind {A C} (m : M S E A) (f : A → M S E C) :
  advances m → (∀ a, advances (f a)) → advances (m ≫= f).
Proof. intros Hm Hf. by apply advances_bind_run. Qed.
Lemma advances_attempt {E' A} (m : M S E A) : advances m → advances (attempt (E':=E') m).
Proof.
  intros Hm s r s' Hs Er. unfold attempt in Er. destruct (m s) as [x s1] eqn:E1. injection Er as _ <-. by eapply Hm.
Qed.
End advances.
Ltac step_by tac := apply advances_bind; [exact _|tac|intros ?].

(** ** The chain's operations *)
Section world.
Context `{Blake3, !Blake3Laws, Ed25519, Roots B, !RootsLaws B} (keys : KeyMaterial) `{!KeyLaws keys} (retention : Z).
Definition moves (w w' : World B) : Prop := later (roots w) (roots w').
#[export] Instance moves_preorder : PreOrder moves.
Proof. split; [intros w; apply later_refl|intros w w' w''; apply later_trans]. Qed.
Notation ready := (ready retention).
Notation moving := (advances ready moves).
Lemma goes_moving v {A} (m : M (World B) anchor_error A) : goes retention v m → moving m.
Proof. intros Hm w r w' Hr E. pose proof (Hm _ _ _ Hr E) as W. split; [by eapply went_ready|apply W]. Qed.
Lemma on_roots_get_moving k : moving (on_roots (roots_get k) : M (World B) _ _).
Proof.
  intros w r w' Hr E. apply on_roots_get in E as [Hm _]; [|apply Hr]. pose proof (moved_went None _ _ Hm) as W.
  split; [by eapply went_ready|apply W].
Qed.
Lemma on_roots_put_spec i lock w r w' : ready w → pi_object_lock i = Some lock → horizon ≤ retain_until lock →
  on_roots (roots_put i) w = (r, w') →
  ready w' ∧ moves w w' ∧ (r = Ok tt → is_Some (stored (roots w') (pi_key i))).
Proof.
  intros Hr Hl Hh E. pose proof (on_roots_put_went retention None _ _ _ _ _ Hr Hl Hh E) as W.
  split_and!; [by eapply went_ready|apply W|]. unfold on_roots in E. apply zoom_inv in E as (b & E & ->).
  eapply put_spec in E as (_ & _ & Hs); [done|apply Hr|done..].
Qed.
Lemma zpool_create_moving guid : moving (zpool_create guid : M (World B) _ _).
Proof.
  intros w r w' Hr E. unfold zpool_create in E. destruct w as [b cl [|[n|n t] cs] ds d]; cbn in E; injection E as _ <-;
    [split; [exact Hr|apply later_refl]..|]. destruct t; (split; [exact Hr|apply later_refl]).
Qed.
Lemma create_pool_moving guid h : moving (create_pool guid h : M (World B) _ _).
Proof.
  unfold create_pool. step_by ltac:(apply (goes_moving None), goes_present). step_by ltac:(apply advances_ensure, _).
  step_by ltac:(apply zpool_create_moving). step_by ltac:(apply (goes_moving None), goes_datasets).
  step_by ltac:(apply (goes_moving None), goes_pool_guid). apply advances_ret, _.
Qed.
Lemma publish_moving h s b : p_retention h = retention → moving (publish h s b : M (World B) _ _).
Proof.
  intros Hp w r w' Hr E. apply (publish_spec keys retention None) in E as [W _]; [|done..].
  split; [by eapply went_ready|apply W].
Qed.
Lemma mark_moving h p n : moving (mark h p n : M (World B) _ _).
Proof.
  unfold mark. destruct (is_pool h); [|apply advances_ret, _]. step_by ltac:(eapply goes_moving, goes_zfs_set).
  step_by ltac:(apply (goes_moving None), goes_synced). step_by ltac:(apply advances_ensure, _). apply advances_ret, _.
Qed.
Lemma lock_until_moving : moving (lock_until retention : M (World B) _ _).
Proof.
  intros w r w' Hr E. apply (lock_until_spec keys retention None) in E as [W _]; [|done].
  split; [by eapply went_ready|apply W].
Qed.
(** Taking a generation; its locks last as any. *)
Lemma claim_moving tries prefix : moving (claim_loop keys tries prefix retention : M (World B) _ _).
Proof.
  induction tries as [|tries IH]; cbn [claim_loop]; [apply advances_fail, _|].
  step_by ltac:(apply (goes_moving None), goes_chain_tip).
  apply advances_bind_run; [exact _|apply lock_until_moving|]. intros w u w1 Hr Hu.
  apply (lock_until_spec keys retention None) in Hu as [_ Hu]; [|done].
  step_by ltac:(apply advances_attempt; intros w2 r w3 Hr2 E2; eapply on_roots_put_spec in E2 as (? & ? & _); [done|exact Hr2|reflexivity|exact Hu]).
  destruct a0 as [[]|[]]; try apply advances_fail, _; [|apply IH].
  step_by ltac:(apply (goes_moving None), goes_store_get). case_decide; [apply advances_ret, _|apply IH].
Qed.
Lemma check_link_moving h tip s : moving (check_link keys h tip s : M (World B) _ _).
Proof.
  intros w r w' Hr E. apply (check_link_spec keys retention) in E as [W _]; [|done]. split; [by eapply went_ready|apply W].
Qed.
Lemma admit_disk_moving h tip log : moving (admit_disk h tip log : M (World B) _ _).
Proof.
  unfold admit_disk. destruct (is_pool h); [|apply advances_ret, _]. step_by ltac:(apply (goes_moving None), goes_import).
  destruct a as [[l m] g]. destruct (admit_state _ _ _ _); [apply (goes_moving None), goes_id|].
  step_by ltac:(apply advances_attempt, (goes_moving None), goes_id). apply advances_fail, _.
Qed.
End world.

(** The genesis of a handle is what the store keeps as its first anchor. *)
Section first.
Context `{Blake3, !Blake3Laws, Ed25519, Roots B, !RootsLaws B} (keys : KeyMaterial) `{!KeyLaws keys} (retention : Z).
Definition first_anchor (w : World B) (prefix : string) (g : bytes) : Prop :=
  ∃ b, stored (roots w) (prefix +:+ "anchors/" +:+ hex16 0) = Some b ∧ g = blake3 b.
Lemma first_anchor_moves w w' prefix g : moves w w' → first_anchor w prefix g → first_anchor w' prefix g.
Proof. intros Hm (b & Hb & ->). exists b. split; [by eapply later_stored|done]. Qed.
Notation moving := (advances (ready retention) moves).
Lemma seal_moving h p : p_retention h = retention → moving (seal_and_publish keys h p).
Proof.
  intros Hp. unfold seal_and_publish. step_by ltac:(apply (goes_moving _ None), (goes_fill keys)).
  step_by ltac:(apply mark_moving). step_by ltac:(apply (goes_moving _ None), goes_fence).
  step_by ltac:(by apply (publish_moving keys)). apply advances_ret, _.
Qed.
Lemma seal_first h w a w' : p_retention h = retention → ready retention w → seal_and_publish keys h None w = (Ok a, w') →
  stored (roots w') (anchor_key h 0) = Some (encoded a).
Proof.
  intros Hp Hr E. unfold seal_and_publish in E.
  apply mbind_inv in E as [(n & w1 & E1 & E)|(e & _ & [=])].
  assert (ready retention w1) as K1 by (eapply (goes_moving _ None), E1; [apply (goes_fill keys)|done]).
  apply mbind_inv in E as [(t & w2 & E2 & E)|(e & _ & [=])].
  assert (ready retention w2) as K2 by (eapply mark_moving, E2; done).
  apply mbind_inv in E as [(u & w3 & E3 & E)|(e & _ & [=])]. injection E3 as _ <-.
  apply mbind_inv in E as [([] & w4 & E4 & E)|(e & _ & [=])]. injection E as <- <-.
  by apply (publish_spec keys retention None) in E4 as [_ Hs]; [apply Hs|..].
Qed.
Lemma create_moving prefix spec gen guid : moving (create keys prefix retention spec gen guid).
Proof.
  unfold create. step_by ltac:(apply (goes_moving _ None), goes_chain_tip). step_by ltac:(apply advances_ensure, _).
  apply advances_bind_run; [exact _|destruct (is_pool _); [apply create_pool_moving|apply advances_ret, _]|].
  intros w h w' Hr E. step_by ltac:(apply seal_moving). 2: apply advances_ret, _.
  destruct (is_pool _); [by apply (create_pool_Ok retention) in E as [-> _]|by injection E as <- _].
Qed.
Lemma create_first prefix spec gen guid w h w' : ready retention w →
  create keys prefix retention spec gen guid w = (Ok h, w') →
  first_anchor w' (sp_anchor_prefix spec) (Anchor.genesis h).
Proof.
  intros Hr E. unfold create in E. set (h0 := attach prefix retention spec gen) in *.
  apply mbind_inv in E as [(t & w1 & E1 & E)|(e & _ & [=])].
  assert (ready retention w1) as K1 by (eapply (goes_moving _ None), E1; [apply goes_chain_tip|done]).
  apply mbind_inv in E as [(u & w1' & E2 & E)|(e & _ & [=])]. apply ensure_inv in E2 as [-> _].
  apply mbind_inv in E as [(h1 & w2 & E2 & E)|(e & _ & [=])].
  assert (ready retention w2 ∧ p_retention h1 = retention ∧ p_anchor_prefix h1 = sp_anchor_prefix spec) as (K2 & Hret & Hpre).
  { destruct (is_pool h0); [|by injection E2 as <- <-].
    split; [eapply create_pool_moving, E2; done|]. by apply (create_pool_Ok retention) in E2 as [-> _]. }
  apply mbind_inv in E as [(a & w3 & E3 & E)|(e & _ & [=])]. injection E as <- <-.
  apply seal_first in E3; [|done..]. exists (encoded a). by rewrite <- Hpre.
Qed.
Lemma load_moving h s : moving (load keys h s).
Proof.
  intros w r w' Hr E. apply (load_spec keys retention) in E as [W _]; [|done]. split; [by eapply went_ready|apply W].
Qed.
Lemma first_hash_moving h tip s : moving (first_hash keys h tip s).
Proof. unfold first_hash. case_match; [apply advances_ret, _|]. step_by ltac:(apply load_moving). apply advances_ret, _. Qed.
Lemma open_moving prefix spec gen min eg log : moving (open keys prefix retention spec gen min eg log).
Proof.
  unfold open. step_by ltac:(apply (goes_moving _ None), goes_chain_tip). step_by ltac:(apply advances_lift, _).
  step_by ltac:(apply advances_ensure, _). step_by ltac:(apply load_moving). step_by ltac:(apply check_link_moving; exact _).
  step_by ltac:(apply first_hash_moving). step_by ltac:(apply advances_ensure, _). step_by ltac:(apply admit_disk_moving; exact _).
  apply advances_ret, _.
Qed.
Lemma open_first prefix spec gen min eg log w h w' : ready retention w →
  open keys prefix retention spec gen min eg log w = (Ok h, w') →
  first_anchor w' (sp_anchor_prefix spec) (Anchor.genesis h).
Proof.
  intros Hr E. unfold open in E. set (h0 := attach prefix retention spec gen) in *.
  apply mbind_inv in E as [(t & w1 & E1 & E)|(e & _ & [=])].
  assert (ready retention w1) as K1 by (eapply (goes_moving _ None), E1; [apply goes_chain_tip|done]).
  apply mbind_inv in E as [(sq & w1' & E2 & E)|(e & _ & [=])]. apply unwrap_inv in E2 as [-> _].
  apply mbind_inv in E as [(u & w1' & E2 & E)|(e & _ & [=])]. apply ensure_inv in E2 as [-> _].
  apply mbind_inv in E as [(tip & w2 & E2 & E)|(e & _ & [=])].
  apply (load_spec keys retention) in E2 as [W2 Hst]; [|done]. pose proof (went_ready _ _ _ _ W2 K1) as K2.
  apply mbind_inv in E as [(u' & w3 & E3 & E)|(e & _ & [=])].
  edestruct (check_link_moving keys retention) as [K3 M3]; [exact K2|exact E3|].
  apply mbind_inv in E as [(g & w4 & E4 & E)|(e & _ & [=])].
  apply (first_hash_spec keys retention) in E4 as [W4 Hg]; [|done|eapply later_stored; [exact M3|by apply Hst]].
  apply mbind_inv in E as [(u2 & w4' & E5 & E)|(e & _ & [=])]. apply ensure_inv in E5 as [-> _].
  apply mbind_inv in E as [(u3 & w5 & E5 & E)|(e & _ & [=])]. injection E as <- <-.
  edestruct (admit_disk_moving retention) as [_ M5]; [by eapply went_ready|exact E5|].
  destruct (Hg g eq_refl) as (a0 & Ha0 & ->). exists (encoded a0). split; [|done]. by eapply later_stored.
Qed.
End first.

(** ** The control pool *)
(** What the key pair of a seed promises. *)
Class SeedLaws `{Ed25519, !Ed25519Seed} := seed_laws seed sk pk uuid : from_seed seed = Some (sk, pk) → length uuid = 16%nat →
  KeyLaws {| signing_key := sk; public_key := pk; fs_uuid := uuid |}.
Lemma derive_laws `{Hkdf, Ed25519, !Ed25519Seed, !SeedLaws} master uuid keys :
  derive master uuid = Ok keys → length uuid = 16%nat → KeyLaws keys.
Proof.
  unfold derive. intros (? & _ & (seed & _ & ([sk pk] & Hs%ok_or_Ok & E)%bind_Ok)%bind_Ok)%bind_Ok Hl. injection E as <-.
  by eapply seed_laws.
Qed.
(** The value that names a filesystem's state: its place, the first anchor of
    its control pool and a sealed key. *)
Definition root_of `{!Codec Value, Blake3, Sha256} (c : MountConfig) (g sealed : bytes) : bytes :=
  state_root {| si_fs_uuid := fs_id c; si_roots_bucket := roots_bucket c; si_bucket_prefix := bucket_prefix c;
                genesis_anchor_hash := g; sealed_key_sha256 := sha256 sealed |}.
Section machine.
Context `{Blake3, !Blake3Laws, Ed25519, !Ed25519Seed, !SeedLaws, Hkdf, Roots B, !RootsLaws B, Host D, Nsm D, MasterKeySource D}.
Context `{X509, Coset, Base64Standard, !Codec Value, Sha256} (AWS_NITRO_ROOT_G1_PEM : bytes) (guid : Z) (log : bool).
Context (retention : Z).
Implicit Types s : Machine B D.
Definition mready s : Prop := ready retention (world s).
Definition mmoves s s' : Prop := moves (world s) (world s').
#[export] Instance mmoves_preorder : PreOrder mmoves.
Proof. split; [by intros s; unfold mmoves|]. intros s1 s2 s3 M1 M2. unfold mmoves. by etransitivity. Qed.
Notation moving := (advances mready mmoves).
Lemma on_world_inv {A} (m : M (World B) anchor_error A) s r s' : on_world m s = (r, s') → m (world s) = (r, world s').
Proof. intros (w & E & ->)%zoom_inv. exact E. Qed.
Lemma on_world_moving {A} (m : M (World B) anchor_error A) : advances (ready retention) moves m → moving (on_world m).
Proof. intros Hm s r s' Hs E%on_world_inv. by eapply Hm. Qed.
Lemma on_device_inv {A} (m : M D string A) s r s' : on_device (B:=B) m s = (r, s') →
  ∃ x d, m (device s) = (x, d) ∧ r = map_err Bail x ∧ s' = {| world := world s; device := d |}.
Proof. unfold on_device. intros (d & E & ->)%zoom_inv. destruct (m (device s)) as [x d'] eqn:Em. injection E as <- <-. by exists x, d'. Qed.
Lemma on_device_moving {A} (m : M D string A) : moving (on_device m).
Proof. intros s r s' Hs (x & d & _ & _ & ->)%on_device_inv. split; [exact Hs|]. unfold mmoves. cbn. reflexivity. Qed.
Lemma hoist_moving {A} (x : result string A) : moving (hoist x).
Proof. apply advances_lift, _. Qed.
Lemma bring_up_moving disk : moving (bring_up disk).
Proof. destruct disk; [step_by ltac:(apply on_device_moving)|]; apply advances_ret, _. Qed.
Lemma control_spec_moving master keys prefix p rs ds : moving (control_spec master keys prefix p rs ds).
Proof.
  unfold control_spec. step_by ltac:(apply advances_lift, _). destruct a as [offset n].
  step_by ltac:(destruct p; [|apply advances_ret, _]); [|apply advances_ret, _].
  unfold map_region. step_by ltac:(apply advances_lift, _). apply on_device_moving.
Qed.
Lemma control_spec_prefix master keys prefix p rs ds s spec s' :
  control_spec master keys prefix p rs ds s = (Ok spec, s') → sp_anchor_prefix spec = prefix +:+ "zfs/control/".
Proof. unfold control_spec. intros E. inv_bind E. destruct a as [offset n]. inv_bind E. by injection E as <- _. Qed.
Section keys.
Context (keys : KeyMaterial) `{!KeyLaws keys}.
Lemma claim_generation_moving prefix : moving (on_world (claim_generation keys prefix retention)).
Proof. by apply on_world_moving, claim_moving. Qed.
Lemma zfs_create_moving disk master prefix : moving (zfs_create guid disk keys master prefix retention).
Proof.
  unfold zfs_create. step_by ltac:(apply bring_up_moving). destruct a as [p ds].
  step_by ltac:(apply claim_generation_moving). step_by ltac:(apply control_spec_moving).
  step_by ltac:(by apply on_world_moving, create_moving). apply advances_ret, _.
Qed.
Lemma exists_raw_moving k : moving (on_world (exists_raw k)).
Proof. by apply on_world_moving, (goes_moving _ None), goes_exists_raw. Qed.
Lemma is_v1_moving prefix : moving (is_v1 prefix).
Proof. unfold is_v1. step_by ltac:(apply exists_raw_moving). destruct a; [apply advances_ret, _|apply exists_raw_moving]. Qed.
Lemma zfs_open_moving disk master prefix min : moving (zfs_open log disk keys master prefix retention min).
Proof.
  unfold zfs_open. step_by ltac:(apply bring_up_moving). destruct a as [p ds]. step_by ltac:(apply is_v1_moving).
  step_by ltac:(apply advances_ensure, _). step_by ltac:(apply claim_generation_moving).
  step_by ltac:(apply control_spec_moving). step_by ltac:(by apply on_world_moving, open_moving).
  step_by ltac:(unfold validate_catalog; step_by ltac:(apply on_device_moving); apply hoist_moving). apply advances_ret, _.
Qed.
Lemma zfs_create_first disk master prefix s z s' : mready s → zfs_create guid disk keys master prefix retention s = (Ok z, s') →
  first_anchor (world s') (prefix +:+ "zfs/control/") (Anchor.genesis (zf_control z)).
Proof.
  intros Hs E. unfold zfs_create in E.
  apply mbind_inv in E as [([p ds] & s1 & E1 & E)|(e & _ & [=])]. assert (mready s1) as K1 by (eapply bring_up_moving, E1; done).
  apply mbind_inv in E as [(g & s2 & E2 & E)|(e & _ & [=])]. assert (mready s2) as K2 by (eapply claim_generation_moving, E2; done).
  apply mbind_inv in E as [(spec & s3 & E3 & E)|(e & _ & [=])]. assert (mready s3) as K3 by (eapply control_spec_moving, E3; done).
  apply mbind_inv in E as [(h & s4 & E4 & E)|(e & _ & [=])]. injection E as <- <-. cbn.
  rewrite <- (control_spec_prefix _ _ _ _ _ _ _ _ _ E3). apply on_world_inv in E4. by eapply create_first.
Qed.
Lemma zfs_open_first disk master prefix min s z s' : mready s → zfs_open log disk keys master prefix retention min s = (Ok z, s') →
  first_anchor (world s') (prefix +:+ "zfs/control/") (Anchor.genesis (zf_control z)).
Proof.
  intros Hs E. unfold zfs_open in E.
  apply mbind_inv in E as [([p ds] & s1 & E1 & E)|(e & _ & [=])]. assert (mready s1) as K1 by (eapply bring_up_moving, E1; done).
  apply mbind_inv in E as [(v1 & s1' & E1' & E)|(e & _ & [=])]. assert (mready s1') as K1' by (eapply is_v1_moving, E1'; done).
  apply mbind_inv in E as [(u & s1'' & Eu & E)|(e & _ & [=])]. apply ensure_inv in Eu as [-> _].
  apply mbind_inv in E as [(g & s2 & E2 & E)|(e & _ & [=])]. assert (mready s2) as K2 by (eapply claim_generation_moving, E2; done).
  apply mbind_inv in E as [(spec & s3 & E3 & E)|(e & _ & [=])]. assert (mready s3) as K3 by (eapply control_spec_moving, E3; done).
  apply mbind_inv in E as [(h & s4 & E4 & E)|(e & _ & [=])].
  apply mbind_inv in E as [(u' & s5 & E5 & E)|(e & _ & [=])]. injection E as <- <-. cbn.
  assert (world s5 = world s4) as ->.
  { unfold validate_catalog in E5. inv_bind E5. apply on_device_inv in Hrun as (? & d & _ & _ & ->). by injection E5 as _ <-. }
  rewrite <- (control_spec_prefix _ _ _ _ _ _ _ _ _ E3). apply on_world_inv in E4. by eapply open_first.
Qed.
End keys.

(** ** The records *)
Lemma maybe_get_spec key s r s' : mready s → maybe_get key s = (r, s') → mready s' ∧ mmoves s s' ∧
  ∀ o, r = Ok o → match o with
                  | Some x => stored (roots (world s')) key = Some x
                  | None => stored (roots (world s)) key = None
                  end.
Proof.
  intros Hs E. unfold maybe_get in E.
  apply mbind_inv in E as [(x & s1 & E1 & E)|(e & E1 & ->)]; apply on_world_inv in E1; unfold attempt in E1;
    destruct (on_roots (roots_get key) (world s)) as [y w1] eqn:Eg; [|done]. injection E1 as <- ->.
  pose proof (on_roots_get_moving retention key _ _ _ Hs Eg) as [K1 M1]. apply on_roots_get in Eg as [_ Hx]; [|apply Hs].
  destruct y as [b|[]]; injection E as <- <-; split_and!; try done; by intros o [= <-].
Qed.
Lemma maybe_get_moving key : moving (maybe_get key).
Proof. intros s r s' Hs E. by apply maybe_get_spec in E as (? & ? & _). Qed.
Lemma trusted_now_spec s r s' : mready s → trusted_now s = (r, s') → mready s' ∧ mmoves s s' ∧
  ∀ n, r = Ok n → horizon ≤ n + retention.
Proof.
  unfold trusted_now, mready, mmoves. intros Hs E. apply on_world_inv in E. destruct Hs as [Hok Hl].
  destruct (world s) as [b [|c cl] cm ds di]; cbn in *; [injection E as <- Hw; rewrite <- Hw; split_and!; [done|apply later_refl|done]|].
  destruct c as [n|]; injection E as <- Hw; rewrite <- Hw; (split_and!; [split; [done|]|apply later_refl|]); try done.
  - intros m Hm. apply Hl. by right.
  - intros m [= <-]. apply Hl. by left.
  - intros m Hm. apply Hl. by right.
Qed.
Lemma trusted_now_moving : moving trusted_now.
Proof. intros s r s' Hs E. by apply trusted_now_spec in E as (? & ? & _). Qed.
Lemma put_new_spec key b now s r s' : horizon ≤ now + retention → mready s → put_new key b retention now s = (r, s') →
  mready s' ∧ mmoves s s' ∧ (r = Ok (Ok tt) → is_Some (stored (roots (world s')) key)).
Proof.
  intros Hh Hs E. unfold put_new in E. apply on_world_inv in E. unfold attempt in E.
  destruct (on_roots _ (world s)) as [x w1] eqn:Ep. injection E as <- ->.
  eapply (on_roots_put_spec retention) in Ep as (K1 & M1 & Hp); [|exact Hs|reflexivity|exact Hh].
  split_and!; [done..|]. intros [= ->]. by apply Hp.
Qed.
Lemma put_new_moving key b now : horizon ≤ now + retention → moving (put_new key b retention now).
Proof. intros Hh s r s' Hs E. by apply put_new_spec in E as (? & ? & _). Qed.

Context (c : MountConfig) (same_retention : root_retention c = retention) (uuid_length : length (fs_id c) = 16%nat).
Notation verified x t p root now := (verify_pair_record AWS_NITRO_ROOT_G1_PEM x t p root now = Ok tt).
Notation record p := (record_key p (bucket_prefix c) (fs_id c)).
Lemma record_pair_moving t p root now : horizon ≤ now + retention → moving (record_pair AWS_NITRO_ROOT_G1_PEM c t p root now).
Proof.
  intros Hh. unfold record_pair. rewrite same_retention. step_by ltac:(apply maybe_get_moving). destruct a as [x|].
  - step_by ltac:(apply hoist_moving). apply advances_ret, _.
  - step_by ltac:(apply on_device_moving). step_by ltac:(apply hoist_moving). step_by ltac:(by apply put_new_moving).
    step_by ltac:(destruct a1 as [|[]]; try (apply advances_fail, _); [apply advances_ret, _|]); [|apply advances_ret, _].
    step_by ltac:(apply maybe_get_moving). step_by ltac:(apply advances_lift, _). apply hoist_moving.
Qed.
Lemma hoist_Ok {A} (x : result string A) s a s' : hoist x s = (Ok a, s') → x = Ok a ∧ s' = s.
Proof. intros [E ->]%lift_inv. split; [|done]. destruct x; [by injection E as ->|done]. Qed.
Lemma record_pair_spec t p root now s first s' : horizon ≤ now + retention → mready s →
  record_pair AWS_NITRO_ROOT_G1_PEM c t p root now s = (Ok first, s') →
  is_Some (stored (roots (world s')) (record p)) ∧
  (first = false → ∃ x, stored (roots (world s')) (record p) = Some x ∧ verified x t p root now).
Proof.
  intros Hh Hs E. unfold record_pair in E. rewrite same_retention in E.
  apply mbind_inv in E as [(o & s1 & E1 & E)|(e & _ & [=])]. apply maybe_get_spec in E1 as (K1 & M1 & Ho); [|done].
  specialize (Ho o eq_refl). destruct o as [x|].
  - apply mbind_inv in E as [([] & s2 & E2 & E)|(e & _ & [=])]. apply hoist_Ok in E2 as [Hv ->]. injection E as <- <-.
    split; [by eexists|]. by exists x.
  - apply mbind_inv in E as [(d & s2 & E2 & E)|(e & _ & [=])].
    assert (mready s2) as K2 by (eapply on_device_moving, E2; done).
    apply mbind_inv in E as [([] & s3 & E3 & E)|(e & _ & [=])]. apply hoist_Ok in E3 as [_ ->].
    apply mbind_inv in E as [(r & s4 & E4 & E)|(e & _ & [=])]. apply put_new_spec in E4 as (K4 & M4 & Hp); [|done..].
    apply mbind_inv in E as [(u & s5 & E5 & E)|(e & _ & [=])]. injection E as <- <-. split; [|done].
    destruct r as [[]|[]]; try done; [injection E5 as _ <-; by apply Hp|].
    apply mbind_inv in E5 as [(o & s6 & E6 & E)|(e & _ & [=])]. apply maybe_get_spec in E6 as (_ & _ & Hx); [|done].
    specialize (Hx o eq_refl). apply mbind_inv in E as [(y & s7 & E7 & E)|(e & _ & [=])]. apply unwrap_inv in E7 as [-> E7].
    apply hoist_Ok in E as [_ ->]. destruct o; [by eexists|done].
Qed.

(** ** Booting *)
Notation run_genesis := (run_genesis AWS_NITRO_ROOT_G1_PEM guid).
Notation resume := (resume AWS_NITRO_ROOT_G1_PEM log).
Notation boot := (boot AWS_NITRO_ROOT_G1_PEM guid log).
Notation receipt_at := (receipt_key (bucket_prefix c) (fs_id c)).
Notation sealed_at := (sealed_key_key (bucket_prefix c) (fs_id c)).
Notation kept s k := (stored (roots (world s)) k).
Definition root_at (w : World B) (sealed root : bytes) : Prop :=
  ∃ g, first_anchor w (bucket_prefix c +:+ "zfs/control/") g ∧ root = root_of c g sealed.
Lemma kept_moves s s' k : mmoves s s' → is_Some (kept s k) → is_Some (kept s' k).
Proof. intros M [x Hx]. exists x. by eapply later_stored. Qed.
Lemma root_at_moves s s' sealed root : mmoves s s' → root_at (world s) sealed root → root_at (world s') sealed root.
Proof. intros M (g & Hg & ->). exists g. split; [by eapply first_anchor_moves|done]. Qed.
Lemma run_genesis_spec b p s bt s' : mready s → run_genesis c b p s = (Ok bt, s') →
  mode bt = Genesis ∧ booted_pair bt = p ∧ is_Some (kept s' receipt_at) ∧ is_Some (kept s' sealed_at) ∧
  is_Some (kept s' (record p)) ∧
  ∃ d sealed d', mint d = (Ok (master_secret bt, sealed), d') ∧ root_at (world s') sealed (booted_root bt).
Proof.
  intros Hs E. unfold Boot.run_genesis in E. rewrite same_retention in E.
  apply mbind_inv in E as [(now & s1 & E1 & E)|(e & _ & [=])]. apply trusted_now_spec in E1 as (K1 & _ & Hh); [|done].
  specialize (Hh now eq_refl).
  apply mbind_inv in E as [([m sealed] & s2 & E2 & E)|(e & _ & [=])].
  assert (mready s2) as K2 by (eapply on_device_moving, E2; done). apply on_device_inv in E2 as ([x|] & d & E2 & [= <-] & _).
  apply mbind_inv in E as [(r & s3 & E3 & E)|(e & _ & [=])]. apply put_new_spec in E3 as (K3 & _ & P3); [|done..].
  apply mbind_inv in E as [([] & s3' & Er & E)|(e & _ & [=])]. apply lift_inv in Er as [Er ->].
  destruct r as [[]|]; [|done]. specialize (P3 eq_refl).
  apply mbind_inv in E as [(keys & s3' & Ek & E)|(e & _ & [=])]. apply lift_inv in Ek as [Ek ->].
  destruct (derive m (fs_id c)) as [keys'|] eqn:Ed; [injection Ek as ->|done].
  pose proof (derive_laws _ _ _ Ed uuid_length) as Hlaws.
  apply mbind_inv in E as [(z & s4 & E4 & E)|(e & _ & [=])].
  edestruct zfs_create_moving as [K4 M4]; [exact Hlaws|exact K3|exact E4|].
  apply (zfs_create_first keys) in E4 as G4; [|done].
  apply mbind_inv in E as [(doc & s5 & E5 & E)|(e & _ & [=])]. edestruct @on_device_moving as [K5 M5]; [exact K4|exact E5|].
  apply mbind_inv in E as [(r & s6 & E6 & E)|(e & _ & [=])]. apply put_new_spec in E6 as (K6 & M6 & P6); [|done..].
  apply mbind_inv in E as [([] & s6' & Er2 & E)|(e & _ & [=])]. apply lift_inv in Er2 as [Er2 ->].
  destruct r as [[]|]; [|done]. specialize (P6 eq_refl).
  apply mbind_inv in E as [(f & s7 & E7 & E)|(e & _ & [=])].
  edestruct record_pair_moving as [_ M7]; [exact Hh|exact K6|exact E7|]. apply record_pair_spec in E7 as [P7 _]; [|done..].
  injection E as <- <-. split_and!; [done|done|by eapply kept_moves| |done|].
  - do 4 (eapply kept_moves; [eassumption|]). done.
  - exists (device s1), sealed, d. split; [exact E2|].
    do 3 (eapply root_at_moves; [eassumption|]). exists (Anchor.genesis (zf_control z)). by split.
Qed.
Lemma resume_spec b p receipt sealed s bt s' : mready s → resume c b p receipt sealed s = (Ok bt, s') →
  mode bt ≠ Genesis ∧ booted_pair bt = p ∧ mmoves s s' ∧ is_Some (kept s' (record p)) ∧
  (∃ d d', open_key sealed d = (Ok (master_secret bt), d')) ∧ root_at (world s') sealed (booted_root bt) ∧
  ∃ now, verify_origin AWS_NITRO_ROOT_G1_PEM receipt (bc_trust b) (booted_root bt) now = Ok tt ∧
    (mode bt = Resume → ∃ x, kept s' (record p) = Some x ∧ verified x (bc_trust b) p (booted_root bt) now).
Proof.
  intros Hs E. unfold Boot.resume in E. rewrite same_retention in E.
  apply mbind_inv in E as [(m & s1 & E1 & E)|(e & _ & [=])].
  edestruct @on_device_moving as [K1 M1]; [exact Hs|exact E1|]. apply on_device_inv in E1 as ([x|] & d & E1 & [= <-] & _).
  apply mbind_inv in E as [(keys & s1' & Ek & E)|(e & _ & [=])]. apply lift_inv in Ek as [Ek ->].
  destruct (derive m (fs_id c)) as [keys'|] eqn:Ed; [injection Ek as ->|done].
  pose proof (derive_laws _ _ _ Ed uuid_length) as Hlaws.
  apply mbind_inv in E as [(z & s4 & E4 & E)|(e & _ & [=])].
  edestruct zfs_open_moving as [K4 M4]; [exact Hlaws|exact K1|exact E4|].
  apply (zfs_open_first keys) in E4 as G4; [|done].
  apply mbind_inv in E as [(now & s5 & E5 & E)|(e & _ & [=])]. apply trusted_now_spec in E5 as (K5 & M5 & Hh); [|done].
  specialize (Hh now eq_refl).
  apply mbind_inv in E as [([] & s5' & Er & E)|(e & _ & [=])]. apply hoist_Ok in Er as [Hv ->].
  apply mbind_inv in E as [(f & s7 & E7 & E)|(e & _ & [=])].
  edestruct record_pair_moving as [_ M7]; [exact Hh|exact K5|exact E7|]. apply record_pair_spec in E7 as [P7 V7]; [|done..].
  injection E as <- <-. cbn. split_and!.
  - by destruct f.
  - done.
  - do 3 (etransitivity; [eassumption|]). done.
  - done.
  - by exists (device s), d.
  - do 2 (eapply root_at_moves; [eassumption|]). exists (Anchor.genesis (zf_control z)). by split.
  - exists now. split; [done|]. intros Hm. apply V7. by destruct f.
Qed.
Lemma boot_moving b : moving (boot c b).
Proof.
  unfold Boot.boot. step_by ltac:(apply on_device_moving). step_by ltac:(apply maybe_get_moving).
  step_by ltac:(apply maybe_get_moving). destruct a0 as [receipt|], a1 as [sealed|]; try (apply advances_fail, _).
  - unfold Boot.resume. rewrite same_retention. step_by ltac:(apply on_device_moving).
    apply advances_bind_run; [exact _|apply advances_lift, _|]. intros s keys s1 Hs Ek. apply lift_inv in Ek as [Ek _].
    destruct (derive _ _) as [keys'|] eqn:Ed; [injection Ek as ->|done]. pose proof (derive_laws _ _ _ Ed uuid_length) as Hk.
    step_by ltac:(by apply zfs_open_moving). apply advances_bind_run; [exact _|apply trusted_now_moving|].
    intros s2 now s3 Hs2 En. apply trusted_now_spec in En as (_ & _ & Hn); [|done].
    step_by ltac:(apply hoist_moving). step_by ltac:(apply record_pair_moving; by apply Hn). apply advances_ret, _.
  - unfold Boot.run_genesis. rewrite same_retention. apply advances_bind_run; [exact _|apply trusted_now_moving|].
    intros s2 now s3 Hs2 En. apply trusted_now_spec in En as (_ & _ & Hn); [|done]. specialize (Hn now eq_refl).
    step_by ltac:(apply on_device_moving). destruct a0 as [m sealed]. step_by ltac:(by apply put_new_moving).
    step_by ltac:(apply advances_lift, _). apply advances_bind_run; [exact _|apply advances_lift, _|].
    intros s keys s1 Hs Ek. apply lift_inv in Ek as [Ek _].
    destruct (derive _ _) as [keys'|] eqn:Ed; [injection Ek as ->|done]. pose proof (derive_laws _ _ _ Ed uuid_length) as Hk.
    step_by ltac:(by apply zfs_create_moving). step_by ltac:(apply on_device_moving). step_by ltac:(by apply put_new_moving).
    step_by ltac:(apply advances_lift, _). step_by ltac:(by apply record_pair_moving). apply advances_ret, _.
Qed.
(** C6: what a boot that succeeds rests on.  It has read its own runtime and guest
    before anything else, and leaves a receipt, a sealed key and a record of that
    pair in the store.  It is a genesis only if the store kept neither receipt
    nor key, and then serves the secret it minted; otherwise the receipt and the
    key are the ones the store keeps, the secret is what the key source opened
    of that key, the receipt verifies and names the very state that was loaded,
    by its first anchor, its key and its place, and a pair that is not new has a
    record that verifies for it and this state. *)
Theorem boot_spec b s bt s' : mready s → boot c b s = (Ok bt, s') →
  (∃ d, pair_read (device s) = (Ok (booted_pair bt), d)) ∧ is_Some (kept s' (record (booted_pair bt))) ∧
  is_Some (kept s' receipt_at) ∧ is_Some (kept s' sealed_at) ∧
  match mode bt with
  | Genesis => kept s receipt_at = None ∧ kept s sealed_at = None ∧
      ∃ d sealed d', mint d = (Ok (master_secret bt, sealed), d') ∧ root_at (world s') sealed (booted_root bt)
  | m => ∃ receipt sealed now, kept s' receipt_at = Some receipt ∧ kept s' sealed_at = Some sealed ∧
      (∃ d d', open_key sealed d = (Ok (master_secret bt), d')) ∧ root_at (world s') sealed (booted_root bt) ∧
      verify_origin AWS_NITRO_ROOT_G1_PEM receipt (bc_trust b) (booted_root bt) now = Ok tt ∧
      (m = Resume → ∃ x, kept s' (record (booted_pair bt)) = Some x ∧
        verified x (bc_trust b) (booted_pair bt) (booted_root bt) now)
  end.
Proof.
  intros Hs E. unfold Boot.boot in E.
  apply mbind_inv in E as [(p & s0 & E0 & E)|(e & _ & [=])].
  edestruct @on_device_moving as [K0 M0]; [exact Hs|exact E0|]. apply on_device_inv in E0 as ([x|] & d & E0 & [= <-] & ->).
  apply mbind_inv in E as [(r & s1 & E1 & E)|(e & _ & [=])]. apply maybe_get_spec in E1 as (K1 & M1 & Hr); [|done].
  specialize (Hr r eq_refl).
  apply mbind_inv in E as [(k & s2 & E2 & E)|(e & _ & [=])]. apply maybe_get_spec in E2 as (K2 & M2 & Hk); [|done].
  specialize (Hk k eq_refl).
  destruct r as [receipt|], k as [sealed|]; try done.
  - apply resume_spec in E as (Hm & -> & M & Hrec & Hopen & Hroot & now & Hv & Hres); [|done].
    assert (kept s' receipt_at = Some receipt ∧ kept s' sealed_at = Some sealed) as [Kr Kk].
    { split; (eapply later_stored; [exact M|]); [|done]. by eapply later_stored. }
    split_and!; [by exists d|done|by rewrite Kr|by rewrite Kk|].
    destruct (mode bt); [done|..]; exists receipt, sealed, now; split_and!; done.
  - apply run_genesis_spec in E as (-> & -> & ? & ? & ? & Hmint); [|done].
    split_and!; [by exists d|done|done|done|done| |done].
    destruct (kept s sealed_at) as [x|] eqn:Ex; [|done]. by rewrite (later_stored _ _ _ _ M1 Ex) in Hk.
Qed.
End machine.

(** ** One history *)
Section agree.
Context `{Blake3, !Blake3Laws, Ed25519, !Ed25519Seed, !SeedLaws, Hkdf, Roots B, !RootsLaws B, Host D, Nsm D, MasterKeySource D}.
Context `{X509, Coset, Base64Standard, !Codec Value, Sha256} (pem : bytes).
(** Two configurations of one filesystem at one place. *)
Definition same_place (c c' : MountConfig) : Prop :=
  roots_bucket c = roots_bucket c' ∧ bucket_prefix c = bucket_prefix c' ∧ fs_id c = fs_id c' ∧ length (fs_id c) = 16%nat.
Definition boots (c : MountConfig) (bt : Booted) (s s' : Machine B D) : Prop :=
  mready (root_retention c) s ∧ ∃ b guid log, boot pem guid log c b s = (Ok bt, s').
(** What holds of the state root of any boot, seen from a later store. *)
Lemma boots_root c bt s s' w : length (fs_id c) = 16%nat → boots c bt s s' → moves (world s') w →
  ∃ sealed, root_at c w sealed (booted_root bt) ∧
    (mode bt ≠ Genesis → stored (roots w) (sealed_key_key (bucket_prefix c) (fs_id c)) = Some sealed).
Proof.
  intros Hl [Hs (b & guid & log & E)] M. eapply boot_spec in E as (_ & _ & _ & _ & E); [|done..].
  assert (∀ sealed root, root_at c (world s') sealed root → root_at c w sealed root) as Hm.
  { intros sealed root (g & Hg & ->). exists g. split; [by eapply first_anchor_moves|done]. }
  destruct (mode bt).
  - destruct E as (_ & _ & _ & sealed & _ & _ & Hr). exists sealed. split; [by apply Hm|done].
  - destruct E as (_ & sealed & _ & _ & Hk & _ & Hr & _). exists sealed. split; [by apply Hm|]. intros _. by eapply later_stored.
  - destruct E as (_ & sealed & _ & _ & Hk & _ & Hr & _). exists sealed. split; [by apply Hm|]. intros _. by eapply later_stored.
Qed.
(** C5: one history.  Of all the boots of one filesystem that succeed, on whatever
    machines, one after the other or at once, and whatever is done to the store
    and the disk between and during them short of undoing a lock: none that
    starts after another has ended is a genesis; all that are not a genesis
    found the same state; and all, a genesis included, are on one chain, with the
    same first anchor. *)
Theorem boots_agree c1 c2 bt1 bt2 s1 s1' s2 s2' w : same_place c1 c2 →
  boots c1 bt1 s1 s1' → boots c2 bt2 s2 s2' → moves (world s1') w → moves (world s2') w →
  (moves (world s1') (world s2) → mode bt2 ≠ Genesis) ∧
  (mode bt1 ≠ Genesis → mode bt2 ≠ Genesis → booted_root bt1 = booted_root bt2) ∧
  ∃ g k1 k2, first_anchor w (bucket_prefix c1 +:+ "zfs/control/") g ∧
    booted_root bt1 = root_of c1 g k1 ∧ booted_root bt2 = root_of c1 g k2.
Proof.
  intros (Hb & Hp & Hf & Hl) B1 B2 M1 M2. assert (length (fs_id c2) = 16%nat) as Hl2 by by rewrite <- Hf.
  destruct (boots_root _ _ _ _ _ Hl B1 M1) as (k1 & (g1 & Hg1 & R1) & S1).
  destruct (boots_root _ _ _ _ _ Hl2 B2 M2) as (k2 & (g2 & Hg2 & R2) & S2). unfold root_of in R2. rewrite <- Hb, <- Hp, <- Hf in R2. rewrite <- Hp in Hg2. rewrite <- Hp, <- Hf in S2.
  assert (g2 = g1) as ->.
  { destruct Hg1 as (x & Hx & ->), Hg2 as (y & Hy & ->). by assert (x = y) as -> by congruence. }
  split_and!.
  - intros M12 Hm. destruct B1 as [Hs1 (b & guid & log & E1)], B2 as [Hs2 (b' & guid' & log' & E2)].
    eapply boot_spec in E1 as (_ & _ & [x Hx] & _); [|done..]. eapply boot_spec in E2 as (_ & _ & _ & _ & E2); [|done..].
    rewrite Hm in E2. destruct E2 as (Hn & _). rewrite <- Hp, <- Hf in Hn. by rewrite (later_stored _ _ _ _ M12 Hx) in Hn.
  - intros Hm1 Hm2. specialize (S1 Hm1). specialize (S2 Hm2). rewrite R1, R2. by assert (k1 = k2) as -> by congruence.
  - by exists g1, k1, k2.
Qed.
End agree.

(** ** Boot: the properties at concrete machines

    A filesystem is made by one enclave and resumed by the next; a host that
    hides a sealed key while a genesis runs. *)
From S2P Require Import Concrete Text Http Backend BackendProps Attestation AttestationWitness Attest Storage Nsm Keys Anchor AnchorProps MemoryRoots PoolProps Boot.

Module BootWitness.
#[local] Existing Instances AttestationWitness.value_codec AttestationWitness.x509 AttestationWitness.coset
  AttestationWitness.base64.
(** A stand-in for the hashes that tells concrete inputs apart. *)
Definition poly (b : bytes) : bytes := be_bytes 32 (foldl (λ h x, (h * 257 + byteZ x + 1) mod 2147483647) 7 b).
#[local] Instance sha : Sha256 := poly.
#[local] Instance toy_blake3 : Blake3 := poly.
Lemma poly_length b : length (poly b) = 32%nat.
Proof. apply be_bytes_length. Qed.
#[local] Instance toy_blake3_laws : Blake3Laws := poly_length.
Definition tag (k m : bytes) : bytes := poly k ++ poly m.
#[local] Instance toy_ed25519 : Ed25519 :=
  {| SigningKey := bytes; ed25519_sign := tag; ed25519_verify pk m sig := bool_decide (sig = tag pk m) |}.
#[local] Instance toy_seed : Ed25519Seed := λ seed, if decide (length seed = 32%nat) then Some (seed, seed) else None.
#[local] Instance toy_hkdf : Hkdf := λ secret salt info n, Some (take n (poly (secret ++ salt ++ info) ++ replicate n Byte.x00)).
#[local] Instance toy_seed_laws : SeedLaws.
Proof.
  intros seed sk pk uuid E Hu. unfold from_seed, toy_seed in E. case_decide as Hl; [|done]. injection E as <- <-.
  split; [|intros m; by apply bool_decide_eq_true|exact Hl|exact Hu].
  intros m. change (length (tag seed m) = 64%nat). unfold tag. by rewrite length_app, !poly_length.
Qed.
Definition siphash (n : Z) (_ : bytes) : Z := n.
#[local] Instance roots1 : Roots Shared := shared_roots siphash 10.
Lemma before_end : 10 < 1000.
Proof. reflexivity. Qed.
#[local] Instance laws1 : RootsLaws Shared := shared_laws siphash 10 1000 before_end.

(** An enclave: its secret, its registers, and documents that its module signs. *)
Record Enclave := { secret : bytes; guest_register : Pcr }.
Definition signed (d : Enclave) (r : AttestationRequest) : bytes :=
  Byte.xd2 :: encode_payload
    {| module_id := "i-1"; timestamp_ms := 1000; digest := "SHA384";
       Attestation.pcrs := {[ 0 := replicate 48 Byte.x10; 16 := value (guest_register d) ]};
       certificate := [Byte.x03]; cabundle := [[Byte.x01]; [Byte.x02]]; Attestation.public_key := None;
       Attestation.user_data := ar_user_data r; Attestation.nonce := None |}.
#[local] Instance enclave_nsm : Nsm Enclave := {|
  get_random n := fail "no entropy";
  attest r := λ d, (Ok (signed d r), d);
  describe_pcr i := λ d, (Ok (if i =? 0 then {| Nsm.locked := true; value := replicate 48 Byte.x10 |} else guest_register d), d);
  extend_pcr _ _ := fail "the PCR is read-only";
  lock_pcr _ := fail "the PCR is read-only" |}.
#[local] Instance enclave_source : MasterKeySource Enclave :=
  {| mint := d ← get; static_mint (secret d); open_key := static_open |}.
#[local] Instance enclave_host : Host Enclave :=
  {| bring_up_disk := mret (DEFAULT_REGION_MIB * SECTORS_PER_MIB * 4); dmsetup _ _ := mret tt; read_entries := mret [] |}.
Definition enclave (k : byte) : Enclave :=
  {| secret := replicate 32 k; guest_register := {| Nsm.locked := true; value := replicate 48 Byte.x2a |} |}.

Definition config : MountConfig :=
  {| roots_bucket := "roots"; bucket_prefix := "p/"; fs_id := replicate 16 Byte.x0f; min_root_seq := None; root_retention := 2000 |}.
Definition required : BootConfig := {| bc_trust := Required; bc_disk := Parent |}.
Definition world_of (r : Shared) (z : option Zpool) (n : byte) : World Shared :=
  {| roots := r; clocks := replicate 12 (Some 10); cmds := replicate 30 (CmdOk 1);
     draws := [Some (replicate 32 n)]; disk := z |}.
Definition machine (k : byte) (r : Shared) (z : option Zpool) (n : byte) : Machine Shared Enclave :=
  {| world := world_of r z n; device := enclave k |}.
Definition root_pem : bytes := [Byte.x01].
Definition run k r z n := boot root_pem 77 true config required (machine k r z n).
Lemma machine_ready k r z n : roots_ok r → mready (root_retention config) (machine k r z n).
Proof.
  intros Hr. split; [exact Hr|]. intros now Hn. cbn in Hn.
  repeat (apply elem_of_cons in Hn as [[= ->]|Hn]; [by vm_compute|]). by apply not_elem_of_nil in Hn.
Qed.
Definition booted {A} (x : result anchor_error Booted * A) (other : Booted) : Booted :=
  match x.1 with Ok b => b | Err _ => other end.
Definition nobody : Booted :=
  {| mode := Genesis; zfs := assemble true 0 0 0 (attach "" 0 {| sp_kind := Control; sp_pool_id := []; sp_tenant_id := [];
       sp_anchor_prefix := ""; sp_is_pool := true |} 0);
     booted_keys := {| signing_key := []; Anchor.public_key := []; fs_uuid := [] |}; booted_root := [];
     booted_pair := {| pcr0 := []; pcr16 := [] |}; master_secret := [] |}.

(** ** A genesis, and a boot after it *)
Definition fresh_store : Shared := {| mem := memory_new; others := [] |}.
Definition made := run Byte.x0a fresh_store None Byte.x07.
Definition made_disk : option Zpool := disk (world made.2).
(** The host deletes what it can and the disk has gained two groups. *)
Definition meddle (r : Shared) : Shared :=
  {| mem := mem r;
     others := [[CDelete 20 "p/origin/0f0f0f0f0f0f0f0f0f0f0f0f0f0f0f0f.receipt"];
                [CDelete 20 "p/zfs/control/anchors/0000000000000000"]] |}.
Lemma meddle_ok r : roots_ok r → roots_ok (meddle r).
Proof. intros [Hl _]. split; [exact Hl|]. repeat constructor; vm_compute; reflexivity. Qed.
Lemma meddle_later r : later r (meddle r).
Proof. by intros k x. Qed.
Definition made_store : Shared := roots (world made.2).
Definition meddled : Shared := meddle made_store.
Definition again := run Byte.x0b meddled made_disk Byte.x08.
Example made_mode : mode <$> made.1 = Ok Genesis.
Proof. vm_compute. reflexivity. Qed.
Example again_mode : mode <$> again.1 = Ok Resume.
Proof. vm_compute. reflexivity. Qed.
Lemma run_booted k r z n : is_ok (run k r z n).1 = true →
  run k r z n = (Ok (booted (run k r z n) nobody), (run k r z n).2).
Proof. unfold booted. destruct (run k r z n) as [[b|e] s]; [done|by intros E]. Qed.
Lemma fresh_ok : roots_ok fresh_store.
Proof. split; [by intros k v|constructor]. Qed.
Lemma mode_ok (x : result anchor_error Booted) m : mode <$> x = Ok m → is_ok x = true.
Proof. by destruct x. Qed.
Lemma made_ok : is_ok (run Byte.x0a fresh_store None Byte.x07).1 = true.
Proof. exact (mode_ok _ _ made_mode). Qed.
Lemma again_ok : is_ok (run Byte.x0b meddled made_disk Byte.x08).1 = true.
Proof. exact (mode_ok _ _ again_mode). Qed.
Lemma made_booted : run Byte.x0a fresh_store None Byte.x07 = (Ok (booted made nobody), made.2).
Proof. exact (run_booted Byte.x0a fresh_store None Byte.x07 made_ok). Qed.
Lemma again_booted : run Byte.x0b meddled made_disk Byte.x08 = (Ok (booted again nobody), again.2).
Proof. exact (run_booted Byte.x0b meddled made_disk Byte.x08 again_ok). Qed.
Lemma meddled_ok : roots_ok meddled.
Proof.
  apply meddle_ok. exact (proj1 (proj1 (boot_moving root_pem 77 true (root_retention config) config eq_refl eq_refl required
    _ _ _ (machine_ready Byte.x0a fresh_store None Byte.x07 fresh_ok) made_booted))).
Qed.
Lemma again_mode_of : mode (booted again nobody) = Resume.
Proof. pose proof again_mode as E. unfold booted. destruct again.1 as [b|e]; [by injection E|done]. Qed.
Lemma boot_spec_witness : ∃ receipt sealed now,
  verify_origin root_pem receipt Required (booted_root (booted again nobody)) now = Ok tt ∧
  stored (roots (world again.2)) "p/origin/0f0f0f0f0f0f0f0f0f0f0f0f0f0f0f0f.key" = Some sealed ∧
  root_at config (world again.2) sealed (booted_root (booted again nobody)).
Proof.
  pose proof (boot_spec root_pem 77 true (root_retention config) config eq_refl eq_refl required _ _ _
    (machine_ready Byte.x0b meddled made_disk Byte.x08 meddled_ok) again_booted) as (_ & _ & _ & _ & Hm).
  rewrite again_mode_of in Hm. destruct Hm as (receipt & sealed & now & _ & Hk & _ & Hr & Hv & _).
  exists receipt, sealed, now. exact (conj Hv (conj Hk Hr)).
Defined.
Lemma chain_moves r k z n s : mmoves (machine k (meddle r) z n) s → later r (roots (world s)).
Proof. intros M. exact (later_trans _ _ _ (meddle_later r) M). Qed.
Lemma boots_agree_witness : mode (booted again nobody) ≠ Genesis ∧
  ∃ g k1 k2, first_anchor (world again.2) "p/zfs/control/" g ∧
    booted_root (booted made nobody) = root_of config g k1 ∧ booted_root (booted again nobody) = root_of config g k2.
Proof.
  assert (moves (world made.2) (world (machine Byte.x0b meddled made_disk Byte.x08))) as M1 by exact (meddle_later made_store).
  pose proof (boot_moving root_pem 77 true (root_retention config) config eq_refl eq_refl required
    _ _ _ (machine_ready Byte.x0b meddled made_disk Byte.x08 meddled_ok) again_booted) as [_ M2].
  destruct (boots_agree root_pem config config (booted made nobody) (booted again nobody)
      (machine Byte.x0a fresh_store None Byte.x07) made.2 (machine Byte.x0b meddled made_disk Byte.x08) again.2 (world again.2))
    as (Hm & _ & Hg).
  - split; [reflexivity|]. split; [reflexivity|]. split; reflexivity.
  - split; [apply machine_ready, fresh_ok|]. exists required, 77, true. exact made_booted.
  - split; [apply machine_ready, meddled_ok|]. exists required, 77, true. exact again_booted.
  - unfold moves. fold made_store. exact (chain_moves made_store Byte.x0b made_disk Byte.x08 again.2 M2).
  - apply later_refl.
  - split; [exact (Hm M1)|exact Hg].
Defined.

(** ** A sealed key that is hidden while a genesis runs *)
Definition sealed_object : string := "p/origin/0f0f0f0f0f0f0f0f0f0f0f0f0f0f0f0f.key".
(** Another enclave's genesis stores its key and dies; the host hides that. *)
Definition racing : Shared :=
  {| mem := memory_new;
     others := [[]; []; [CPutIfNotExists 10 (Boot.locked sealed_object (UNSEALED_MAGIC ++ replicate 32 Byte.x0c) 2000 10);
                         CDelete 20 sealed_object]] |}.
Definition orphan := run Byte.x0a racing None Byte.x07.
Definition afterwards := run Byte.x0a (roots (world orphan.2)) (disk (world orphan.2)) Byte.x08.
(** The genesis succeeds and would be served, but what it sealed is not what the
    store retains: the condition on the write sees the marker, and nothing reads
    the key back.  Every later boot opens the other key and is refused. *)
Lemma genesis_not_read_back :
  (mode <$> orphan.1 = Ok Genesis) ∧
  body <$> retained sealed_object (mem (roots (world orphan.2))) = Some (UNSEALED_MAGIC ++ replicate 32 Byte.x0c) ∧
  mode <$> afterwards.1 = Err (FromStore (SE_Integrity "zfs anchor: signed by an unexpected key")).
Proof. refine (conj _ (conj _ _)); vm_compute; reflexivity. Qed.
End BootWitness.
