(* ===== verification/KeysProps.v ===== *)
(** * The master secret: what a released one has been through *)
From S2P Require Import Prelude Text Http Attestation Attest Policy PolicyProps Ber Nsm Keys.

(** ** The pointer's encoding *)
Section pointer.
Context `{!Codec Value, !CodecLaws Value}.
Lemma read_context_entries (l : list (string * string)) (c : EncryptionContext) : NoDup l.*1 →
  read_context ((λ kv, (Text kv.1, Text kv.2)) <$> l) c = Ok (list_to_map l ∪ c).
Proof.
  revert c. induction l as [|[k v] l IH]; intros c Hn; [cbn; by rewrite (left_id_L ∅ (∪))|].
  rewrite fmap_cons in Hn. apply NoDup_cons in Hn as [Hk Hn]. cbn. rewrite IH by done. f_equal. by apply list_to_map_insert.
Qed.
(** A key pointer written to the store reads back as it was. *)
Lemma pointer_reads_back p : length (ciphertext_sha256 p) = 32%nat → decode_pointer (encode_pointer p) = Ok p.
Proof.
  intros Hl. unfold decode_pointer, encode_pointer. rewrite from_to_vec. cbn -[btree_iter read_context].
  rewrite read_context_entries, (right_id_L ∅ (∪)), list_to_map_btree by apply NoDup_btree_iter_fst. cbn.
  unfold len. rewrite Hl. cbn. by destruct p.
Qed.
End pointer.

(** ** Release by KMS *)
Section kms.
Context `{Nsm D, Aws D, JsonText, Cms, RecipientCrypto, !Codec Value, !CodecLaws Value, Sha256, !Sha256Laws,
  Base64Standard, Base64Encode} (generate : M D string RecipientKey).
Notation kms_mint := (kms_mint generate).
Notation kms_open := (kms_open generate).
(** What a run established of a key before it used it: in this enclave, under
    the policy the service then had for it, the key passed every check. *)
Definition key_checked (key_id : string) (s s' : D) : Prop :=
  ∃ pair s0 meta s1 policy s2, pair_read s = (Ok pair, s0) ∧ describe_key key_id s0 = (Ok (Some meta), s1) ∧
    check_key meta = Ok tt ∧ get_key_policy key_id s1 = (Ok (Some policy), s2) ∧
    check_policy policy (pcr0 pair) (pcr16 pair) = Ok tt ∧ list_grants key_id s2 = (Ok ([], false), s').
Lemma verify_key_Ok key_id s u s' : verify_key key_id s = (Ok u, s') → key_checked key_id s s'.
Proof.
  intros E. unfold verify_key in E.
  apply mbind_inv in E as [(pair & s0 & E0 & E)|(e & _ & [=])].
  apply mbind_inv in E as [(described & s1 & E1 & E)|(e & _ & [=])].
  apply mbind_inv in E as [(meta & s1' & Em & E)|(e & _ & [=])]. apply unwrap_inv in Em as [-> Em].
  destruct described as [m|]; [injection Em as ->|done].
  apply mbind_inv in E as [([] & s1' & Ek & E)|(e & _ & [=])]. apply lift_inv in Ek as [Ek ->].
  apply mbind_inv in E as [(policy & s2 & E2 & E)|(e & _ & [=])].
  apply mbind_inv in E as [(p & s2' & Ep & E)|(e & _ & [=])]. apply unwrap_inv in Ep as [-> Ep].
  destruct policy as [p'|]; [injection Ep as ->|done].
  apply mbind_inv in E as [([] & s2' & Ec & E)|(e & _ & [=])]. apply lift_inv in Ec as [Ec ->].
  apply mbind_inv in E as [([grants truncated] & s3 & E3 & E)|(e & _ & [=])]. apply ensure_inv in E as [-> E].
  destruct truncated; [by rewrite andb_false_r in E|]. case_bool_decide as Hg; [|done]. subst grants.
  exists pair, s0, m, s1, p', s2. by split_and!.
Qed.
(** A secret that a recipient's answer gives. *)
Lemma secret_for_Ok key o m : secret_for key o = Ok m → ∃ c, o = Some c ∧ unwrap_ciphertext key c = Ok m.
Proof.
  intros (c & Hc%ok_or_Ok & (b & Hb & E)%bind_Ok)%bind_Ok. exists c. split; [done|]. unfold to_secret in E.
  apply bind_Ok in E as (_ & _ & [= <-]). done.
Qed.
Lemma recipient_Ok key doc s s' : recipient generate s = (Ok (key, doc), s') →
  ∃ s1, attest {| ar_user_data := None; ar_nonce := None; ar_public_key := Some (public_key_der key) |} s1 = (Ok doc, s').
Proof.
  unfold recipient. intros E. apply mbind_inv in E as [(k & s1 & E1 & E)|(e & _ & [=])].
  apply mbind_inv in E as [(d & s2 & E2 & E)|(e & _ & [=])]. injection E as -> -> <-. by exists s1.
Qed.
(** The steps of a mint that succeeds. *)
Lemma mint_Ok config s m sealed s' : kms_mint config s = (Ok (m, sealed), s') →
  ∃ s1 key doc s2 ct cfr s3, key_checked (kc_key_id config) s s1 ∧ recipient generate s1 = (Ok (key, doc), s2) ∧
    generate_data_key (kc_key_id config) MASTER_SECRET_LEN (config_context config) doc s2 = (Ok (Some ct, Some cfr), s3) ∧
    unwrap_ciphertext key cfr = Ok m ∧
    put_parameter (kc_parameter config) (base64_encode ct) false s3 = (Ok tt, s') ∧
    sealed = encode_pointer {| kp_parameter := kc_parameter config; kp_key_id := kc_key_id config;
      kp_context := config_context config; ciphertext_sha256 := sha256 ct |}.
Proof.
  intros E. unfold Keys.kms_mint in E.
  apply mbind_inv in E as [(u & s1 & E1 & E)|(e & _ & [=])]. apply verify_key_Ok in E1.
  apply mbind_inv in E as [([key doc] & s2 & E2 & E)|(e & _ & [=])].
  apply mbind_inv in E as [([blob cfr] & s3 & E3 & E)|(e & _ & [=])].
  apply mbind_inv in E as [(ct & s3' & Eb & E)|(e & _ & [=])]. apply unwrap_inv in Eb as [-> Eb].
  destruct blob as [ct'|]; [injection Eb as ->|done].
  apply mbind_inv in E as [(m' & s3' & Es & E)|(e & _ & [=])]. apply lift_inv in Es as [Es ->].
  apply secret_for_Ok in Es as (c & -> & Hu).
  apply mbind_inv in E as [([] & s4 & E4 & E)|(e & _ & [=])]. injection E as -> <- <-.
  exists s1, key, doc, s2, ct', c, s3. by split_and!.
Qed.
(** The steps of an open that succeeds. *)
Lemma open_Ok config sealed s m s' : kms_open config sealed s = (Ok m, s') →
  ∃ p s1 key doc s2 s3 ct cfr, decode_pointer sealed = Ok p ∧ kp_context p = config_context config ∧
    key_checked (kp_key_id p) s s1 ∧ read_ciphertext p s1 = (Ok ct, s2) ∧
    sha256 ct = ciphertext_sha256 p ∧ recipient generate s2 = (Ok (key, doc), s3) ∧
    decrypt ct (kp_key_id p) (kp_context p) doc s3 = (Ok (Some cfr), s') ∧ unwrap_ciphertext key cfr = Ok m.
Proof.
  intros E. unfold Keys.kms_open in E.
  apply mbind_inv in E as [(p & s0 & E0 & E)|(e & _ & [=])]. apply lift_inv in E0 as [E0 ->].
  apply mbind_inv in E as [(u & s0' & Ec & E)|(e & _ & [=])]. apply ensure_inv in Ec as [-> Ec].
  apply mbind_inv in E as [(u' & s1 & E1 & E)|(e & _ & [=])]. apply verify_key_Ok in E1.
  apply mbind_inv in E as [(ct & s2 & E2 & E)|(e & _ & [=])].
  apply mbind_inv in E as [([key doc] & s3 & E3 & E)|(e & _ & [=])].
  apply mbind_inv in E as [(o & s4 & E4 & E)|(e & _ & [=])]. apply lift_inv in E as [E ->].
  apply secret_for_Ok in E as (c & -> & Hu). exists p, s1, key, doc, s2, s3, ct, c. split_and!; try done.
  - by case_bool_decide.
  - unfold read_ciphertext in E2. apply mbind_inv in E2 as [(v & s1' & _ & E2)|(e & _ & [=])].
    apply mbind_inv in E2 as [(v' & s1'' & _ & E2)|(e & _ & [=])]. apply mbind_inv in E2 as [(b & s1''' & _ & E2)|(e & _ & [=])].
    apply mbind_inv in E2 as [(u'' & s5 & Eh & E2)|(e & _ & [=])]. apply ensure_inv in Eh as [_ Eh]. injection E2 as -> _.
    by case_bool_decide.
Qed.

(** What [key_checked] is worth: read from the service in this run, the key's
    material never left the service, it has no grants, and its policy, however
    the conditions that the enclave does not inspect are evaluated, allows nobody
    anything but to read or delete the key, or to ask for the secret attested as
    this runtime image and this guest. *)
Definition trustworthy other (key_id : string) (s s' : D) : Prop :=
  ∃ pair s0 meta s1 policy s2,
    pair_read s = (Ok pair, s0) ∧ describe_key key_id s0 = (Ok (Some meta), s1) ∧ check_key meta = Ok tt ∧
    get_key_policy key_id s1 = (Ok (Some policy), s2) ∧ list_grants key_id s2 = (Ok ([], false), s') ∧
    ∀ doc rq, json_from_str policy = Some doc → allows other doc rq →
      harmless rq ∨ attested_release (pcr0 pair) (pcr16 pair) rq.
Lemma checked_trustworthy other key_id s s' : key_checked key_id s s' → trustworthy other key_id s s'.
Proof.
  intros (pair & s0 & meta & s1 & policy & s2 & Hp & Hd & Hm & Hpol & Hc & Hg).
  exists pair, s0, meta, s1, policy, s2. split_and!; [done..|]. intros doc rq Hj Ha. by eapply check_policy_sound.
Qed.
(** C9: no secret under a key that could leak it.  The very key under which a
    secret is minted or opened was found trustworthy first, in the same run.  A
    mint names the configured key to the service both times, and the secret is
    what that key's answer holds for a fresh recipient that the security module
    attests.  An open names both times the key of the sealed pointer it was
    given, which is for this environment and filesystem; what it has decrypted
    is the ciphertext that the pointer commits to, under the pointer's context,
    for such a recipient.  A policy that has just been loosened, or a pointer
    aimed at another key, gives no secret. *)
Theorem secret_under_checked_key other config s m s' :
  (∀ sealed, kms_mint config s = (Ok (m, sealed), s') →
    ∃ s1 key doc s2 ct cfr s3, trustworthy other (kc_key_id config) s s1 ∧
      recipient generate s1 = (Ok (key, doc), s2) ∧
      generate_data_key (kc_key_id config) 32 (config_context config) doc s2 = (Ok (Some ct, Some cfr), s3) ∧
      unwrap_ciphertext key cfr = Ok m) ∧
  (∀ sealed, kms_open config sealed s = (Ok m, s') →
    ∃ p s1 ct s2 key doc s3 cfr, decode_pointer sealed = Ok p ∧ kp_context p = config_context config ∧
      trustworthy other (kp_key_id p) s s1 ∧ read_ciphertext p s1 = (Ok ct, s2) ∧ sha256 ct = ciphertext_sha256 p ∧
      recipient generate s2 = (Ok (key, doc), s3) ∧
      decrypt ct (kp_key_id p) (config_context config) doc s3 = (Ok (Some cfr), s') ∧
      unwrap_ciphertext key cfr = Ok m).
Proof.
  split; intros sealed E.
  - apply mint_Ok in E as (s1 & key & doc & s2 & ct & cfr & s3 & Hk & Hr & Hg & Hu & _).
    exists s1, key, doc, s2, ct, cfr, s3. split_and!; [by apply checked_trustworthy|done..].
  - apply open_Ok in E as (p & s1 & key & doc & s2 & s3 & ct & cfr & Hp & Hc & Hk & Hrd & Hh & Hr & Hd & Hu).
    exists p, s1, ct, s2, key, doc, s3, cfr. rewrite <- Hc. split_and!; try done. by apply checked_trustworthy.
Qed.

(** ** The service's promise *)
(** What a ciphertext holds under a key and a context is fixed, and an answer
    for a recipient whose public key the document names holds that. *)
Class KmsLaws := {
  plaintext : string → EncryptionContext → bytes → option bytes;
  names_key : bytes → bytes → Prop;
  attest_names pk s doc s' : attest {| ar_user_data := None; ar_nonce := None; ar_public_key := Some pk |} s = (Ok doc, s') →
    names_key doc pk;
  generate_law k n c doc key s ct cfr m s' : generate_data_key k n c doc s = (Ok (Some ct, Some cfr), s') →
    names_key doc (public_key_der key) → unwrap_ciphertext key cfr = Ok m → plaintext k c ct = Some m;
  decrypt_law k c doc key s ct cfr m s' : decrypt ct k c doc s = (Ok (Some cfr), s') →
    names_key doc (public_key_der key) → unwrap_ciphertext key cfr = Ok m → plaintext k c ct = Some m }.
(** C12: what was minted is what opens.  When a mint succeeded and a later boot, in
    whatever state and however configured, opens what the mint sealed, it is
    configured for the same filesystem and environment, and both secrets are
    what one key holds, under that one context, in ciphertexts of the same
    SHA-256: the host can withhold the secret but put no other in its place. *)
Theorem minted_key_opens `{!KmsLaws} config config' s m sealed s1 s2 m' s3 :
  kms_mint config s = (Ok (m, sealed), s1) → kms_open config' sealed s2 = (Ok m', s3) →
  config_context config' = config_context config ∧
  ∃ ct ct', sha256 ct = sha256 ct' ∧ plaintext (kc_key_id config) (config_context config) ct = Some m ∧
    plaintext (kc_key_id config) (config_context config) ct' = Some m'.
Proof.
  intros (t1 & key & doc & t2 & ct & cfr & t3 & _ & Hr & Hg & Hu & _ & ->)%mint_Ok.
  intros (p & u1 & key' & doc' & u2 & u3 & ct' & cfr' & Hp & Hc & _ & _ & Hh & Hr' & Hd & Hu')%open_Ok.
  rewrite pointer_reads_back in Hp by apply sha256_length. injection Hp as <-. cbn in *.
  apply recipient_Ok in Hr as [? Ha%attest_names], Hr' as [? Ha'%attest_names]. split; [done|].
  exists ct, ct'. split_and!; [done|by eapply generate_law|by eapply decrypt_law].
Qed.
End kms.

(** ** The master secret: the properties at concrete inputs

    A value in BER, a key policy, and a service that keeps ciphertexts of the
    secrets it draws: a mint, the open after it, and a genesis that died between
    its two writes. *)
From S2P Require Import Concrete AttestationWitness BerProps.

Module KeysWitness.
#[local] Existing Instances AttestationWitness.sha AttestationWitness.sha_laws AttestationWitness.value_codec
  AttestationWitness.value_codec_laws.
(** ** BER *)
(** A sequence of one chunked string, with an indefinite length, and its DER. *)
Definition chunked : bytes := [Byte.x30; Byte.x80; Byte.x24; Byte.x06; Byte.x04; Byte.x01; Byte.x61; Byte.x04; Byte.x01; Byte.x62;
  Byte.x00; Byte.x00].
Definition joined : bytes := [Byte.x30; Byte.x04; Byte.x04; Byte.x02; Byte.x61; Byte.x62].
Lemma to_der_spec_witness : ∃ t t', ber t chunked ∧ height t ≤ MAX_DEPTH ∧ norm t = Some t' ∧ joined = der t'.
Proof. apply to_der_spec; vm_compute; reflexivity. Defined.

(** ** A key policy *)
Definition hex_2a : string := hex_encode (replicate 48 Byte.x2a).
Definition hex_10 : string := hex_encode (replicate 48 Byte.x10).
Definition pins : Json :=
  JObject [("StringEqualsIgnoreCase", JObject [("kms:RecipientAttestation:PCR0", JArray [JString hex_10])]);
           ("StringEquals", JObject [("kms:RecipientAttestation:PCR16", JString hex_2a)])].
Definition policy_doc : Json :=
  JObject [("Version", JString "2012-10-17");
    ("Statement", JArray [
      JObject [("Effect", JString "Allow"); ("Principal", JString "*"); ("Action", JString "kms:DescribeKey"); ("Resource", JString "*")];
      JObject [("Effect", JString "Allow"); ("Principal", JString "*"); ("Action", JArray [JString "kms:Decrypt"; JString "kms:GenerateDataKey"]);
               ("Resource", JString "*"); ("Condition", pins)]])].
#[local] Instance toy_json : JsonText := λ s, if decide (s = "policy") then Some policy_doc else None.
Definition asked : KmsRequest :=
  {| rq_action := "kms:Decrypt";
     rq_attribute k := if decide (k = PCR0) then Some hex_10 else if decide (k = PCR16) then Some hex_2a else None |}.
Definition nothing_else (_ _ : string) (_ : Json) (_ : KmsRequest) : Prop := False.
Lemma glob_self s : literal s = true → glob s s.
Proof.
  induction s as [|c s IH]; [constructor|]. cbn. intros [[H1%negb_true_iff%bool_decide_eq_false H2%negb_true_iff%bool_decide_eq_false]%andb_true_iff Hl]%andb_true_iff.
  constructor; [exact H1|exact H2|by apply IH].
Qed.
Lemma asked_allowed : allows nothing_else policy_doc asked.
Proof.
  do 3 eexists. split_and!; [reflexivity|reflexivity|right; left|reflexivity| |].
  - left. exists (JArray [JString "kms:Decrypt"; JString "kms:GenerateDataKey"]), "kms:Decrypt".
    split_and!; [reflexivity|left|]. apply glob_self. reflexivity.
  - intros ops operator keys key values E Ho Hk. injection E as <-.
    apply elem_of_cons in Ho as [Ho|Ho]; [|apply list_elem_of_singleton in Ho]; injection Ho as -> ->;
      apply list_elem_of_singleton in Hk; injection Hk as -> ->; unfold clause; cbn -[eq_ignore_ascii_case].
    + exists hex_10, hex_10. split_and!; [by left|vm_compute; reflexivity..].
    + exists hex_2a. split; [by left|vm_compute; reflexivity].
Qed.
(** ** A service *)
(** The parameters that are stored, and how many secrets were drawn. *)
Record Service := { parameters : gmap string string; drawn : Z }.
#[local] Instance service_nsm : Nsm Service := {|
  get_random n := fail "no entropy";
  attest r := mret (default [] (ar_public_key r));
  describe_pcr i := mret {| locked := true; value := replicate 48 (if i =? 0 then Byte.x10 else Byte.x2a) |};
  extend_pcr _ _ := fail "the PCR is read-only";
  lock_pcr _ := fail "the PCR is read-only" |}.
#[local] Instance toy_base64 : Base64Standard := hex_decode.
#[local] Instance toy_encode : Base64Encode := hex_encode.
(** An answer is a string of octets in BER, and its envelope holds them. *)
#[local] Instance toy_cms : Cms := {|
  content_info_from_der d := match d with Byte.x04 :: _ :: inner => Some (ID_ENVELOPED_DATA, inner) | _ => None end;
  enveloped_from_der inner := Some {| recip_infos := [Ktri ID_RSAES_OAEP (replicate 32 Byte.x01)]; ec_content_type := ID_DATA;
    ec_alg := ID_AES_256_CBC; ec_iv := Some (Some (replicate 16 Byte.x00)); ec_content := Some inner |} |}.
#[local] Instance toy_recipient : RecipientCrypto := {|
  RecipientKey := bytes; public_key_der k := k; oaep_decrypt _ c := Some c; aes_256_cbc_decrypt _ _ c := Some c |}.
Definition meta : KeyMetadata :=
  {| origin := Some "AWS_KMS"; key_manager := Some "CUSTOMER"; multi_region := Some false;
     key_spec := Some "SYMMETRIC_DEFAULT"; key_usage := Some "ENCRYPT_DECRYPT" |}.
Definition put_text (name v : string) (overwrite : bool) : M Service string () :=
  d ← get;
  _ ← ensure (overwrite || bool_decide (parameters d !! name = None)) "ParameterAlreadyExists";
  modify (λ d, {| parameters := <[name := v]> (parameters d); drawn := drawn d |}).
#[local] Instance service_aws : Aws Service := {|
  describe_key _ := mret (Some meta);
  get_key_policy _ := mret (Some "policy");
  list_grants _ := mret ([], false);
  generate_data_key _ n _ _ :=
    _ ← ensure (n =? 32) "ValidationException";
    d ← get;
    _ ← modify (λ d, {| parameters := parameters d; drawn := drawn d + 1 |});
    let secret := replicate (Z.to_nat n) (Zbyte (drawn d + 65)) in
    mret (Some secret, Some (Byte.x04 :: Zbyte n :: secret));
  decrypt ct _ _ _ := _ ← ensure (len ct =? 32) "InvalidCiphertextException"; mret (Some (Byte.x04 :: Zbyte (len ct) :: ct));
  get_parameter name := gets (λ d, parameters d !! name);
  put_parameter := put_text |}.
(** A ciphertext holds its own octets, under whatever key and context. *)
Lemma unwrap_octets key ct m : len ct = 32 → unwrap_ciphertext key (Byte.x04 :: Zbyte 32 :: ct) = Ok m → m = ct.
Proof.
  intros Hl E. assert (to_der (Byte.x04 :: Zbyte 32 :: ct) = Ok (Byte.x04 :: Zbyte 32 :: ct)) as Hd.
  { apply to_der_spec; [unfold len in *; cbn [length]; lia|]. exists (Prim Byte.x04 ct), (Prim Byte.x04 ct).
    split_and!; [|by vm_compute|done|].
    - apply (ber_primitive Byte.x04 ct [Zbyte 32]); [by vm_compute|by vm_compute|]. rewrite Hl. by constructor.
    - cbn [der]. unfold emit. by rewrite Hl. }
  unfold unwrap_ciphertext, parse_enveloped in E. rewrite Hd in E. by injection E.
Qed.
#[local] Instance service_laws : KmsLaws.
Proof.
  refine {| plaintext := λ _ _ ct, Some ct; names_key := λ doc pk, doc = pk |}.
  - intros pk s doc s' E. by injection E as <- <-.
  - intros k n c doc key s ct cfr m s' E _ Hu. apply mbind_inv in E as [(u & s0 & E0 & E)|(e & _ & [=])].
    apply ensure_inv in E0 as [-> Hn]. destruct (Z.eqb_spec n 32) as [->|]; [|done]. injection E as <- <- <-.
    f_equal. symmetry. eapply unwrap_octets; [|exact Hu]. reflexivity.
  - intros k c doc key s ct cfr m s' E _ Hu. apply mbind_inv in E as [(u & s0 & E0 & E)|(e & _ & [=])].
    apply ensure_inv in E0 as [-> Hn]. destruct (Z.eqb_spec (len ct) 32) as [Hl|]; [|done]. injection E as <- <-.
    rewrite Hl in Hu. f_equal. symmetry. by eapply unwrap_octets.
Defined.

(** ** A mint and the open after it *)
Definition config : KmsKeyConfig :=
  {| kc_key_id := "alias/k"; kc_parameter := "/enclave/key"; environment := "prod"; kc_fs_id := replicate 16 Byte.x0f |}.
Definition generate : M Service string RecipientKey := mret ([Byte.x05] : bytes).
Definition d0 : Service := {| parameters := ∅; drawn := 0 |}.
Definition minted := kms_mint generate config d0.
Definition opened (sealed : SealedKey) := kms_open generate config sealed minted.2.
Definition sealed1 : SealedKey := match minted.1 with Ok (_, s) => s | Err _ => [] end.
Lemma minted_Ok : kms_mint generate config d0 = (Ok (replicate 32 Byte.x41, sealed1), minted.2).
Proof. apply Concrete.run_split. vm_compute. reflexivity. Qed.
Lemma opened_Ok : kms_open generate config sealed1 minted.2 = (Ok (replicate 32 Byte.x41), (opened sealed1).2).
Proof. apply Concrete.run_split. vm_compute. reflexivity. Qed.
Lemma secret_under_checked_key_witness : allows nothing_else policy_doc asked ∧
  (∃ pair s0, pair_read d0 = (Ok pair, s0) ∧ (harmless asked ∨ attested_release (pcr0 pair) (pcr16 pair) asked)) ∧
  ∃ p ct s2, decode_pointer sealed1 = Ok p ∧ read_ciphertext p minted.2 = (Ok ct, s2).
Proof.
  split; [exact asked_allowed|]. split.
  - destruct (proj1 (secret_under_checked_key generate nothing_else config d0 (replicate 32 Byte.x41) minted.2) sealed1 minted_Ok)
      as (t & key & doc & t2 & ct & cfr & t3 & (pair & s0 & meta' & s1 & policy & s2 & Hp & Hd & _ & Hpol & _ & Hall) & _).
    exists pair, s0. split; [exact Hp|].
    apply (Hall policy_doc asked); [|exact asked_allowed]. cbn in Hpol. injection Hpol as <- _. reflexivity.
  - destruct (proj2 (secret_under_checked_key generate nothing_else config minted.2 (replicate 32 Byte.x41) (opened sealed1).2)
      sealed1 opened_Ok) as (p & s1 & ct & s2 & key & doc & s3 & cfr & Hp & _ & (pair & u0 & meta' & u1 & policy & u2 & Hq & Hd & _ & Hpol & Hg & _) & Hrd & _).
    exists p, ct, s2. split; [exact Hp|]. enough (s1 = minted.2) as E by (rewrite E in Hrd; exact Hrd).
    assert (u0 = minted.2) as E0 by (injection Hq as _ Hq; by symmetry). cbn in Hd. injection Hd as _ Hd.
    cbn in Hpol. injection Hpol as _ Hpol. cbn in Hg. injection Hg as Hg. congruence.
Defined.
Lemma minted_key_opens_witness : ∃ ct ct', Concrete.sha ct = Concrete.sha ct' ∧
  plaintext "alias/k" (config_context config) ct = Some (replicate 32 Byte.x41) ∧
  plaintext "alias/k" (config_context config) ct' = Some (replicate 32 Byte.x41).
Proof.
  exact (proj2 (minted_key_opens generate config config d0 (replicate 32 Byte.x41) sealed1 minted.2 minted.2
    (replicate 32 Byte.x41) (opened sealed1).2 minted_Ok opened_Ok)).
Defined.
(** A genesis that died once its parameter was written is not one that can be
    tried again: what it left makes every later mint fail. *)
Example mint_not_retried : (kms_mint generate config minted.2).1 = Err "ParameterAlreadyExists".
Proof. vm_compute. reflexivity. Qed.

(** ** Ids in hex: a sign passes for a digit, and other text panics *)
Example signed_id : parse_fs_id "+f+f+f+f+f+f+f+f+f+f+f+f+f+f+f+f" = Ok (replicate 16 Byte.x0f).
Proof. vm_compute. reflexivity. Qed.
Example text_id_panics : parse_fs_id (bytes_str ([Byte.x30; Byte.xc3; Byte.xa9] ++ replicate 29 Byte.x30)) = Err Panicked.
Proof. vm_compute. reflexivity. Qed.
Example kinds : parse_kind " KMS-attested" = Ok KmsKind ∧ parse_kind "unsealed" = Ok StaticKind ∧ is_ok (parse_kind "none") = false.
Proof. vm_compute. split_and!; reflexivity. Qed.
End KeysWitness.
