(* ===== verification/NsmProps.v ===== *)
(** * The security module: what its registers promise, and that reads end *)
From S2P Require Import Prelude Concrete Attestation Attest Backend Nsm Keys.

(** ** Random bytes *)
Section random.
Context {D : Type} `{!Codec Value} (ioctl : bytes → M D string (bytes * Z)).
Lemma mbind_congr {S E A B} (m : M S E A) (f g : A → M S E B) s :
  (∀ a s1, m s = (Ok a, s1) → f a s1 = g a s1) → (m ≫= f) s = (m ≫= g) s.
Proof. intros Hfg. unfold_m. destruct (m s) as [[a|e] s1]; [by apply Hfg|done]. Qed.
Lemma fill_S fuel n s : fill_random ioctl (S fuel) (S n) s =
  (response ← request ioctl encode_get_random;
   b ← lift (decode_get_random response);
   _ ← ensure (negb (bool_decide (b = []))) "NSM GetRandom returned no bytes";
   rest ← fill_random ioctl fuel (S n - length (take (S n) b)); mret (take (S n) b ++ rest)) s.
Proof. done. Qed.
(** What a round takes of an answer that is not empty. *)
Lemma round_takes n (b : bytes) : b ≠ [] → (1 ≤ length (take (S n) b) ≤ S n)%nat.
Proof. intros Hb. rewrite length_take. destruct b; [done|]. cbn [length]. lia. Qed.
Lemma fill_more fuel extra n s : (n ≤ fuel)%nat → fill_random ioctl (fuel + extra) n s = fill_random ioctl fuel n s.
Proof.
  revert n s. induction fuel as [|fuel IH]; intros n s Hn; [destruct n; [by destruct extra|lia]|].
  destruct n as [|n]; [done|]. change (S fuel + extra)%nat with (S (fuel + extra)). rewrite !fill_S.
  apply mbind_congr. intros r s1 _. apply mbind_congr. intros b s2 _. apply mbind_congr. intros u s3 [_ Eb]%ensure_inv.
  case_bool_decide as Hb; [done|]. apply (round_takes n) in Hb.
  unfold mbind, M_bind. by rewrite IH by lia.
Qed.
Lemma fill_length fuel n s b s' : fill_random ioctl fuel n s = (Ok b, s') → length b = n.
Proof.
  revert n s b. induction fuel as [|fuel IH]; intros n s b E; destruct n as [|n]; try done; [by injection E as <- <-..|].
  rewrite fill_S in E. apply mbind_inv in E as [(r & s1 & _ & E)|(e & _ & [=])].
  apply mbind_inv in E as [(x & s2 & _ & E)|(e & _ & [=])]. apply mbind_inv in E as [(u & s3 & _ & E)|(e & _ & [=])].
  apply mbind_inv in E as [(rest & s4 & Er & E)|(e & _ & [=])]. injection E as <- <-. apply IH in Er.
  rewrite length_app, Er. rewrite length_take. lia.
Qed.
(** Reading entropy ends.  Whatever the device answers, short chunks, long ones,
    none or nonsense, [get_random] has asked it once for each byte wanted at
    most: no longer run gives another result; and when it succeeds, the buffer
    is full. *)
Theorem get_random_ends n extra s :
  fill_random ioctl (n + extra) n s = device_get_random ioctl n s ∧
  ∀ b s', device_get_random ioctl n s = (Ok b, s') → length b = n.
Proof. split; [by apply fill_more|]. intros b s'. apply fill_length. Qed.
End random.

(** ** Registers *)
(** What the runtime relies on: what is locked reads the same for good, whatever
    is asked of the device. *)
Class NsmLaws (D : Type) `{Nsm D} := {
  since : D → D → Prop;
  since_refl d : since d d;
  since_trans d d' d'' : since d d' → since d' d'' → since d d'';
  describe_since i d r d' : describe_pcr i d = (r, d') → since d d';
  extend_since i b d r d' : extend_pcr i b d = (r, d') → since d d';
  lock_since i d r d' : lock_pcr i d = (r, d') → since d d';
  attest_since q d r d' : attest q d = (r, d') → since d d';
  random_since n d r d' : get_random n d = (r, d') → since d d';
  locked_stays i p q d d1 d2 d3 : describe_pcr i d = (Ok p, d1) → locked p = true → since d1 d2 →
    describe_pcr i d2 = (Ok q, d3) → q = p }.
Section registers.
Context `{Nsm D, !NsmLaws D, Sha384, Sha256}.
Lemma measure_Ok component d e d' : measure_guest component d = (Ok e, d') →
  e = guest_pcr component ∧ ∃ p d1, describe_pcr PCR_GUEST d1 = (Ok p, d') ∧ locked p = true ∧ value p = e.
Proof.
  unfold measure_guest. intros E.
  apply mbind_inv in E as [(p0 & d1 & _ & E)|(x & _ & [=])]. apply mbind_inv in E as [(u & d2 & _ & E)|(x & _ & [=])].
  apply mbind_inv in E as [(u' & d3 & _ & E)|(x & _ & [=])]. apply mbind_inv in E as [(v & d4 & _ & E)|(x & _ & [=])].
  apply mbind_inv in E as [(u2 & d5 & _ & E)|(x & _ & [=])]. apply mbind_inv in E as [(u3 & d6 & _ & E)|(x & _ & [=])].
  apply mbind_inv in E as [(p & d7 & Ep & E)|(x & _ & [=])]. apply mbind_inv in E as [(u4 & d8 & Hl & E)|(x & _ & [=])].
  apply ensure_inv in Hl as [-> Hl]. apply mbind_inv in E as [(u5 & d9 & Hv & E)|(x & _ & [=])].
  apply ensure_inv in Hv as [-> Hv]. injection E as <- <-. split; [done|]. exists p, d6.
  split_and!; [done|by destruct (locked p)|by case_bool_decide].
Qed.
Lemma pair_read_Ok d p d' : pair_read d = (Ok p, d') → ∃ d1 g, describe_pcr PCR_GUEST d1 = (Ok g, d') ∧ since d d1 ∧
  locked g = true ∧ value g ≠ PCR_ZERO ∧ pcr16 p = value g.
Proof.
  unfold pair_read. intros E.
  apply mbind_inv in E as [(p0 & d1 & E0 & E)|(x & _ & [=])]. apply mbind_inv in E as [(g & d2 & E1 & E)|(x & _ & [=])].
  apply mbind_inv in E as [(u & d3 & Hl & E)|(x & _ & [=])]. apply ensure_inv in Hl as [-> Hl].
  apply mbind_inv in E as [(u' & d4 & Hz & E)|(x & _ & [=])]. apply ensure_inv in Hz as [-> Hz].
  apply mbind_inv in E as [(r0 & d5 & Er & E)|(x & _ & [=])]. apply lift_inv in Er as [_ ->].
  apply mbind_inv in E as [(r16 & d6 & Er & E)|(x & _ & [=])]. apply lift_inv in Er as [Er ->]. injection E as <- <-.
  exists d1, g. apply bind_Ok in Er as (_ & _ & [= <-]).
  split_and!; [done|by eapply describe_since|by destruct (locked g)| |done].
  intros Hv. by rewrite bool_decide_eq_true_2 in Hz.
Qed.
(** C10: the guest that was measured is the guest that boots.  Once the measurement
    has succeeded, no request to the device, of whatever code runs later, makes
    the boot read another guest, and so ask for a key or record a pair under
    another one. *)
Theorem measured_guest_is_the_pair component d e d1 d2 p d3 :
  measure_guest component d = (Ok e, d1) → since d1 d2 → pair_read d2 = (Ok p, d3) → pcr16 p = guest_pcr component.
Proof.
  intros (-> & g & d0 & Eg & Hl & Hv)%measure_Ok Hs (d4 & q & Eq & Hs4 & _ & _ & ->)%pair_read_Ok. rewrite <- Hv. f_equal.
  eapply locked_stays; [exact Eg|exact Hl| |exact Eq]. by eapply since_trans.
Qed.
End registers.

(** ** The test double keeps the promise *)
Section fake.
Context `{Sha384}.
Definition keeps_locked (d d' : FakeNsm) : Prop := ∀ i p, pcrs d !! i = Some p → locked p = true → pcrs d' !! i = Some p.
Lemma keeps_refl d : keeps_locked d d.
Proof. by intros i p. Qed.
Lemma same_pcrs d d' : pcrs d' = pcrs d → keeps_locked d d'.
Proof. intros E i p. by rewrite E. Qed.
Lemma fake_describe_inv i d r d' : fake_describe_pcr i d = (r, d') → d' = d ∧ r = ok_or (fake_pcr_at i d) "no such PCR".
Proof. unfold fake_describe_pcr. intros E. by injection E as <- <-. Qed.
Lemma write_keeps i f d r d' : write_pcr i f d = (r, d') → keeps_locked d d'.
Proof.
  unfold write_pcr. intros E. apply mbind_inv in E as [(x & s0 & [-> ->]%get_inv & E)|(e & [=] & _)].
  apply mbind_inv in E as [(p & s1 & Ep & E)|(e & Ep & ->)]; apply unwrap_inv in Ep as [-> Ep]; [|apply keeps_refl].
  apply mbind_inv in E as [(u & s2 & El & E)|(e & El & ->)]; apply ensure_inv in El as [-> El]; [|apply keeps_refl].
  injection E as _ <-. intros j q Hj Hq. cbn. destruct (decide (j = Z.to_nat i)) as [->|Hne]; [|by rewrite list_lookup_insert_ne].
  exfalso. unfold fake_pcr_at in Ep. destruct (i <? 0); [done|]. rewrite Hj in Ep. injection Ep as ->. by rewrite Hq in El.
Qed.
Lemma fill_keeps fuel n d r d' : fake_fill fuel n d = (r, d') → pcrs d' = pcrs d.
Proof.
  revert n d r d'. induction fuel as [|fuel IH]; intros n d r d' E; destruct n as [|n]; cbn [fake_fill] in E;
    [by injection E as _ <-..|].
  apply mbind_inv in E as [(x & s0 & [-> ->]%get_inv & E)|(e & [=] & _)].
  apply mbind_inv in E as [(u & s1 & E1 & E)|(e & [=] & _)]. injection E1 as _ <-.
  apply mbind_inv in E as [(rest & s2 & E2 & E)|(e & E2 & ->)]; apply IH in E2; [by injection E as _ <-|done].
Qed.
#[export] Instance fake_laws : NsmLaws FakeNsm.
Proof.
  refine {| since := keeps_locked |}.
  - apply keeps_refl.
  - intros d d' d'' K1 K2 i p Hp Hl. by apply K2, Hl; apply K1.
  - intros i d r d' [-> _]%fake_describe_inv. apply keeps_refl.
  - intros i b d r d' E. cbn in E. unfold fake_extend_pcr in E.
    apply mbind_inv in E as [(p & s1 & Ew & E)|(e & Ew & ->)]; apply write_keeps in Ew; [by injection E as _ <-|done].
  - intros i d r d' E. cbn in E. unfold fake_lock_pcr in E.
    apply mbind_inv in E as [(p & s1 & Ew & E)|(e & Ew & ->)]; apply write_keeps in Ew; [by injection E as _ <-|done].
  - intros q d r d' E. apply same_pcrs. cbn in E. unfold fake_attest in E.
    apply mbind_inv in E as [(x & s0 & [-> ->]%get_inv & E)|(e & [=] & _)].
    apply mbind_inv in E as [(u & s1 & Eu & E)|(e & Eu & ->)]; apply ensure_inv in Eu as [-> _]; [by injection E as _ <-|done].
  - intros n d r d' E. apply same_pcrs. cbn in E. unfold fake_get_random in E.
    apply mbind_inv in E as [(x & s0 & [-> ->]%get_inv & E)|(e & [=] & _)].
    apply mbind_inv in E as [(u & s1 & Eu & E)|(e & Eu & ->)]; apply ensure_inv in Eu as [-> _]; [by eapply fill_keeps|done].
  - intros i p q d d1 d2 d3 [-> Ep]%fake_describe_inv Hl K [_ Eq]%fake_describe_inv.
    unfold fake_pcr_at in *. destruct (i <? 0); [done|].
    destruct (pcrs d !! Z.to_nat i) as [p'|] eqn:Hp; [injection Ep as ->|done]. rewrite (K _ _ Hp Hl) in Eq. by injection Eq.
Defined.
End fake.

(** ** Concrete devices *)
Module NsmWitness.
#[local] Instance sha256_ : Sha256 := take 32.
#[local] Instance sha384_ : Sha384 := λ b, take 48 (drop 40 b ++ replicate 48 Byte.x01).
Definition component : bytes := replicate 40 Byte.x2a.
(** Later code asks for bytes and a document, and tries to extend and lock. *)
Definition later_calls : M FakeNsm string () :=
  _ ← get_random 600; _ ← attest (with_user_data [Byte.x01]);
  _ ← attempt (E':=string) (extend_pcr PCR_GUEST [Byte.x02]); _ ← attempt (E':=string) (lock_pcr PCR_GUEST); mret tt.
Definition measured := measure_guest component fake_new.
Definition afterwards : FakeNsm := (later_calls measured.2).2.
Lemma measured_guest_is_the_pair_witness :
  measured.1 = Ok (guest_pcr component) ∧ pcr16 <$> (pair_read afterwards).1 = Ok (guest_pcr component).
Proof.
  assert (measured.1 = Ok (guest_pcr component)) as Hm by (vm_compute; reflexivity). split; [exact Hm|].
  assert (since measured.2 afterwards) as Hs.
  { apply same_pcrs. vm_compute. reflexivity. }
  destruct (pair_read afterwards) as [[p|e] d] eqn:Ep; [|by exfalso; revert Ep; vm_compute]. cbn.
  enough (pcr16 p = guest_pcr component) as Hp by (rewrite Hp; reflexivity).
  refine (measured_guest_is_the_pair component fake_new (guest_pcr component) measured.2 afterwards p d _ Hs Ep).
  change (measured = (Ok (guest_pcr component), measured.2)). apply Concrete.run_split. exact Hm.
Defined.
End NsmWitness.
