(* ===== verification/Logs.v ===== *)
(** * Guest output: guest_io.rs

    A guest's writes framed into lines, a bounded queue of records, and the
    collector that hands them to a sink.  What a sink does with a record is not
    modelled: the sink is the list of what it was given. *)
From S2P Require Import Prelude Text.

Definition LOG_QUEUE_CAPACITY : Z := 1024.
Definition MAX_LOG_RECORD_BYTES : nat := 16 * 1024.
Definition MAX_WRITE_CHUNK_BYTES : Z := 16 * 1024.
Inductive GuestStream := Stdout | Stderr.
#[export] Instance guest_stream_eq_dec : EqDecision GuestStream.
Proof. solve_decision. Defined.
Definition as_str (s : GuestStream) : string := match s with Stdout => "stdout" | Stderr => "stderr" end.
Record GuestLogRecord := { gl_stream : GuestStream; message : string; truncated : bool }.
#[export] Instance record_eq_dec : EqDecision GuestLogRecord.
Proof. solve_decision. Defined.

(** ** [String::from_utf8_lossy]

    Each sequence that is not UTF-8, taken as far as it could have been, becomes
    one replacement character. *)
Definition REPLACEMENT : bytes := [Byte.xef; Byte.xbf; Byte.xbd].
Definition within (lo hi : Z) (b : byte) : bool := (lo <=? byteZ b) && (byteZ b <=? hi).
Fixpoint lossy (b : bytes) : bytes :=
  match b with
  | [] => []
  | x :: t =>
      let n := byteZ x in
      if n <? 128 then x :: lossy t
      else if n <? 194 then REPLACEMENT ++ lossy t
      else if n <? 224 then
        match t with
        | y :: u => if within 128 191 y then x :: y :: lossy u else REPLACEMENT ++ lossy t
        | [] => REPLACEMENT
        end
      else if n <? 240 then
        match t with
        | y :: u =>
            if within (if n =? 224 then 160 else 128) (if n =? 237 then 159 else 191) y then
              match u with
              | z :: v => if within 128 191 z then x :: y :: z :: lossy v else REPLACEMENT ++ lossy u
              | [] => REPLACEMENT
              end
            else REPLACEMENT ++ lossy t
        | [] => REPLACEMENT
        end
      else if n <? 245 then
        match t with
        | y :: u =>
            if within (if n =? 240 then 144 else 128) (if n =? 244 then 143 else 191) y then
              match u with
              | z :: v =>
                  if within 128 191 z then
                    match v with
                    | w :: r => if within 128 191 w then x :: y :: z :: w :: lossy r else REPLACEMENT ++ lossy v
                    | [] => REPLACEMENT
                    end
                  else REPLACEMENT ++ lossy u
              | [] => REPLACEMENT
              end
            else REPLACEMENT ++ lossy t
        | [] => REPLACEMENT
        end
      else REPLACEMENT ++ lossy t
  end.

(** ** The queue and what was lost *)
Record DropCounters := { dc_records : Z; dc_bytes : Z }.
Definition drops_new : DropCounters := {| dc_records := 0; dc_bytes := 0 |}.
Definition lose_bytes (n : Z) (d : DropCounters) : DropCounters :=
  {| dc_records := dc_records d; dc_bytes := wrapping_add (dc_bytes d) n |}.
Definition drop_record (n : Z) (d : DropCounters) : DropCounters :=
  {| dc_records := wrapping_add (dc_records d) 1; dc_bytes := wrapping_add (dc_bytes d) n |}.
(** The channel, while its receiver lives, and the shared counters. *)
Record Logs := { queue : list GuestLogRecord; receiving : bool; drops : DropCounters }.
Definition logs_new : Logs := {| queue := []; receiving := true; drops := drops_new |}.
Definition set_drops (f : DropCounters → DropCounters) (l : Logs) : Logs :=
  {| queue := queue l; receiving := receiving l; drops := f (drops l) |}.
Definition set_queue (q : list GuestLogRecord) (l : Logs) : Logs :=
  {| queue := q; receiving := receiving l; drops := drops l |}.
(** [try_send], and the count of a record that it gives back. *)
Definition try_send (r : GuestLogRecord) (l : Logs) : Logs :=
  if receiving l && (len (queue l) <? LOG_QUEUE_CAPACITY) then set_queue (queue l ++ [r]) l
  else set_drops (drop_record (strlen (message r))) l.

(** ** [LineFramer] *)
Record LineFramer := { lf_stream : GuestStream; partial : bytes; overflowed : bool }.
Definition framer_new (s : GuestStream) : LineFramer := {| lf_stream := s; partial := []; overflowed := false |}.
Definition set_line (p : bytes) (o : bool) (f : LineFramer) : LineFramer :=
  {| lf_stream := lf_stream f; partial := p; overflowed := o |}.
Definition extend (b : bytes) (s : LineFramer * Logs) : LineFramer * Logs :=
  let '(f, l) := s in
  let room := (MAX_LOG_RECORD_BYTES - length (partial f))%nat in
  if decide (b = []) then s
  else if decide (room = 0%nat) then (set_line (partial f) true f, set_drops (lose_bytes (len b)) l)
  else if decide (room < length b)%nat then
    (set_line (partial f ++ take room b) true f, set_drops (lose_bytes (len b - Z.of_nat room)) l)
  else (set_line (partial f ++ b) (overflowed f) f, l).
(** A carriage return before the end of the line goes. *)
Definition pop_cr (line : bytes) : bytes :=
  match rev line with Byte.x0d :: r => rev r | _ => line end.
Definition emit (s : LineFramer * Logs) : LineFramer * Logs :=
  let '(f, l) := s in
  let r := {| gl_stream := lf_stream f; message := bytes_str (lossy (pop_cr (partial f))); truncated := overflowed f |} in
  (set_line [] false f, try_send r l).
(** The writes' lines one after the other; [line] is what was read of this one. *)
Fixpoint push_line (line b : bytes) (s : LineFramer * Logs) : LineFramer * Logs :=
  match b with
  | [] => extend line s
  | x :: b =>
      if decide (x = Byte.x0a) then push_line [] b (emit (extend line s)) else push_line (line ++ [x]) b s
  end.
Definition push (b : bytes) (s : LineFramer * Logs) : LineFramer * Logs := push_line [] b s.
Definition finish (s : LineFramer * Logs) : LineFramer * Logs :=
  if negb (bool_decide (partial s.1 = [])) || overflowed s.1 then emit s else s.

(** ** The guest's streams and the collector *)
(** [check_write] is constant, [write] and [flush] always succeed. *)
Definition check_write : Z := MAX_WRITE_CHUNK_BYTES.
Definition report_drops (d : DropCounters) (since : Z * Z) : option (Z * Z * Z) * (Z * Z) :=
  (if (since.1 <? dc_records d) || (since.2 <? dc_bytes d)
   then Some (dc_records d - since.1, dc_bytes d - since.2, dc_records d) else None, (dc_records d, dc_bytes d)).
(** Every stream object of every guest, the channel, what the sink was given and
    what was reported; [collecting] until the task ends. *)
Record System := {
  framers : gmap nat LineFramer; logs : Logs; sunk : list GuestLogRecord; reported : Z * Z;
  reports : list (Z * Z * Z); collecting : bool }.
Definition start : System :=
  {| framers := ∅; logs := logs_new; sunk := []; reported := (0, 0); reports := []; collecting := true |}.
Definition with_framer (i : nat) (f : option LineFramer) (l : Logs) (s : System) : System :=
  {| framers := partial_alter (λ _, f) i (framers s); logs := l; sunk := sunk s; reported := reported s;
     reports := reports s; collecting := collecting s |}.
(** A guest asks for a stream, writes to one, shuts one down, drops one; the
    collector takes a record, reports, is told to stop. *)
Inductive event := Opened (i : nat) (s : GuestStream) | Wrote (i : nat) (b : bytes) | Shut (i : nat) | Dropped (i : nat) | Received | Ticked | Stopped.
Definition report_now (s : System) : System :=
  let '(r, since) := report_drops (drops (logs s)) (reported s) in
  {| framers := framers s; logs := logs s; sunk := sunk s; reported := since;
     reports := match r with Some r => reports s ++ [r] | None => reports s end; collecting := collecting s |}.
Definition receive (s : System) : System :=
  match queue (logs s) with
  | r :: q => {| framers := framers s; logs := set_queue q (logs s); sunk := sunk s ++ [r]; reported := reported s;
                 reports := reports s; collecting := collecting s |}
  | [] => s
  end.
(** Drain, report, end: the channel closes with the task. *)
Definition stop (s : System) : System :=
  let s := report_now {| framers := framers s; logs := set_queue [] (logs s); sunk := sunk s ++ queue (logs s);
             reported := reported s; reports := reports s; collecting := collecting s |} in
  {| framers := framers s; logs := {| queue := queue (logs s); receiving := false; drops := drops (logs s) |};
     sunk := sunk s; reported := reported s; reports := reports s; collecting := false |}.
Definition step (e : event) (s : System) : System :=
  match e with
  | Opened i st => match framers s !! i with None => with_framer i (Some (framer_new st)) (logs s) s | Some _ => s end
  | Wrote i b =>
      match framers s !! i with
      | Some f => let '(f, l) := push b (f, logs s) in with_framer i (Some f) l s
      | None => s
      end
  | Shut i =>
      match framers s !! i with
      | Some f => let '(f, l) := finish (f, logs s) in with_framer i (Some f) l s
      | None => s
      end
  | Dropped i =>
      match framers s !! i with
      | Some f => with_framer i None (finish (f, logs s)).2 s
      | None => s
      end
  | Received => if collecting s then receive s else s
  | Ticked => if collecting s then report_now s else s
  | Stopped => if collecting s then stop s else s
  end.
Definition run (es : list event) (s : System) : System := foldl (λ s e, step e s) s es.
