(* ===== verification/LogsProps.v ===== *)
(** * Guest output: what is framed, what is kept and what is counted *)
From S2P Require Import Prelude Text Logs.

(** ** The lines of a stream *)
(** Its complete lines, and what follows the last line feed. *)
Fixpoint lines_of (line b : bytes) : list bytes * bytes :=
  match b with
  | [] => ([], line)
  | x :: b => if decide (x = Byte.x0a) then let '(ls, t) := lines_of [] b in (line :: ls, t) else lines_of (line ++ [x]) b
  end.
Lemma lines_app line a b : lines_of line (a ++ b) =
  let '(ls, t) := lines_of line a in let '(ls', t') := lines_of t b in (ls ++ ls', t').
Proof.
  revert line. induction a as [|x a IH]; intros line; cbn; [by destruct (lines_of line b)|].
  case_decide; [|by rewrite IH]. rewrite IH. destruct (lines_of [] a) as [ls t]. by destruct (lines_of t b).
Qed.
(** The record of a line: its first bytes, without the carriage return at their
    end, as text. *)
Definition record_of (st : GuestStream) (line : bytes) : GuestLogRecord :=
  {| gl_stream := st; message := bytes_str (lossy (pop_cr (take MAX_LOG_RECORD_BYTES line)));
     truncated := bool_decide (MAX_LOG_RECORD_BYTES < length line)%nat |}.
Definition unfinished (t : bytes) : list bytes := if decide (t = []) then [] else [t].
Definition all_lines (b : bytes) : list bytes := let '(ls, t) := lines_of [] b in ls ++ unfinished t.
(** The bytes of a line that are not kept. *)
Definition cut (line : bytes) : Z := Z.max 0 (len line - Z.of_nat MAX_LOG_RECORD_BYTES).
Definition cuts (ls : list bytes) : Z := foldr (λ l n, cut l + n) 0 ls.
Lemma cuts_app a b : cuts (a ++ b) = cuts a + cuts b.
Proof. induction a as [|l a IH]; [done|]. change (cut l + cuts (a ++ b) = cut l + cuts a + cuts b). rewrite IH. lia. Qed.

(** ** One framer *)
Lemma max_record_pos : (0 < MAX_LOG_RECORD_BYTES)%nat.
Proof. unfold MAX_LOG_RECORD_BYTES. lia. Qed.
#[local] Opaque MAX_LOG_RECORD_BYTES.
Definition framer_of (st : GuestStream) (c : bytes) : LineFramer :=
  {| lf_stream := st; partial := take MAX_LOG_RECORD_BYTES c; overflowed := bool_decide (MAX_LOG_RECORD_BYTES < length c)%nat |}.
Definition lose (n : Z) (l : Logs) : Logs := set_drops (lose_bytes n) l.
Definition sends (rs : list GuestLogRecord) (l : Logs) : Logs := foldl (λ l r, try_send r l) l rs.
Definition counted (l : Logs) : Prop := is_u64 (dc_bytes (drops l)) ∧ is_u64 (dc_records (drops l)).
Lemma wrapping_assoc a b c : wrapping_add (wrapping_add a b) c = wrapping_add a (b + c).
Proof. unfold wrapping_add. rewrite Z.add_mod_idemp_l by done. f_equal. lia. Qed.
Lemma wrapping_range a b : is_u64 (wrapping_add a b).
Proof. unfold wrapping_add, is_u64, u64_max. pose proof (Z.mod_pos_bound (a + b) (2 ^ 64)). lia. Qed.
Lemma lose_0 l : counted l → lose 0 l = l.
Proof.
  intros [Hb _]. destruct l as [q r [x y]]. unfold lose, set_drops, lose_bytes. cbn in *. f_equal. f_equal.
  unfold wrapping_add. rewrite Z.add_0_r. apply Z.mod_small. unfold is_u64, u64_max in Hb. lia.
Qed.
Lemma lose_lose a b l : lose a (lose b l) = lose (b + a) l.
Proof. unfold lose, set_drops, lose_bytes. cbn. by rewrite wrapping_assoc. Qed.
Lemma try_send_lose r n l : try_send r (lose n l) = lose n (try_send r l).
Proof.
  unfold try_send. cbn [receiving queue lose set_drops]. destruct (receiving l && _); [done|].
  unfold lose, set_drops, lose_bytes, drop_record. cbn. by rewrite !wrapping_assoc, (Z.add_comm n).
Qed.
Lemma sends_lose rs n l : sends rs (lose n l) = lose n (sends rs l).
Proof.
  revert l. induction rs as [|r rs IH]; intros l; [done|].
  change (sends rs (try_send r (lose n l)) = lose n (sends rs (try_send r l))). by rewrite try_send_lose, IH.
Qed.
Lemma counted_lose n l : counted l → counted (lose n l).
Proof. intros [_ Hr]. split; [apply wrapping_range|done]. Qed.
Lemma counted_send r l : counted l → counted (try_send r l).
Proof. intros Hc. unfold try_send. destruct (receiving l && _); [done|]. split; apply wrapping_range. Qed.
Lemma counted_sends rs l : counted l → counted (sends rs l).
Proof. revert l. induction rs as [|r rs IH]; intros l Hc; [done|]. by apply IH, counted_send. Qed.

Lemma extend_spec st c b l : counted l → extend b (framer_of st c, l) = (framer_of st (c ++ b), lose (cut (c ++ b) - cut c) l).
Proof.
  intros Hc. unfold extend. cbn [partial framer_of]. set (m := MAX_LOG_RECORD_BYTES).
  assert (len (c ++ b) = len c + len b) as Hl by (unfold len; rewrite length_app; lia).
  rewrite length_take. destruct (decide (b = [])) as [->|Hb].
  { rewrite app_nil_r, Z.sub_diag, lose_0 by done. done. }
  assert (0 < length b)%nat as Hpos by by destruct b; [|cbn; lia].
  destruct (decide (m - _ = 0)%nat) as [Hroom|Hroom]; [|destruct (decide (m - _ < length b)%nat) as [Hlt|Hlt]].
  - f_equal.
    + unfold framer_of, set_line. cbn [lf_stream partial overflowed]. f_equal; [|by rewrite bool_decide_eq_true_2 by (rewrite length_app; lia)].
      by rewrite take_app_le by lia.
    + unfold lose. f_equal. f_equal. unfold cut. fold m. unfold len in *. lia.
  - f_equal.
    + unfold framer_of, set_line. cbn [lf_stream partial overflowed]. f_equal; [|by rewrite bool_decide_eq_true_2 by (rewrite length_app; lia)].
      replace (m `min` length c)%nat with (length c) in * by lia. rewrite take_app_ge, (take_ge c) by lia. by fold m.
    + unfold lose. f_equal. f_equal. unfold cut. fold m. unfold len in *. lia.
  - replace (cut (c ++ b) - cut c) with 0 by (unfold cut; fold m; unfold len in *; lia). rewrite lose_0 by done. f_equal.
    unfold framer_of, set_line. cbn [lf_stream partial overflowed]. fold m. f_equal; [|by rewrite !bool_decide_eq_false_2 by (rewrite ?length_app; lia)].
    by rewrite (take_ge c), take_ge by (rewrite ?length_app; lia).
Qed.
Lemma emit_spec st c l : emit (framer_of st c, l) = (framer_of st [], try_send (record_of st c) l).
Proof. done. Qed.
Lemma push_line_spec st b line c l : counted l → push_line line b (framer_of st c, l) =
  let '(ls, t) := lines_of (c ++ line) b in
  (framer_of st t, lose (cuts ls + cut t - cut c) (sends (record_of st <$> ls) l)).
Proof.
  revert line c l. induction b as [|x b IH]; intros line c l Hc; cbn [push_line lines_of].
  { rewrite extend_spec by done. cbn. done. }
  destruct (decide (x = Byte.x0a)) as [_|_]; [|by rewrite IH, app_assoc].
  rewrite extend_spec, emit_spec by done. rewrite IH by by apply counted_send, counted_lose. cbn [app].
  destruct (lines_of [] b) as [ls t]. rewrite fmap_cons. cbn [sends foldl cuts foldr]. f_equal.
  change (foldl (λ l r, try_send r l)) with (flip sends). unfold flip. rewrite try_send_lose, sends_lose, lose_lose. f_equal.
  change (cut []) with 0. fold (cuts ls). lia.
Qed.
Lemma push_spec st b c l : counted l → push b (framer_of st c, l) =
  let '(ls, t) := lines_of c b in (framer_of st t, lose (cuts ls + cut t - cut c) (sends (record_of st <$> ls) l)).
Proof. intros Hc. unfold push. rewrite push_line_spec by done. by rewrite app_nil_r. Qed.
Lemma finish_spec st t l : finish (framer_of st t, l) = (framer_of st [], sends (record_of st <$> unfinished t) l).
Proof.
  unfold finish, unfinished. destruct (decide (t = [])) as [->|Ht]; [done|].
  rewrite bool_decide_eq_false_2; [apply emit_spec|]. cbn [fst partial framer_of]. intros E. apply (f_equal length) in E.
  rewrite length_take in E. pose proof max_record_pos. destruct t; [done|]. cbn [length] in E. lia.
Qed.
Lemma pushes_spec st ws c l : counted l → foldl (λ s w, push w s) (framer_of st c, l) ws =
  let '(ls, t) := lines_of c (concat ws) in (framer_of st t, lose (cuts ls + cut t - cut c) (sends (record_of st <$> ls) l)).
Proof.
  revert c l. induction ws as [|w ws IH]; intros c l Hc; cbn [foldl concat].
  { cbn. rewrite Z.sub_diag. by rewrite lose_0. }
  rewrite push_spec, lines_app by done. destruct (lines_of c w) as [ls t].
  rewrite IH by by apply counted_lose, counted_sends. destruct (lines_of t (concat ws)) as [ls' t']. f_equal.
  rewrite sends_lose, lose_lose, fmap_app, cuts_app. unfold sends. rewrite foldl_app. f_equal. lia.
Qed.
(** A stream is its lines.  However a guest cuts its output into writes, the
    records that a stream object attempts to queue are those of its lines, one
    each and in order, the unfinished one at the end included, and the bytes it
    counts as lost on the way are those beyond each line's first 16 KiB. *)
Theorem framed_as_lines st ws l : counted l →
  finish (foldl (λ s w, push w s) (framer_new st, l) ws) =
    (framer_new st, lose (cuts (all_lines (concat ws))) (sends (record_of st <$> all_lines (concat ws)) l)).
Proof.
  intros Hc. change (framer_new st) with (framer_of st []). rewrite pushes_spec by done. unfold all_lines.
  destruct (lines_of [] (concat ws)) as [ls t]. rewrite finish_spec. f_equal. rewrite sends_lose, fmap_app, cuts_app.
  unfold sends. rewrite foldl_app. f_equal. unfold unfinished. destruct (decide (t = [])) as [->|]; cbn; change (cut []) with 0; lia.
Qed.

(** ** A record's text *)
(** Not the 16 KiB of its line: a byte that is not UTF-8 becomes three. *)
Lemma lossy_length b : (length (lossy b) ≤ 3 * length b)%nat.
Proof.
  induction b as [b IH] using (induction_ltof1 _ length).
  assert (∀ t, (length t < length b)%nat → length (lossy t) ≤ 3 * length t)%nat as K by exact IH. clear IH.
  destruct b as [|x t]; [cbn; lia|]. cbn [lossy].
  repeat (case_match; try subst); cbn [length app REPLACEMENT] in *;
    try (match goal with |- context [lossy ?u] => assert (length (lossy u) ≤ 3 * length u)%nat by (apply K; cbn [length]; lia) end); cbn [length] in *; lia.
Qed.
Lemma bytes_str_length b : String.length (bytes_str b) = length b.
Proof. unfold bytes_str. induction b as [|x b IH]; [done|]. cbn. by f_equal. Qed.
Lemma pop_cr_length b : (length (pop_cr b) ≤ length b)%nat.
Proof.
  unfold pop_cr. pose proof (length_rev b) as L. destruct (rev b) as [|x r]; [done|].
  destruct x; rewrite <-?L, ?length_rev; cbn; lia.
Qed.
Lemma record_of_bound st line : strlen (message (record_of st line)) ≤ 3 * Z.of_nat MAX_LOG_RECORD_BYTES.
Proof.
  unfold record_of, strlen. cbn [message]. rewrite bytes_str_length.
  pose proof (lossy_length (pop_cr (take MAX_LOG_RECORD_BYTES line))).
  pose proof (pop_cr_length (take MAX_LOG_RECORD_BYTES line)) as P. rewrite length_take in P. lia.
Qed.

(** ** What becomes of the records that are attempted *)
(** [a] is made of [kept] and [lost], in the order of each. *)
Inductive merged {A} : list A → list A → list A → Prop :=
  | merged_nil : merged [] [] []
  | merged_kept kept lost a x : merged kept lost a → merged (kept ++ [x]) lost (a ++ [x])
  | merged_lost kept lost a x : merged kept lost a → merged kept (lost ++ [x]) (a ++ [x]).
Definition texts (rs : list GuestLogRecord) : Z := foldr (λ r n, strlen (message r) + n) 0 rs.
Lemma texts_snoc rs r : texts (rs ++ [r]) = texts rs + strlen (message r).
Proof.
  induction rs as [|x rs IH]; [cbn; lia|].
  change (strlen (message x) + texts (rs ++ [r]) = strlen (message x) + texts rs + strlen (message r)). lia.
Qed.
(** Of the records of [att], those the sink was given and those in the queue, in
    order; every other one counted, and with the [beyond] bytes cut off lines. *)
Definition accounts (given : list GuestLogRecord) (l : Logs) (att : list GuestLogRecord) (beyond : Z) : Prop :=
  ∃ lost, merged (given ++ queue l) lost att ∧ drops l =
    {| dc_records := wrapping_add 0 (len lost); dc_bytes := wrapping_add 0 (beyond + texts lost) |}.
Lemma accounts_counted given l att x : accounts given l att x → counted l.
Proof. intros (lost & _ & E). unfold counted. rewrite E. split; apply wrapping_range. Qed.
Lemma accounts_lose n given l att x : accounts given l att x → accounts given (lose n l) att (x + n).
Proof.
  intros (lost & Hm & Hd). exists lost. split; [done|]. cbn. rewrite Hd. unfold lose_bytes. cbn. f_equal.
  rewrite wrapping_assoc. f_equal. lia.
Qed.
Lemma accounts_send r given l att x : accounts given l att x → accounts given (try_send r l) (att ++ [r]) x.
Proof.
  intros (lost & Hm & Hd). unfold try_send. destruct (receiving l && _).
  - exists lost. cbn. rewrite assoc by apply _. split; [by constructor|done].
  - exists (lost ++ [r]). cbn. split; [by constructor|]. rewrite Hd. unfold drop_record. cbn.
    rewrite !wrapping_assoc, texts_snoc. unfold len. rewrite length_app. cbn. f_equal; f_equal; lia.
Qed.
Lemma accounts_sends rs given l att x : accounts given l att x → accounts given (sends rs l) (att ++ rs) x.
Proof.
  revert l att. induction rs as [|r rs IH]; intros l att Ha; [by rewrite app_nil_r|].
  replace (att ++ r :: rs) with ((att ++ [r]) ++ rs) by by rewrite <-app_assoc. by apply IH, accounts_send.
Qed.
Definition bounded (l : Logs) : Prop := len (queue l) ≤ LOG_QUEUE_CAPACITY.
Lemma bounded_send r l : bounded l → bounded (try_send r l).
Proof.
  unfold bounded, try_send. intros Hb. destruct (receiving l); cbn [andb]; [|done].
  destruct (Z.ltb_spec (len (queue l)) LOG_QUEUE_CAPACITY); [|done]. cbn [queue set_queue]. unfold len in *. rewrite length_app. cbn. lia.
Qed.
Lemma bounded_sends rs l : bounded l → bounded (sends rs l).
Proof. revert l. induction rs as [|r rs IH]; intros l Hb; [done|]. by apply IH, bounded_send. Qed.
Lemma receiving_sends rs l : receiving (sends rs l) = receiving l.
Proof.
  revert l. induction rs as [|r rs IH]; intros l; [done|]. change (receiving (sends rs (try_send r l)) = receiving l).
  rewrite IH. unfold try_send. by destruct (receiving l && _) eqn:E.
Qed.

(** ** The streams of all guests *)
(** What the writers did, without framers, queue or counters: the unfinished
    line of each open stream, the records attempted, the bytes beyond lines'
    first 16 KiB. *)
Record Spec := { unended : gmap nat (GuestStream * bytes); attempted : list GuestLogRecord; beyond : Z }.
Definition spec_start : Spec := {| unended := ∅; attempted := []; beyond := 0 |}.
Definition spec_step (e : event) (g : Spec) : Spec :=
  match e with
  | Opened i st =>
      match unended g !! i with
      | None => {| unended := <[i := (st, [])]> (unended g); attempted := attempted g; beyond := beyond g |}
      | Some _ => g
      end
  | Wrote i b =>
      match unended g !! i with
      | Some (st, c) =>
          let '(ls, t) := lines_of c b in
          {| unended := <[i := (st, t)]> (unended g); attempted := attempted g ++ (record_of st <$> ls);
             beyond := beyond g + (cuts ls + cut t - cut c) |}
      | None => g
      end
  | Shut i =>
      match unended g !! i with
      | Some (st, c) =>
          {| unended := <[i := (st, [])]> (unended g); attempted := attempted g ++ (record_of st <$> unfinished c); beyond := beyond g |}
      | None => g
      end
  | Dropped i =>
      match unended g !! i with
      | Some (st, c) =>
          {| unended := delete i (unended g); attempted := attempted g ++ (record_of st <$> unfinished c); beyond := beyond g |}
      | None => g
      end
  | _ => g
  end.
Definition spec_run (es : list event) (g : Spec) : Spec := foldl (λ g e, spec_step e g) g es.
Definition framers_of (g : Spec) : gmap nat LineFramer := (λ '(st, c), framer_of st c) <$> unended g.
(** How the two stand to each other. *)
Record refines (s : System) (g : Spec) : Prop := {
  ref_framers : framers s = framers_of g;
  ref_accounts : accounts (sunk s) (logs s) (attempted g) (beyond g);
  ref_bounded : bounded (logs s);
  ref_collecting : receiving (logs s) = collecting s;
  ref_ended : collecting s = false → queue (logs s) = [];
  ref_texts : Forall (λ r, strlen (message r) ≤ 3 * Z.of_nat MAX_LOG_RECORD_BYTES) (attempted g) }.
Lemma queue_closed rs l : receiving l = false → queue (sends rs l) = queue l.
Proof.
  revert l. induction rs as [|r rs IH]; intros l Hr; [done|].
  change (queue (sends rs (try_send r l)) = queue l).
  unfold try_send. rewrite Hr. cbn [andb]. by rewrite IH.
Qed.
Lemma refines_sends s g rs st' n u fr : refines s g → fr = (λ '(st, c), framer_of st c) <$> u →
  refines {| framers := fr; logs := lose n (sends (record_of st' <$> rs) (logs s)); sunk := sunk s; reported := reported s;
             reports := reports s; collecting := collecting s |}
    {| unended := u; attempted := attempted g ++ (record_of st' <$> rs); beyond := beyond g + n |}.
Proof.
  intros [Hf Ha Hb Hc He Ht] ->. split; cbn.
  - done.
  - by apply accounts_lose, accounts_sends.
  - by apply bounded_sends.
  - by rewrite receiving_sends.
  - intros E. rewrite queue_closed by by rewrite Hc. by apply He.
  - rewrite Forall_app. split; [done|]. apply Forall_fmap, Forall_forall. intros l _. apply record_of_bound.
Qed.
Lemma refines_ended s g rs st' u fr : refines s g → fr = (λ '(st, c), framer_of st c) <$> u →
  refines {| framers := fr; logs := sends (record_of st' <$> rs) (logs s); sunk := sunk s; reported := reported s;
             reports := reports s; collecting := collecting s |}
    {| unended := u; attempted := attempted g ++ (record_of st' <$> rs); beyond := beyond g |}.
Proof.
  intros Hr E. pose proof (refines_sends s g rs st' 0 u fr Hr E) as R. rewrite Z.add_0_r, lose_0 in R; [exact R|].
  apply counted_sends, (accounts_counted _ _ _ _ (ref_accounts _ _ Hr)).
Qed.
Lemma refines_lookup s g i : refines s g → framers s !! i = (λ '(st, c), framer_of st c) <$> unended g !! i.
Proof. intros Hr. rewrite (ref_framers _ _ Hr). apply lookup_fmap. Qed.
Lemma refines_receive s g : refines s g → refines (receive s) g.
Proof.
  intros [Hf (lost & Hm & Hd) Hb Hc He Ht]. unfold receive. destruct (queue (logs s)) as [|r q] eqn:Eq; [by split; [|exists lost|..]; rewrite ?Eq|].
  split; cbn; try done.
  - exists lost. cbn. by rewrite <-app_assoc.
  - unfold bounded, len in *. rewrite Eq in Hb. cbn in *. lia.
  - intros E. by specialize (He E).
Qed.
Lemma refines_report s g : refines s g → refines (report_now s) g.
Proof. intros [Hf Ha Hb Hc He Ht]. unfold report_now. destruct (report_drops _ _). by split. Qed.
Lemma refines_stop s g : refines s g → refines (stop s) g.
Proof.
  intros [Hf (lost & Hm & Hd) Hb Hc He Ht]. unfold stop, report_now. destruct (report_drops _ _). split; cbn; try done.
  exists lost. cbn. by rewrite app_nil_r.
Qed.
Lemma refines_step e s g : refines s g → refines (step e s) (spec_step e g).
Proof.
  intros Hr. pose proof (refines_lookup s g) as Hl. destruct e as [i st|i b|i|i| | |]; cbn [step spec_step].
  - rewrite Hl by done. destruct (unended g !! i) eqn:E; cbn; [done|]. destruct Hr as [Hf Ha Hb Hc He Ht].
    split; cbn; try done. unfold framers_of. cbn. by rewrite fmap_insert, Hf.
  - rewrite Hl by done. destruct (unended g !! i) as [[st c]|] eqn:E; cbn [fmap option_fmap option_map]; [|done].
    rewrite push_spec by apply (accounts_counted _ _ _ _ (ref_accounts _ _ Hr)).
    destruct (lines_of c b) as [ls t]. apply refines_sends; [done|]. rewrite (ref_framers _ _ Hr). unfold framers_of. by rewrite fmap_insert.
  - rewrite Hl by done. destruct (unended g !! i) as [[st c]|] eqn:E; cbn [fmap option_fmap option_map]; [|done].
    rewrite finish_spec. eapply refines_ended; [done|]. rewrite (ref_framers _ _ Hr). unfold framers_of. by rewrite fmap_insert.
  - rewrite Hl by done. destruct (unended g !! i) as [[st c]|] eqn:E; cbn [fmap option_fmap option_map]; [|done].
    rewrite finish_spec. eapply refines_ended; [done|]. rewrite (ref_framers _ _ Hr). unfold framers_of. by rewrite fmap_delete.
  - destruct (collecting s); [by apply refines_receive|done].
  - destruct (collecting s); [by apply refines_report|done].
  - destruct (collecting s); [by apply refines_stop|done].
Qed.
Lemma refines_run es s g : refines s g → refines (run es s) (spec_run es g).
Proof. revert s g. induction es as [|e es IH]; intros s g Hr; [done|]. apply IH, refines_step, Hr. Qed.
Lemma refines_start : refines start spec_start.
Proof. split; [symmetry; apply fmap_empty|exists []; split; [constructor|done]|done..|constructor]. Qed.
(** C34: the log path refines its specification, and accounts for every record.
    Whatever guests open, write and drop and whenever the collector runs,
    reports or is stopped, the framers hold the unfinished lines of the open
    streams and nothing else; the records that the sink was given and those in
    the queue are, in order, those the guests' lines made except the ones that
    were lost; the counters are exactly the number of the lost records and the
    bytes of these and of the ends cut off lines, modulo their width; the queue
    never exceeds its capacity, is empty once the collector has ended, and no
    record's text exceeds three times the cap on a line. *)
Theorem logs_refine es : refines (run es start) (spec_run es spec_start).
Proof. apply refines_run, refines_start. Qed.

(** ** Concrete streams *)
Definition two_writes : list bytes := str_bytes <$> ["ab" +:+ String LF "c"; "d" +:+ String CR (String LF "e")].
Lemma framed_as_lines_witness :
  queue (finish (foldl (λ s w, push w s) (framer_new Stderr, logs_new) two_writes)).2 =
    (λ m, {| gl_stream := Stderr; message := m; truncated := false |}) <$> ["ab"; "cd"; "e"] ∧
  finish (foldl (λ s w, push w s) (framer_new Stderr, logs_new) two_writes) =
    (framer_new Stderr, lose (cuts (all_lines (concat two_writes))) (sends (record_of Stderr <$> all_lines (concat two_writes)) logs_new)).
Proof. split; [by vm_compute|]. apply (framed_as_lines Stderr two_writes logs_new). by vm_compute. Defined.
(** A line that is all garbage has a record of three times the cap. *)
Lemma lossy_garbage n : length (lossy (replicate n Byte.xff)) = (3 * n)%nat.
Proof. induction n as [|n IH]; [done|]. cbn [replicate lossy]. change (length (REPLACEMENT ++ lossy (replicate n Byte.xff)) = (3 * S n)%nat). rewrite length_app, IH. cbn. lia. Qed.
Lemma pop_cr_garbage n : pop_cr (replicate n Byte.xff) = replicate n Byte.xff.
Proof. unfold pop_cr. destruct n as [|n]; [done|]. by rewrite replicate_S_end, rev_unit. Qed.
Lemma pop_cr_snoc line : pop_cr (line ++ [Byte.x0d]) = line.
Proof. unfold pop_cr. by rewrite rev_unit, rev_involutive. Qed.
Example garbage_is_trebled :
  strlen (message (record_of Stdout (replicate MAX_LOG_RECORD_BYTES Byte.xff))) = 3 * Z.of_nat MAX_LOG_RECORD_BYTES.
Proof.
  unfold record_of, strlen. cbn [message]. rewrite take_ge by (by rewrite length_replicate).
  rewrite bytes_str_length, pop_cr_garbage, lossy_garbage. lia.
Qed.
(** The carriage return that ends the kept part of a line that was cut goes as
    the one of a line ending does. *)
Example cut_line_loses_its_cr line : length line = MAX_LOG_RECORD_BYTES →
  record_of Stdout (take (MAX_LOG_RECORD_BYTES - 1) line ++ [Byte.x0d; Byte.x62]) =
    {| gl_stream := Stdout; message := bytes_str (lossy (take (MAX_LOG_RECORD_BYTES - 1) line)); truncated := true |}.
Proof.
  intros Hl. pose proof max_record_pos. unfold record_of. f_equal.
  - f_equal. f_equal. rewrite (app_assoc _ [Byte.x0d] [Byte.x62] : _ ++ [Byte.x0d; Byte.x62] = _).
    rewrite take_app_length' by (rewrite length_app, length_take; cbn; lia). apply pop_cr_snoc.
  - apply bool_decide_eq_true_2. rewrite length_app, length_take. cbn. lia.
Qed.
(** After the collector is told to stop, a late guest's line is counted. *)
Example late_line_counted :
  let s := run [Opened 0 Stdout; Wrote 0 (str_bytes ("x" +:+ String LF "")); Stopped; Wrote 0 (str_bytes "late"); Dropped 0] start in
  message <$> sunk s = ["x"] ∧ drops (logs s) = {| dc_records := 1; dc_bytes := 4 |}.
Proof. by split; vm_compute. Qed.
