(* ===== verification/Forward.v ===== *)
(** * Guest logs on their way to CloudWatch: guest_io/cloudwatch.rs

    The sink that stamps records, the forwarder that batches them, splits the
    batches into calls and backs off, and what it counts.  [serde_json]'s printer
    and the SDK's event builder are parameters; the service is what it answers,
    given every call so far.  Times are milliseconds; an instant that the code
    reads is an argument.  That a deadline of the task around the forwarder cuts
    it off is not modelled. *)
From S2P Require Import Prelude Text Policy Logs.

Definition TRANSPORT_QUEUE_CAPACITY : Z := 4096.
Definition MAX_PENDING_BATCHES : nat := 16.
Definition MAX_BATCH_RECORDS : nat := 1024.
Definition MAX_PUT_EVENTS : Z := 10000.
Definition MAX_PUT_BYTES : Z := 1000000.
Definition EVENT_OVERHEAD : Z := 26.
Definition MAX_EVENT_BYTES : Z := 256 * 1024.
Definition MAX_RECORD_AGE : Z := 60 * 60 * 1000.
Definition BATCH_LINGER : Z := 500.
Definition MIN_BACKOFF : Z := 250.
Definition MAX_BACKOFF : Z := 30 * 1000.
Definition DROP_REPORT_INTERVAL : Z := 60 * 1000.

Inductive Payload := Guest (r : GuestLogRecord) | Runtime (encoded : string).
Record Stamped := { timestamp_ms : Z; payload : Payload }.
Record PutOutcome := { accepted : Z; rejected : Z }.
Inductive PutError := Transient (e : string) | Definitive (e : string).
(** What the code reads of the SDK's [InputLogEvent]. *)
Record InputLogEvent := { timestamp : Z; event_message : string }.
#[export] Instance event_eq_dec : EqDecision InputLogEvent.
Proof. solve_decision. Defined.
Class JsonPrint := to_string : Json → string.
(** [InputLogEvent::builder()] with both fields set, built. *)
Class Sdk := build : Z → string → option InputLogEvent.
Class SdkLaws `{Sdk} := build_is t m : build t m = Some {| timestamp := t; event_message := m |}.

(** ** The calls of a batch *)
Record Chunk := { consumed : nat; events : list InputLogEvent }.
Record Chunking := { chunks : list Chunk; filling : list InputLogEvent; size : Z; dropped : nat; sealed : nat }.
Definition chunking_new : Chunking := {| chunks := []; filling := []; size := 0; dropped := 0; sealed := 0 |}.
Definition drop_one (s : Chunking) : Chunking :=
  {| chunks := chunks s; filling := filling s; size := size s; dropped := S (dropped s); sealed := sealed s |}.
(** What is being filled becomes a chunk, that accounts for the records before
    [index]. *)
Definition seal_chunk (index : nat) (s : Chunking) : Chunking :=
  {| chunks := chunks s ++ [{| consumed := index - sealed s; events := filling s |}]; filling := []; size := 0;
     dropped := dropped s; sealed := index |}.
Definition fill (e : InputLogEvent) (cost : Z) (s : Chunking) : Chunking :=
  {| chunks := chunks s; filling := filling s ++ [e]; size := size s + cost; dropped := dropped s; sealed := sealed s |}.
Definition no_room (cost : Z) (s : Chunking) : bool :=
  negb (bool_decide (filling s = [])) && ((MAX_PUT_BYTES <? size s + cost) || (MAX_PUT_EVENTS <=? len (filling s))).

Section forward.
Context `{JsonPrint, Sdk}.

Definition encode_message (r : GuestLogRecord) : string :=
  to_string (JObject [("source", JString "guest"); ("stream", JString (Logs.as_str (gl_stream r)));
                      ("truncated", JBool (truncated r)); ("message", JString (message r))]).
Definition boot_marker (image : option string) (region : string) : string :=
  to_string (JObject [("source", JString "runtime"); ("event", JString "guest-log-stream-opened");
                      ("pcr0", JString (default "(unknown)" image)); ("region", JString region);
                      ("version", JString "0.1.0")]).
Definition body (s : Stamped) : string :=
  match payload s with Guest r => encode_message r | Runtime encoded => encoded end.
Definition chunk_one (oldest_allowed : Z) (index : nat) (stamped : Stamped) (s : Chunking) : Chunking :=
  if timestamp_ms stamped <? oldest_allowed then drop_one s
  else if MAX_EVENT_BYTES <? strlen (body stamped) then drop_one s
  else
    let cost := strlen (body stamped) + EVENT_OVERHEAD in
    let s := if no_room cost s then seal_chunk index s else s in
    match build (timestamp_ms stamped) (body stamped) with
    | Some e => fill e cost s
    | None => drop_one s
    end.
Fixpoint chunk_from (oldest_allowed : Z) (index : nat) (records : list Stamped) (s : Chunking) : Chunking :=
  match records with
  | [] => s
  | r :: records => chunk_from oldest_allowed (S index) records (chunk_one oldest_allowed index r s)
  end.
Definition put_chunks (records : list Stamped) (now_ms : Z) : list Chunk * nat :=
  let s := chunk_from (now_ms - MAX_RECORD_AGE) 0 records chunking_new in
  (if decide (filling s = []) then chunks s
   else chunks s ++ [{| consumed := length records - sealed s; events := filling s |}], dropped s).

(** ** Delivery *)
Definition answer_t : Type := result PutError PutOutcome.
Definition calls_t : Type := list (list InputLogEvent * answer_t).
(** What the service answers, given the calls before and the events. *)
Context (answer : calls_t → list InputLogEvent → answer_t).
(** What the [n]th reading of the wall clock gives. *)
Context (wall : nat → Z).
Record Drops := { wakeups : Z; d_records : Z; d_batches : Z; d_rejected : Z }.
Definition count_records (n : Z) (d : Drops) : Drops :=
  {| wakeups := wakeups d; d_records := wrapping_add (d_records d) n; d_batches := d_batches d; d_rejected := d_rejected d |}.
Definition count_batches (n : Z) (d : Drops) : Drops :=
  {| wakeups := wakeups d; d_records := d_records d; d_batches := wrapping_add (d_batches d) n; d_rejected := d_rejected d |}.
Definition count_rejected (n : Z) (d : Drops) : Drops :=
  {| wakeups := wakeups d; d_records := d_records d; d_batches := d_batches d; d_rejected := wrapping_add (d_rejected d) n |}.
Definition woke (d : Drops) : Drops :=
  {| wakeups := wrapping_add (wakeups d) 1; d_records := d_records d; d_batches := d_batches d; d_rejected := d_rejected d |}.
(** The calls made, how often the wall clock was read, the counters. *)
Record Outside := { calls : calls_t; readings : nat; counts : Drops }.
Definition count (f : Drops → Drops) (o : Outside) : Outside :=
  {| calls := calls o; readings := readings o; counts := f (counts o) |}.
Definition put (es : list InputLogEvent) (o : Outside) : answer_t * Outside :=
  let r := answer (calls o) es in (r, {| calls := calls o ++ [(es, r)]; readings := readings o; counts := counts o |}).
Definition now_ms (o : Outside) : Z * Outside :=
  (wall (readings o), {| calls := calls o; readings := S (readings o); counts := counts o |}).
(** The calls of one batch; what is left of it. *)
Fixpoint send_chunks (cs : list Chunk) (batch : list Stamped) (o : Outside) : result PutError () * (list Stamped * Outside) :=
  match cs with
  | [] => (Ok (), (batch, o))
  | c :: cs =>
      if decide (events c = []) then send_chunks cs (drop (consumed c `min` length batch) batch) o
      else
        let '(r, o) := put (events c) o in
        match r with
        | Err e => (Err e, (batch, o))
        | Ok outcome =>
            let o := if 0 <? rejected outcome then count (count_rejected (rejected outcome)) o else o in
            send_chunks cs (drop (consumed c `min` length batch) batch) o
        end
  end.
Fixpoint deliver (pending : list (list Stamped)) (o : Outside) : result PutError () * (list (list Stamped) * Outside) :=
  match pending with
  | [] => (Ok (), ([], o))
  | batch :: rest =>
      let '(now, o) := now_ms o in
      let '(cs, stale) := put_chunks batch now in
      let o := if decide (0 < stale)%nat then count (count_records (Z.of_nat stale)) o else o in
      match send_chunks cs batch o with
      | (Err e, (batch, o)) => (Err e, (batch :: rest, o))
      | (Ok _, (_, o)) => deliver rest o
      end
  end.

(** The probe of the start: the boot marker, in a call of its own. *)
Definition write_boot_marker (image : option string) (region : string) (o : Outside) : result PutError () * Outside :=
  let '(now, o) := now_ms o in
  match build now (boot_marker image region) with
  | None => (Err (Definitive "building the boot marker"), o)
  | Some e => let '(r, o) := put [e] o in (match r with Ok _ => Ok () | Err e => Err e end, o)
  end.
(** [in_time]: whether the answer came before the probe's deadline. *)
Definition open_stream (image : option string) (region : string) (in_time : bool) (o : Outside) : result PutError () * Outside :=
  let '(r, o) := write_boot_marker image region o in
  (if in_time then r else Err (Transient "no response within 10s"), o).

(** ** The forwarder *)
(** [running] until the task has returned; [last_ms] and [disabled] are shared
    with the sink. *)
Record Forwarder := {
  rx : list Stamped; running : bool; last_ms : Z; disabled : bool;
  pending : list (list Stamped); current : list Stamped; backoff : Z; next_attempt : Z;
  linger_until : option Z; fwd_reported : Z * Z * Z; next_report : Z; outside : Outside }.
(** [Instant::now()], where the loop reads it. *)
Record Instants := { at_receive : Z; at_linger : Z; at_attempt : Z; at_refusal : Z; at_report : Z; at_reported : Z }.
Definition forward_new (marker : option string) (t : Z) (o : Outside) : Forwarder :=
  let '(pending, o) := match marker with
    | Some m => let '(now, o) := now_ms o in ([[{| timestamp_ms := now; payload := Runtime m |}]], o)
    | None => ([], o)
    end in
  {| rx := []; running := true; last_ms := 0; disabled := false; pending := pending; current := []; backoff := MIN_BACKOFF;
     next_attempt := t; linger_until := None; fwd_reported := (0, 0, 0); next_report := t + DROP_REPORT_INTERVAL; outside := o |}.
Definition set_outside (o : Outside) (s : Forwarder) : Forwarder :=
  {| rx := rx s; running := running s; last_ms := last_ms s; disabled := disabled s; pending := pending s; current := current s;
     backoff := backoff s; next_attempt := next_attempt s; linger_until := linger_until s; fwd_reported := fwd_reported s;
     next_report := next_report s; outside := o |}.
(** [CloudWatchLogSink::emit]: a stamp that never goes back, and the record in
    the queue or counted. *)
Definition sink_emit (r : GuestLogRecord) (now : Z) (s : Forwarder) : Forwarder :=
  let stamp := Z.max (last_ms s) now in
  let room := running s && (len (rx s) <? TRANSPORT_QUEUE_CAPACITY) in
  {| rx := if room then rx s ++ [{| timestamp_ms := stamp; payload := Guest r |}] else rx s;
     running := running s; last_ms := stamp; disabled := disabled s; pending := pending s; current := current s;
     backoff := backoff s; next_attempt := next_attempt s; linger_until := linger_until s; fwd_reported := fwd_reported s;
     next_report := next_report s; outside := if room then outside s else count (count_records 1) (outside s) |}.
(** Until when the loop sleeps. *)
Definition wake (s : Forwarder) : Z :=
  let w := next_report s in
  let w := match current s, linger_until s with _ :: _, Some at_ => Z.min w at_ | _, _ => w end in
  if negb (bool_decide (pending s = [])) && negb (disabled s) then Z.min w (next_attempt s) else w.
(** What ends the wait: a record, the end of the senders, the time, the stop. *)
Inductive woken := Got | Senders_gone | Slept | Stopping.
Definition stops (w : woken) : bool := match w with Senders_gone | Stopping => true | _ => false end.
Definition receive (w : woken) (t : Instants) (s : Forwarder) : Forwarder :=
  let take q c l :=
    {| rx := q; running := running s; last_ms := last_ms s; disabled := disabled s; pending := pending s; current := c;
       backoff := backoff s; next_attempt := next_attempt s; linger_until := l; fwd_reported := fwd_reported s;
       next_report := next_report s; outside := outside s |} in
  match w, rx s with
  | Got, r :: q => take q (current s ++ [r]) (if decide (current s = []) then Some (at_receive t + BATCH_LINGER) else linger_until s)
  | (Senders_gone | Stopping), q => take [] (current s ++ q) (linger_until s)
  | _, _ => s
  end.
(** A batch at the end of the deque, the oldest of which makes room. *)
Definition push_batch (batch : list Stamped) (p : list (list Stamped)) (o : Outside) : list (list Stamped) * Outside :=
  let '(p, o) := if decide (MAX_PENDING_BATCHES <= length p)%nat then (tail p, count (count_batches 1) o) else (p, o) in
  (p ++ [batch], o).
(** [fuel] bounds the batches; the records are enough of it. *)
Fixpoint seal_batches (fuel : nat) (all : bool) (c : list Stamped) (p : list (list Stamped)) (o : Outside) :
    list Stamped * list (list Stamped) * Outside :=
  match fuel with
  | O => (c, p, o)
  | S fuel =>
      if bool_decide (MAX_BATCH_RECORDS <= length c)%nat || (all && negb (bool_decide (c = []))) then
        let n := (length c `min` MAX_BATCH_RECORDS)%nat in
        let '(p, o) := push_batch (take n c) p o in seal_batches fuel all (drop n c) p o
      else (c, p, o)
  end.
Definition linger_expired (t : Instants) (s : Forwarder) : bool :=
  match linger_until s with Some at_ => at_ <=? at_linger t | None => false end.
Definition seal (stopped : bool) (t : Instants) (s : Forwarder) : Forwarder :=
  let '(c, p, o) := seal_batches (length (current s)) (stopped || linger_expired t s) (current s) (pending s) (outside s) in
  {| rx := rx s; running := running s; last_ms := last_ms s; disabled := disabled s; pending := p; current := c;
     backoff := backoff s; next_attempt := next_attempt s; linger_until := if decide (c = []) then None else linger_until s;
     fwd_reported := fwd_reported s; next_report := next_report s; outside := o |}.
Definition delivered_to (p : list (list Stamped)) (off : bool) (b next : Z) (o : Outside) (s : Forwarder) : Forwarder :=
  {| rx := rx s; running := running s; last_ms := last_ms s; disabled := off; pending := p; current := current s;
     backoff := b; next_attempt := next; linger_until := linger_until s; fwd_reported := fwd_reported s;
     next_report := next_report s; outside := o |}.
Definition attempt (t : Instants) (s : Forwarder) : Forwarder :=
  if negb (disabled s) && (next_attempt s <=? at_attempt t) && negb (bool_decide (pending s = [])) then
    match deliver (pending s) (outside s) with
    | (Ok _, (p, o)) => delivered_to p (disabled s) MIN_BACKOFF (next_attempt s) o s
    | (Err (Definitive _), (p, o)) =>
        delivered_to [] true (backoff s) (next_attempt s) (count (count_batches (len p)) o) s
    | (Err (Transient _), (p, o)) =>
        delivered_to p (disabled s) (Z.min (backoff s * 2) MAX_BACKOFF) (at_refusal t + backoff s) o s
    end
  else s.
Definition fwd_report (s : Forwarder) : Z * Z * Z :=
  (d_records (counts (outside s)), d_batches (counts (outside s)), d_rejected (counts (outside s))).
Definition report_due (t : Instants) (s : Forwarder) : Forwarder :=
  if next_report s <=? at_report t then
    {| rx := rx s; running := running s; last_ms := last_ms s; disabled := disabled s; pending := pending s; current := current s;
       backoff := backoff s; next_attempt := next_attempt s; linger_until := linger_until s; fwd_reported := fwd_report s;
       next_report := at_reported t + DROP_REPORT_INTERVAL; outside := outside s |}
  else s.
(** The last delivery, after the loop. *)
Definition finish_forward (s : Forwarder) : Forwarder :=
  let '(p, o) := if negb (bool_decide (pending s = [])) && negb (disabled s)
                 then (deliver (pending s) (outside s)).2 else (pending s, outside s) in
  {| rx := []; running := false; last_ms := last_ms s; disabled := disabled s; pending := p; current := current s;
     backoff := backoff s; next_attempt := next_attempt s; linger_until := linger_until s; fwd_reported := fwd_report (set_outside o s);
     next_report := next_report s; outside := o |}.
(** A pass of the loop, and what follows the last. *)
Definition pass (w : woken) (t : Instants) (s : Forwarder) : Forwarder :=
  report_due t (attempt t (seal (stops w) t (receive w t (set_outside (count woke (outside s)) s)))).
Inductive event := Emitted (r : GuestLogRecord) (now : Z) | Turned (w : woken) (t : Instants).
(** A wait does not end with a record or with the end of the senders while the
    queue is empty, or not. *)
Definition possible (w : woken) (s : Forwarder) : bool :=
  match w, rx s with Got, [] | Senders_gone, _ :: _ => false | _, _ => true end.
Definition step (e : event) (s : Forwarder) : Forwarder :=
  match e with
  | Emitted r now => sink_emit r now s
  | Turned w t =>
      if running s && possible w s then
        let s := pass w t s in if stops w then finish_forward s else s
      else s
  end.
Definition run (es : list event) (s : Forwarder) : Forwarder := foldl (λ s e, step e s) s es.
End forward.

(** ** The answers of CloudWatch *)
(** What a successful response says of the events it refused: the start of those
    too new, the end of those too old, the end of those expired; [i32] as
    [usize]. *)
Definition as_usize (i : Z) : Z := i mod 2 ^ 64.
Definition put_outcome (sent : Z) (info : option (option Z * option Z * option Z)) : PutOutcome :=
  let rejected := match info with
    | Some (too_new, too_old, expired) =>
        let too_new := match too_new with Some i => saturating_sub sent (as_usize i) | None => 0 end in
        Z.min (wrapping_add too_new (Z.max (as_usize (default 0 too_old)) (as_usize (default 0 expired)))) sent
    | None => 0
    end in
  {| accepted := sent - rejected; rejected := rejected |}.
(** By the service's own code, with the error's text. *)
Definition classify (code : option string) (text : string) : PutError :=
  let m := default "unknown" code +:+ ": " +:+ text in
  match code with
  | Some c => if decide (c ∈ ["ResourceNotFoundException"; "AccessDeniedException"; "AccessDenied"]) then Definitive m else Transient m
  | None => Transient m
  end.
