(* ===== verification/ForwardProps.v ===== *)
(** * Guest logs on their way: what a call holds, and what is sent when *)
From S2P Require Import Prelude Text Policy Logs Forward.

Definition cost (e : InputLogEvent) : Z := strlen (event_message e) + EVENT_OVERHEAD.
Definition costs (es : list InputLogEvent) : Z := foldr (λ e n, cost e + n) 0 es.
Lemma costs_snoc es e : costs (es ++ [e]) = costs es + cost e.
Proof.
  induction es as [|x es IH]; [cbn; lia|]. change (cost x + costs (es ++ [e]) = cost x + costs es + cost e). lia.
Qed.
Lemma cost_pos e : 0 < cost e.
Proof. unfold cost, strlen, EVENT_OVERHEAD. lia. Qed.
(** What CloudWatch accepts in one call. *)
Definition fits (es : list InputLogEvent) : Prop := len es ≤ MAX_PUT_EVENTS ∧ costs es ≤ MAX_PUT_BYTES.
Definition good (es : list InputLogEvent) : Prop := es ≠ [] ∧ fits es.

(** ** Sublists and order *)
Lemma fmap_sublist {A B} (f : A → B) l k : l `sublist_of` k → f <$> l `sublist_of` f <$> k.
Proof. induction 1; cbn; by constructor. Qed.
Lemma sorted_sublist {A} (R : A → A → Prop) l k : l `sublist_of` k → StronglySorted R k → StronglySorted R l.
Proof.
  induction 1 as [|x l k Hs IH|x l k Hs IH]; [done|..]; rewrite ?StronglySorted_cons; intros [Hx Hk]; [|by apply IH].
  split; [|by apply IH]. rewrite Forall_forall in *. intros y Hy. by apply Hx, (sublist_subseteq _ _ Hs).
Qed.
Definition ascending (ts : list Z) : Prop := StronglySorted Z.le ts.

Section forward.
Context `{JsonPrint, Sdk, !SdkLaws}.

Definition event_of (s : Stamped) : InputLogEvent := {| timestamp := timestamp_ms s; event_message := body s |}.
(** A record's event, if it is neither stale nor too large. *)
Definition keep (oldest : Z) (s : Stamped) : option InputLogEvent :=
  if (timestamp_ms s <? oldest) || (MAX_EVENT_BYTES <? strlen (body s)) then None else Some (event_of s).
Lemma keep_fits oldest s e : keep oldest s = Some e → cost e ≤ MAX_EVENT_BYTES + EVENT_OVERHEAD.
Proof.
  unfold keep. destruct (Z.ltb_spec MAX_EVENT_BYTES (strlen (body s))); [by rewrite orb_true_r|].
  destruct (_ <? oldest); [done|]. intros [= <-]. unfold cost. cbn. lia.
Qed.

(** ** The calls of a batch *)
(** The chunks, in order, are the events of the pieces that [p] is made of
    before [r]. *)
Inductive tiles (oldest : Z) : list Chunk → list Stamped → list Stamped → Prop :=
  | tiles_nil p : tiles oldest [] p p
  | tiles_cons c cs a p r : length a = consumed c → events c = omap (keep oldest) a → good (events c) →
      tiles oldest cs p r → tiles oldest (c :: cs) (a ++ p) r.
Lemma tiles_extend oldest cs p r x : tiles oldest cs p r → tiles oldest cs (p ++ x) (r ++ x).
Proof. induction 1; [constructor|]. rewrite <-app_assoc. by constructor. Qed.
Lemma tiles_seal oldest cs p r c : tiles oldest cs p r → length r = consumed c → events c = omap (keep oldest) r →
  good (events c) → tiles oldest (cs ++ [c]) p [].
Proof.
  induction 1 as [p|c' cs a p r Hl He Hg _ IH]; intros Hr Hv Hok; cbn [app].
  - rewrite <-(app_nil_r p). constructor; try done. constructor.
  - constructor; auto.
Qed.
(** What the loop over the records keeps true of those it has read. *)
Definition chunking (oldest : Z) (p : list Stamped) (s : Chunking) : Prop := ∃ r,
  tiles oldest (chunks s) p r ∧ filling s = omap (keep oldest) r ∧ (sealed s + length r = length p)%nat ∧
  size s = costs (filling s) ∧ fits (filling s) ∧ (dropped s + length (omap (keep oldest) p) = length p)%nat.
Lemma omap_snoc_Some {A B} (f : A → option B) l x y : f x = Some y → omap f (l ++ [x]) = omap f l ++ [y].
Proof. intros E. rewrite omap_app. cbn. by rewrite E. Qed.
Lemma omap_snoc_None {A B} (f : A → option B) l x : f x = None → omap f (l ++ [x]) = omap f l.
Proof. intros E. rewrite omap_app. cbn. by rewrite E, app_nil_r. Qed.
Lemma chunking_drop oldest p s x : keep oldest x = None → chunking oldest p s → chunking oldest (p ++ [x]) (drop_one s).
Proof.
  intros Hx (r & Ht & Hf & Hs & Hz & Hok & Hd). exists (r ++ [x]). cbn.
  rewrite !omap_snoc_None, !length_app by done. cbn. split_and!; try done; try lia. by apply tiles_extend.
Qed.
Lemma chunking_seal oldest p s : filling s ≠ [] → chunking oldest p s → chunking oldest p (seal_chunk (length p) s).
Proof.
  intros Hne (r & Ht & Hf & Hs & Hz & Hok & Hd). exists []. cbn. split_and!; try done; try lia.
  eapply tiles_seal; [done|cbn; lia|done|by split].
Qed.
Lemma chunking_fill oldest p s x e : keep oldest x = Some e → no_room (cost e) s = false → chunking oldest p s →
  chunking oldest (p ++ [x]) (fill e (cost e) s).
Proof.
  intros Hx Hroom (r & Ht & Hf & Hs & Hz & [Hn Hb] & Hd). pose proof (keep_fits _ _ _ Hx) as Hc. exists (r ++ [x]). cbn.
  rewrite !(omap_snoc_Some _ _ _ _ Hx), !length_app, costs_snoc, Hf. cbn. split_and!; try lia; [by apply tiles_extend|done|congruence|].
  rewrite <-Hf. unfold fits. rewrite costs_snoc. unfold len in *. rewrite length_app. cbn. rewrite <-Hz.
  unfold no_room in Hroom. apply andb_false_iff in Hroom as [He|He].
  - apply negb_false_iff, bool_decide_eq_true in He. rewrite Hz, He in *. cbn. unfold MAX_PUT_EVENTS, MAX_PUT_BYTES, MAX_EVENT_BYTES, EVENT_OVERHEAD in *. lia.
  - apply orb_false_iff in He as [He1 He2]. unfold len in He2. split; [apply Z.leb_gt in He2|apply Z.ltb_ge in He1]; lia.
Qed.
Lemma chunking_one oldest p s x : chunking oldest p s → chunking oldest (p ++ [x]) (chunk_one oldest (length p) x s).
Proof.
  intros Hc. unfold chunk_one. destruct (timestamp_ms x <? oldest) eqn:E1.
  { apply chunking_drop; [|done]. unfold keep. by rewrite E1. }
  destruct (MAX_EVENT_BYTES <? strlen (body x)) eqn:E2.
  { apply chunking_drop; [|done]. unfold keep. by rewrite E2, orb_true_r. }
  rewrite build_is. change (strlen (body x) + EVENT_OVERHEAD) with (cost (event_of x)).
  assert (keep oldest x = Some (event_of x)) as Hx by (unfold keep; by rewrite E1, E2).
  destruct (no_room (cost (event_of x)) s) eqn:Hn; apply chunking_fill; try done.
  apply chunking_seal; [|done]. intros E. unfold no_room in Hn. by rewrite E in Hn.
Qed.
Lemma chunking_from oldest rs p s : chunking oldest p s → chunking oldest (p ++ rs) (chunk_from oldest (length p) rs s).
Proof.
  revert p s. induction rs as [|x rs IH]; intros p s Hc; cbn [chunk_from]; [by rewrite app_nil_r|].
  rewrite (app_assoc p [x] rs : p ++ x :: rs = _). replace (S (length p)) with (length (p ++ [x])) by (rewrite length_app; cbn; lia).
  by apply IH, chunking_one.
Qed.
Lemma chunking_start oldest : chunking oldest [] chunking_new.
Proof. exists []. split_and!; try done. constructor. Qed.
(** The events of a batch's records that are kept, in calls the service takes:
    the chunks tile the batch up to records that are not sent. *)
Lemma put_chunks_tiles rs now cs n : put_chunks rs now = (cs, n) → ∃ r,
  tiles (now - MAX_RECORD_AGE) cs rs r ∧ omap (keep (now - MAX_RECORD_AGE)) r = [] ∧
  (n + length (omap (keep (now - MAX_RECORD_AGE)) rs) = length rs)%nat.
Proof.
  unfold put_chunks. set (oldest := now - MAX_RECORD_AGE). pose proof (chunking_from oldest rs [] _ (chunking_start oldest)) as Hc.
  cbn [app length] in Hc. set (s := chunk_from oldest 0 rs chunking_new) in *. destruct Hc as (r & Ht & Hf & Hs & Hz & Hok & Hd).
  destruct (decide (filling s = [])) as [E|E]; intros [= <- <-].
  - exists r. split_and!; try done; congruence.
  - exists []. split_and!; try done. eapply tiles_seal; [done|cbn; lia|done|by split].
Qed.

(** ** Delivery *)
(** What the calls that were answered with success held. *)
Definition landed (cs : calls_t) : list InputLogEvent :=
  concat ((λ '(es, r), match r with Ok _ => es | Err _ => [] end) <$> cs).
Lemma landed_app a b : landed (a ++ b) = landed a ++ landed b.
Proof. unfold landed. by rewrite fmap_app, concat_app. Qed.
Definition all_events (ps : list (list Stamped)) : list InputLogEvent := event_of <$> concat ps.
Lemma keeps_sublist oldest rs : omap (keep oldest) rs `sublist_of` event_of <$> rs.
Proof.
  induction rs as [|x rs IH]; [done|]. cbn. unfold keep at 1. destruct (_ || _); by constructor.
Qed.
Lemma drop_piece {A} n (a p : list A) : length a = n → drop (n `min` length (a ++ p)) (a ++ p) = p.
Proof. intros <-. rewrite length_app, Nat.min_l by lia. apply drop_app_length. Qed.
Context (answer : calls_t → list InputLogEvent → answer_t) (wall : nat → Z).

Lemma send_chunks_spec oldest cs batch r o res left o' : tiles oldest cs batch r →
  send_chunks answer cs batch o = (res, (left, o')) → ∃ new, calls o' = calls o ++ new ∧ readings o' = readings o ∧ left `sublist_of` batch ∧
    landed new ++ (event_of <$> left) `sublist_of` event_of <$> batch ∧
    Forall (λ c, good c.1 ∧ c.1 `sublist_of` event_of <$> batch) new ∧
    (is_ok res → landed new ++ omap (keep oldest) r = omap (keep oldest) batch).
Proof.
  intros Ht. revert o. induction Ht as [p|c cs a p r Hl He Hg _ IH]; intros o; cbn [send_chunks].
  { intros [= <- <- <-]. exists []. rewrite app_nil_r. by split_and!. }
  destruct (decide (events c = [])) as [E|_]; [by destruct Hg|]. rewrite (drop_piece _ a p Hl). unfold put. cbn [fst snd].
  assert (Forall (λ c, good c.1 ∧ c.1 `sublist_of` event_of <$> a ++ p) [(events c, answer (calls o) (events c))]) as Hc.
  { constructor; [|constructor]. split; [done|]. cbn. rewrite He, fmap_app. apply sublist_inserts_r, keeps_sublist. }
  destruct (answer (calls o) (events c)) as [oc|e].
  - set (o1 := if 0 <? rejected oc then _ else _). intros E. destruct (IH _ E) as (new & Ec & Er & Hl' & Hs & Hn & Hok).
    exists ((events c, Ok oc) :: new). rewrite Ec, Er. split_and!.
    + unfold o1. by destruct (0 <? rejected oc); cbn; rewrite <-app_assoc.
    + unfold o1. by destruct (0 <? rejected oc).
    + by apply sublist_inserts_l.
    + change (landed ((events c, Ok oc) :: new)) with (events c ++ landed new). rewrite <-app_assoc, fmap_app, He.
      apply sublist_app; [apply keeps_sublist|done].
    + apply (Forall_app_2 _ [_]); [done|]. eapply Forall_impl; [exact Hn|]. intros x [Hx1 Hx2]. split; [done|].
      rewrite fmap_app. by apply sublist_inserts_l.
    + intros Hk. change (landed ((events c, Ok oc) :: new)) with (events c ++ landed new).
      by rewrite <-app_assoc, (Hok Hk), He, omap_app.
  - intros [= <- <- <-]. exists [(events c, Err e)]. by split_and!.
Qed.
(** The events of what is pending that are fresh and fit, the clock read once for
    each batch. *)
Fixpoint fresh (ps : list (list Stamped)) (n : nat) : list InputLogEvent :=
  match ps with [] => [] | p :: ps => omap (keep (wall n - MAX_RECORD_AGE)) p ++ fresh ps (S n) end.
Lemma deliver_spec ps o res left o' : deliver answer wall ps o = (res, (left, o')) → ∃ new,
  calls o' = calls o ++ new ∧
  landed new ++ all_events left `sublist_of` all_events ps ∧
  Forall (λ q, ∃ p, p ∈ ps ∧ q `sublist_of` p) left ∧ (length left ≤ length ps)%nat ∧
  Forall (λ c, good c.1 ∧ ∃ p, p ∈ ps ∧ c.1 `sublist_of` event_of <$> p) new ∧
  (is_ok res → left = [] ∧ landed new = fresh ps (readings o)).
Proof.
  revert o. induction ps as [|p ps IH]; intros o; cbn [deliver].
  { intros [= <- <- <-]. exists []. rewrite app_nil_r. by split_and!. }
  unfold now_ms. cbv beta iota. destruct (put_chunks p (wall (readings o))) as [cs stale] eqn:Ep.
  destruct (put_chunks_tiles _ _ _ _ Ep) as (r & Ht & Hr & _). set (o1 := if decide (0 < stale)%nat then _ else _).
  assert (calls o1 = calls o ∧ readings o1 = S (readings o)) as [Ho1 Ho2] by (unfold o1; by destruct (decide _)).
  destruct (send_chunks answer cs p o1) as [res1 [left1 o2]] eqn:Es.
  destruct (send_chunks_spec _ _ _ _ _ _ _ _ Ht Es) as (new & Hc & Hrd & Hl & Hs & Hn & Hok).
  assert (Forall (λ c, good c.1 ∧ ∃ q, q ∈ p :: ps ∧ c.1 `sublist_of` event_of <$> q) new) as Hn'.
  { eapply Forall_impl; [exact Hn|]. intros x [Hx1 Hx2]. split; [done|]. exists p. split; [by left|done]. }
  unfold all_events in *. rewrite concat_cons, fmap_app. destruct res1 as [u|e].
  - intros E. destruct (IH _ E) as (new2 & Hc2 & Hs2 & Hl2 & Hll2 & Hn2 & Hok2). exists (new ++ new2). rewrite landed_app, Hc2, Hc, Ho1. split_and!.
    + by rewrite app_assoc.
    + rewrite <-app_assoc. apply sublist_app; [|done]. etrans; [|exact Hs]. by apply sublist_inserts_r.
    + eapply Forall_impl; [exact Hl2|]. intros q (q' & Hq & Hq2). exists q'. split; [by right|done].
    + cbn. lia.
    + apply Forall_app_2; [done|]. eapply Forall_impl; [exact Hn2|]. intros x (Hx & q & Hq & Hx2). split; [done|].
      exists q. split; [by right|done].
    + intros Hk. destruct (Hok2 Hk) as [-> ->]. split; [done|]. rewrite Hrd, Ho2. cbn [fresh]. f_equal.
      rewrite <-(Hok I), Hr. by rewrite app_nil_r.
  - intros [= <- <- <-]. exists new. split_and!; [by rewrite Hc, Ho1| | |done|done|done].
    + rewrite concat_cons, fmap_app, app_assoc. by apply sublist_app.
    + constructor; [exists p; split; [by left|done]|]. apply Forall_forall. intros q Hq. exists q. split; [by right|done].
Qed.

(** ** The loop *)
Definition batch_ok (p : list Stamped) : Prop := ascending (timestamp_ms <$> p) ∧ (length p ≤ MAX_BATCH_RECORDS)%nat.
Lemma push_batch_spec b p o p' o' : push_batch b p o = (p', o') → calls o' = calls o ∧
  all_events p' `sublist_of` all_events p ++ (event_of <$> b) ∧
  (batch_ok b → Forall batch_ok p → Forall batch_ok p') ∧
  ((length p ≤ MAX_PENDING_BATCHES)%nat → (length p' ≤ MAX_PENDING_BATCHES)%nat).
Proof.
  unfold push_batch, all_events. destruct (decide _) as [Hl|Hl]; intros [= <- <-];
    rewrite concat_app, fmap_app, length_app; cbn [concat length]; rewrite app_nil_r; split_and!; try done.
  - apply sublist_app; [|done]. apply fmap_sublist. destruct p as [|q p]; [done|]. by apply sublist_inserts_l.
  - intros Hb Hp. apply Forall_app_2; [|by constructor]. destruct p; [done|]. by inversion Hp.
  - destruct p; unfold MAX_PENDING_BATCHES in *; cbn [tail length] in *; lia.
  - intros Hb Hp. apply Forall_app_2; [done|by constructor].
  - lia.
Qed.
Lemma seal_batches_spec fuel all c p o c' p' o' : (length c ≤ fuel)%nat → seal_batches fuel all c p o = (c', p', o') →
  calls o' = calls o ∧ (length c' < MAX_BATCH_RECORDS)%nat ∧ (all = true → c' = []) ∧ c' `sublist_of` c ∧
  all_events p' ++ (event_of <$> c') `sublist_of` all_events p ++ (event_of <$> c) ∧
  (ascending (timestamp_ms <$> c) → Forall batch_ok p → Forall batch_ok p') ∧
  ((length p ≤ MAX_PENDING_BATCHES)%nat → (length p' ≤ MAX_PENDING_BATCHES)%nat).
Proof.
  revert c p o. induction fuel as [|fuel IH]; intros c p o Hf; cbn [seal_batches].
  { destruct c; [|cbn in Hf; lia]. intros [= <- <- <-]. split_and!; try done. cbn. unfold MAX_BATCH_RECORDS. lia. }
  destruct (bool_decide (MAX_BATCH_RECORDS ≤ length c)%nat || _) eqn:Ec.
  - set (n := (length c `min` MAX_BATCH_RECORDS)%nat). destruct (push_batch (take n c) p o) as [p1 o1] eqn:Ep.
    assert (c ≠ []) as Hc.
    { intros ->. by rewrite andb_false_r in Ec. }
    assert (0 < n ≤ MAX_BATCH_RECORDS)%nat as Hn by (destruct c; [done|]; unfold n, MAX_BATCH_RECORDS; cbn [length]; lia).
    intros E. apply IH in E as (M1 & M2 & M3 & M4 & M5 & M6 & M7); [|rewrite length_drop; destruct c; [done|]; cbn [length] in *; lia].
    destruct (push_batch_spec _ _ _ _ _ Ep) as (K1 & K2 & K3 & K4). split_and!; try done.
    + by rewrite M1.
    + etrans; [exact M4|apply sublist_drop].
    + etrans; [exact M5|]. rewrite <-(take_drop n c) at 2. rewrite fmap_app, app_assoc. by apply sublist_app.
    + intros Ha Hp. apply M6; [eapply sorted_sublist; [apply fmap_sublist, sublist_drop|done]|]. apply K3; [|done]. split.
      * eapply sorted_sublist; [apply fmap_sublist, sublist_take|done].
      * rewrite length_take. lia.
    + auto.
  - apply orb_false_iff in Ec as [E1 E2]. apply bool_decide_eq_false in E1. intros [= <- <- <-]. split_and!; try done; [lia|].
    intros ->. cbn in E2. by apply negb_false_iff, bool_decide_eq_true in E2.
Qed.

(** ** What the loop keeps true *)
Definition held (s : Forwarder) : list Stamped := current s ++ rx s.
(** [inputs], the records so far: in the calls that succeeded, pending, gathered
    or queued, each once and in order; and the limits. *)
Record ordered (inputs : list Stamped) (s : Forwarder) : Prop := {
  ord_once : landed (calls (outside s)) ++ all_events (pending s) ++ (event_of <$> held s) `sublist_of` event_of <$> inputs;
  ord_held : ascending (timestamp_ms <$> held s);
  ord_last : Forall (λ r, timestamp_ms r ≤ last_ms s) (held s);
  ord_batches : Forall batch_ok (pending s) ∧ (length (pending s) ≤ MAX_PENDING_BATCHES)%nat;
  ord_calls : Forall (λ c, good c.1 ∧ ascending (timestamp <$> c.1)) (calls (outside s));
  ord_queue : len (rx s) ≤ TRANSPORT_QUEUE_CAPACITY }.
Lemma ascending_snoc ts t : ascending ts → Forall (λ u, u ≤ t) ts → ascending (ts ++ [t]).
Proof.
  intros Ha Hl. apply StronglySorted_app. split_and!; [|done|by repeat constructor].
  intros x y Hx Hy. apply list_elem_of_singleton in Hy as ->. rewrite Forall_forall in Hl. by apply Hl.
Qed.
Lemma ordered_emit ins r now s : ordered ins s →
  ordered (ins ++ [{| timestamp_ms := Z.max (last_ms s) now; payload := Guest r |}]) (sink_emit r now s).
Proof.
  intros [Ho Hh Hl Hb Hc Hq]. unfold sink_emit. set (x := {| timestamp_ms := _; payload := _ |}).
  assert (Forall (λ y, timestamp_ms y ≤ Z.max (last_ms s) now) (held s)) as Hl'.
  { eapply Forall_impl; [exact Hl|]. cbn. intros. lia. }
  destruct (running s && _) eqn:E; split; unfold held in *; cbn; try done.
  - rewrite !fmap_app in *. cbn. rewrite !app_assoc in *. by apply sublist_app.
  - rewrite app_assoc, fmap_app. apply ascending_snoc; [done|]. by apply Forall_fmap.
  - rewrite app_assoc. apply Forall_app_2; [done|]. constructor; [cbn; lia|constructor].
  - apply andb_true_iff in E as [_ E]. unfold len in *. rewrite length_app. cbn. apply Z.ltb_lt in E. lia.
  - rewrite (fmap_app _ ins). by apply sublist_inserts_r.
Qed.
Lemma ordered_receive ins w t s : ordered ins s → ordered ins (receive w t s).
Proof.
  intros [Ho Hh Hl Hb Hc Hq]. unfold receive. unfold held, TRANSPORT_QUEUE_CAPACITY, len in *.
  destruct w, (rx s) as [|r q] eqn:E; split; unfold held; cbn; rewrite ?E, ?app_nil_r, <-?app_assoc in *; cbn in *; try done; unfold len, TRANSPORT_QUEUE_CAPACITY; lia.
Qed.
Lemma ordered_seal ins b t s : ordered ins s → ordered ins (seal b t s) ∧ (length (current (seal b t s)) < MAX_BATCH_RECORDS)%nat.
Proof.
  intros [Ho Hh Hl [Hb Hb'] Hc Hq]. unfold seal. destruct (seal_batches _ _ _ _ _) as [[c p] o] eqn:E.
  destruct (seal_batches_spec _ _ _ _ _ _ _ _ (le_n _) E) as (M1 & M2 & M3 & M4 & M5 & M6 & M7).
  assert (c ++ rx s `sublist_of` held s) as Hs by (unfold held; by apply sublist_app).
  split; [|done]. split; unfold held in *; cbn; try done.
  - rewrite M1. etrans; [|exact Ho]. apply sublist_app; [done|]. rewrite !fmap_app, !app_assoc. by apply sublist_app.
  - eapply sorted_sublist; [by apply fmap_sublist|done].
  - rewrite Forall_forall in *. intros x Hx. by apply Hl, (sublist_subseteq _ _ Hs).
  - split; [|by apply M7]. apply M6; [|done]. rewrite fmap_app in Hh. by apply StronglySorted_app_1_l in Hh.
  - by rewrite M1.
Qed.

Lemma batch_ok_sublist p q : q `sublist_of` p → batch_ok p → batch_ok q.
Proof.
  intros Hs [Ha Hn]. split; [eapply sorted_sublist; [by apply fmap_sublist|done]|].
  pose proof (sublist_length _ _ Hs). lia.
Qed.
Lemma call_ascending es p : es `sublist_of` event_of <$> p → batch_ok p → ascending (timestamp <$> es).
Proof.
  intros Hs [Ha _]. eapply sorted_sublist; [apply fmap_sublist; exact Hs|]. rewrite <-list_fmap_compose. exact Ha.
Qed.
Lemma ordered_delivered ins s res left o off b next : ordered ins s →
  deliver answer wall (pending s) (outside s) = (res, (left, o)) → ordered ins (delivered_to left off b next o s).
Proof.
  intros [Ho Hh Hl [Hb Hb'] Hc Hq] E. destruct (deliver_spec _ _ _ _ _ E) as (new & M1 & M2 & M3 & M4 & M5 & _).
  split; unfold held in *; cbn; try done.
  - rewrite M1, landed_app, <-app_assoc. etrans; [|exact Ho]. apply sublist_app; [done|]. rewrite !app_assoc. by apply sublist_app.
  - split; [|lia]. eapply Forall_impl; [exact M3|]. intros q (p & Hp & Hs). rewrite Forall_forall in Hb. by eapply batch_ok_sublist, Hb.
  - rewrite M1. apply Forall_app_2; [done|]. eapply Forall_impl; [exact M5|]. intros x (Hx & p & Hp & Hs). split; [done|].
    rewrite Forall_forall in Hb. by eapply call_ascending, Hb.
Qed.
Lemma ordered_dropped ins s p off b next o : ordered ins (delivered_to p off b next o s) →
  ordered ins (delivered_to [] off b next (count (count_batches (len p)) o) s).
Proof.
  intros [Ho Hh Hl [Hb Hb'] Hc Hq]. split; unfold held in *; cbn in *; try done; [|split; [constructor|lia]].
  etrans; [|exact Ho]. apply sublist_app; [done|]. by apply sublist_inserts_l.
Qed.
Lemma ordered_attempt ins t s : ordered ins s → ordered ins (attempt answer wall t s).
Proof.
  intros Hi. unfold attempt. destruct (negb (disabled s) && _ && _); [|done].
  destruct (deliver answer wall (pending s) (outside s)) as [[u|[e|e]] [p o]] eqn:E;
    [eapply ordered_delivered, E; done..|]. eapply ordered_dropped, ordered_delivered, E. done.
Qed.
(** What does not touch the records. *)
Lemma ordered_same ins s s' : ordered ins s → calls (outside s') = calls (outside s) → pending s' = pending s →
  current s' = current s → rx s' = rx s → last_ms s' = last_ms s → ordered ins s'.
Proof.
  intros [Ho Hh Hl Hb Hc Hq] E1 E2 E3 E4 E5. split; unfold held in *; rewrite ?E1, ?E2, ?E3, ?E4, ?E5; done.
Qed.
Lemma ordered_report ins t s : ordered ins s → ordered ins (report_due t s).
Proof. intros Hi. unfold report_due. destruct (_ <=? _); by eapply ordered_same. Qed.
Lemma current_attempt t s : current (attempt answer wall t s) = current s.
Proof.
  unfold attempt. destruct (negb (disabled s) && _ && _); [|done].
  by destruct (deliver answer wall (pending s) (outside s)) as [[u|[e|e]] [p o]].
Qed.
Lemma current_report t s : current (report_due t s) = current s.
Proof. unfold report_due. by destruct (_ <=? _). Qed.
Lemma ordered_pass ins w t s : ordered ins s →
  ordered ins (pass answer wall w t s) ∧ (length (current (pass answer wall w t s)) < MAX_BATCH_RECORDS)%nat.
Proof.
  intros Hi. unfold pass. rewrite current_report, current_attempt.
  destruct (ordered_seal ins (stops w) t (receive w t (set_outside (count woke (outside s)) s))) as [Hs Hn].
  { apply ordered_receive. by eapply ordered_same. }
  split; [|done]. by apply ordered_report, ordered_attempt.
Qed.
Lemma ordered_finish ins s : ordered ins s → ordered ins (finish_forward answer wall s).
Proof.
  intros Hi. unfold finish_forward. destruct (negb _ && negb _).
  - destruct (deliver answer wall (pending s) (outside s)) as [res [p o]] eqn:E. cbn [snd].
    pose proof (ordered_delivered _ _ _ _ _ (disabled s) (backoff s) (next_attempt s) Hi E) as [Ho Hh Hl Hb Hc Hq].
    unfold held in *. cbn in *. split; unfold held; cbn; try done.
    + etrans; [|exact Ho]. rewrite app_nil_r, fmap_app, !app_assoc. by apply sublist_inserts_r.
    + rewrite app_nil_r. rewrite fmap_app in Hh. by apply StronglySorted_app_1_l in Hh.
    + rewrite app_nil_r. by apply Forall_app in Hl as [? _].
  - destruct Hi as [Ho Hh Hl Hb Hc Hq]. unfold held in *. split; unfold held; cbn; try done.
    + etrans; [|exact Ho]. rewrite app_nil_r, fmap_app, !app_assoc. by apply sublist_inserts_r.
    + rewrite app_nil_r. rewrite fmap_app in Hh. by apply StronglySorted_app_1_l in Hh.
    + rewrite app_nil_r. by apply Forall_app in Hl as [? _].
Qed.

(** ** Every run *)
(** The records of a run, with the stamps that the sink gives them. *)
Fixpoint stamped (last : Z) (es : list event) : list Stamped :=
  match es with
  | [] => []
  | Emitted r now :: es => {| timestamp_ms := Z.max last now; payload := Guest r |} :: stamped (Z.max last now) es
  | Turned _ _ :: es => stamped last es
  end.
Definition outside_new : Outside :=
  {| calls := []; readings := 0; counts := {| wakeups := 0; d_records := 0; d_batches := 0; d_rejected := 0 |} |}.
Definition begin (marker : option string) (t : Z) : Forwarder := forward_new wall marker t outside_new.
Lemma receive_same w t s : last_ms (receive w t s) = last_ms s ∧ disabled (receive w t s) = disabled s ∧
  outside (receive w t s) = outside s ∧ backoff (receive w t s) = backoff s ∧ running (receive w t s) = running s.
Proof. unfold receive. by destruct w, (rx s). Qed.
Lemma seal_same b t s : last_ms (seal b t s) = last_ms s ∧ disabled (seal b t s) = disabled s ∧
  calls (outside (seal b t s)) = calls (outside s) ∧ backoff (seal b t s) = backoff s ∧ running (seal b t s) = running s.
Proof.
  unfold seal. destruct (seal_batches _ _ _ _ _) as [[c p] o] eqn:E.
  by destruct (seal_batches_spec _ _ _ _ _ _ _ _ (le_n _) E) as (M & _).
Qed.
(** A pass before it delivers. *)
Definition ready (w : woken) (t : Instants) (s : Forwarder) : Forwarder :=
  seal (stops w) t (receive w t (set_outside (count woke (outside s)) s)).
Lemma ready_same w t s : last_ms (ready w t s) = last_ms s ∧ disabled (ready w t s) = disabled s ∧
  calls (outside (ready w t s)) = calls (outside s) ∧ backoff (ready w t s) = backoff s ∧ running (ready w t s) = running s.
Proof.
  unfold ready. destruct (seal_same (stops w) t (receive w t (set_outside (count woke (outside s)) s))) as (-> & -> & -> & -> & ->).
  by destruct (receive_same w t (set_outside (count woke (outside s)) s)) as (-> & -> & -> & -> & ->).
Qed.
Lemma last_ms_pass w t s : last_ms (pass answer wall w t s) = last_ms s.
Proof.
  unfold pass, report_due. fold (ready w t s). destruct (ready_same w t s) as (E & _).
  unfold attempt. destruct (deliver _ _ _ _) as [[u|[e|e]] [p o]], (negb _ && _ && _); by destruct (_ <=? _).
Qed.
Lemma running_pass w t s : running (pass answer wall w t s) = running s.
Proof.
  unfold pass, report_due. fold (ready w t s). destruct (ready_same w t s) as (_ & _ & _ & _ & E).
  unfold attempt. destruct (deliver _ _ _ _) as [[u|[e|e]] [p o]], (negb _ && _ && _); by destruct (_ <=? _).
Qed.
Lemma last_ms_turn w t s : last_ms (step answer wall (Turned w t) s) = last_ms s.
Proof.
  cbn [step]. destruct (running s && possible w s); [|done]. destruct (stops w); [|apply last_ms_pass].
  rewrite <-(last_ms_pass w t s). unfold finish_forward. destruct (negb _ && negb _); [by destruct (deliver _ _ _ _) as [? [? ?]]|done].
Qed.
Lemma current_finish s : current (finish_forward answer wall s) = current s.
Proof. unfold finish_forward. destruct (negb _ && negb _); [by destruct (deliver _ _ _ _) as [? [? ?]]|done]. Qed.
Lemma ordered_run es ins s : ordered ins s → (length (current s) < MAX_BATCH_RECORDS)%nat →
  ordered (ins ++ stamped (last_ms s) es) (run answer wall es s) ∧
  (length (current (run answer wall es s)) < MAX_BATCH_RECORDS)%nat.
Proof.
  revert ins s. induction es as [|[r now|w t] es IH]; intros ins s Hi Hn; cbn [stamped run foldl]; [by rewrite app_nil_r|..].
  - rewrite cons_middle, app_assoc. by apply (IH _ (sink_emit r now s)); [apply ordered_emit|].
  - rewrite <-(last_ms_turn w t s). apply IH; cbn [step]; (destruct (running s && possible w s); [|done]);
      destruct (ordered_pass ins w t s Hi) as [Hp Hc]; (destruct (stops w); [|done]); [by apply ordered_finish|by rewrite current_finish].
Qed.
Lemma ordered_begin marker t : ordered (concat (pending (begin marker t))) (begin marker t).
Proof.
  destruct marker as [m|]; split; unfold held; cbn; try done; try (by repeat constructor).
Qed.
(** ** A refusal for good *)
Lemma disabled_pass w t s : disabled s = true → disabled (pass answer wall w t s) = true ∧
  calls (outside (pass answer wall w t s)) = calls (outside s).
Proof.
  intros Hd. unfold pass, report_due. fold (ready w t s). destruct (ready_same w t s) as (_ & E1 & E2 & _). rewrite Hd in E1.
  unfold attempt. rewrite E1. cbn [negb andb]. by destruct (_ <=? _).
Qed.
Lemma disabled_step e s : disabled s = true → disabled (step answer wall e s) = true ∧
  calls (outside (step answer wall e s)) = calls (outside s).
Proof.
  intros Hd. destruct e as [r now|w t]; cbn [step].
  - unfold sink_emit. by destruct (running s && _).
  - destruct (running s && possible w s); [|done]. destruct (disabled_pass w t s Hd) as [E1 E2]. destruct (stops w); [|done].
    unfold finish_forward. rewrite E1. by rewrite andb_false_r.
Qed.
Lemma disabled_run es s : disabled s = true → calls (outside (run answer wall es s)) = calls (outside s).
Proof.
  revert s. induction es as [|e es IH]; intros s Hd; [done|]. destruct (disabled_step e s Hd) as [E1 E2].
  cbn [run foldl]. by rewrite <-E2, <-(IH _ E1).
Qed.
Definition refusal (c : list InputLogEvent * answer_t) : Prop := match c.2 with Err (Definitive _) => True | _ => False end.
Definition unrefused (cs : calls_t) : Prop := Forall (λ c, ¬ refusal c) cs.
(** New calls, the last of which is the refusal exactly if that is the outcome. *)
Definition ends_with (res : result PutError ()) (new : calls_t) : Prop :=
  match res with Err (Definitive _) => ∃ a c, new = a ++ [c] ∧ unrefused a ∧ refusal c | _ => unrefused new end.
Lemma ends_with_app a new res : unrefused a → ends_with res new → ends_with res (a ++ new).
Proof.
  intros Ha. destruct res as [u|[e|e]]; cbn; [by apply Forall_app_2..|]. intros (b & c & -> & Hb & Hc).
  exists (a ++ b), c. rewrite app_assoc. split_and!; [done|by apply Forall_app_2|done].
Qed.
Lemma send_chunks_ends cs batch o res left o' : send_chunks answer cs batch o = (res, (left, o')) →
  ∃ new, calls o' = calls o ++ new ∧ ends_with res new.
Proof.
  revert batch o. induction cs as [|c cs IH]; intros batch o; cbn [send_chunks].
  { intros [= <- <- <-]. exists []. rewrite app_nil_r. split; [done|constructor]. }
  destruct (decide _) as [_|_]; [apply IH|]. unfold put. destruct (answer (calls o) (events c)) as [oc|e] eqn:Ea.
  - set (o1 := if 0 <? rejected oc then _ else _). intros E. apply IH in E as (new & Ec & En).
    assert (calls o1 = calls o ++ [(events c, Ok oc)]) as Eo by (unfold o1; by destruct (0 <? rejected oc)).
    rewrite Ec, Eo, <-app_assoc. eexists. split; [done|]. apply ends_with_app; [|done]. repeat constructor. by intros [].
  - intros [= <- <- <-]. eexists. split; [done|]. destruct e as [e|e].
    + repeat constructor. by intros [].
    + exists [], (events c, Err (Definitive e)). split_and!; [done|constructor|done].
Qed.
Lemma deliver_ends ps o res left o' : deliver answer wall ps o = (res, (left, o')) →
  ∃ new, calls o' = calls o ++ new ∧ ends_with res new.
Proof.
  revert o. induction ps as [|p ps IH]; intros o; cbn [deliver].
  { intros [= <- <- <-]. exists []. rewrite app_nil_r. split; [done|constructor]. }
  unfold now_ms. cbv beta iota. destruct (put_chunks p (wall (readings o))) as [cs stale].
  set (o1 := if decide (0 < stale)%nat then _ else _). assert (calls o1 = calls o) as Eo by (unfold o1; by destruct (decide _)).
  destruct (send_chunks answer cs p o1) as [[u|e] [left1 o2]] eqn:Es;
    apply send_chunks_ends in Es as (new & Ec & En); rewrite Eo in Ec.
  - intros E. apply IH in E as (new2 & Ec2 & En2). rewrite Ec2, Ec, <-app_assoc. eexists. split; [done|]. by apply ends_with_app.
  - intros [= <- <- <-]. by exists new.
Qed.
(** A refusal for good, if there was one, is the last call. *)
Definition resigned (s : Forwarder) : Prop :=
  unrefused (calls (outside s)) ∨
  (disabled s = true ∨ running s = false) ∧ ∃ a c, calls (outside s) = a ++ [c] ∧ unrefused a ∧ refusal c.
Lemma resigned_delivered (s s' : Forwarder) res left o : unrefused (calls (outside s)) →
  deliver answer wall (pending s) (outside s) = (res, (left, o)) → calls (outside s') = calls o →
  ((∃ e, res = Err (Definitive e)) → disabled s' = true ∨ running s' = false) → resigned s'.
Proof.
  intros Hu E Ec Hs. destruct (deliver_ends _ _ _ _ _ E) as (new & En & Hn).
  unfold resigned. rewrite Ec, En. pose proof (ends_with_app _ _ _ Hu Hn) as K. destruct res as [u|[e|e]]; [by left..|right].
  split; [by apply Hs; exists e|exact K].
Qed.
Lemma resigned_pass w t s : resigned s → running s = true → resigned (pass answer wall w t s).
Proof.
  intros Hr Hrun. unfold pass, report_due. fold (ready w t s). destruct (ready_same w t s) as (_ & E1 & E2 & _ & E3).
  assert (resigned (ready w t s)) as Hi by (unfold resigned in *; by rewrite E1, E2, E3).
  set (b := ready w t s) in *. assert (resigned (attempt answer wall t b)) as K; [|by destruct (_ <=? _)].
  unfold attempt. destruct (disabled b) eqn:Ed; [done|]. cbn [negb andb]. destruct (_ && _); [|done].
  destruct (deliver answer wall (pending b) (outside b)) as [[u|[e|e]] [p o]] eqn:E;
    (destruct Hi as [Hu|[[Hd|Hd] _]]; [|congruence..]); eapply resigned_delivered; try done; [by intros [? [=]]..|by intros _; left].
Qed.
Lemma resigned_run es s : resigned s → resigned (run answer wall es s).
Proof.
  revert s. induction es as [|e es IH]; intros s Hr; [done|]. apply IH. destruct e as [r now|w t]; cbn [step].
  { unfold sink_emit. by destruct (running s && _). }
  destruct (running s) eqn:Er; [|done]. destruct (possible w s); [|done]. cbn [andb].
  pose proof (resigned_pass w t s Hr Er) as K. destruct (stops w); [|done]. set (b := pass answer wall w t s) in *.
  unfold finish_forward. destruct (negb (bool_decide (pending b = []))), (disabled b) eqn:Ed; cbn [negb andb];
    try (destruct K as [K|[_ K]]; [by left|right; by split; [right|]]).
  destruct (deliver answer wall (pending b) (outside b)) as [res [p o]] eqn:E. cbn [snd].
  destruct K as [K|[[K|K] _]]; [|congruence|].
  - eapply resigned_delivered; [exact K|exact E|done|by right].
  - assert (running b = true) by by unfold b; rewrite running_pass. congruence.
Qed.
(** A deployment mistake is not retried.  In any run, a call that is answered
    with a refusal for good is the last call that the forwarder makes. *)
Theorem refusal_is_last es marker t a c b :
  calls (outside (run answer wall es (begin marker t))) = a ++ c :: b → refusal c → b = [].
Proof.
  assert (resigned (begin marker t)) as K by (left; destruct marker; constructor).
  intros E Hc. destruct (resigned_run es _ K) as [Hu|(_ & a' & c' & E' & Hu & _)].
  - unfold unrefused in Hu. rewrite E, Forall_app, Forall_cons in Hu. naive_solver.
  - rewrite E' in E. destruct b as [|d b _] using rev_ind; [done|]. rewrite app_comm_cons, app_assoc in E.
    apply app_inj_tail in E as [-> _]. unfold unrefused in Hu. rewrite Forall_app, Forall_cons in Hu. naive_solver.
Qed.

(** ** Where every record goes *)
(** Of what is tried when records older than [oldest] are not taken, what is not
    sent, for it is too old or too large. *)
Definition unfit (oldest : Z) (rs : list Stamped) : list Stamped := filter (λ r, keep oldest r = None) rs.
Lemma keep_split oldest rs : event_of <$> rs ≡ₚ omap (keep oldest) rs ++ (event_of <$> unfit oldest rs).
Proof.
  unfold unfit. induction rs as [|x rs IH]; [done|]. rewrite filter_cons. cbn [omap list_omap fmap list_fmap].
  destruct (keep oldest x) as [e|] eqn:E.
  - rewrite decide_False by done. assert (event_of x = e) as -> by (unfold keep in E; destruct (_ || _); by simplify_eq).
    cbn. by constructor.
  - rewrite decide_True by done. cbn [fmap list_fmap]. rewrite IH. by apply Permutation_middle.
Qed.
(** The calls of a batch take a part off its front, of which they hold what is
    fit; all of it, up to what is not, when they all succeed. *)
Lemma send_chunks_exact oldest cs batch r o res left o' : tiles oldest cs batch r →
  send_chunks answer cs batch o = (res, (left, o')) → ∃ new a, calls o' = calls o ++ new ∧ readings o' = readings o ∧
    batch = a ++ left ∧ landed new = omap (keep oldest) a ∧ (is_ok res → left = r).
Proof.
  intros Ht. revert o. induction Ht as [p|c cs a p r Hl He Hg _ IH]; intros o; cbn [send_chunks].
  { intros [= <- <- <-]. exists [], []. by rewrite app_nil_r. }
  destruct (decide (events c = [])) as [E|_]; [by destruct Hg|]. rewrite (drop_piece _ a p Hl). unfold put. cbn [fst snd].
  destruct (answer (calls o) (events c)) as [oc|e].
  - set (o1 := if 0 <? rejected oc then _ else _). intros E. destruct (IH _ E) as (new & a' & Ec & Er & -> & Hs & Hok).
    assert (calls o1 = calls o ++ [(events c, Ok oc)] ∧ readings o1 = readings o) as [K1 K2]
      by (unfold o1; by destruct (0 <? rejected oc)).
    exists ((events c, Ok oc) :: new), (a ++ a'). rewrite Ec, Er, K1, K2, <-!app_assoc, omap_app, <- Hs, <- He. by split_and!.
  - intros [= <- <- <-]. by exists [(events c, Err e)], [].
Qed.
(** A delivery takes pieces off the front of what is pending, each at a reading of
    the clock, and the calls hold what of each is fit. *)
Definition sent_of (ps : list (Z * list Stamped)) : list InputLogEvent := concat ((λ q : Z * list Stamped, omap (keep q.1) q.2) <$> ps).
Lemma deliver_exact ps o res left o' : deliver answer wall ps o = (res, (left, o')) → ∃ new pieces,
  calls o' = calls o ++ new ∧ concat ps = concat pieces.*2 ++ concat left ∧ landed new = sent_of pieces ∧
  Forall (λ q, ∃ m, (readings o ≤ m < readings o')%nat ∧ q.1 = wall m - MAX_RECORD_AGE) pieces ∧
  (readings o ≤ readings o')%nat.
Proof.
  revert o. induction ps as [|p ps IH]; intros o; cbn [deliver].
  { intros [= <- <- <-]. exists [], []. by rewrite app_nil_r. }
  unfold now_ms. cbv beta iota. destruct (put_chunks p (wall (readings o))) as [cs stale] eqn:Ep.
  destruct (put_chunks_tiles _ _ _ _ Ep) as (r & Ht & Hr & _). set (o1 := if decide (0 < stale)%nat then _ else _).
  assert (calls o1 = calls o ∧ readings o1 = S (readings o)) as [Ho1 Ho2] by (unfold o1; by destruct (decide _)).
  set (oldest := wall (readings o) - MAX_RECORD_AGE) in *.
  destruct (send_chunks answer cs p o1) as [res1 [left1 o2]] eqn:Es.
  destruct (send_chunks_exact _ _ _ _ _ _ _ _ Ht Es) as (new & a & Hc & Hrd & -> & Hs & Hok). destruct res1 as [u|e].
  - intros E. destruct (IH _ E) as (new2 & pieces & Hc2 & Hp2 & Hs2 & Hm2 & Hr2).
    exists (new ++ new2), ((oldest, a ++ left1) :: pieces). rewrite landed_app, Hc2, Hc, Ho1. split_and!.
    + by rewrite app_assoc.
    + rewrite !concat_cons, Hp2. cbn. by rewrite app_assoc.
    + rewrite Hs2, Hs. unfold sent_of. cbn. rewrite omap_app, (Hok I), Hr. by rewrite app_nil_r.
    + constructor; [exists (readings o); split; [lia|done]|]. eapply Forall_impl; [exact Hm2|].
      intros q (m & Hm & Eq). exists m. split; [lia|done].
    + lia.
  - intros [= <- <- <-]. exists new, [(oldest, a)]. rewrite Hc, Ho1. split_and!; [done| | | |lia].
    + rewrite !concat_cons. cbn. by rewrite app_nil_r, app_assoc.
    + rewrite Hs. unfold sent_of. cbn. by rewrite app_nil_r.
    + constructor; [|done]. exists (readings o). split; [lia|done].
Qed.
Lemma pieces_split pieces : event_of <$> concat pieces.*2 ≡ₚ
  sent_of pieces ++ (event_of <$> concat ((λ q, unfit q.1 q.2) <$> pieces)).
Proof.
  unfold sent_of. induction pieces as [|[n q] pieces IH]; [done|]. cbn. rewrite !fmap_app, IH, (keep_split n q). solve_Permutation.
Qed.
(** Batches as they are cut: full but for the last, which is not empty. *)
Fixpoint cut (new : list (list Stamped)) : Prop :=
  match new with
  | [] => True
  | [b] => (0 < length b ≤ MAX_BATCH_RECORDS)%nat
  | b :: new => length b = MAX_BATCH_RECORDS ∧ cut new
  end.
Lemma cut_cons b new : (0 < length b ≤ MAX_BATCH_RECORDS)%nat → (new ≠ [] → length b = MAX_BATCH_RECORDS) → cut new → cut (b :: new).
Proof. destruct new; [done|]. intros _ Hb Hn. split; [by apply Hb|done]. Qed.
Lemma push_batch_exact b p o p' o' : (length p ≤ MAX_PENDING_BATCHES)%nat → push_batch b p o = (p', o') →
  ∃ old, p ++ [b] = old ++ p' ∧ (old ≠ [] → length p' = MAX_PENDING_BATCHES) ∧
    (length p' ≤ MAX_PENDING_BATCHES)%nat ∧ calls o' = calls o ∧ readings o' = readings o.
Proof.
  intros Hp. unfold push_batch. destruct (decide _) as [Hm|Hm]; intros [= <- <-].
  - destruct p as [|q p]; [unfold MAX_PENDING_BATCHES in Hm; cbn in Hm; lia|]. exists [q]. cbn [tail]. rewrite length_app. unfold MAX_PENDING_BATCHES in *. cbn [length] in *. split_and!; try done; lia.
  - exists []. rewrite length_app. cbn. split_and!; try done. unfold MAX_PENDING_BATCHES in *. lia.
Qed.
(** Sealing cuts batches off what was gathered; of all that are pending then the
    last sixteen stay. *)
Lemma seal_batches_exact fuel all c p o c' p' o' : (length c ≤ fuel)%nat → (length p ≤ MAX_PENDING_BATCHES)%nat →
  seal_batches fuel all c p o = (c', p', o') →
  ∃ new old, c = concat new ++ c' ∧ p ++ new = old ++ p' ∧ cut new ∧ (old ≠ [] → length p' = MAX_PENDING_BATCHES) ∧
    calls o' = calls o ∧ readings o' = readings o.
Proof.
  revert c p o. induction fuel as [|fuel IH]; intros c p o Hf Hp; cbn [seal_batches].
  { intros [= <- <- <-]. exists [], []. by rewrite app_nil_r. }
  destruct (bool_decide (MAX_BATCH_RECORDS ≤ length c)%nat || _) eqn:Ec;
    [|intros [= <- <- <-]; exists [], []; by rewrite app_nil_r].
  set (n := (length c `min` MAX_BATCH_RECORDS)%nat).
  assert (c ≠ []) as Hne by (intros ->; by rewrite andb_false_r in Ec).
  assert (0 < length c)%nat as Hl by (destruct c; [done|cbn; lia]).
  assert (0 < n ≤ MAX_BATCH_RECORDS)%nat as Hn by (unfold n, MAX_BATCH_RECORDS; lia).
  destruct (push_batch (take n c) p o) as [p1 o1] eqn:Ep. intros E.
  destruct (push_batch_exact _ _ _ _ _ Hp Ep) as (old1 & E1 & F1 & L1 & C1 & R1).
  assert (length (drop n c) ≤ fuel)%nat as Hd by (rewrite length_drop; lia).
  destruct (IH _ _ _ Hd L1 E) as (new & old & E3 & E2 & Hcut & F2 & C2 & R2).
  exists (take n c :: new), (old1 ++ old). split_and!; [| | | |congruence|congruence].
  - rewrite concat_cons, <-app_assoc, <-E3. by rewrite take_drop.
  - rewrite cons_middle, app_assoc, E1, <-!app_assoc. by rewrite E2.
  - apply cut_cons; [rewrite length_take; lia| |done]. intros Hnew. rewrite length_take.
    assert (length (drop n c) ≠ 0)%nat as Hd0.
    { rewrite E3, length_app. destruct new as [|q new]; [done|]. rewrite concat_cons, length_app.
      destruct new; cbn [cut] in Hcut; unfold MAX_BATCH_RECORDS in *; lia. }
    rewrite length_drop in Hd0. unfold n in *. lia.
  - intros Ho. destruct (decide (old = [])) as [->|Ho2]; [|by apply F2]. rewrite app_nil_r in Ho. specialize (F1 Ho).
    cbn in E2. subst p'. rewrite length_app in F2. pose proof (seal_batches_spec _ _ _ _ _ _ _ _ Hd E) as (_ & _ & _ & _ & _ & _ & M).
    specialize (M L1). rewrite length_app in *. lia.
Qed.

(** What a delivery does not send and does not leave pending was too old or too
    large at a reading of the clock that it made. *)
Definition too_old_or_large (n n' : nat) (x : Stamped) : Prop :=
  ∃ m, (n ≤ m < n')%nat ∧ keep (wall m - MAX_RECORD_AGE) x = None.
Lemma deliver_loses ps o res left o' : deliver answer wall ps o = (res, (left, o')) → ∃ new lost,
  calls o' = calls o ++ new ∧ all_events ps ≡ₚ landed new ++ all_events left ++ (event_of <$> lost) ∧
  Forall (too_old_or_large (readings o) (readings o')) lost ∧ lost ⊆ concat ps ∧ concat left ⊆ concat ps ∧
  (readings o ≤ readings o')%nat.
Proof.
  intros E. destruct (deliver_exact _ _ _ _ _ E) as (new & pieces & Hc & Hp & Hs & Hm & Hr).
  exists new, (concat ((λ q, unfit q.1 q.2) <$> pieces)). split_and!; try done.
  - unfold all_events. rewrite Hp, fmap_app, pieces_split, Hs. solve_Permutation.
  - apply Forall_forall. intros x Hx. apply list_elem_of_In, in_concat in Hx as (l & Hl & Hx).
    apply list_elem_of_In in Hx. apply list_elem_of_In, list_elem_of_fmap in Hl as (q & -> & Hq). apply list_elem_of_filter in Hx as [Hx _].
    destruct (proj1 (Forall_forall _ _) Hm q Hq) as (m & Hm' & Eq). exists m. split; [done|]. by rewrite <-Eq.
  - rewrite Hp. intros x Hx. apply elem_of_app. left. apply list_elem_of_In, in_concat in Hx as (l & Hl & Hx).
    apply list_elem_of_In in Hx. apply list_elem_of_In, list_elem_of_fmap in Hl as (q & -> & Hq). apply list_elem_of_filter in Hx as [_ Hx].
    apply list_elem_of_In, in_concat. exists q.2. rewrite <-!list_elem_of_In. split; [|done]. by apply list_elem_of_fmap_2.
  - rewrite Hp. intros x Hx. apply elem_of_app. by right.
Qed.
(** Why a step loses a record: the queue was full or the task over when it was
    emitted; it was too old or too large for the delivery that reached it; its
    batch was among the oldest, with sixteen after them; or CloudWatch has just
    refused for good. *)
Inductive cause (e : event) (s s' : Forwarder) (x : Stamped) : Prop :=
  | no_room_for_it r now : e = Emitted r now → x = {| timestamp_ms := Z.max (last_ms s) now; payload := Guest r |} →
      running s = false ∨ len (rx s) = TRANSPORT_QUEUE_CAPACITY → cause e s s' x
  | unfit_for_a_call w t : e = Turned w t → x ∈ concat (pending (ready w t s)) →
      too_old_or_large (readings (outside s)) (readings (outside s')) x → cause e s s' x
  | crowded_out w t new old : e = Turned w t → concat new `prefix_of` held s → cut new →
      pending s ++ new = old ++ pending (ready w t s) → length (pending (ready w t s)) = MAX_PENDING_BATCHES →
      x ∈ concat old → cause e s s' x
  | denied_for_good w t a c b : e = Turned w t → x ∈ concat (pending (ready w t s)) →
      calls (outside s') = calls (outside s) ++ a ++ c :: b → refusal c → cause e s s' x.
(** What a run loses, each record by a step that has a cause. *)
Inductive lost_in : list event → Forwarder → list Stamped → Prop :=
  | lost_nil s : lost_in [] s []
  | lost_cons e es s here later : Forall (cause e s (step answer wall e s)) here →
      lost_in es (step answer wall e s) later → lost_in (e :: es) s (here ++ later).
(** Where a record is that is not lost. *)
Definition kept (s : Forwarder) : list InputLogEvent :=
  landed (calls (outside s)) ++ all_events (pending s) ++ (event_of <$> held s).
Lemma ready_keeps w t s : (length (pending s) ≤ MAX_PENDING_BATCHES)%nat → ∃ new old,
  held s = concat new ++ held (ready w t s) ∧ pending s ++ new = old ++ pending (ready w t s) ∧ cut new ∧
  (old ≠ [] → length (pending (ready w t s)) = MAX_PENDING_BATCHES) ∧
  readings (outside (ready w t s)) = readings (outside s).
Proof.
  intros Hp. unfold ready. set (b := receive w t _).
  assert (held b = held s ∧ pending b = pending s ∧ readings (outside b) = readings (outside s)) as (<- & <- & <-).
  { unfold b, receive, held, set_outside. cbn [rx current pending outside].
    destruct w, (rx s) as [|r q] eqn:E; cbn; rewrite ?E, ?app_nil_r, <-?app_assoc; done. }
  assert (length (pending b) ≤ MAX_PENDING_BATCHES)%nat as Hb by (unfold b, receive, set_outside; cbn [rx pending]; by destruct w, (rx s)).
  unfold seal. destruct (seal_batches _ _ _ _ _) as [[c p] o] eqn:E.
  destruct (seal_batches_exact _ _ _ _ _ _ _ _ (le_n _) Hb E) as (new & old & E1 & E2 & Hcut & F & _ & R).
  exists new, old. unfold held. cbn. rewrite E1, <-app_assoc. by split_and!.
Qed.
(** Of what a state keeps, the later state lacks [lost], of which [P] holds, at
    readings and calls that have grown. *)
Definition moved (P : Stamped → Prop) (s s' : Forwarder) : Prop := ∃ new lost,
  calls (outside s') = calls (outside s) ++ new ∧ (readings (outside s) ≤ readings (outside s'))%nat ∧
  kept s ≡ₚ kept s' ++ (event_of <$> lost) ∧ Forall P lost.
Definition unsendable (s s' : Forwarder) (x : Stamped) : Prop :=
  x ∈ concat (pending s) ∧ (too_old_or_large (readings (outside s)) (readings (outside s')) x ∨
  ∃ a c b, calls (outside s') = calls (outside s) ++ a ++ c :: b ∧ refusal c).
Lemma kept_delivered p off b next o s :
  kept (delivered_to p off b next o s) = landed (calls o) ++ all_events p ++ (event_of <$> held s).
Proof. done. Qed.
Lemma moved_delivered s p o res left off b next : p = pending s → deliver answer wall p (outside s) = (res, (left, o)) →
  moved (unsendable s (delivered_to left off b next o s)) s (delivered_to left off b next o s).
Proof.
  intros -> E. destruct (deliver_loses _ _ _ _ _ E) as (new & lost & Hc & Hp & Hl & Hin & _ & Hr). exists new, lost.
  split_and!; [done..| |].
  2: { rewrite Forall_forall in *. intros x Hx. split; [by apply Hin|left; by apply Hl]. }
  rewrite kept_delivered. unfold kept. rewrite Hc, Hp, landed_app. solve_Permutation.
Qed.
Lemma moved_attempt t s : moved (unsendable s (attempt answer wall t s)) s (attempt answer wall t s).
Proof.
  assert (moved (unsendable s s) s s) as Hs.
  { exists [], []. rewrite !app_nil_r. split_and!; [done|lia|done|constructor]. }
  unfold attempt. destruct (negb (disabled s) && _ && _); [|done].
  destruct (deliver answer wall (pending s) (outside s)) as [[u|[e|e]] [p o]] eqn:E; try by eapply moved_delivered.
  destruct (deliver_ends _ _ _ _ _ E) as (new & Hc & a & c & -> & _ & Hr).
  destruct (deliver_loses _ _ _ _ _ E) as (new' & lost & Hc' & Hp & Hl & Hin & Hin' & Hrd).
  assert (new' = a ++ [c]) as -> by (rewrite Hc in Hc'; by apply app_inv_head in Hc').
  exists (a ++ [c]), (lost ++ concat p). split_and!; [exact Hc|exact Hrd| |].
  - rewrite kept_delivered. unfold kept. cbn [count calls]. rewrite Hc, Hp, (landed_app _ (a ++ [c])), fmap_app. fold (all_events p).
    change (all_events []) with (@nil InputLogEvent). solve_Permutation.
  - apply Forall_app_2; apply Forall_forall; intros x Hx; (split; [first [by apply Hin|by apply Hin']|]); right; exists a, c, []; by split.
Qed.
Lemma moved_finish s : rx s = [] → moved (λ x, x ∈ concat (pending s) ∧
    too_old_or_large (readings (outside s)) (readings (outside (finish_forward answer wall s))) x) s (finish_forward answer wall s).
Proof.
  intros Hq. unfold finish_forward. destruct (negb _ && negb _).
  - destruct (deliver answer wall (pending s) (outside s)) as [res [p o]] eqn:E. cbn [snd].
    destruct (deliver_loses _ _ _ _ _ E) as (new & lost & Hc & Hp & Hl & Hin & _ & Hr). exists new, lost.
    split_and!; [done..| |rewrite Forall_forall in *; intros x Hx; split; [by apply Hin|by apply Hl]].
    unfold kept, held. cbn [calls outside pending current rx]. rewrite Hc, Hp, Hq, landed_app. solve_Permutation.
  - exists [], []. rewrite !app_nil_r. split_and!; try done. unfold kept, held. cbn. by rewrite Hq.
Qed.
Lemma attempt_pending t s : concat (pending (attempt answer wall t s)) ⊆ concat (pending s).
Proof.
  unfold attempt. destruct (_ && _); [|done].
  destruct (deliver _ _ _ _) as [[u|[e|e]] [p o]] eqn:E; cbn [pending delivered_to]; [| |by intros x Hx; inversion Hx]; [..];
    by destruct (deliver_loses _ _ _ _ _ E) as (new & lost & _ & _ & _ & _ & Hin & _).
Qed.
Lemma report_due_same t s : pending (report_due t s) = pending s ∧ kept (report_due t s) = kept s ∧ outside (report_due t s) = outside s ∧ rx (report_due t s) = rx s.
Proof. unfold report_due. by destruct (_ <=? _). Qed.
Lemma rx_attempt t s : rx (attempt answer wall t s) = rx s.
Proof. unfold attempt. destruct (_ && _); [|done]. by destruct (deliver _ _ _ _) as [[u|[e|e]] [p o]]. Qed.
Lemma rx_ready w t s : stops w = true → rx (ready w t s) = [].
Proof. unfold ready, seal. destruct (seal_batches _ _ _ _ _) as [[c p] o]. cbn [rx]. unfold receive, set_outside. cbn [rx]. by destruct w, (rx s). Qed.
(** What a turn loses of what is kept. *)
Lemma turn_moves w t s : running s = true → possible w s = true →
  moved (unsendable (ready w t s) (step answer wall (Turned w t) s)) (ready w t s) (step answer wall (Turned w t) s).
Proof.
  intros Hr Hp. cbn [step]. rewrite Hr, Hp. cbn [andb]. unfold pass. fold (ready w t s). set (b := ready w t s).
  destruct (report_due_same t (attempt answer wall t b)) as (Epe & Ek & Eo & Eq). set (s1 := report_due t _) in *.
  destruct (moved_attempt t b) as (new & lost & Hc & Hd & Hk & Hl). unfold unsendable in Hl. rewrite <-Eo in Hc, Hd, Hl. rewrite <-Ek in Hk.
  destruct (stops w) eqn:Hs; [|by exists new, lost].
  destruct (moved_finish s1) as (new' & lost' & Hc' & Hd' & Hk' & Hl'); [rewrite Eq, rx_attempt; by apply rx_ready|].
  set (s2 := finish_forward answer wall s1) in *. exists (new ++ new'), (lost ++ lost'). split_and!; [|lia| |].
  - by rewrite Hc', Hc, app_assoc.
  - rewrite Hk, Hk', fmap_app. solve_Permutation.
  - apply Forall_app_2; (eapply Forall_impl; [eassumption|]); cbn.
    + intros x [Hx0 [(m & Hm & Hx)|(a & c & b' & Ec & Hx)]]; (split; [done|]); [left; exists m; split; [lia|done]|right].
      exists a, c, (b' ++ new'). rewrite Hc', Ec, <-!app_assoc. by split.
    + intros x (Hx0 & m & Hm & Hx). split; [by rewrite Epe in Hx0; apply attempt_pending in Hx0|].
      left. exists m. split; [lia|done].
Qed.
Definition arrival (e : event) (s : Forwarder) : list Stamped :=
  match e with Emitted r now => [{| timestamp_ms := Z.max (last_ms s) now; payload := Guest r |}] | Turned _ _ => [] end.
(** A step loses nothing but what it has a cause to. *)
Lemma step_loses ins e s : ordered ins s → ∃ lost,
  kept s ++ (event_of <$> arrival e s) ≡ₚ kept (step answer wall e s) ++ (event_of <$> lost) ∧
  Forall (cause e s (step answer wall e s)) lost.
Proof.
  intros [_ _ _ [_ Hb] _ Hq]. destruct e as [r now|w t].
  - cbn [arrival step]. unfold sink_emit. set (x := {| timestamp_ms := _; payload := _ |}).
    destruct (running s && _) eqn:E.
    + exists []. rewrite app_nil_r. split; [|constructor]. unfold kept, held. cbn [calls outside pending current rx].
      rewrite !fmap_app. solve_Permutation.
    + exists [x]. split; [done|]. constructor; [|done]. eapply no_room_for_it; [done..|].
      apply andb_false_iff in E as [E|E]; [by left|right]. apply Z.ltb_ge in E. lia.
  - cbn [arrival]. rewrite app_nil_r. destruct (running s) eqn:Hr; [|exists []; cbn [step]; rewrite Hr, app_nil_r; by split].
    destruct (possible w s) eqn:Hp; [|exists []; cbn [step]; rewrite Hr, Hp, app_nil_r; by split].
    destruct (turn_moves w t s Hr Hp) as (new & lost & Hc & Hd & Hk & Hl). set (s' := step answer wall (Turned w t) s) in *.
    destruct (ready_keeps w t s Hb) as (bs & old & Eh & Ep & Hcut & Hold & Er). destruct (ready_same w t s) as (_ & _ & Ec & _).
    exists (concat old ++ lost). split.
    + assert (kept s ≡ₚ (event_of <$> concat old) ++ kept (ready w t s)) as ->.
      { unfold kept, all_events. rewrite Eh, Ec. assert (concat (pending s) ++ concat bs = concat old ++ concat (pending (ready w t s))) as Ep2
          by by rewrite <-!concat_app, Ep.
        rewrite fmap_app, (app_assoc (event_of <$> concat (pending s))), <-fmap_app, Ep2, fmap_app. solve_Permutation. }
      rewrite Hk, fmap_app. solve_Permutation.
    + apply Forall_app_2.
      * apply Forall_forall. intros x Hx. eapply crowded_out; [done| |done|exact Ep| |exact Hx].
        -- rewrite Eh. by exists (held (ready w t s)).
        -- apply Hold. intros ->. by inversion Hx.
      * eapply Forall_impl; [exact Hl|]. intros x [Hx0 [Hx|(a & c & b & Ea & Hx)]]; cbn.
        -- eapply unfit_for_a_call; [done|exact Hx0|]. by rewrite <-Er.
        -- eapply denied_for_good; [done|exact Hx0| |exact Hx]. by rewrite <-Ec.
Qed.
Lemma run_loses es ins s : ordered ins s → (length (current s) < MAX_BATCH_RECORDS)%nat →
  ∃ lost, lost_in es s lost ∧
    kept s ++ (event_of <$> stamped (last_ms s) es) ≡ₚ kept (run answer wall es s) ++ (event_of <$> lost).
Proof.
  revert ins s. induction es as [|e es IH]; intros ins s Hi Hn; [exists []; split; [constructor|done]|].
  destruct (step_loses ins e s Hi) as (here & Hk & Hc). destruct (ordered_run [e] ins s Hi Hn) as [Hi' Hn'].
  destruct (IH _ _ Hi' Hn') as (later & Hlost & Hk'). exists (here ++ later). split; [by constructor|].
  change (run answer wall (e :: es) s) with (run answer wall es (step answer wall e s)).
  change (run answer wall [e] s) with (step answer wall e s) in *.
  assert (stamped (last_ms s) (e :: es) = arrival e s ++ stamped (last_ms (step answer wall e s)) es) as ->.
  { destruct e as [r now|w t]; [done|]. by rewrite last_ms_turn. }
  rewrite (fmap_app _ (arrival e s)), app_assoc, Hk, (fmap_app _ here).
  etrans; [|etrans; [eapply (Permutation_app_tail (event_of <$> here)); exact Hk'|]]; solve_Permutation.
Qed.
(** C35: no line twice, none out of order, and none lost without a cause.
    Whatever is emitted, whenever the forwarder wakes and whatever CloudWatch
    answers to which call, what the calls that succeeded held, and then what is
    pending, gathered and queued, is the boot marker and the records in the order
    they were emitted, some left out; every call made holds between one event and
    ten thousand, of at most a million bytes with their overhead, with ascending
    timestamps; the queue, the gathered batch and the pending batches stay within
    their bounds.  And what is left out, each record once, is what some step of
    the run lost: the record it emitted to a full queue or after the end, one too
    old or too large when a delivery of that step reached it, one of the batches
    before the last sixteen, or what was pending when CloudWatch refused for
    good. *)
Theorem forwarded_once es marker t :
  let s := run answer wall es (begin marker t) in
  let inputs := concat (pending (begin marker t)) ++ stamped 0 es in
  ordered inputs s ∧ (length (current s) < MAX_BATCH_RECORDS)%nat ∧
  ∃ lost, lost_in es (begin marker t) lost ∧ event_of <$> inputs ≡ₚ kept s ++ (event_of <$> lost).
Proof.
  assert (last_ms (begin marker t) = 0) as E by by destruct marker.
  assert (length (current (begin marker t)) < MAX_BATCH_RECORDS)%nat as Hn by (destruct marker; cbn; unfold MAX_BATCH_RECORDS; lia).
  cbv zeta. rewrite <-E. destruct (ordered_run es _ _ (ordered_begin marker t) Hn) as [Ho Hc]. split_and!; [done..|].
  destruct (run_loses es _ _ (ordered_begin marker t) Hn) as (lost & Hl & Hk). exists lost. split; [done|]. rewrite <-Hk, fmap_app.
  apply Permutation_app_tail. by destruct marker.
Qed.

(** ** Sleep *)
(** The readings of a pass, in the order of time. *)
Definition in_order (t : Instants) : Prop :=
  at_receive t ≤ at_linger t ∧ at_linger t ≤ at_attempt t ∧ at_attempt t ≤ at_refusal t ∧
  at_refusal t ≤ at_report t ∧ at_report t ≤ at_reported t.
Definition paced (s : Forwarder) : Prop := MIN_BACKOFF ≤ backoff s ≤ MAX_BACKOFF.
Lemma paced_attempt t s : paced s → paced (attempt answer wall t s).
Proof.
  intros Hp. unfold attempt. destruct (_ && _); [|done].
  unfold paced, MIN_BACKOFF, MAX_BACKOFF in *. destruct (deliver _ _ _ _) as [[u|[e|e]] [p o]]; cbn; lia.
Qed.
Lemma paced_step e s : paced s → paced (step answer wall e s).
Proof.
  intros Hp. destruct e as [r now|w t]; cbn [step]; [done|]. destruct (_ && _); [|done].
  assert (paced (pass answer wall w t s)) as K.
  { unfold pass, report_due. fold (ready w t s). destruct (ready_same w t s) as (_ & _ & _ & E & _).
    assert (paced (ready w t s)) as Hr by (unfold paced; by rewrite E). apply (paced_attempt t) in Hr. by destruct (_ <=? _). }
  destruct (stops w); [|done]. unfold finish_forward. destruct (negb _ && negb _); [by destruct (deliver _ _ _ _) as [? [? ?]]|done].
Qed.
Lemma paced_run es s : paced s → paced (run answer wall es s).
Proof. revert s. induction es as [|e es IH]; intros s Hp; [done|]. by apply IH, paced_step. Qed.
(** What makes the loop wake: the deadlines behind which there is something. *)
Lemma wake_after x s : x < next_report s →
  (∀ at_, linger_until s = Some at_ → current s ≠ [] → x < at_) →
  (pending s ≠ [] → disabled s = false → x < next_attempt s) → x < wake s.
Proof.
  intros M1 M2 M3. unfold wake. set (w := match current s with [] => _ | _ => _ end).
  assert (x < w) as Hw.
  { unfold w. destruct (current s), (linger_until s) as [u|]; try done. specialize (M2 u eq_refl ltac:(done)). lia. }
  destruct (bool_decide_reflect (pending s = [])), (disabled s); cbn; try done. specialize (M3 ltac:(done) eq_refl). lia.
Qed.
Lemma seal_lingers w t s l : linger_until (ready w t s) = Some l → current (ready w t s) ≠ [] → at_linger t < l.
Proof.
  unfold ready. set (b := receive w t _). unfold seal. destruct (seal_batches _ _ _ _ _) as [[c p] o] eqn:E.
  destruct (seal_batches_spec _ _ _ _ _ _ _ _ (le_n _) E) as (_ & _ & M & _). cbn. intros Hl Hc.
  destruct (decide (c = [])); [done|]. unfold linger_expired in *. rewrite Hl in M.
  destruct (Z.leb_spec l (at_linger t)); [|done]. rewrite orb_true_r in M. by specialize (M eq_refl).
Qed.
Lemma attempt_same t s : linger_until (attempt answer wall t s) = linger_until s ∧ next_report (attempt answer wall t s) = next_report s.
Proof. unfold attempt. destruct (_ && _); [|done]. by destruct (deliver _ _ _ _) as [[u|[e|e]] [p o]]. Qed.
Lemma attempt_later t s : in_order t → paced s → pending (attempt answer wall t s) ≠ [] → disabled (attempt answer wall t s) = false →
  at_linger t < next_attempt (attempt answer wall t s).
Proof.
  intros (_ & T1 & T2 & _) [Hp _]. unfold attempt. destruct (disabled s) eqn:Ed; cbn [negb andb]; [congruence|].
  destruct (Z.leb_spec (next_attempt s) (at_attempt t)); cbn [andb]; [|lia].
  destruct (bool_decide_reflect (pending s = [])); [done|]. cbn [negb].
  destruct (deliver _ _ _ _) as [[u|[e|e]] [p o]] eqn:E; cbn; try done; [|unfold MIN_BACKOFF in *; lia].
  destruct (deliver_spec _ _ _ _ _ E) as (new & _ & _ & _ & _ & _ & M). intros Hne _. by destruct (M I) as [Hnil _].
Qed.
(** C36: the loop does not spin.  In any run the wait between attempts stays between a
    quarter of a second and thirty seconds; and whatever woke the loop, and
    whatever it received, sealed, sent or was refused, it ends a pass with the
    next deadline later than the instant at which it looked whether the batch
    had lingered. *)
Theorem loop_sleeps es marker t w t' : in_order t' →
  let s := run answer wall es (begin marker t) in paced s ∧ at_linger t' < wake (pass answer wall w t' s).
Proof.
  intros Ht s. assert (paced s) as Hp.
  { apply paced_run. destruct marker; unfold paced; cbn; unfold MIN_BACKOFF, MAX_BACKOFF; lia. }
  split; [done|]. unfold pass. fold (ready w t' s). set (b := ready w t' s). destruct (attempt_same t' b) as [E1 E2].
  assert (paced b) as Hb by (destruct (ready_same w t' s) as (_ & _ & _ & E & _); unfold paced, b; by rewrite E).
  pose proof (attempt_later t' b Ht Hb) as Ha. pose proof (seal_lingers w t' s) as Hl. fold b in Hl.
  destruct Ht as (T0 & T1 & T2 & T3 & T4).
  unfold report_due. destruct (Z.leb_spec (next_report (attempt answer wall t' b)) (at_report t')); apply wake_after; cbn;
    rewrite ?E1, ?current_attempt; first [exact Hl|exact Ha|unfold DROP_REPORT_INTERVAL; lia].
Qed.
End forward.

(** ** Guest logs on their way: runs with a scripted service *)
(** A printer that gives a text's strings one after the other, and the builder. *)
Fixpoint strings_of (v : Json) : string :=
  match v with
  | JString s => s
  | JObject kvs => foldr (λ '(_, v) s, strings_of v +:+ " " +:+ s) "" kvs
  | _ => ""
  end.
#[local] Instance toy_print : JsonPrint := strings_of.
#[local] Instance toy_sdk : Sdk := λ t m, Some {| timestamp := t; event_message := m |}.
#[local] Instance toy_sdk_laws : SdkLaws.
Proof. done. Defined.
Definition said (m : string) : GuestLogRecord := {| gl_stream := Stdout; message := m; truncated := false |}.
Definition stamp_at (t : Z) (m : string) : Stamped := {| timestamp_ms := t; payload := Guest (said m) |}.
(** The answers in turn, then success. *)
Definition scripted (rs : list answer_t) (cs : calls_t) (_ : list InputLogEvent) : answer_t :=
  default (Ok {| accepted := 0; rejected := 0 |}) (rs !! length cs).
Definition at_ (t : Z) : Instants :=
  {| at_receive := t; at_linger := t; at_attempt := t; at_refusal := t; at_report := t; at_reported := t |}.
Definition hours (n : Z) : Z := n * 60 * 60 * 1000.
Definition noon (_ : nat) : Z := hours 12.

(** A refused call and a retry: the line is in two calls, one of which
    succeeded; the clock that went back does not make its stamp go back. *)
Definition busy : list event :=
  [Emitted (said "one") (hours 12); Turned Got (at_ 0); Emitted (said "two") (hours 11); Turned Got (at_ 10);
   Turned Slept (at_ 600); Turned Slept (at_ 700); Turned Slept (at_ 900); Turned Stopping (at_ 1000)].
Definition busy_run : Forwarder := run (scripted [Err (Transient "throttled")]) noon busy (begin noon None 0).
Lemma forwarded_once_witness :
  ((λ c, (map timestamp c.1, is_ok c.2)) <$> calls (outside busy_run) =
     [([hours 12; hours 12], false); ([hours 12; hours 12], true)] ∧
   length (landed (calls (outside busy_run))) = 2%nat) ∧
  ordered (concat (pending (begin noon None 0)) ++ stamped 0 busy) busy_run ∧
  (length (current busy_run) < MAX_BATCH_RECORDS)%nat ∧
  ∃ lost, lost_in (scripted [Err (Transient "throttled")]) noon busy (begin noon None 0) lost ∧
    event_of <$> (concat (pending (begin noon None 0)) ++ stamped 0 busy) ≡ₚ kept busy_run ++ (event_of <$> lost).
Proof. split; [by vm_compute|exact (forwarded_once (scripted [Err (Transient "throttled")]) noon busy None 0)]. Defined.
Definition denied : list answer_t := [Err (Definitive "AccessDeniedException")].
Definition denied_run : Forwarder :=
  run (scripted denied) noon [Turned Slept (at_ 0); Emitted (said "x") 0; Turned Got (at_ 10); Turned Slept (at_ 600); Turned Stopping (at_ 700)]
    (begin noon (Some "opened") 0).
Lemma refusal_is_last_witness :
  ∃ c, calls (outside denied_run) = [] ++ c :: [] ∧ refusal c ∧ ([] : calls_t) = [].
Proof.
  eexists. split; [vm_compute; reflexivity|]. split; [exact I|].
  eapply (refusal_is_last (scripted denied) noon
    [Turned Slept (at_ 0); Emitted (said "x") 0; Turned Got (at_ 10); Turned Slept (at_ 600); Turned Stopping (at_ 700)] (Some "opened") 0 []);
    [vm_compute; reflexivity|exact I].
Defined.
(** A record that lingers makes the loop wake when the batch is to be sealed, and
    nothing but the report once it is sent. *)
Definition one_waits : Forwarder := run (scripted []) noon [Emitted (said "x") 0] (begin noon None 0).
Lemma loop_sleeps_witness :
  (wake (pass (scripted []) noon Got (at_ 10) one_waits) = 510 ∧ wake (pass (scripted []) noon Slept (at_ 600)
     (pass (scripted []) noon Got (at_ 10) one_waits)) = 60000) ∧
  (paced one_waits ∧ at_linger (at_ 10) < wake (pass (scripted []) noon Got (at_ 10) one_waits)).
Proof.
  split; [by vm_compute|]. apply (loop_sleeps (scripted []) noon [Emitted (said "x") 0] None 0 Got (at_ 10)).
  unfold in_order. cbn. lia.
Defined.

(** ** What the counters say *)
(** A record that is stale when its batch is first tried is counted again by
    every retry of the batch: one record is lost, three are counted. *)
Example stale_counted_again :
  let d p o := (deliver (scripted [Err (Transient ""); Err (Transient "")]) noon p o).2 in
  let '(p, o) := d [[stamp_at (hours 1) "old"; stamp_at (hours 12) "new"]] outside_new in
  let '(p, o) := d p o in let '(p, o) := d p o in
  p = [] ∧ length (landed (calls o)) = 1%nat ∧ d_records (counts o) = 3.
Proof. by vm_compute. Qed.
(** What is still pending when the last delivery fails is lost and not counted. *)
Example last_batch_uncounted :
  let s := run (scripted [Err (Transient ""); Err (Transient "")]) noon
             [Emitted (said "x") (hours 12); Turned Stopping (at_ 10)] (begin noon None 0) in
  running s = false ∧ landed (calls (outside s)) = [] ∧ length (pending s) = 1%nat ∧ fwd_report s = (0, 0, 0).
Proof. by vm_compute. Qed.
(** After the clock goes back a call may span more than a day. *)
Example call_spans_more_than_a_day :
  (λ c, map timestamp (events c)) <$> (put_chunks [stamp_at (hours 24) "a"; stamp_at (hours 50) "b"] (hours 25)).1 = [[hours 24; hours 50]].
Proof. by vm_compute. Qed.
(** The events that a successful answer refuses. *)
Example refused_in_a_success : put_outcome 10 (Some (Some 8, Some 3, Some 1)) = {| accepted := 5; rejected := 5 |}.
Proof. by vm_compute. Qed.
