(* ===== verification/Settings.v ===== *)
(** * A guest's settings: env.rs

    The [NAME=VALUE] lines that a guest file carries in a custom section of its
    own, and the writer of such a section.  Positions are [usize] values; error
    texts are abbreviated. *)
From S2P Require Import Prelude Text.

Definition GUEST_SETTINGS_SECTION : string := "enclave-guest-env".
(** An unsigned LEB128 number at [at_]: the shifts are the loop's. *)
Fixpoint leb128_from (shifts : list Z) (b : bytes) (at_ value : Z) : result string (Z * Z) :=
  match shifts with
  | [] => Err "a malformed guest file: an over-long length"
  | shift :: shifts =>
      x ← ok_or (b !! Z.to_nat at_) "a truncated guest file";
      let value := Z.lor value (Z.shiftl (Z.land (byteZ x) 127) shift) in
      if Z.land (byteZ x) 128 =? 0 then Ok (value, at_ + 1) else leb128_from shifts b (at_ + 1) value
  end.
Definition leb128 (b : bytes) (at_ : Z) : result string (Z * Z) := leb128_from [0; 7; 14; 21; 28] b at_ 0.
Definition slice (from to : Z) (b : bytes) : bytes := take (Z.to_nat (to - from)) (drop (Z.to_nat from) b).
(** [checked_add], if the sum is within [limit]. *)
Definition add_within (a b limit : Z) : option Z := e ← checked_add a b; if e <=? limit then Some e else None.
(** What a custom section from [at_] to [end_] adds to what was found. *)
Definition custom_section (c : bytes) (at_ end_ : Z) (found : option bytes) : result string (option bytes) :=
  '(name_len, name_at) ← leb128 c at_;
  name_end ← ok_or (add_within name_at name_len end_) "a malformed guest file: a section name runs past its section";
  if decide (slice name_at name_end c = str_bytes GUEST_SETTINGS_SECTION) then
    _ ← check (bool_decide (found = None)) "the guest file carries its settings twice";
    Ok (Some (slice name_end end_ c))
  else Ok found.
(** The sections from [at_] on.  Each takes two bytes at least, so that the
    file's length is enough fuel. *)
Fixpoint sections (fuel : nat) (c : bytes) (at_ : Z) (found : option bytes) : result string (option bytes) :=
  match fuel with
  | O => Ok found
  | S fuel =>
      match c !! Z.to_nat at_ with
      | None => Ok found
      | Some id =>
          '(size, at_) ← leb128 c (at_ + 1);
          end_ ← ok_or (add_within at_ size (len c)) "a malformed guest file: a section runs past its end";
          found ← if byteZ id =? 0 then custom_section c at_ end_ found else Ok found;
          sections fuel c end_ found
      end
  end.
Definition preamble : bytes := [Byte.x00; Byte.x61; Byte.x73; Byte.x6d].
Definition settings_section (c : bytes) : result string (option bytes) :=
  _ ← check ((8 <=? len c) && bool_decide (take 4 c = preamble)) "the guest is not a wasm file";
  sections (length c) c 8 None.
Definition is_ascii_alphabetic (c : Ascii.ascii) : bool := is_between 65 90 c || is_between 97 122 c.
Definition name_char (c : Ascii.ascii) : bool := is_ascii_alphanumeric c || (char_code c =? 95).
Definition is_name (s : string) : bool :=
  match s with
  | String c _ => is_ascii_alphabetic c || (char_code c =? 95)
  | "" => false
  end && all_chars name_char s.
Fixpoint read_settings (ls : list string) (settings : list (string * string)) : result string (list (string * string)) :=
  match ls with
  | [] => Ok settings
  | line :: ls =>
      if decide (line = "") then read_settings ls settings
      else
        '(name, value) ← ok_or (split_once "=" line) "a guest setting is NAME=VALUE";
        _ ← check (is_name name) "not a variable name";
        _ ← check (bool_decide (name ∉ settings.*1)) "the guest file sets it twice";
        read_settings ls (settings ++ [(name, value)])
  end.
Definition from_guest (component : bytes) : result string (list (string * string)) :=
  found ← settings_section component;
  match found with
  | None => Ok []
  | Some section =>
      _ ← check (valid_utf8 (bytes_str section)) "the guest's settings are not UTF-8";
      read_settings (str_lines (bytes_str section)) []
  end.

(** ** The writer *)
(** Ten bytes hold any [usize]. *)
Fixpoint leb128_out (fuel : nat) (value : Z) : bytes :=
  match fuel with
  | O => []
  | S fuel =>
      let byte := Z.land value 127 in
      let value := Z.shiftr value 7 in
      if value =? 0 then [Zbyte byte] else Zbyte (Z.lor byte 128) :: leb128_out fuel value
  end.
Definition leb128_bytes (value : Z) : bytes := leb128_out 10 value.
Definition settings_text (settings : list (string * string)) : string :=
  foldr (λ '(n, v) s, n +:+ "=" +:+ v +:+ String LF s) "" settings.
Definition section_body (settings : list (string * string)) : bytes :=
  leb128_bytes (strlen GUEST_SETTINGS_SECTION) ++ str_bytes GUEST_SETTINGS_SECTION ++ str_bytes (settings_text settings).
Definition with_settings_section (component : bytes) (settings : list (string * string)) : bytes :=
  component ++ [Byte.x00] ++ leb128_bytes (len (section_body settings)) ++ section_body settings.
