(* ===== verification/SettingsProps.v ===== *)
(** * A guest's settings: what is read, and that what was written is read back *)
From S2P Require Import Prelude Text Settings.

(** ** LEB128 *)
Lemma low_high v : Z.lor (Z.land v 127) (Z.shiftl (Z.shiftr v 7) 7) = v.
Proof.
  apply Z.bits_inj'. intros n Hn. rewrite Z.lor_spec, Z.land_spec. change 127 with (Z.ones 7).
  destruct (decide (n < 7)) as [Hl|Hl].
  - rewrite Z.ones_spec_low by lia. rewrite Z.shiftl_spec_low by lia. by rewrite andb_true_r, orb_false_r.
  - rewrite Z.ones_spec_high by lia. rewrite andb_false_r, Z.shiftl_spec by lia. rewrite Z.shiftr_spec by lia.
    cbn. f_equal. lia.
Qed.
Lemma low_range v : 0 ≤ Z.land v 127 < 128.
Proof. change 127 with (Z.ones 7). rewrite Z.land_ones by lia. apply Z.mod_pos_bound. lia. Qed.
Lemma low_bits m : 0 ≤ m < 128 →
  Z.land m 127 = m ∧ Z.land m 128 = 0 ∧ Z.lor m 128 = m + 128 ∧ Z.land (m + 128) 127 = m ∧ Z.land (m + 128) 128 = 128.
Proof.
  intros Hm. assert (Forall (λ m, Z.land m 127 = m ∧ Z.land m 128 = 0 ∧ Z.lor m 128 = m + 128 ∧
    Z.land (m + 128) 127 = m ∧ Z.land (m + 128) 128 = 128) (seqZ 0 128)) as K by (apply (bool_decide_unpack _); by vm_compute).
  rewrite Forall_forall in K. apply K, elem_of_seqZ. lia.
Qed.
Fixpoint shifts_from (k : nat) (s : Z) : list Z := match k with O => [] | S k => s :: shifts_from k (s + 7) end.
Lemma lookup_at {A} (pre post : list A) x : (pre ++ x :: post) !! Z.to_nat (len pre) = Some x.
Proof. unfold len. rewrite Nat2Z.id. by apply list_lookup_middle. Qed.
Lemma leb128_from_step s shifts pre post x acc : leb128_from (s :: shifts) (pre ++ x :: post) (len pre) acc =
  let value := Z.lor acc (Z.shiftl (Z.land (byteZ x) 127) s) in
  if Z.land (byteZ x) 128 =? 0 then Ok (value, len pre + 1) else leb128_from shifts ((pre ++ [x]) ++ post) (len (pre ++ [x])) value.
Proof. cbn [leb128_from]. rewrite lookup_at. cbn [ok_or mbind result_bind]. by rewrite len_snoc, <-app_assoc. Qed.
Lemma leb128_from_last s shifts v pre post acc : 0 ≤ v → Z.shiftr v 7 = 0 →
  leb128_from (s :: shifts) (pre ++ Zbyte (Z.land v 127) :: post) (len pre) acc = Ok (Z.lor acc (Z.shiftl v s), len pre + 1).
Proof.
  intros Hv Hz. pose proof (low_range v) as Hr. destruct (low_bits _ Hr) as (B1 & B2 & _). pose proof (low_high v) as Hlh.
  rewrite leb128_from_step, byteZ_Zbyte, Z.mod_small, B1, B2 by lia. rewrite Hz, Z.shiftl_0_l, Z.lor_0_r in Hlh. by rewrite Hlh.
Qed.
Lemma leb128_from_out k fuel s v acc pre post : (k ≤ fuel)%nat → 0 ≤ s → 0 ≤ v < 2 ^ (7 * Z.of_nat (S k)) →
  leb128_from (shifts_from (S k) s) (pre ++ leb128_out (S fuel) v ++ post) (len pre) acc =
    Ok (Z.lor acc (Z.shiftl v s), len pre + len (leb128_out (S fuel) v)).
Proof.
  revert fuel s v acc pre. induction k as [|k IH]; intros fuel s v acc pre Hf Hs Hv; cbn [leb128_out].
  { assert (Z.shiftr v 7 = 0) as Hz by (rewrite Z.shiftr_div_pow2 by lia; apply Z.div_small; lia).
    rewrite Hz. cbn [Z.eqb app shifts_from]. apply leb128_from_last; lia. }
  change (shifts_from (S (S k)) s) with (s :: shifts_from (S k) (s + 7)). destruct (Z.eqb_spec (Z.shiftr v 7) 0) as [Hz|Hz].
  { cbn [app]. apply leb128_from_last; lia. }
  pose proof (low_range v) as Hr. destruct (low_bits _ Hr) as (_ & _ & B3 & B4 & B5). destruct fuel as [|fuel]; [lia|].
  rewrite <-app_comm_cons, leb128_from_step, byteZ_Zbyte, B3, Z.mod_small, B4, B5 by lia. cbn [Z.eqb]. rewrite IH; [|lia..|].
  - f_equal. f_equal; [|rewrite len_snoc; unfold len; cbn [length]; lia].
    rewrite <-Z.lor_assoc. f_equal. rewrite <-(low_high v) at 3. rewrite Z.shiftl_lor. f_equal. rewrite Z.shiftl_shiftl by lia. f_equal. lia.
  - rewrite Z.shiftr_div_pow2 by lia. split; [apply Z.div_pos; lia|]. apply Z.div_lt_upper_bound; [lia|].
    rewrite <-Z.pow_add_r by lia. replace (7 + 7 * Z.of_nat (S k)) with (7 * Z.of_nat (S (S k))) by lia. lia.
Qed.
(** What is written at a position is read there, up to thirty-five bits. *)
Lemma leb128_read v pre post : 0 ≤ v < 2 ^ 35 →
  leb128 (pre ++ leb128_bytes v ++ post) (len pre) = Ok (v, len pre + len (leb128_bytes v)).
Proof.
  intros Hv. unfold leb128, leb128_bytes. change [0; 7; 14; 21; 28] with (shifts_from 5 0).
  rewrite (leb128_from_out 4 9) by (lia || done). by rewrite Z.lor_0_l, Z.shiftl_0_r.
Qed.
(** Reading ends after what is read, and does not depend on what follows it. *)
Lemma leb128_from_local shifts c at_ acc v at' : 0 ≤ at_ → leb128_from shifts c at_ acc = Ok (v, at') →
  at_ < at' ≤ len c ∧ ∀ x, leb128_from shifts (c ++ x) at_ acc = Ok (v, at').
Proof.
  revert at_ acc. induction shifts as [|s shifts IH]; intros at_ acc Hat; cbn [leb128_from]; [done|].
  destruct (c !! Z.to_nat at_) as [b|] eqn:E; cbn [ok_or mbind result_bind]; [|done].
  pose proof (lookup_lt_Some _ _ _ E) as Hl. destruct (_ =? 0) eqn:Ez.
  - intros [= <- <-]. split; [unfold len; lia|]. intros x. rewrite (lookup_app_l_Some _ _ _ _ E). cbn [ok_or mbind result_bind]. by rewrite Ez.
  - intros [Hb K]%IH; [|lia]. split; [lia|]. intros x. rewrite (lookup_app_l_Some _ _ _ _ E). cbn [ok_or mbind result_bind]. by rewrite Ez, K.
Qed.

(** ** Sections *)
Lemma slice_local (c x : bytes) a b : 0 ≤ a → a ≤ b ≤ len c → slice a b (c ++ x) = slice a b c.
Proof.
  intros Ha Hb. unfold slice, len in *. rewrite drop_app_le by lia. apply take_app_le. rewrite length_drop. lia.
Qed.
Lemma add_within_Some a b l e : add_within a b l = Some e → e = a + b ∧ e ≤ l.
Proof. unfold add_within, checked_add. destruct (a + b <=? u64_max); cbn; [|done]. destruct (Z.leb_spec (a + b) l); [|done]. intros [= <-]. done. Qed.
Lemma leb128_value shifts b at_ acc v at' : Forall (λ s, 0 ≤ s) shifts → 0 ≤ acc → leb128_from shifts b at_ acc = Ok (v, at') → 0 ≤ v.
Proof.
  intros Hs. revert at_ acc. induction Hs as [|s shifts Hs _ IH]; intros at_ acc Ha; cbn [leb128_from]; [done|].
  destruct (b !! Z.to_nat at_) as [x|]; cbn [ok_or mbind result_bind]; [|done].
  assert (0 ≤ Z.lor acc (Z.shiftl (Z.land (byteZ x) 127) s)) as Hv.
  { apply Z.lor_nonneg. split; [done|]. apply Z.shiftl_nonneg. apply low_range. }
  destruct (_ =? 0); [|by apply IH]. by intros [= <- _].
Qed.
Lemma leb128_ok b at_ v at' : 0 ≤ at_ → leb128 b at_ = Ok (v, at') →
  at_ < at' ≤ len b ∧ 0 ≤ v ∧ ∀ x, leb128 (b ++ x) at_ = Ok (v, at').
Proof.
  intros Hat E. destruct (leb128_from_local _ _ _ _ _ _ Hat E) as [Hb K]. split_and!; try done; try lia.
  eapply leb128_value; [| |exact E]; [repeat constructor; lia|lia].
Qed.
(** A section lies within the file, after what starts it, and reads the same
    whatever follows the file. *)
Lemma custom_section_local c x at_ end_ found r : 0 ≤ at_ → at_ ≤ end_ ≤ len c →
  custom_section c at_ end_ found = Ok r → custom_section (c ++ x) at_ end_ found = Ok r.
Proof.
  intros Hat He E. unfold custom_section in *. destruct (leb128 c at_) as [[nl na]|] eqn:El; [|done].
  destruct (leb128_ok _ _ _ _ Hat El) as (Hb & Hn & Hx). rewrite Hx. cbn [mbind result_bind] in *.
  destruct (add_within na nl end_) as [ne|] eqn:Ea; [|done]. apply add_within_Some in Ea as [-> Hle]. cbn [ok_or mbind result_bind] in *.
  by rewrite !slice_local by lia.
Qed.
(** One turn of the loop: the end of the section at [at_], and what is found. *)
Definition section_at (c : bytes) (id : byte) (at_ : Z) (found : option bytes) : result string (Z * option bytes) :=
  '(size, at_) ← leb128 c (at_ + 1);
  end_ ← ok_or (add_within at_ size (len c)) "a malformed guest file: a section runs past its end";
  found ← if byteZ id =? 0 then custom_section c at_ end_ found else Ok found;
  Ok (end_, found).
Lemma sections_step fuel c at_ found : sections (S fuel) c at_ found =
  match c !! Z.to_nat at_ with
  | None => Ok found
  | Some id => '(end_, found) ← section_at c id at_ found; sections fuel c end_ found
  end.
Proof.
  cbn [sections]. destruct (c !! Z.to_nat at_) as [id|]; [|done]. unfold section_at.
  destruct (leb128 c (at_ + 1)) as [[sz a]|]; [|done]. cbn [mbind result_bind].
  destruct (ok_or _ _) as [e|]; [|done]. cbn [mbind result_bind]. by destruct (if byteZ id =? 0 then _ else _).
Qed.
Lemma section_at_ok c id at_ found end_ found' : 0 ≤ at_ → section_at c id at_ found = Ok (end_, found') →
  at_ + 2 ≤ end_ ≤ len c ∧ ∀ x, section_at (c ++ x) id at_ found = Ok (end_, found').
Proof.
  intros Hat. unfold section_at. destruct (leb128 c (at_ + 1)) as [[sz a]|] eqn:El; [|done]. cbn [mbind result_bind].
  destruct (leb128_ok c (at_ + 1) sz a ltac:(lia) El) as (Hb & Hn & Hx).
  destruct (add_within a sz (len c)) as [e|] eqn:Ea; [|done]. cbn [ok_or mbind result_bind].
  pose proof Ea as [-> Hle]%add_within_Some. intros E.
  assert (end_ = a + sz ∧ (if byteZ id =? 0 then custom_section c a (a + sz) found else Ok found) = Ok found') as [-> Ef].
  { destruct (if byteZ id =? 0 then _ else _); [|done]. by injection E as -> ->. }
  split; [lia|]. intros x. rewrite Hx. cbn [mbind result_bind].
  assert (add_within a sz (len (c ++ x)) = Some (a + sz)) as ->.
  { unfold add_within in *. destruct (checked_add a sz) as [e|]; [|done]. cbn in *. rewrite len_app in *.
    destruct (Z.leb_spec e (len c)); [|done]. injection Ea as ->. destruct (Z.leb_spec (a + sz) (len c + len x)); [done|]. unfold len in *. lia. }
  cbn [ok_or mbind result_bind]. destruct (byteZ id =? 0); [|by injection Ef as ->].
  rewrite (custom_section_local c x a (a + sz) found found') by (lia || done). done.
Qed.
(** The length of the file is fuel enough: more of it changes nothing. *)
Lemma sections_fuel f1 f2 c at_ found : 0 ≤ at_ → len c - at_ < Z.of_nat f1 → len c - at_ < Z.of_nat f2 →
  sections f1 c at_ found = sections f2 c at_ found.
Proof.
  revert f2 at_ found. induction f1 as [|f1 IH]; intros f2 at_ found Hat H1 H2.
  - destruct f2 as [|f2]; [done|]. rewrite sections_step, lookup_ge_None_2 by (unfold len in *; lia). done.
  - destruct f2 as [|f2].
    + rewrite sections_step, lookup_ge_None_2 by (unfold len in *; lia). done.
    + rewrite !sections_step. destruct (c !! Z.to_nat at_) as [id|]; [|done].
      destruct (section_at c id at_ found) as [[e fo]|] eqn:E; [|done]. cbn [mbind result_bind].
      destruct (section_at_ok _ _ _ _ _ _ Hat E) as [Hb _]. apply IH; lia.
Qed.
(** A file that was read to its end goes on being read from there. *)
Lemma sections_append f1 f2 c x at_ found r : 0 ≤ at_ ≤ len c → len c - at_ < Z.of_nat f1 → len (c ++ x) - at_ < Z.of_nat f2 →
  sections f1 c at_ found = Ok r → sections f2 (c ++ x) at_ found = sections f2 (c ++ x) (len c) r.
Proof.
  revert f2 at_ found. induction f1 as [|f1 IH]; intros f2 at_ found Hat H1 H2 E.
  { assert (at_ = len c) as -> by lia. by injection E as ->. }
  destruct f2 as [|f2]; [unfold len in *; rewrite length_app in *; lia|].
  rewrite sections_step in E. destruct (c !! Z.to_nat at_) as [id|] eqn:El.
  - rewrite (sections_step f2 _ at_), (lookup_app_l_Some _ _ _ _ El).
    destruct (section_at c id at_ found) as [[e fo]|] eqn:Es; [|done]. cbn [mbind result_bind] in *.
    destruct (section_at_ok _ _ _ _ _ _ (proj1 Hat) Es) as [Hb Hx]. rewrite Hx. cbn [mbind result_bind].
    rewrite (IH f2 e fo) by (lia || done). apply sections_fuel; rewrite ?len_app in *; unfold len in *; lia.
  - apply lookup_ge_None_1 in El. assert (at_ = len c) as -> by (unfold len in *; lia). by injection E as ->.
Qed.

(** ** A section of one's own *)
Lemma slice_middle (p m q : bytes) a b : a = len p → b = len p + len m → slice a b (p ++ m ++ q) = m.
Proof.
  intros -> ->. unfold slice, len. replace (Z.to_nat (Z.of_nat (length p))) with (length p) by lia.
  replace (Z.to_nat _) with (length m) by lia. by rewrite drop_app_length, take_app_length.
Qed.
Lemma slice_rest (p m : bytes) a b : a = len p → b = len (p ++ m) → slice a b (p ++ m) = m.
Proof. intros -> ->. rewrite <-(app_nil_r m) at 2. apply slice_middle; [done|]. by rewrite len_app. Qed.
Lemma add_within_ok a b l : a + b ≤ l → l ≤ u64_max → add_within a b l = Some (a + b).
Proof.
  intros Hl Hu. unfold add_within, checked_add. destruct (Z.leb_spec (a + b) u64_max); [|lia]. cbn.
  by destruct (Z.leb_spec (a + b) l); [|lia].
Qed.
Definition fits_in (c : bytes) (settings : list (string * string)) : Prop :=
  len (section_body settings) < 2 ^ 35 ∧ len (with_settings_section c settings) ≤ u64_max.
Lemma own_custom_section pre settings found :
  let c := pre ++ section_body settings in len c ≤ u64_max →
  custom_section c (len pre) (len c) found =
    match found with None => Ok (Some (str_bytes (settings_text settings))) | Some _ => Err "the guest file carries its settings twice" end.
Proof.
  intros c Hu. unfold custom_section. set (name := str_bytes GUEST_SETTINGS_SECTION). set (text := str_bytes (settings_text settings)).
  assert (c = pre ++ leb128_bytes 17 ++ name ++ text) as Ec by done. rewrite Ec at 1.
  rewrite leb128_read by lia. cbn [mbind result_bind]. change (len (leb128_bytes 17)) with 1.
  assert (len name = 17) as Hn by by vm_compute.
  assert (len c = len pre + 1 + 17 + len text) as Hc by (rewrite Ec, !len_app, Hn; change (len (leb128_bytes 17)) with 1; lia).
  rewrite add_within_ok by (unfold len in *; lia). cbn [ok_or mbind result_bind].
  assert (slice (len pre + 1) (len pre + 1 + 17) c = name) as ->.
  { rewrite Ec, app_assoc. apply slice_middle; rewrite len_app, ?Hn; change (len (leb128_bytes 17)) with 1; lia. }
  rewrite decide_True by done. destruct found; [done|].
  rewrite bool_decide_eq_true_2 by done. cbn [check mbind result_bind]. f_equal. f_equal.
  rewrite Ec, !app_assoc. apply slice_rest; [|done]. rewrite !len_app, Hn. change (len (leb128_bytes 17)) with 1. lia.
Qed.
Lemma own_section_at c settings found : fits_in c settings →
  let full := with_settings_section c settings in
  section_at full Byte.x00 (len c) found =
    match found with
    | None => Ok (len full, Some (str_bytes (settings_text settings)))
    | Some _ => Err "the guest file carries its settings twice"
    end.
Proof.
  intros [Hb Hu] full. change (len full ≤ u64_max) in Hu. unfold section_at. set (n := len (section_body settings)) in *.
  assert (full = (c ++ [Byte.x00]) ++ leb128_bytes n ++ section_body settings) as E1 by (unfold full, with_settings_section; by rewrite <-app_assoc).
  assert (full = ((c ++ [Byte.x00]) ++ leb128_bytes n) ++ section_body settings) as E2 by by rewrite E1, app_assoc.
  rewrite E1 at 1. rewrite <-len_snoc with (x := Byte.x00), leb128_read by (unfold n, len in *; lia). cbn [mbind result_bind].
  assert (len full = len (c ++ [Byte.x00]) + len (leb128_bytes n) + n) as Hl by (rewrite E1, !len_app; unfold n; lia).
  rewrite add_within_ok by lia. cbn [ok_or mbind result_bind]. rewrite <-Hl. change (byteZ Byte.x00 =? 0) with true. cbn iota.
  rewrite <-len_app. rewrite E2 at 1 2. rewrite own_custom_section by (rewrite <-E2; exact Hu). by destruct found.
Qed.
Lemma own_section c settings found : settings_section c = Ok found → fits_in c settings →
  settings_section (with_settings_section c settings) =
    match found with None => Ok (Some (str_bytes (settings_text settings))) | Some _ => Err "the guest file carries its settings twice" end.
Proof.
  intros E Hf. unfold settings_section in *. set (full := with_settings_section c settings).
  assert (∃ x, full = c ++ Byte.x00 :: x) as [x Ex] by (eexists; reflexivity).
  destruct (8 <=? len c) eqn:E8; [|done]. cbn [andb check] in E. destruct (bool_decide_reflect (take 4 c = preamble)) as [Hp|]; [|done].
  cbn [check mbind result_bind] in E. apply Z.leb_le in E8.
  assert (8 <=? len full = true) as -> by (apply Z.leb_le; rewrite Ex, len_app; unfold len in *; lia).
  rewrite bool_decide_eq_true_2 by (rewrite Ex, take_app_le by (unfold len in *; lia); done). cbn [andb check mbind result_bind].
  rewrite Ex in *. rewrite (sections_append (length c) _ c _ 8 None found) by (done || (unfold len in *; rewrite ?length_app; lia)).
  rewrite <-Ex. destruct (length full) as [|f] eqn:El; [rewrite Ex, length_app in El; cbn in El; lia|].
  rewrite sections_step. rewrite Ex at 1. rewrite lookup_at. pose proof (own_section_at c settings found Hf) as K. cbn zeta in K. fold full in K.
  rewrite K. destruct found as [found|]; [done|]. cbn [mbind result_bind].
  destruct f; cbn [sections]; [done|]. rewrite lookup_ge_None_2; [done|]. unfold len. lia.
Qed.

(** ** Lines *)
Lemma drop_cr_id s : ends_with (String CR "") s = false → drop_cr s = s.
Proof. unfold ends_with, drop_cr. intros E. apply bool_decide_eq_false in E. destruct (strip_suffix _ s); [by destruct E|done]. Qed.
Definition not_lf (c : Ascii.ascii) : bool := negb (bool_decide (c = LF)).
Lemma split_text_line line w s : all_chars not_lf w = true →
  split_text line (w +:+ String LF s) = drop_cr (line +:+ w) :: split_text "" s.
Proof.
  revert line. induction w as [|c w IH]; intros line; cbn [all_chars].
  - intros _. change ("" +:+ String LF s) with (String LF s). cbn [split_text]. rewrite decide_True by done. by rewrite string_app_nil_r.
  - intros [Hc Hw]%andb_true_iff. unfold not_lf in Hc. apply negb_true_iff, bool_decide_eq_false in Hc.
    change (String c w +:+ String LF s) with (String c (w +:+ String LF s)). cbn [split_text].
    rewrite decide_False, IH by done. by rewrite <-string_app_assoc.
Qed.
Lemma split_once_eq n v : all_chars (λ c, negb (bool_decide (c = Ascii.ascii_of_N 61))) n = true → split_once "=" (n +:+ "=" +:+ v) = Some (n, v).
Proof.
  induction n as [|c n IH]; cbn [all_chars]; [by destruct v|]. intros [Hc Hn]%andb_true_iff.
  apply negb_true_iff, bool_decide_eq_false in Hc. change (String c n +:+ "=" +:+ v) with (String c (n +:+ "=" +:+ v)). cbn [split_once strip_prefix].
  rewrite decide_False by (intros <-; by apply Hc). by rewrite IH.
Qed.

Lemma name_chars p s : is_name s = true → (∀ c, name_char c = true → p c = true) → all_chars p s = true.
Proof. intros [_ Hs]%andb_true_iff Hp. by eapply all_chars_impl. Qed.
Lemma name_char_cases (p : Ascii.ascii → bool) :
  forallb (λ n, let c := Ascii.ascii_of_N (N.of_nat n) in negb (name_char c) || p c) (seq 0 256) = true → ∀ c, name_char c = true → p c = true.
Proof.
  intros Hf c Hc. rewrite forallb_forall in Hf. specialize (Hf (N.to_nat (Ascii.N_of_ascii c))).
  rewrite N2Nat.id, Ascii.ascii_N_embedding in Hf. cbn zeta in Hf. rewrite Hc in Hf. apply Hf. apply in_seq. pose proof (Ascii.N_ascii_bounded c). lia.
Qed.
Lemma ascii_utf8 s : all_chars (λ c, char_code c <? 128) s = true → valid_utf8 s = true.
Proof. induction s as [|c s IH]; [done|]. cbn [all_chars valid_utf8]. intros [-> Hs]%andb_true_iff. by apply IH. Qed.
Lemma ends_cr s : ends_with (String CR "") s = bool_decide (last (str_bytes s) = Some Byte.x0d).
Proof.
  apply eq_true_iff_eq. rewrite ends_with_iff, bool_decide_eq_true. split.
  - intros [r ->]. by rewrite str_bytes_app, last_app.
  - intros [l El]%last_Some. exists (bytes_str l). apply (inj str_bytes). by rewrite str_bytes_app, str_bytes_str.
Qed.
(** A setting that a line can hold: a name, and a value of UTF-8 on one line that
    does not end in a carriage return. *)
Definition settable (nv : string * string) : Prop :=
  is_name nv.1 = true ∧ valid_utf8 nv.2 = true ∧ all_chars not_lf nv.2 = true ∧ ends_with (String CR "") nv.2 = false.
Definition line_of (nv : string * string) : string := nv.1 +:+ "=" +:+ nv.2.
Lemma settable_line nv : settable nv → all_chars not_lf (line_of nv) = true ∧ ends_with (String CR "") (line_of nv) = false ∧
  valid_utf8 (line_of nv) = true ∧ line_of nv ≠ "" ∧ split_once "=" (line_of nv) = Some nv.
Proof.
  destruct nv as [n v]. intros (Hn & Hu & Hl & Hr). unfold line_of. cbn [fst snd] in *. split_and!.
  - rewrite !all_chars_app, Hl, andb_true_r. apply (name_chars _ _ Hn), name_char_cases. by vm_compute.
  - rewrite !ends_cr, !str_bytes_app, !last_app in *. change (last (str_bytes "=")) with (Some Byte.x3d). by destruct (last (str_bytes v)).
  - apply valid_utf8_app; [apply ascii_utf8, (name_chars _ _ Hn), name_char_cases; by vm_compute|]. by apply valid_utf8_app.
  - destruct n; [done|]. by intros.
  - apply split_once_eq, (name_chars _ _ Hn), name_char_cases. by vm_compute.
Qed.
Lemma settings_lines settings : Forall settable settings →
  str_lines (settings_text settings) = line_of <$> settings ∧ valid_utf8 (settings_text settings) = true.
Proof.
  induction 1 as [|nv settings Hnv _ [IH1 IH2]]; [done|]. destruct (settable_line nv Hnv) as (L1 & L2 & L3 & _ & _).
  assert (settings_text (nv :: settings) = line_of nv +:+ String LF (settings_text settings)) as ->.
  { destruct nv as [n v]. unfold line_of. cbn [settings_text foldr fst snd]. by rewrite <-!string_app_assoc. }
  unfold str_lines in *. rewrite split_text_line by done.
  change ("" +:+ line_of nv) with (line_of nv). rewrite (drop_cr_id _ L2), IH1. split; [done|].
  apply valid_utf8_app; [done|]. cbn [valid_utf8]. by rewrite IH2.
Qed.
Lemma read_settable settings acc : Forall settable settings → NoDup ((acc ++ settings).*1) →
  read_settings (line_of <$> settings) acc = Ok (acc ++ settings).
Proof.
  intros Hs. revert acc. induction Hs as [|nv settings Hnv _ IH]; intros acc Hd; cbn [read_settings fmap list_fmap]; [by rewrite app_nil_r|].
  destruct (settable_line nv Hnv) as (_ & _ & _ & L4 & L5). rewrite decide_False, L5 by done. destruct nv as [n v].
  cbn [ok_or mbind result_bind]. rewrite (proj1 Hnv : is_name n = true). cbn [check mbind result_bind].
  assert (n ∉ acc.*1) as Hn.
  { rewrite fmap_app, NoDup_app in Hd. destruct Hd as (_ & Hd & _). intros Hn. apply (Hd _ Hn). by left. }
  rewrite bool_decide_eq_true_2 by done. cbn [check mbind result_bind].
  rewrite IH; rewrite <-app_assoc; [done|exact Hd].
Qed.
(** C38: what was appended is read.  A section of settings that a line can hold each,
    under different names, put at the end of a guest file that has none, is what
    the file's settings are; at the end of one that has settings, it is refused
    rather than chosen from. *)
Theorem settings_read_back c settings found : settings_section c = Ok found → fits_in c settings →
  Forall settable settings → NoDup settings.*1 →
  from_guest (with_settings_section c settings) =
    match found with None => Ok settings | Some _ => Err "the guest file carries its settings twice" end.
Proof.
  intros E Hf Hs Hd. unfold from_guest. rewrite (own_section c settings found E Hf). destruct found as [found|]; [done|].
  cbn [mbind result_bind]. rewrite bytes_str_bytes. destruct (settings_lines settings Hs) as [-> ->]. cbn [check mbind result_bind].
  by apply (read_settable settings []).
Qed.

(** ** What is read *)
Definition well_formed (settings : list (string * string)) : Prop :=
  NoDup settings.*1 ∧ Forall (λ nv, is_name nv.1 = true) settings.
Lemma read_settings_well_formed ls acc settings : well_formed acc → read_settings ls acc = Ok settings → well_formed settings.
Proof.
  revert acc. induction ls as [|l ls IH]; intros acc Ha; cbn [read_settings]; [by intros [= <-]|].
  destruct (decide (l = "")); [by apply IH|]. destruct (split_once "=" l) as [[nm v]|]; [|done]. cbn [ok_or mbind result_bind].
  destruct (is_name nm) eqn:En; [|done]. cbn [check mbind result_bind]. destruct (bool_decide_reflect (nm ∉ acc.*1)) as [Hn|]; [|done].
  cbn [check mbind result_bind]. apply IH. destruct Ha as [Hd Hf]. split.
  - rewrite fmap_app. apply NoDup_app. split_and!; [done| |by repeat constructor; set_solver].
    intros x Hx Hx2. apply list_elem_of_singleton in Hx2 as ->. by apply Hn.
  - apply Forall_app_2; [done|]. by repeat constructor.
Qed.
Lemma settings_are_well_formed c settings : from_guest c = Ok settings → well_formed settings.
Proof.
  unfold from_guest. intros E. destruct (settings_section c) as [found|]; [|done]. cbn [mbind result_bind] in E.
  destruct found as [s|]; [|by injection E as <-; split; constructor]. destruct (valid_utf8 _); [|done].
  cbn [check mbind result_bind] in E. eapply read_settings_well_formed; [|exact E]. split; constructor.
Qed.
(** C39: a file that is accepted gives an environment: every name is a variable's name
    and none is set twice; and the reading ends, more fuel changing nothing. *)
Theorem settings_well_formed c settings fuel : from_guest c = Ok settings → (length c ≤ fuel)%nat →
  well_formed settings ∧ sections fuel c 8 None = settings_section c.
Proof.
  intros E Hf. split; [by eapply settings_are_well_formed|]. unfold from_guest in E.
  destruct (settings_section c) as [found|] eqn:Es; [|done]. clear E.
  unfold settings_section in Es. destruct (8 <=? len c) eqn:E8; [|done]. cbn [andb] in Es. destruct (bool_decide _); [|done].
  cbn [check mbind result_bind] in Es. rewrite <-Es. apply Z.leb_le in E8. apply sections_fuel; unfold len in *; lia.
Qed.

(** ** A concrete guest *)
Definition empty_guest : bytes := preamble ++ [Byte.x0d; Byte.x00; Byte.x01; Byte.x00].
Definition two_settings : list (string * string) := [("ASP_URL", "https://asp.example"); ("LANG", "")].
Lemma two_settable : Forall settable two_settings ∧ NoDup two_settings.*1 ∧ ∀ c, len c ≤ 1000 → fits_in c two_settings.
Proof.
  split_and!; [repeat constructor; by vm_compute|by apply (bool_decide_unpack _); vm_compute|].
  intros c Hc. unfold fits_in, with_settings_section. rewrite !len_app. split; [by vm_compute|].
  change (len c + (1 + (1 + len (section_body two_settings))) ≤ u64_max). unfold u64_max.
  assert (len (section_body two_settings) = 52) as -> by by vm_compute. lia.
Qed.
Lemma settings_read_back_witness :
  from_guest (with_settings_section empty_guest two_settings) = Ok two_settings ∧
  from_guest (with_settings_section (with_settings_section empty_guest two_settings) two_settings) =
    Err "the guest file carries its settings twice".
Proof.
  destruct two_settable as (Hs & Hd & Hf). split.
  - apply (settings_read_back empty_guest two_settings None); [by vm_compute|apply Hf; by vm_compute|exact Hs|exact Hd].
  - apply (settings_read_back (with_settings_section empty_guest two_settings) two_settings (Some (str_bytes (settings_text two_settings))));
      [by vm_compute|apply Hf; by vm_compute|exact Hs|exact Hd].
Defined.
Lemma settings_well_formed_witness :
  well_formed two_settings ∧ sections 1000 (with_settings_section empty_guest two_settings) 8 None =
    settings_section (with_settings_section empty_guest two_settings).
Proof. apply (settings_well_formed _ two_settings 1000); [by vm_compute|]. apply (bool_decide_unpack _). by vm_compute. Defined.
(** Names twice, names that are not, a file cut short: refused. *)
Example unreadable_settings_refused :
  is_ok <$> [from_guest (with_settings_section empty_guest [("A", "1"); ("A", "2")]); from_guest (with_settings_section empty_guest [("NO-DASH", "1")]);
    from_guest (take 20 (with_settings_section empty_guest [("A", "1")])); from_guest (str_bytes "not wasm"); from_guest empty_guest] =
    [false; false; false; false; true].
Proof. by vm_compute. Qed.
(** A value that ends in a carriage return loses it. *)
Example trailing_return_lost :
  from_guest (with_settings_section empty_guest [("A", "1" +:+ String CR "")]) = Ok [("A", "1")].
Proof. by vm_compute. Qed.
