(* ===== verification/Pinpoint.v ===== *)
(** * Waking a device: notify/pinpoint.rs

    The request a wake is, what the service's answer means, the credential that
    signs it.  JSON, the signer, the credentials' provider and the transport are
    parameters; [SendError] and the labels are those of Notify.  Error texts are
    abbreviated; times are milliseconds. *)
From S2P Require Import Prelude Text Policy Notify.

Definition SERVICE : string := "mobiletargeting".
Definition TTL_SECS : Z := 3600.
Definition CREDENTIAL_MARGIN : Z := 300 * 1000.
Record HttpRequest := { rq_method : string; rq_uri : string; rq_headers : list (string * string); rq_body : bytes }.
(** A response; its error type header, if that is text. *)
Record HttpResponse := { rs_status : Z; rs_errortype : option string; rs_body : bytes }.
Record NotifyConfig := { app_id : string; region : string; endpoint : option string }.
Class PushJson := { json_to_vec : Json → bytes; json_to_string : Json → string; json_of_slice : bytes → option Json; show_Z : Z → string }.
(** What the code asks of the SDK and of the transport; [None], no answer in
    time. *)
Class Push (D : Type) := {
  Credentials : Type;
  expiry : Credentials → option Z;
  provide_credentials : M D (option string) Credentials;
  valid_uri : string → bool;
  sigv4 : string → string → Z → Credentials → HttpRequest → result string HttpRequest;
  transport_send : HttpRequest → M D (option string) HttpResponse }.

(** ** The message *)
Section message.
Context `{PushJson}.
Definition wake_message (category : string) (reference : option string) (now_ms : Z) : Json :=
  let data := [("v", JString "1"); ("category", JString category)] ++
              match reference with Some r => [("ref", JString r)] | None => [] end in
  JObject [
    ("data", JObject data);
    ("android", JObject [("priority", JString "high"); ("ttl", JString (show_Z TTL_SECS +:+ "s"))]);
    ("apns", JObject [
      ("headers", JObject [("apns-push-type", JString "background"); ("apns-priority", JString "5");
                           ("apns-expiration", JString (show_Z (now_ms / 1000 + TTL_SECS)))]);
      ("payload", JObject [("aps", JObject [("content-available", JNumber "1")])])])].
Definition wake_request (token category : string) (reference : option string) (now_ms : Z) : Json :=
  let raw := JObject [("fcmV1Message", JObject [("message", wake_message category reference now_ms)])] in
  JObject [
    ("Addresses", JObject [(token, JObject [("ChannelType", JString "GCM")])]);
    ("MessageConfiguration", JObject [("GCMMessage", JObject [("RawContent", JString (json_to_string raw))])])].
End message.

(** ** What the service says *)
(** [v[name]], [as_str] and [as_u64] of [serde_json]. *)
Definition index (v : Json) (name : string) : Json := default JNull (as_object v ≫= field name).
Definition as_u64 (v : Json) : option Z := match v with JNumber t => parse_uint u64_max t | _ => None end.
Fixpoint contains (p s : string) : bool :=
  starts_with p s || match s with "" => false | String _ s => contains p s end.
Definition classify_status (r : HttpResponse) : SendError :=
  let kind := default "" (rs_errortype r) in
  let detail := kind +:+ ": " +:+ bytes_str (rs_body r) in
  if decide (rs_status r ∈ [400; 404; 413]) then Refused detail
  else if (rs_status r =? 403) && starts_with "AccessDenied" kind then Refused detail
  else Transient detail.
Definition gone (code : Z) (message : string) : bool :=
  (code =? 404) || (code =? 410) || contains "UNREGISTERED" message || contains "NotRegistered" message.
Section answers.
Context `{PushJson}.
Definition classify_send (r : HttpResponse) (token : string) : result SendError () :=
  if negb (rs_status r =? 200) then Err (classify_status r)
  else
    let parsed := default JNull (json_of_slice (rs_body r)) in
    let res := index (index parsed "Result") token in
    let status := default "" (as_str (index res "DeliveryStatus")) in
    let code := default 0 (as_u64 (index res "StatusCode")) in
    let message := default "" (as_str (index res "StatusMessage")) in
    let detail := status +:+ ": " +:+ message in
    if decide (status = "SUCCESSFUL") then Ok ()
    else if bool_decide (status = "PERMANENT_FAILURE") && gone code message then Err (DeadToken detail)
    else if decide (status ∈ ["PERMANENT_FAILURE"; "OPT_OUT"; "DUPLICATE"]) then Err (Refused detail)
    else Err (Transient detail).
End answers.

(** ** The client *)
Section client.
Context `{PushJson, Push D}.
(** The world and the cached credential. *)
Record Client := { device : D; cached : option Credentials }.
Context (config : NotifyConfig).
Definition with_device {E A} (f : E → SendError) (m : M D E A) : M Client SendError A := λ s,
  let '(r, d) := m (device s) in (map_err f r, {| device := d; cached := cached s |}).
Definition set_cached (c : option Credentials) (s : Client) : Client := {| device := device s; cached := c |}.
Definition base : string := default ("https://pinpoint." +:+ region config +:+ ".amazonaws.com") (endpoint config).
Definition fresh_enough (now_ms : Z) (c : Credentials) : bool :=
  match expiry c with Some e => now_ms + CREDENTIAL_MARGIN <? e | None => true end.
Definition credentials (now_ms : Z) : M Client SendError Credentials :=
  s ← get;
  match cached s with
  | Some c =>
      if fresh_enough now_ms c then mret c
      else
        fetched ← with_device (λ e, Transient (default "no credentials in time" e)) provide_credentials;
        _ ← modify (set_cached (Some fetched)); mret fetched
  | None =>
      fetched ← with_device (λ e, Transient (default "no credentials in time" e)) provide_credentials;
      _ ← modify (set_cached (Some fetched)); mret fetched
  end.
Definition sign (request : HttpRequest) (c : Credentials) (region : string) (now_ms : Z) : result SendError HttpRequest :=
  map_err (λ e, Transient ("signing: " +:+ e)) (sigv4 SERVICE region now_ms c request).
Definition signed (method uri : string) (body : bytes) (now_ms : Z) : M Client SendError HttpResponse :=
  c ← credentials now_ms;
  _ ← ensure (valid_uri uri) (Refused "building the request");
  let request := {| rq_method := method; rq_uri := uri; rq_headers := [("content-type", "application/json")]; rq_body := body |} in
  request ← lift (sign request c (region config) now_ms);
  response ← with_device (λ e, Transient (default "did not answer" e)) (transport_send request);
  _ ← (if rs_status response =? 403 then modify (set_cached None) else mret ());
  mret response.
Definition is_true (v : Json) : bool := match v with JBool b => b | _ => false end.
Definition probe (now_ms : Z) : M Client SendError () :=
  response ← signed "GET" (base +:+ "/v1/apps/" +:+ app_id config +:+ "/channels/gcm") [] now_ms;
  if negb (rs_status response =? 200) then fail (classify_status response)
  else
    let channel := default JNull (json_of_slice (rs_body response)) in
    ensure (is_true (index channel "Enabled") && is_true (index channel "HasFcmServiceCredentials") &&
            bool_decide (as_str (index channel "DefaultAuthenticationMethod") = Some "TOKEN"))
      (Refused "the push application's FCM channel must be enabled").
Definition wake (token category : string) (reference : option string) (now_ms : Z) : M Client SendError () :=
  let body := json_to_vec (wake_request token category reference now_ms) in
  response ← signed "POST" (base +:+ "/v1/apps/" +:+ app_id config +:+ "/messages") body now_ms;
  lift (classify_send response token).
End client.
Arguments Client D {_}.
Definition client (config : NotifyConfig) : result string NotifyConfig :=
  _ ← check (valid_app_id (app_id config)) "a push application id is 1-64 letters and digits"; Ok config.
