(* ===== verification/PinpointProps.v ===== *)
(** * Waking a device: what travels, who signs, what an answer does *)
From S2P Require Import Prelude Text Policy Notify Pinpoint.

(** ** What travels *)
(** Every text in a value, and every name. *)
Fixpoint texts (v : Json) : list string :=
  match v with
  | JString s => [s]
  | JArray vs => concat (texts <$> vs)
  | JObject kvs => concat ((λ kv, texts kv.2) <$> kvs)
  | _ => []
  end.
Fixpoint names (v : Json) : list string :=
  match v with
  | JArray vs => concat (names <$> vs)
  | JObject kvs => concat ((λ kv, kv.1 :: names kv.2) <$> kvs)
  | _ => []
  end.
Section message.
Context `{PushJson}.
Definition vocabulary (now_ms : Z) : list string :=
  ["1"; "high"; show_Z TTL_SECS +:+ "s"; "background"; "5"; show_Z (now_ms / 1000 + TTL_SECS)].
(** A wake carries labels.  Of the texts in the message that crosses the parent,
    AWS and Google, those that are not the runtime's own are the category and
    the reference, each a label of at most 64 letters, digits, dashes and
    underscores; nothing in it is named as what a phone would show; and all that
    is beside it in the request is the token. *)
Theorem wake_carries_labels token category reference now_ms : check_labels category reference = Ok () →
  Forall (λ t, t ∈ vocabulary now_ms ∨ valid_label t = true ∧ (t = category ∨ reference = Some t))
    (texts (wake_message category reference now_ms)) ∧
  Forall (λ n, n ∉ ["notification"; "title"; "body"; "alert"]) (names (wake_message category reference now_ms)) ∧
  texts (wake_request token category reference now_ms) =
    ["GCM"; json_to_string (JObject [("fcmV1Message", JObject [("message", wake_message category reference now_ms)])])].
Proof.
  intros Hc. assert (valid_label category = true ∧ ∀ r, reference = Some r → valid_label r = true) as [Hv Hr].
  { unfold check_labels in Hc. apply bind_Ok in Hc as (u & Hv%check_Ok & Hc). split; [done|]. intros r ->. by apply check_Ok in Hc. }
  split_and!; [|destruct reference; cbn; repeat (constructor; [by apply (bool_decide_unpack _); vm_compute|]); constructor|done].
  destruct reference as [r|]; cbn; repeat (constructor; [first [left; unfold vocabulary; set_solver|right; split; [by auto|by auto]]|]); constructor.
Qed.
End message.

(** ** An exchange *)
Section client.
Context `{PushJson, Push D} (config : NotifyConfig).
Notation State := (Client D).
(** What looking for a credential at [now] gives, and the world after it: the one
    kept, if it does not lapse soon, or what the provider was asked for. *)
Inductive found (now : Z) (s : State) : result (option string) Credentials → D → Prop :=
  | found_kept c : cached s = Some c → fresh_enough now c = true → found now s (Ok c) (device s)
  | found_asked r d : provide_credentials (device s) = (r, d) →
      (∀ k, cached s = Some k → fresh_enough now k = false) → found now s r d.
Lemma credentials_spec now s r s' : credentials now s = (r, s') →
  ∃ x, found now s x (device s') ∧
    r = map_err (λ e, Transient (default "no credentials in time" e)) x ∧
    cached s' = match x with Ok c => Some c | Err _ => cached s end.
Proof.
  unfold credentials. unfold_m. intros E.
  destruct (cached s) as [c|] eqn:Ec; [destruct (fresh_enough now c) eqn:Ef|]; unfold with_device in E.
  1: { injection E as <- <-. exists (Ok c). split; [by constructor|done]. }
  all: destruct (provide_credentials (device s)) as [x d] eqn:Ep; exists x.
  all: assert (found now s x d) as Hf by (apply found_asked; [done|]; intros k' Hk'; rewrite Ec in Hk'; congruence).
  all: destruct x as [k|e]; cbn in E; injection E as <- <-; by rewrite ?Ec.
Qed.
Definition unsigned (method uri : string) (body : bytes) : HttpRequest :=
  {| rq_method := method; rq_uri := uri; rq_headers := [("content-type", "application/json")]; rq_body := body |}.
(** What an exchange did.  In the first three cases the world is the one in which
    the credential was looked for: nothing was sent.  In the others exactly one
    request was, signed at the trusted time with that credential; and a refused
    signature forgets it. *)
Inductive exchange (method uri : string) (body : bytes) (now : Z) (s s' : State) : result SendError HttpResponse → Prop :=
  | no_credential e : found now s (Err e) (device s') → cached s' = cached s →
      exchange method uri body now s s' (Err (Transient (default "no credentials in time" e)))
  | not_built c : found now s (Ok c) (device s') → cached s' = Some c → valid_uri uri = false →
      exchange method uri body now s s' (Err (Refused "building the request"))
  | not_signed c e : found now s (Ok c) (device s') → cached s' = Some c → valid_uri uri = true →
      sign (unsigned method uri body) c (region config) now = Err e → exchange method uri body now s s' (Err e)
  | not_answered c d rq x : found now s (Ok c) d → sign (unsigned method uri body) c (region config) now = Ok rq →
      transport_send rq d = (Err x, device s') → cached s' = Some c →
      exchange method uri body now s s' (Err (Transient (default "did not answer" x)))
  | answered c d rq resp : found now s (Ok c) d → sign (unsigned method uri body) c (region config) now = Ok rq →
      transport_send rq d = (Ok resp, device s') →
      cached s' = (if rs_status resp =? 403 then None else Some c) → exchange method uri body now s s' (Ok resp).
Lemma signed_spec method uri body now s r s' : signed config method uri body now s = (r, s') → exchange method uri body now s s' r.
Proof.
  unfold signed. intros E. apply mbind_inv in E as [(c & s1 & E1 & E)|(e & E1 & ->)]; apply credentials_spec in E1 as ([k|x] & Hf & Hr & Hk);
    cbn in Hr; simplify_eq/=; [|by apply no_credential].
  apply mbind_inv in E as [(u & s0 & E0 & E)|(e & E0 & ->)]; apply ensure_inv in E0 as [-> E0];
    destruct (valid_uri uri) eqn:Hu; try done.
  2: { injection E0 as ->. by eapply not_built. }
  clear E0. apply mbind_inv in E as [(rq & s2 & E2 & E)|(e & E2 & ->)]; apply lift_inv in E2 as [E2 ->].
  2: { by eapply not_signed. }
  apply mbind_inv in E as [(resp & s3 & E3 & E)|(e & E3 & ->)]; unfold with_device in E3;
    destruct (transport_send rq (device s1)) as [[rp|x] d] eqn:Et; try done; injection E3 as <- <-.
  2: { by eapply not_answered. }
  apply mbind_inv in E as [(u4 & s4 & E4 & E)|(e & E4 & ->)]; [|by destruct (_ =? 403)].
  injection E as <- <-. eapply answered; [exact Hf|exact E2| |]; destruct (rs_status rp =? 403); injection E4 as <- <-; done.
Qed.
(** On a world that keeps what was sent: nothing more, or one signed request. *)
Lemma exchange_sends (log : D → list HttpRequest) method uri body now s s' x :
  (∀ d, log (provide_credentials d).2 = log d) → (∀ rq d, log (transport_send rq d).2 = log d ++ [rq]) →
  exchange method uri body now s s' x →
  log (device s') = log (device s) ∨
  ∃ c d rq, found now s (Ok c) d ∧ sign (unsigned method uri body) c (region config) now = Ok rq ∧
    log (device s') = log (device s) ++ [rq].
Proof.
  intros Hp Ht. assert (∀ r d, found now s r d → log d = log (device s)) as Hf.
  { intros r d Hf. inversion Hf as [|? ? E]; subst; [done|]. by rewrite <-(Hp (device s)), E. }
  assert (∀ rq d r d', transport_send rq d = (r, d') → log d' = log d ++ [rq]) as Hs.
  { intros rq d r d' E. by rewrite <- Ht, E. }
  destruct 1 as [e F|c F|c e F|c d rq y F Es Et|c d rq resp F Es Et]; try (left; by eapply Hf); right; exists c, d, rq;
    (split_and!; [done|done|]); by rewrite (Hs _ _ _ _ Et), (Hf _ _ F).
Qed.
Lemma classify_status_alive resp m : classify_status resp ≠ DeadToken m.
Proof. unfold classify_status. destruct (decide _); [done|]. by destruct (_ && _). Qed.
Lemma dead_token_spec resp token m : classify_send resp token = Err (DeadToken m) →
  rs_status resp = 200 ∧ ∃ v code message, json_of_slice (rs_body resp) = Some v ∧ gone code message = true ∧
    as_str (index (index (index v "Result") token) "DeliveryStatus") = Some "PERMANENT_FAILURE" ∧
    code = default 0 (as_u64 (index (index (index v "Result") token) "StatusCode")) ∧
    message = default "" (as_str (index (index (index v "Result") token) "StatusMessage")).
Proof.
  unfold classify_send. destruct (Z.eqb_spec (rs_status resp) 200) as [Es|]; cbn [negb].
  2: { intros [= K]. by apply classify_status_alive in K. }
  set (v := default JNull (json_of_slice (rs_body resp))). set (res := index (index v "Result") token).
  destruct (decide (default "" (as_str (index res "DeliveryStatus")) = "SUCCESSFUL")); [done|].
  destruct (bool_decide_reflect (default "" (as_str (index res "DeliveryStatus")) = "PERMANENT_FAILURE")) as [Ep|]; cbn [andb];
    [|by destruct (decide _)].
  destruct (gone _ _) eqn:Eg; [|by destruct (decide _)]. intros _. split; [done|].
  assert (as_str (index res "DeliveryStatus") = Some "PERMANENT_FAILURE") as Ed by (destruct (as_str _); [by cbn in Ep; subst|done]).
  destruct (json_of_slice (rs_body resp)) as [w|]; [|done]. by eexists w, _, _.
Qed.
End client.

(** ** A concrete exchange *)
Module PinpointWitness.
(** The world: the requests sent and the answers to come; a credential is the
    time at which it lapses, and a request is signed by naming it. *)
Record Net := { requests : list HttpRequest; answers : list (result string HttpResponse); given : nat }.
#[local] Instance toy_json : PushJson :=
  {| json_to_vec _ := str_bytes "body"; json_to_string _ := "raw"; show_Z _ := "0";
     json_of_slice b := if decide (b = str_bytes "gone") then
       Some (JObject [("Result", JObject [("t0", JObject [("DeliveryStatus", JString "PERMANENT_FAILURE"); ("StatusCode", JNumber "410")])])])
       else None |}.
#[local] Instance toy_push : Push Net :=
  {| Credentials := Z; expiry := Some;
     provide_credentials n := (Ok 900000, {| requests := requests n; answers := answers n; given := S (given n) |});
     valid_uri _ := true;
     sigv4 _ _ _ c rq := Ok {| rq_method := rq_method rq; rq_uri := rq_uri rq; rq_headers := ("authorization", "by role") :: rq_headers rq; rq_body := rq_body rq |};
     transport_send rq n :=
       match answers n with
       | Ok a :: l => (Ok a, {| requests := requests n ++ [rq]; answers := l; given := given n |})
       | Err e :: l => (Err (Some e), {| requests := requests n ++ [rq]; answers := l; given := given n |})
       | [] => (Err None, {| requests := requests n ++ [rq]; answers := []; given := given n |})
       end |}.
Definition config : NotifyConfig := {| app_id := "app"; region := "eu-west-1"; endpoint := None |}.
Definition reply (status : Z) (body : string) : result string HttpResponse :=
  Ok {| rs_status := status; rs_errortype := None; rs_body := str_bytes body |}.
Definition net : Client Net :=
  {| device := {| requests := []; answers := [reply 200 "gone"; reply 403 ""; reply 200 "gone"]; given := 0 |}; cached := None |}.
Definition pruned : result SendError () * Client Net := wake config "t0" "approval" None 0 net.
Lemma wake_carries_labels_witness :
  check_labels "approval-needed" (Some "txn_1") = Ok () ∧
  Forall (λ t, t ∈ vocabulary 0 ∨ valid_label t = true ∧ (t = "approval-needed" ∨ Some "txn_1" = Some t))
    (texts (wake_message "approval-needed" (Some "txn_1") 0)).
Proof. split; [by vm_compute|]. apply (wake_carries_labels "t0" "approval-needed" (Some "txn_1") 0). by vm_compute. Defined.
(** The credential is given once and again when it is about to lapse or its
    signature was refused. *)
Example credentials_given_again :
  let s1 := (wake config "t0" "a" None 0 net).2 in let s2 := (wake config "t0" "a" None 500000 s1).2 in
  let s3 := (wake config "t0" "a" None 500001 s2).2 in let s4 := (wake config "t0" "a" None 700000 s3).2 in
  (λ s, given (device s)) <$> [s1; s2; s3; s4] = [1; 1; 2; 3]%nat ∧ cached s2 = None.
Proof. by vm_compute. Qed.
End PinpointWitness.
