(* ===== verification/Sandbox.v ===== *)
(** * What a guest instance is built from: clock.rs, random.rs, run.rs

    The clock and the entropy that are chosen at the start, the adapter that
    serves a guest its time, and the context of an instance.  Devices are
    parameters; a [Duration] is its nanoseconds; wasmtime's context is the record
    of what its builder is told. *)
From S2P Require Import Prelude Text Http Nsm Logs.

(** ** Clocks *)
(** The PTP device: opened, read as seconds and nanoseconds; the kernel's
    clock, before or after the epoch. *)
Class Clocks (D : Type) := {
  open_ptp : string → M D string ();
  ptp_gettime : M D string (Z * Z);
  system_time : M D string Z }.
Definition NANOS : Z := 1000000000.
Inductive TrustedClock := PtpClock (device : string) | HostClock.
Inductive ClockSource := Clock_auto | Clock_ptp | Clock_host.
Definition clock_source_parse (s : string) : option ClockSource :=
  let s := to_ascii_lowercase (trim s) in
  if decide (s = "auto") then Some Clock_auto else if decide (s = "ptp") then Some Clock_ptp
  else if decide (s = "host") then Some Clock_host else None.
Section clocks.
Context `{Clocks D}.
Definition clock_now (c : TrustedClock) : M D string Z :=
  match c with
  | PtpClock _ =>
      '(secs, nanos) ← ptp_gettime;
      _ ← ensure (0 <=? secs) "PTP clock returned a pre-epoch time";
      mret (secs * NANOS + nanos)
  | HostClock => system_time
  end.
Definition ptp_open (device : string) : M D string TrustedClock :=
  _ ← open_ptp device; _ ← clock_now (PtpClock device); mret (PtpClock device).
Definition open_clock (source : ClockSource) (device : string) : M D string TrustedClock :=
  match source with
  | Clock_host => mret HostClock
  | Clock_ptp => ptp_open device
  | Clock_auto => r ← attempt (ptp_open device); match r with Ok c => mret c | Err _ => mret HostClock end
  end.
(** [WallClockAdapter]: what a failed reading serves is the last good one. *)
Record WallClock := { wall_clock : TrustedClock; last_good : Z }.
Definition adapter_new (c : TrustedClock) : M D string WallClock :=
  initial ← clock_now c; mret {| wall_clock := c; last_good := initial |}.
Definition wall_now (w : WallClock) (d : D) : Z * WallClock * D :=
  match clock_now (wall_clock w) d with
  | (Ok now, d) => (now, {| wall_clock := wall_clock w; last_good := now |}, d)
  | (Err _, d) => (last_good w, w, d)
  end.
End clocks.

(** ** Entropy *)
Inductive RandomSource := Random_auto | Random_nsm | Random_host.
Definition random_source_parse (s : string) : option RandomSource :=
  let s := to_ascii_lowercase (trim s) in
  if decide (s = "auto") then Some Random_auto else if decide (s = "nsm") then Some Random_nsm
  else if decide (s = "host") then Some Random_host else None.
Section entropy.
Context {D : Type} (getrandom : nat → M D string bytes).
(** The kernel has entropy and nothing else of a security module. *)
Definition host_entropy : Nsm D :=
  {| get_random n := getrandom n;
     attest _ := fail "no attestation available: entropy is coming from the kernel, not an NSM";
     describe_pcr _ := fail "no PCRs: entropy is coming from the kernel, not an NSM";
     extend_pcr _ _ := fail "no PCRs to extend: entropy is coming from the kernel, not an NSM";
     lock_pcr _ := fail "no PCRs to lock: entropy is coming from the kernel, not an NSM" |}.
(** [device] opens the security module, or says why not. *)
Context (device : M D string (Nsm D)).
Definition open_entropy (source : RandomSource) : M D string (Nsm D) :=
  match source with
  | Random_host => mret host_entropy
  | Random_nsm => device
  | Random_auto => r ← attempt device; match r with Ok n => mret n | Err _ => mret host_entropy end
  end.
End entropy.
Section guest_random.
Context {D : Type} (source : Nsm D).
Definition read_random (n : nat) : M D string bytes := @get_random D source n.
Definition insecure_seed : M D string Z := b ← read_random 16; mret (le_word b).
(** A failure where the guest's interface has none: the instance dies. *)
Inductive panicked := Entropy_failed.
Definition fill_bytes (n : nat) : M D panicked bytes := λ d,
  let '(r, d) := read_random n d in (map_err (λ _, Entropy_failed) r, d).
Definition next_u32 : M D panicked Z := b ← fill_bytes 4; mret (le_word b).
Definition next_u64 : M D panicked Z := b ← fill_bytes 8; mret (le_word b).
(** Where it has one: an error of its own. *)
Definition try_fill_bytes (n : nat) : M D () bytes := λ d,
  let '(r, d) := read_random n d in (map_err (λ _, ()) r, d).
End guest_random.

(** ** The environment of every instance *)
Definition EXIT_RUNTIME_FAILURE : Z := 71.
Inductive GuestOutcome := Success | Failed.
Definition exit_code (o : GuestOutcome) : Z := match o with Success => 0 | Failed => 1 end.
Definition is_success (o : GuestOutcome) : bool := exit_code o =? 0.
Inductive Stdin := Stdin_empty | Stdin_inherited.
Inductive Output := Logged (s : GuestStream) | Output_inherited.
(** What [WasiCtxBuilder] is told. *)
Record WasiCtx := {
  preopened : list (string * string); stdin : Stdin; tcp : bool; udp : bool; name_lookup : bool;
  reachable : string → bool; stdout : Output; stderr : Output; envs : list (string * string); ctx_args : list string;
  random_seed : Z }.
Record GuestEnvironment {D : Type} := {
  clock : WallClock; entropy : Nsm D; env : list (string * string); args : list string }.
Arguments GuestEnvironment : clear implicits.
Section environment.
Context `{Clocks D}.
Definition environment_new (c : TrustedClock) (n : Nsm D) (env : list (string * string)) (args : list string) :
    M D string (GuestEnvironment D) :=
  w ← adapter_new c; mret {| clock := w; entropy := n; env := env; args := args |}.
(** [dir], if the host can open it. *)
Definition new_state (openable : string → bool) (e : GuestEnvironment D) (dir : option string) : M D string WasiCtx :=
  _ ← match dir with Some d => ensure (openable d) "the directory cannot be opened" | None => mret () end;
  seed ← insecure_seed (entropy e);
  mret {| preopened := match dir with Some d => [(d, "/")] | None => [] end; stdin := Stdin_empty;
          tcp := false; udp := false; name_lookup := false; reachable := λ _, false;
          stdout := Logged Stdout; stderr := Logged Stderr; envs := env e; ctx_args := args e; random_seed := seed |}.
End environment.
