(* ===== verification/SandboxProps.v ===== *)
(** * What a guest instance is built from: its time, its random bytes, its context *)
From S2P Require Import Prelude Text Http Nsm Logs Sandbox.

(** ** Time *)
Section clocks.
Context `{Clocks D}.
(** [n] readings of a guest in turn, and what the clock said at each. *)
Fixpoint served (n : nat) (w : WallClock) (d : D) : list Z :=
  match n with O => [] | S n => let '(t, w, d) := wall_now w d in t :: served n w d end.
Fixpoint read (n : nat) (c : TrustedClock) (d : D) : list (option Z) :=
  match n with O => [] | S n => let '(r, d) := clock_now c d in to_option r :: read n c d end.
(** Each reading that failed repeats the one before it. *)
Fixpoint carried (last : Z) (rs : list (option Z)) : list Z :=
  match rs with [] => [] | r :: rs => let t := default last r in t :: carried t rs end.
Lemma served_carried n w d : served n w d = carried (last_good w) (read n (wall_clock w) d).
Proof.
  revert w d. induction n as [|n IH]; intros w d; cbn; [done|]. unfold wall_now.
  destruct (clock_now (wall_clock w) d) as [[t|e] d'] eqn:E; cbn; by rewrite IH.
Qed.
Lemma carried_in last rs t : t ∈ carried last rs → t = last ∨ Some t ∈ rs.
Proof.
  revert last. induction rs as [|r rs IH]; intros last; cbn; [by intros ?%elem_of_nil|].
  intros [->|Ht]%elem_of_cons.
  - destruct r as [t|]; cbn; [right|left]; [by left|done].
  - apply IH in Ht as [->|Ht]; [|right; by right]. destruct r as [u|]; cbn; [right; by left|by left].
Qed.
Lemma ptp_open_is device d c d' : ptp_open device d = (Ok c, d') → c = PtpClock device.
Proof.
  unfold ptp_open. intros E. apply mbind_inv in E as [(u & d1 & _ & E)|(e & _ & [=])].
  apply mbind_inv in E as [(t & d2 & _ & E)|(e & _ & [=])]. by injection E as <- _.
Qed.
(** A guest's time is its clock's.  With a clock that was required to be the
    hardware's, the clock is that device's; an adapter exists only if the clock
    could be read; and whatever readings fail afterwards, each time a guest is
    served is one that the clock gave, the last one it gave. *)
Theorem guest_time device n d c d1 w d2 : open_clock Clock_ptp device d = (Ok c, d1) → adapter_new c d1 = (Ok w, d2) →
  c = PtpClock device ∧ wall_clock w = c ∧ clock_now c d1 = (Ok (last_good w), d2) ∧
  served n w d2 = carried (last_good w) (read n c d2) ∧
  ∀ t, t ∈ served n w d2 → t = last_good w ∨ Some t ∈ read n c d2.
Proof.
  intros Ec Ea. apply ptp_open_is in Ec as Hc. unfold adapter_new in Ea.
  apply mbind_inv in Ea as [(t & d3 & Et & Ea)|(e & _ & [=])]. injection Ea as <- <-. cbn.
  split_and!; try done; [apply served_carried|]. intros u Hu. rewrite served_carried in Hu. by apply carried_in in Hu.
Qed.
End clocks.

(** ** Random bytes *)
Section entropy.
Context {D : Type} (getrandom : nat → M D string bytes) (device : M D string (Nsm D)).
(** Entropy that was required to be the security module's is; nothing falls
    back. *)
Lemma required_entropy d n d' : open_entropy getrandom device Random_nsm d = (Ok n, d') → device d = (Ok n, d').
Proof. done. Qed.
(** A guest gets the source's bytes or none: there is no third outcome, and a
    number is made of all of them. *)
Lemma next_u64_source (source : Nsm D) d r d' : next_u64 source d = (r, d') →
  match @get_random D source 8 d with
  | (Ok b, _) => r = Ok (le_word b)
  | (Err _, _) => r = Err Entropy_failed
  end.
Proof.
  unfold next_u64, fill_bytes, read_random. unfold_m. destruct (@get_random D source 8 d) as [[b|e] d1]; cbn; by intros [= <- _].
Qed.
End entropy.

(** ** The context *)
Section environment.
Context `{Clocks D}.
(** An instance sees its directory and the settings of its file, and has no
    other way out: no inherited input or output, no socket, no name. *)
Lemma instance_context openable (e : GuestEnvironment D) dir d ctx d' : new_state openable e dir d = (Ok ctx, d') →
  (∀ p, p ∈ preopened ctx → ∃ h, dir = Some h ∧ openable h = true ∧ p = (h, "/")) ∧
  stdin ctx = Stdin_empty ∧ stdout ctx = Logged Stdout ∧ stderr ctx = Logged Stderr ∧
  tcp ctx = false ∧ udp ctx = false ∧ name_lookup ctx = false ∧ (∀ a, reachable ctx a = false) ∧
  envs ctx = env e ∧ ctx_args ctx = args e ∧
  ∃ b, @get_random D (entropy e) 16 d = (Ok b, d') ∧ random_seed ctx = le_word b.
Proof.
  unfold new_state. intros E. apply mbind_inv in E as [(u & d1 & E1 & E)|(x & _ & [=])].
  assert (d1 = d ∧ ∀ h, dir = Some h → openable h = true) as [-> Hd].
  { destruct dir as [h|]; [|by injection E1 as <- <-]. apply ensure_inv in E1 as [-> E1]. split; [done|].
    intros ? [= <-]. unfold check in E1. by destruct (openable h). }
  apply mbind_inv in E as [(s & d2 & E2 & E)|(x & _ & [=])]. injection E as <- <-.
  unfold insecure_seed, read_random in E2. apply mbind_inv in E2 as [(b & d3 & E3 & E2)|(x & _ & [=])]. injection E2 as <- <-.
  split_and!; try done; [|by exists b]. intros p Hp. destruct dir as [h|]; cbn in Hp; [|by apply elem_of_nil in Hp].
  apply list_elem_of_singleton in Hp as ->. exists h. auto.
Qed.
End environment.

(** ** A clock that fails now and then *)
#[local] Instance toy_clocks : Clocks (list (option (Z * Z))) :=
  {| open_ptp _ := mret (); system_time := mret 0;
     ptp_gettime := λ rs, match rs with Some t :: rs => (Ok t, rs) | None :: rs => (Err "EIO", rs) | [] => (Err "EIO", []) end |}.
Definition flaky : list (option (Z * Z)) := [Some (1, 0); Some (1, 5); Some (2, 0); None; None; Some (3, 7); Some (-1, 0)].
Lemma guest_time_witness :
  served 5 {| wall_clock := PtpClock "/dev/ptp0"; last_good := NANOS + 5 |} (drop 2 flaky) =
    [2 * NANOS; 2 * NANOS; 2 * NANOS; 3 * NANOS + 7; 3 * NANOS + 7] ∧
  clock_now (PtpClock "/dev/ptp0") (tail flaky) = (Ok (NANOS + 5), drop 2 flaky).
Proof.
  split; [by vm_compute|].
  exact (proj1 (proj2 (proj2 (guest_time "/dev/ptp0" 5 flaky (PtpClock "/dev/ptp0") (tail flaky)
    {| wall_clock := PtpClock "/dev/ptp0"; last_good := NANOS + 5 |} (drop 2 flaky) ltac:(by vm_compute) ltac:(by vm_compute))))).
Defined.
