(* ===== verification/S3.v ===== *)
(** * The object store on S3: store/backend/aws.rs

    [AwsS3Backend], method for method.  The SDK's client is a parameter: one call
    of the service each, with the fields of its answer that the code reads, any
    of which may be missing.  Instants are milliseconds; errors' debug texts are
    left out.  Setting the client up is not modelled. *)
From S2P Require Import Prelude Text Http Backend.

(** ** The SDK *)
(** [ServiceError]: its code, and whether it is [HeadObject]'s [NotFound]. *)
Inductive SdkError := ServiceError (code : option string) (head_not_found : bool) | TimeoutError | DispatchFailure | ResponseError | OtherFailure.
(** [aws_smithy_types::DateTime]: seconds and nanoseconds. *)
Definition DateTime : Type := Z * Z.
Record HeadOutput := {
  ho_e_tag : option string; ho_length : option Z; ho_modified : option DateTime; ho_type : option string;
  ho_metadata : option (gmap string string) }.
(** [body.collect()] can fail after the answer's head came. *)
Record ObjectOutput := {
  oo_e_tag : option string; oo_modified : option DateTime; oo_type : option string;
  oo_metadata : option (gmap string string); oo_body : option bytes }.
Record ObjectVersion := { ov_key : option string; ov_version_id : option string }.
Record VersionsOutput := {
  vs_versions : option (list ObjectVersion); vs_truncated : option bool; next_key_marker : option string;
  next_version_id_marker : option string }.
Record PutRequest := {
  pr_key : string; pr_body : bytes; pr_if_none_match : option string; pr_metadata : gmap string string;
  pr_type : option string; pr_lock : option ObjectLock }.
Record ObjectSummary := { os_key : option string; os_e_tag : option string; os_size : option Z; os_modified : option DateTime }.
Record ListRequest := {
  lr_prefix : string; lr_delimiter : option string; lr_max_keys : option Z; lr_start_after : option string;
  lr_token : option string }.
Record ListOutput := {
  lv_contents : option (list ObjectSummary); lv_prefixes : option (list (option string)); lv_next : option string;
  lv_truncated : option bool }.
Record CopyRequest := {
  cr_key : string; cr_source : string; cr_replace : option (gmap string string); cr_type : option string }.
Class S3Client (D : Type) := {
  head_object : string → M D SdkError HeadOutput;
  get_object : string → option string → option string → M D SdkError ObjectOutput;
  list_object_versions : string → option string → option string → M D SdkError VersionsOutput;
  put_object : PutRequest → M D SdkError (option string);
  delete_object : string → M D SdkError ();
  delete_objects : list string → M D SdkError ();
  list_objects_v2 : ListRequest → M D SdkError ListOutput;
  copy_object : CopyRequest → M D SdkError (option string);
  create_multipart_upload : PutRequest → M D SdkError (option string);
  upload_part : string → string → Z → bytes → M D SdkError (option string);
  upload_part_copy : string → string → Z → string → string → M D SdkError (option string);
  complete_multipart_upload : string → string → list (Z * string) → M D SdkError (option string);
  abort_multipart_upload : string → string → M D SdkError () }.

(** ** Errors *)
Definition service_code (e : SdkError) : option string := match e with ServiceError code _ => code | _ => None end.
Definition map_sdk_error (e : SdkError) : StoreError :=
  match service_code e with
  | Some code =>
      if decide (code ∈ ["NoSuchKey"; "NoSuchUpload"; "NoSuchBucket"; "NotFound"]) then SE_NotFound
      else if decide (code ∈ ["AccessDenied"; "Forbidden"]) then SE_AccessDenied
      else if decide (code = "PreconditionFailed") then SE_Conflict
      else if decide (code ∈ ["BucketAlreadyExists"; "BucketAlreadyOwnedByYou"]) then SE_AlreadyExists
      else if decide (code ∈ ["EntityTooLarge"; "EntityTooSmall"]) then SE_Invalid "entity size"
      else if decide (code ∈ ["RequestTimeout"; "SlowDown"; "RequestLimitExceeded"]) then SE_IoTimeout
      else SE_Io ""
  | None =>
      match e with
      | TimeoutError => SE_IoTimeout
      | DispatchFailure => SE_Network ""
      | _ => SE_Io ""
      end
  end.
Definition head_error (e : SdkError) : StoreError :=
  match e with ServiceError _ true => SE_NotFound | _ => map_sdk_error e end.
Definition put_new_error (e : SdkError) : StoreError :=
  if decide (service_code e = Some "PreconditionFailed") then SE_AlreadyExists else map_sdk_error e.
(** Before the epoch is the epoch. *)
Definition dt_to_systemtime (d : DateTime) : Z := if 0 <=? d.1 then d.1 * 1000 + d.2 / 1000000 else 0.
(** [u32 as i32]. *)
Definition as_i32 (n : Z) : Z := if n <? 2 ^ 31 then n else n - 2 ^ 32.
(** [chunks]: [fuel] bounds their number, the length is enough. *)
Fixpoint chunks_of {A} (fuel n : nat) (l : list A) : list (list A) :=
  match fuel, l with
  | O, _ | _, [] => []
  | S fuel, _ => take n l :: chunks_of fuel n (drop n l)
  end.

Section s3.
Context `{S3Client D} (bucket : string).
Notation op := (M D StoreError).
Definition send {A} (f : SdkError → StoreError) (m : M D SdkError A) : op A := λ d,
  let '(r, d) := m d in (map_err f r, d).
Definition capabilities : Capabilities :=
  {| conditional_put := true; Backend.upload_part_copy := true; batch_delete := true; metadata_in_listings := false; cap_object_lock := true |}.
Definition time_of (t : option DateTime) : Z := from_option dt_to_systemtime 0 t.
Definition head_blob (key : string) : op BlobMeta :=
  resp ← send head_error (head_object key);
  mret {| bm_key := key; bm_e_tag := default "" (ho_e_tag resp); bm_size := Z.max (default 0 (ho_length resp)) 0;
          bm_last_modified := time_of (ho_modified resp); bm_content_type := ho_type resp;
          bm_metadata := default ∅ (ho_metadata resp); is_dir_marker := ends_with "/" key |}.
(** An object's answer, its body collected. *)
Definition collected (key : string) (resp : ObjectOutput) : op GetBlobOutput :=
  body ← unwrap (oo_body resp) (SE_Io "GetObject body");
  mret {| go_meta := {| bm_key := key; bm_e_tag := default "" (oo_e_tag resp); bm_size := len body;
                        bm_last_modified := time_of (oo_modified resp); bm_content_type := oo_type resp;
                        bm_metadata := default ∅ (oo_metadata resp); is_dir_marker := ends_with "/" key |};
          go_body := body |}.
Definition byte_range (start last : Z) : string := "bytes=" +:+ pretty start +:+ "-" +:+ pretty last.
Definition get_blob (key : string) (range : option (Z * Z)) : op GetBlobOutput :=
  let range := match range with
    | Some (start, end_) => if start <? end_ then Some (byte_range start (end_ - 1)) else None
    | None => None
    end in
  resp ← send map_sdk_error (get_object key range None);
  collected key resp.
(** Every page of the versions under the key, those of the key itself.  [fuel]
    bounds the pages. *)
Fixpoint list_versions (fuel : nat) (key : string) (key_marker version_id_marker : option string) : op (list ObjectVersion) :=
  match fuel with
  | O => fail (SE_Io "unreachable: fuel")
  | S fuel =>
      listed ← send map_sdk_error (list_object_versions key key_marker version_id_marker);
      let versions := filter (λ v, ov_key v = Some key) (default [] (vs_versions listed)) in
      if negb (default false (vs_truncated listed)) then mret versions
      else
        match next_key_marker listed with
        | None => fail (SE_Io "ListObjectVersions: truncated without a continuation marker")
        | Some m =>
            rest ← list_versions fuel key (Some m) (next_version_id_marker listed);
            mret (versions ++ rest)
        end
  end.
Definition get_retained_blob (fuel : nat) (key : string) : op GetBlobOutput :=
  versions ← list_versions fuel key None None;
  version_id ← unwrap (head (omap ov_version_id (rev versions))) SE_NotFound;
  resp ← send map_sdk_error (get_object key None (Some version_id));
  collected key resp.
Definition put_request (i : PutBlobInput) (if_none_match : option string) : PutRequest :=
  {| pr_key := pi_key i; pr_body := pi_body i; pr_if_none_match := if_none_match; pr_metadata := pi_metadata i;
     pr_type := pi_content_type i; pr_lock := pi_object_lock i |}.
Definition put_meta (now : Z) (i : PutBlobInput) (tag : option string) : BlobMeta :=
  {| bm_key := pi_key i; bm_e_tag := default "" tag; bm_size := len (pi_body i); bm_last_modified := now;
     bm_content_type := pi_content_type i; bm_metadata := pi_metadata i; is_dir_marker := ends_with "/" (pi_key i) |}.
Definition put_blob (now : Z) (i : PutBlobInput) : op BlobMeta :=
  tag ← send map_sdk_error (put_object (put_request i None)); mret (put_meta now i tag).
Definition put_blob_if_not_exists (now : Z) (i : PutBlobInput) : op BlobMeta :=
  tag ← send put_new_error (put_object (put_request i (Some "*"))); mret (put_meta now i tag).
Definition delete_blob (key : string) : op () := send map_sdk_error (delete_object key).
Definition delete_blobs (keys : list string) : op () :=
  if decide (keys = []) then mret ()
  else forM (λ chunk, send map_sdk_error (delete_objects chunk)) (chunks_of (length keys) 1000 keys).
Definition list_blobs (i : ListBlobsInput) : op ListBlobsOutput :=
  resp ← send map_sdk_error (list_objects_v2
    {| lr_prefix := li_prefix i; lr_delimiter := li_delimiter i; lr_max_keys := as_i32 <$> li_max_keys i;
       lr_start_after := li_start_after i; lr_token := li_continuation_token i |});
  mret {| lo_items := (λ o, {| bi_key := default "" (os_key o); bi_e_tag := default "" (os_e_tag o);
                               bi_size := Z.max (default 0 (os_size o)) 0; bi_last_modified := time_of (os_modified o) |})
                      <$> default [] (lv_contents resp);
          lo_prefixes := omap id (default [] (lv_prefixes resp)); next_continuation_token := lv_next resp;
          is_truncated := default false (lv_truncated resp) |}.
Definition copy_blob (now : Z) (i : CopyBlobInput) : op BlobMeta :=
  tag ← send map_sdk_error (copy_object
    {| cr_key := destination_key i; cr_source := bucket +:+ "/" +:+ source_key i;
       cr_replace := replace_metadata i; cr_type := replace_content_type i |});
  mret {| bm_key := destination_key i; bm_e_tag := default "" tag; bm_size := 0; bm_last_modified := now;
          bm_content_type := replace_content_type i; bm_metadata := default ∅ (replace_metadata i);
          is_dir_marker := ends_with "/" (destination_key i) |}.
Definition multipart_begin (i : PutBlobInput) : op string :=
  id ← send map_sdk_error (create_multipart_upload (put_request i None));
  unwrap id (SE_Io "CreateMultipartUpload returned no upload_id").
Definition multipart_upload_part (key id : string) (n : Z) (b : bytes) : op string :=
  tag ← send map_sdk_error (upload_part key id (as_i32 n) b); mret (default "" tag).
Definition multipart_upload_part_copy (key id : string) (n : Z) (source : string) (range : Z * Z) : op string :=
  tag ← send map_sdk_error
    (upload_part_copy key id (as_i32 n) (bucket +:+ "/" +:+ source) (byte_range range.1 ((range.2 - 1) mod 2 ^ 64)));
  mret (default "" tag).
Definition multipart_complete (now : Z) (key id : string) (parts : list CompletedPart) : op BlobMeta :=
  tag ← send map_sdk_error
    (complete_multipart_upload key id ((λ p, (as_i32 (cp_part_number p), cp_e_tag p)) <$> parts));
  mret {| bm_key := key; bm_e_tag := default "" tag; bm_size := 0; bm_last_modified := now; bm_content_type := None;
          bm_metadata := ∅; is_dir_marker := ends_with "/" key |}.
Definition multipart_abort (key id : string) : op () := send map_sdk_error (abort_multipart_upload key id).
End s3.
