(* ===== verification/S3Props.v ===== *)
(** * The object store on S3: the retained version, whatever hides it

    What the service documents of versions under a lock, and the proof that the
    client's methods keep the promise the anchor chain is built on. *)
From S2P Require Import Prelude Text Http Backend Anchor AnchorProps S3.

(** ** What the service documents *)
(** A key's versions, newest first, of a bucket in which every version is under a
    lock that lasts to [s3_horizon]: new ones go in front and none goes away,
    whatever delete markers come and go.  A listing starts at the newest, or
    after a position that a listing gave; a page shows what follows, in order,
    and says where the next one starts, which is nearer to the end, counted in
    entries, markers included. *)
Class S3Laws (D : Type) `{S3Client D} := {
  s3_ok : D → Prop;
  s3_later : D → D → Prop;
  s3_horizon : Z;
  versions : D → string → list (string * bytes);
  issued : D → string → string * option string → Prop;
  older : D → string → string * option string → list (string * bytes);
  left : D → string → string * option string → nat;
  s3_later_refl d : s3_later d d;
  s3_later_trans d d' d'' : s3_later d d' → s3_later d' d'' → s3_later d d'';
  later_versions d d' k : s3_later d d' → ∃ new, versions d' k = new ++ versions d k;
  later_position d d' k p : s3_later d d' → issued d k p →
    issued d' k p ∧ older d' k p = older d k p ∧ left d' k p = left d k p;
  list_law d k start r d' : s3_ok d → from_option (issued d k) True start →
    list_object_versions k (fst <$> start) (start ≫= snd) d = (r, d') →
    s3_ok d' ∧ s3_later d d' ∧
    match r with
    | Ok page =>
        let shown := filter (λ v, ov_key v = Some k) (default [] (vs_versions page)) in
        ∃ ids rest, from_option (older d' k) (versions d' k) start = ids ++ rest ∧
          shown = (λ v, {| ov_key := Some k; ov_version_id := Some v.1 |}) <$> ids ∧
          if default false (vs_truncated page) then
            ∃ m, next_key_marker page = Some m ∧ let p := (m, next_version_id_marker page) in
                 issued d' k p ∧ older d' k p = rest ∧ from_option (λ q, (left d' k p < left d' k q)%nat) True start
          else rest = []
    | Err e => map_sdk_error e ≠ SE_NotFound
    end;
  get_law d k v r d' : s3_ok d → get_object k None (Some v) d = (r, d') →
    s3_ok d' ∧ s3_later d d' ∧ ∀ b, (v, b) ∈ versions d k →
      match r with
      | Ok o => oo_body o = None ∨ oo_body o = Some b
      | Err e => map_sdk_error e ≠ SE_NotFound
      end;
  put_law d p lock r d' : s3_ok d → pr_lock p = Some lock → s3_horizon ≤ retain_until lock →
    put_object p d = (r, d') → s3_ok d' ∧ s3_later d d' ∧ (is_ok r → versions d' (pr_key p) ≠ []) }.

Notation oldest := list.last.
Section s3.
Context `{S3Laws D} (bucket : string).
Notation op := (M D StoreError).
Definition kept (d : D) (k : string) : option bytes := snd <$> oldest (versions d k).
Lemma last_version d d' k v : s3_later d d' → oldest (versions d k) = Some v → oldest (versions d' k) = Some v.
Proof. intros Hl Hv. destruct (later_versions d d' k Hl) as [new ->]. by rewrite last_app, Hv. Qed.
Lemma version_later d d' k v : s3_later d d' → v ∈ versions d k → v ∈ versions d' k.
Proof. intros Hl Hv. destruct (later_versions d d' k Hl) as [new ->]. apply elem_of_app. by right. Qed.
Lemma no_versions d d' k : s3_later d d' → versions d' k = [] → versions d k = [].
Proof. intros Hl Hv. destruct (later_versions d d' k Hl) as [new E]. rewrite E in Hv. by apply app_nil in Hv as [_ ->]. Qed.
Lemma send_inv {A} (f : SdkError → StoreError) (m : M D SdkError A) d r d' : send f m d = (r, d') →
  ∃ x, m d = (x, d') ∧ r = map_err f x.
Proof. unfold send. destruct (m d) as [x d1]. intros [= <- <-]. by exists x. Qed.
Lemma kept_later d d' k x : s3_later d d' → kept d k = Some x → kept d' k = Some x.
Proof.
  unfold kept. intros Hl Hx. apply fmap_Some in Hx as (v & Hv & ->). by rewrite (last_version _ _ _ _ Hl Hv).
Qed.
(** The fields of a listed version. *)
Definition version_of (k : string) (v : string * bytes) : ObjectVersion := {| ov_key := Some k; ov_version_id := Some v.1 |}.
(** A listing from [start] shows what is there when its first page is read. *)
Lemma list_versions_spec fuel k start d r d' : s3_ok d → from_option (issued d k) True start →
  list_versions fuel k (fst <$> start) (start ≫= snd) d = (r, d') →
  s3_ok d' ∧ s3_later d d' ∧
  match r with
  | Ok vs => ∃ d1, s3_later d d1 ∧ s3_later d1 d' ∧ vs = version_of k <$> from_option (older d1 k) (versions d1 k) start
  | Err e => e ≠ SE_NotFound
  end.
Proof.
  revert start d r d'. induction fuel as [|fuel IH]; intros start d r d' Hok Hi E; cbn [list_versions] in E.
  { injection E as <- <-. split_and!; [done|apply s3_later_refl|done]. }
  apply mbind_inv in E as [(page & d1 & E1 & E)|(e & E1 & ->)]; apply send_inv in E1 as (x & E1 & Ex);
    destruct x as [page'|x]; try done; destruct (list_law _ _ _ _ _ Hok Hi E1) as (Hok1 & Hl1 & Hp).
  2: { injection Ex as ->. by split_and!. }
  injection Ex as ->. destruct Hp as (ids & rest & Hall & Hshown & Ht). destruct (default false (vs_truncated page')); cbn [negb] in E.
  - destruct Ht as (m & Em & Him & Ho & _). rewrite Em in E. apply mbind_inv in E as [(vs & d2 & E2 & E)|(e & E2 & ->)].
    + apply (IH (Some (m, next_version_id_marker page'))) in E2 as (Hok2 & Hl2 & d3 & Hl3 & Hl4 & ->); [|done..].
      injection E as <- <-. split_and!; [done|by eapply s3_later_trans|]. exists d1. split_and!; [done..|].
      rewrite Hshown, Hall, fmap_app. f_equal. cbn [from_option]. by rewrite (proj1 (proj2 (later_position _ _ _ _ Hl3 Him))), Ho.
    + apply (IH (Some (m, next_version_id_marker page'))) in E2 as (Hok2 & Hl2 & He); [|done..].
      split_and!; [done|by eapply s3_later_trans|done].
  - injection E as <- <-. split_and!; [done..|]. exists d1. split_and!; [done|apply s3_later_refl|].
    by rewrite Hshown, Hall, Ht, app_nil_r.
Qed.
Lemma last_id k vs : head (omap ov_version_id (rev (version_of k <$> vs))) = fst <$> oldest vs.
Proof.
  induction vs as [|v vs _] using rev_ind; [done|]. by rewrite fmap_app, rev_app_distr, last_snoc.
Qed.
Lemma get_retained_spec fuel k d r d' : s3_ok d → get_retained_blob fuel k d = (r, d') →
  s3_ok d' ∧ s3_later d d' ∧
  match r with
  | Ok out => kept d' k = Some (go_body out)
  | Err SE_NotFound => kept d k = None
  | Err _ => True
  end.
Proof.
  intros Hok E. unfold get_retained_blob in E. apply mbind_inv in E as [(vs & d1 & E1 & E)|(e & E1 & ->)];
    apply (list_versions_spec fuel k None) in E1 as (Hok1 & Hl1 & Hr); try done.
  2: { split_and!; [done..|]. by destruct e. }
  destruct Hr as (d0 & Hl0 & Hl01 & ->). cbn [from_option] in E. rewrite last_id in E.
  apply mbind_inv in E as [(v & d2 & E2 & E)|(e & E2 & ->)]; apply unwrap_inv in E2 as [-> E2].
  2: { destruct (oldest (versions d0 k)) as [v|] eqn:Ev; [done|]. injection E2 as ->. split_and!; [done..|].
       apply last_None in Ev. unfold kept. by rewrite (no_versions _ _ _ Hl0 Ev). }
  destruct (oldest (versions d0 k)) as [[w b]|] eqn:Ev; [|done]. injection E2 as ->. cbn [fst] in E.
  assert ((w, b) ∈ versions d1 k) as Hin by by eapply version_later, last_Some_elem_of.
  apply mbind_inv in E as [(o & d3 & E3 & E)|(e & E3 & ->)]; apply send_inv in E3 as (x & E3 & Ex);
    destruct (get_law _ _ _ _ _ Hok1 E3) as (Hok3 & Hl3 & Hg); specialize (Hg _ Hin); destruct x as [o'|x]; try done; injection Ex as ->.
  2: { split_and!; [done|by apply (s3_later_trans d d1)|]. by destruct (map_sdk_error x). }
  unfold collected in E. apply mbind_inv in E as [(body & d4 & E4 & E)|(e & E4 & ->)]; apply unwrap_inv in E4 as [-> E4].
  2: { split_and!; [done|by apply (s3_later_trans d d1)|]. destruct (oo_body o'); [done|]. by injection E4 as ->. }
  injection E as <- <-. split_and!; [done|by apply (s3_later_trans d d1)|]. cbn [go_body].
  assert (oldest (versions d3 k) = Some (w, b)) as Hlast.
  { eapply last_version; [|exact Ev]. by apply (s3_later_trans d0 d1). }
  unfold kept. rewrite Hlast. destruct Hg as [Hg|Hg]; rewrite Hg in E4; [done|]. by injection E4 as ->.
Qed.
Lemma put_retained_spec now i lock d r d' : s3_ok d → pi_object_lock i = Some lock → s3_horizon ≤ retain_until lock →
  put_blob_if_not_exists now i d = (r, d') → s3_ok d' ∧ s3_later d d' ∧ (is_ok r → is_Some (kept d' (pi_key i))).
Proof.
  intros Hok Hlock Hu E. unfold put_blob_if_not_exists in E.
  apply mbind_inv in E as [(tag & d1 & E1 & E)|(e & E1 & ->)]; apply send_inv in E1 as (x & E1 & Ex);
    destruct (put_law _ (put_request i (Some "*")) lock _ _ Hok Hlock Hu E1) as (Hok1 & Hl1 & Hp); [|by split_and!].
  injection E as <- <-. split_and!; [done..|intros _]. unfold kept. cbn [pr_key put_request] in Hp.
  destruct x; [|done]. specialize (Hp I). apply fmap_is_Some. by apply last_is_Some.
Qed.

(** ** The pages end *)
(** With enough fuel the listing has one outcome, which is not for want of it. *)
Definition out_of_fuel {A} (r : result StoreError A) : Prop := r = Err (SE_Io "unreachable: fuel").
Definition ends {A} (m : nat → op A) (d : D) : Prop :=
  ∃ n r d', ¬ out_of_fuel r ∧ ∀ fuel, (n ≤ fuel)%nat → m fuel d = (r, d').
Lemma mapped_not_fuel {A} e : ¬ out_of_fuel (Err (map_sdk_error e) : result _ A).
Proof. unfold out_of_fuel, map_sdk_error. repeat case_match; congruence. Qed.
Lemma list_versions_step k start d : s3_ok d → from_option (issued d k) True start →
  (∀ m vm d1, s3_ok d1 → s3_later d d1 → issued d1 k (m, vm) →
    from_option (λ q, (left d1 k (m, vm) < left d1 k q)%nat) True start → ends (λ f, list_versions f k (Some m) vm) d1) →
  ends (λ f, list_versions f k (fst <$> start) (start ≫= snd)) d.
Proof.
  intros Hok Hi IH. destruct (list_object_versions k (fst <$> start) (start ≫= snd) d) as [x d1] eqn:E1.
  destruct (list_law _ _ _ _ _ Hok Hi E1) as (Hok1 & Hl1 & Hp). destruct x as [page|x].
  2: { exists 1%nat, (Err (map_sdk_error x)), d1. split; [apply mapped_not_fuel|]. intros [|f] Hf; [lia|].
       cbn [list_versions]. unfold_m. unfold send. by rewrite E1. }
  destruct Hp as (ids & rest & _ & _ & Ht). destruct (default false (vs_truncated page)) eqn:Et.
  2: { eexists 1%nat, (Ok _), d1. split; [by intros ?|]. intros [|f] Hf; [lia|].
       cbn [list_versions]. unfold_m. unfold send. rewrite E1. cbn [map_err]. by rewrite Et. }
  destruct Ht as (m & Em & Him & _ & Hlt). destruct (IH _ _ _ Hok1 Hl1 Him Hlt) as (n & r & d2 & Hr & Hn).
  exists (S n), (match r with Ok rest => Ok (filter (λ v, ov_key v = Some k) (default [] (vs_versions page)) ++ rest) | Err e => Err e end), d2.
  split; [by destruct r; try intros ?|]. intros [|f] Hf; [lia|]. cbn [list_versions]. unfold_m. unfold send.
  rewrite E1. cbn [map_err]. rewrite Et. cbn [negb]. rewrite Em, (Hn f) by lia. by destruct r.
Qed.
Lemma list_versions_ends k d : s3_ok d → ends (λ f, list_versions f k None None) d.
Proof.
  intros Hok. apply (list_versions_step k None d Hok I). intros m vm d1 Hok1 _ Him _. clear d Hok.
  remember (left d1 k (m, vm)) as n eqn:Hn. revert m vm d1 Hok1 Him Hn.
  induction (lt_wf n) as [n _ IH]; intros m vm d1 Hok1 Him Hn.
  apply (list_versions_step k (Some (m, vm)) d1 Hok1 Him). intros m' vm' d2 Hok2 Hl2 Him' Hlt.
  eapply (IH (left d2 k (m', vm'))); [|done..]. subst n.
  cbn in Hlt. by rewrite (proj2 (proj2 (later_position _ _ _ _ Hl2 Him))) in Hlt.
Qed.
Lemma get_retained_ends k d : s3_ok d → ends (λ f, get_retained_blob f k) d.
Proof.
  intros Hok. destruct (list_versions_ends k d Hok) as (n & r & d1 & Hr & Hn).
  assert (∃ r' d', ¬ out_of_fuel r' ∧ match r with
    | Ok vs => (version_id ← unwrap (head (omap ov_version_id (rev vs))) SE_NotFound;
                resp ← send map_sdk_error (get_object k None (Some version_id)); collected k resp) d1 = (r', d')
    | Err e => (Err e, d1) = (r', d') end) as (r' & d' & Hr' & Hd').
  { destruct r as [vs|e]; [|exists (Err e), d1; split; [|done]; intros E; apply Hr; by injection E as ->]. eexists _, _. split; [|apply surjective_pairing].
    unfold_m. unfold unwrap, lift, ok_or, send, collected. destruct (head _); cbn; [|done].
    destruct (get_object _ _ _ d1) as [[o|e] d2]; cbn; [|apply mapped_not_fuel]. by destruct (oo_body o). }
  exists n, r', d'. split; [done|]. intros f Hf. unfold get_retained_blob. unfold_m. rewrite (Hn f Hf). by destruct r.
Qed.

(** ** The promise of the anchor chain's store *)
#[export] Instance s3_roots (fuel : nat) (now : Z) : Roots D := {|
  roots_get k := fmap go_body (get_retained_blob fuel k);
  roots_put i := fmap (λ _, tt) (put_blob_if_not_exists now i) |}.
Lemma fmap_inv {A B} (f : A → B) (m : op A) d r d' : (f <$> m) d = (r, d') → ∃ x, m d = (x, d') ∧ r = f <$> x.
Proof. unfold_m. destruct (m d) as [[x|e] d1]; intros [= <- <-]; by eexists. Qed.
#[export] Instance s3_keeps fuel now : @RootsLaws D (s3_roots fuel now).
Proof.
  refine {| roots_ok := s3_ok; stored := kept; later := s3_later; horizon := s3_horizon |}.
  - apply s3_later_refl.
  - apply s3_later_trans.
  - apply kept_later.
  - intros b k r b' Hok E. apply fmap_inv in E as (x & E & ->).
    destruct (get_retained_spec _ _ _ _ _ Hok E) as (? & ? & ?). split_and!; [done..|]. by destruct x.
  - intros b i lock r b' Hok Hlock Hu E. apply fmap_inv in E as (x & E & ->).
    destruct (put_retained_spec _ _ _ _ _ _ Hok Hlock Hu E) as (? & ? & Hp). split_and!; [done..|].
    intros Hx. apply Hp. by destruct x.
Qed.
(** C37: the retained version of a key is found whatever was piled on it.  The
    walk over the pages of the key's versions ends, and what it then reads is the
    oldest version there is, past any delete markers and overwrites, those made
    while it runs included; "not found" is said only of a key that had none; and
    every later read, by any caller, gives the same bytes or an error that is not
    "not found". *)
Theorem retained_read_finds_the_oldest k d : s3_ok d →
  ∃ n r d', (∀ fuel, (n ≤ fuel)%nat → get_retained_blob fuel k d = (r, d')) ∧ ¬ out_of_fuel r ∧ s3_ok d' ∧ s3_later d d' ∧
  match r with
  | Ok out =>
      kept d' k = Some (go_body out) ∧
      ∀ d2 fuel r2 d3, s3_later d' d2 → s3_ok d2 → get_retained_blob fuel k d2 = (r2, d3) →
        match r2 with Ok out2 => go_body out2 = go_body out | Err e => e ≠ SE_NotFound end
  | Err SE_NotFound => kept d k = None
  | Err _ => True
  end.
Proof.
  intros Hok. destruct (get_retained_ends k d Hok) as (n & r & d' & Hr & Hn). exists n, r, d'.
  destruct (get_retained_spec n k d r d' Hok (Hn n (le_n n))) as (Hok' & Hl & Hs). split_and!; [done..|].
  destruct r as [out|e]; [|done]. split; [done|]. intros d2 f r2 d3 Hl2 Hok2 E2.
  destruct (get_retained_spec f k d2 r2 d3 Hok2 E2) as (_ & Hl3 & Hs2). destruct r2 as [out2|e].
  - pose proof (kept_later _ _ _ _ Hl3 (kept_later _ _ _ _ Hl2 Hs)). congruence.
  - pose proof (kept_later _ _ _ _ Hl2 Hs). intros ->. congruence.
Qed.
End s3.

(** ** S3: the properties at a concrete run

    A bucket of version histories that another writer adds to before each call,
    served in pages of two entries, with another key under every prefix. *)
Module S3Witness.
(** A key's history, newest first; a delete marker has no bytes.  [queue]: what
    others put or delete before each of the next calls. *)
Record Bucket := { history : gmap string (list (option bytes)); queue : list (list (string * option bytes)) }.
Definition hist (d : Bucket) (k : string) : list (option bytes) := default [] (history d !! k).
Definition push (k : string) (e : option bytes) (h : gmap string (list (option bytes))) : gmap string (list (option bytes)) :=
  <[k := e :: default [] (h !! k)]> h.
Definition others (d : Bucket) : Bucket :=
  match queue d with
  | es :: q => {| history := foldr (λ e, push e.1 e.2) (history d) es; queue := q |}
  | [] => d
  end.
Fixpoint unary (n : nat) : string := match n with O => "" | S n => String (Ascii.ascii_of_N 120) (unary n) end.
(** The versions among entries that [n] more come after: named by their distance
    from the end. *)
Fixpoint versions_at (n : nat) (h : list (option bytes)) : list (string * bytes) :=
  match h with
  | [] => []
  | Some b :: h => (unary (n + length h), b) :: versions_at n h
  | None :: h => versions_at n h
  end.
Definition suffix (n : nat) {A} (h : list A) : list A := drop (length h - n) h.
Definition page (k : string) (h : list (option bytes)) : VersionsOutput :=
  let later := drop 2 h in
  {| vs_versions := Some ({| ov_key := Some (k +:+ "0"); ov_version_id := Some "" |}
       :: ((λ v, {| ov_key := Some k; ov_version_id := Some v.1 |}) <$> versions_at (length later) (take 2 h)));
     vs_truncated := Some (negb (bool_decide (later = []))); next_key_marker := Some k;
     next_version_id_marker := Some (unary (length later)) |}.
Definition answer (b : bytes) : ObjectOutput :=
  {| oo_e_tag := None; oo_modified := None; oo_type := None; oo_metadata := None; oo_body := Some b |}.
Definition refused (code : string) : SdkError := ServiceError (Some code) false.
Definition put (p : PutRequest) : M Bucket SdkError (option string) := λ d,
  let d := others d in
  match pr_if_none_match p, hist d (pr_key p) with
  | Some _, Some _ :: _ => (Err (refused "PreconditionFailed"), d)
  | _, _ => (Ok None, {| history := push (pr_key p) (Some (pr_body p)) (history d); queue := queue d |})
  end.
Definition list_at (k : string) (m v : option string) : M Bucket SdkError VersionsOutput := λ d,
  let d := others d in
  (Ok (page k match m with None => hist d k | Some _ => suffix (String.length (default "" v)) (hist d k) end), d).
Definition fetch (k : string) (v : option string) : M Bucket SdkError ObjectOutput := λ d,
  let d := others d in
  let entry := match v with Some v => hist d k !! (length (hist d k) - S (String.length v))%nat | None => head (hist d k) end in
  (match entry with Some (Some b) => Ok (answer b) | _ => Err (refused "NoSuchVersion") end, d).
Definition unsupported {A} : M Bucket SdkError A := λ d, (Err OtherFailure, d).
#[local] Instance bucket_client : S3Client Bucket := {|
  head_object _ := unsupported; get_object k _ v := fetch k v; list_object_versions := list_at; put_object := put;
  delete_object k := λ d, (Ok tt, {| history := push k None (history d); queue := queue d |});
  delete_objects _ := unsupported; list_objects_v2 _ := unsupported; copy_object _ := unsupported;
  create_multipart_upload _ := unsupported; upload_part _ _ _ _ := unsupported; upload_part_copy _ _ _ _ _ := unsupported;
  complete_multipart_upload _ _ _ := unsupported; abort_multipart_upload _ _ := unsupported |}.

(** ** The service's promise *)
Definition grown (d d' : Bucket) : Prop := ∀ k, ∃ new, hist d' k = new ++ hist d k.
Lemma grown_refl d : grown d d.
Proof. intros k. by exists []. Qed.
Lemma push_grows k e h q q' : grown {| history := h; queue := q |} {| history := push k e h; queue := q' |}.
Proof.
  intros k'. unfold hist, push. cbn. destruct (decide (k' = k)) as [->|Hk].
  - rewrite lookup_insert_eq. by exists [e].
  - rewrite lookup_insert_ne by done. by exists [].
Qed.
Lemma grown_trans d d' d'' : grown d d' → grown d' d'' → grown d d''.
Proof. intros H1 H2 k. destruct (H1 k) as [a E1], (H2 k) as [b E2]. exists (b ++ a). by rewrite E2, E1, app_assoc. Qed.
Lemma others_grow d : grown d (others d).
Proof.
  destruct d as [h [|es q]]; [apply grown_refl|]. unfold others. cbn. induction es as [|e es IH]; [intros k; by exists []|].
  eapply grown_trans; [exact IH|]. apply push_grows.
Qed.
Lemma unary_length n : String.length (unary n) = n.
Proof. induction n; cbn; congruence. Qed.
Lemma versions_app n a b : versions_at n (a ++ b) = versions_at (n + length b) a ++ versions_at n b.
Proof.
  induction a as [|[x|] a IH]; cbn; [done| |done]. rewrite IH, length_app. by replace (n + (length a + length b))%nat with (n + length b + length a)%nat by lia.
Qed.
Lemma versions_entry h v b : (v, b) ∈ versions_at 0 h →
  (String.length v < length h)%nat ∧ h !! (length h - S (String.length v))%nat = Some (Some b).
Proof.
  induction h as [|[x|] h IH]; cbn [versions_at length]; [by intros ?%elem_of_nil| |].
  - rewrite elem_of_cons. intros [[= -> ->]|[Hl Hv]%IH].
    + rewrite unary_length. split; [lia|]. by rewrite Nat.sub_diag.
    + split; [lia|]. replace (S (length h) - S (String.length v))%nat with (S (length h - S (String.length v))) by lia. done.
  - intros [Hl Hv]%IH. split; [lia|].
    replace (S (length h) - S (String.length v))%nat with (S (length h - S (String.length v))) by lia. done.
Qed.
Lemma suffix_app {A} n (a h : list A) : (n ≤ length h)%nat → suffix n (a ++ h) = suffix n h.
Proof.
  intros Hn. unfold suffix. rewrite length_app, drop_app_ge by lia. f_equal. lia.
Qed.
Lemma suffix_length {A} n (h : list A) : (n ≤ length h)%nat → length (suffix n h) = n.
Proof. intros Hn. unfold suffix. rewrite length_drop. lia. Qed.
Lemma suffix_drop {A} n (h l : list A) : l = suffix n h → (n ≤ length h)%nat → drop 2 l = suffix (length (drop 2 l)) h.
Proof.
  intros -> Hn. rewrite length_drop, suffix_length by done. unfold suffix. rewrite drop_drop.
  destruct (decide (2 ≤ n)%nat); [f_equal; lia|]. rewrite !drop_ge by lia. done.
Qed.
Lemma page_law k h : ∃ ids, versions_at 0 h = ids ++ versions_at 0 (drop 2 h) ∧
  filter (λ v, ov_key v = Some k) (default [] (vs_versions (page k h))) = version_of k <$> ids.
Proof.
  exists (versions_at (length (drop 2 h)) (take 2 h)). split.
  - rewrite <- (take_drop 2 h) at 1. by rewrite versions_app.
  - cbn [page vs_versions from_option id]. rewrite filter_cons_False; cbn [ov_key].
    + induction (versions_at _ _) as [|v vs IH]; [done|]. cbn [fmap list_fmap]. by rewrite filter_cons_True, IH.
    + intros [= E]. apply (f_equal String.length) in E. rewrite string_app_length in E. cbn in E. lia.
Qed.
Definition position (d : Bucket) (k : string) (p : string * option string) : Prop :=
  ∃ n, p = (k, Some (unary n)) ∧ (n ≤ length (hist d k))%nat.
Definition place (p : string * option string) : nat := String.length (default "" p.2).
Lemma listing_law d k start r d' : from_option (position d k) True start →
  list_object_versions k (fst <$> start) (start ≫= snd) d = (r, d') →
  grown d d' ∧
  match r with
  | Ok page =>
      let shown := filter (λ v, ov_key v = Some k) (default [] (vs_versions page)) in
      ∃ ids rest,
        from_option (λ p, versions_at 0 (suffix (place p) (hist d' k))) (versions_at 0 (hist d' k)) start = ids ++ rest ∧
        shown = version_of k <$> ids ∧
        if default false (vs_truncated page) then
          ∃ m, next_key_marker page = Some m ∧ let p := (m, next_version_id_marker page) in
               position d' k p ∧ versions_at 0 (suffix (place p) (hist d' k)) = rest ∧
               from_option (λ q, (place p < place q)%nat) True start
        else rest = []
  | Err e => map_sdk_error e ≠ SE_NotFound
  end.
Proof.
  intros Hp [= <- <-]. split; [apply others_grow|]. set (d' := others d).
  set (h := match fst <$> start with None => hist d' k | Some _ => suffix (String.length (default "" (start ≫= snd))) (hist d' k) end).
  assert (∃ n, h = suffix n (hist d' k) ∧ (n ≤ length (hist d' k))%nat ∧ from_option (λ p, place p = n) True start) as (n & Hh & Hn & Hs).
  { subst h. destruct start as [p|]; cbn in Hp |- *.
    - destruct Hp as (n & -> & Hn). exists n. cbn. rewrite unary_length. split_and!; [done| |done].
      destruct (others_grow d k) as [new E]. subst d'. rewrite E, length_app. lia.
    - exists (length (hist d' k)). unfold suffix. by rewrite Nat.sub_diag. }
  destruct (page_law k h) as (ids & Hids & Hshown). exists ids, (versions_at 0 (drop 2 h)). split_and!; [|done|].
  - rewrite <- Hids. subst h. destruct start as [[a b]|]; [|done]. done.
  - cbn [page vs_truncated from_option id]. case_bool_decide as Hd; cbn [negb]; [by rewrite Hd|].
    exists k. split; [done|]. cbn [page next_version_id_marker]. unfold place. cbn [snd from_option id]. rewrite unary_length.
    rewrite <- (suffix_drop n (hist d' k) h Hh Hn). split_and!; [|done|].
    + eexists. split; [reflexivity|]. rewrite length_drop, Hh, suffix_length; lia.
    + destruct start as [p|]; [|done]. cbn in Hs |- *. fold (place p). rewrite Hs, length_drop.
      assert (length h ≠ 0%nat) by (intros E%length_zero_iff_nil; by rewrite E in Hd).
      rewrite Hh, suffix_length in * by done. lia.
Qed.
#[local] Instance bucket_laws : S3Laws Bucket.
Proof.
  refine {| s3_ok _ := True; s3_later := grown; s3_horizon := 1000; versions d k := versions_at 0 (hist d k);
            issued := position; older d k p := versions_at 0 (suffix (place p) (hist d k)); left _ _ p := place p |}.
  - apply grown_refl.
  - apply grown_trans.
  - intros d d' k Hd. destruct (Hd k) as [new ->]. exists (versions_at (length (hist d k)) new). apply versions_app.
  - intros d d' k p Hd (n & -> & Hn). destruct (Hd k) as [new E]. unfold position, place. cbn. rewrite unary_length, E.
    split_and!; [|by rewrite suffix_app|done]. exists n. rewrite length_app. split; [done|lia].
  - intros d k start r d' _ Hp E. split; [done|]. by apply listing_law.
  - intros d k v r d' _ [= <- <-]. split_and!; [done|apply others_grow|]. intros b Hb.
    assert ((v, b) ∈ versions_at 0 (hist (others d) k)) as [_ ->]%versions_entry; [|by right].
    destruct (others_grow d k) as [new ->]. rewrite versions_app. apply elem_of_app. by right.
  - intros d p lock r d' _ _ _ E. cbn in E. unfold put in E. split; [done|].
    pose proof (others_grow d) as Hd. assert (grown d d' ∧ (is_ok r → ∃ b h, hist d' (pr_key p) = Some b :: h)) as [? Hr].
    { destruct (pr_if_none_match p), (hist (others d) (pr_key p)) as [|[b|] h]; injection E as <- <-; (split; [|]); try done;
        try (eapply grown_trans; [exact Hd|]; destruct (others d); apply push_grows);
        intros _; eexists _, _; unfold hist, push; cbn; by rewrite lookup_insert_eq. }
    split; [done|]. intros H1. destruct (Hr H1) as (b & h & ->). done.
Defined.
(** The record was written first; markers hide it, and between
    the calls others overwrite it and hide it again. *)
Definition d1 : Bucket :=
  {| history := {["roots/1" := [None; None; Some [Byte.x02]; None; Some [Byte.x01]]]};
     queue := [[("roots/1", Some [Byte.x03])]; []; [("roots/1", None)]; [("roots/1", Some [Byte.x04])]] |}.
Example hidden_record_is_read : (go_body <$> (get_retained_blob 4 "roots/1" d1).1) = Ok [Byte.x01].
Proof. vm_compute. reflexivity. Qed.
(** A plain read is given whatever is newest. *)
Example plain_read_is_misled : go_body <$> (get_blob "roots/1" None d1).1 = Ok [Byte.x03].
Proof. vm_compute. reflexivity. Qed.
Lemma retained_read_finds_the_oldest_witness : s3_ok d1 ∧ ∃ n r d', (∀ fuel, (n ≤ fuel)%nat → get_retained_blob fuel "roots/1" d1 = (r, d')) ∧
  kept d1 "roots/1" = Some [Byte.x01].
Proof.
  assert (s3_ok d1) as Hok by exact I. split; [done|]. destruct (retained_read_finds_the_oldest "roots/1" d1 Hok) as (n & r & d' & Hn & _).
  exists n, r, d'. split; [exact Hn|reflexivity].
Defined.
End S3Witness.
