(* ===== verification/Held.v ===== *)
(** * One held connection: stream.rs

    [connect_once] and [supervise]: the dial, the frames as they arrive, each event
    handed to the guest, its answer sent back; the wait before the next dial.
    The network is a script: how the far side answers a request, and what the
    body of an answer yields.  The guest is an argument: what it does to the
    registry and what it answers. *)
From S2P Require Import Prelude Text Storage Egress Streams Framer.

(** The registry, with what was handed to the guest and what it answered, and
    the replies sent and what became of them. *)
Record Line := {
  registry : StreamRegistry; handed : list (SseEvent * result string bytes); replies : list (bytes * result string ()) }.
Definition set_registry (r : StreamRegistry) (l : Line) : Line := {| registry := r; handed := handed l; replies := replies l |}.
Definition log_handed (e : SseEvent) (a : result string bytes) (l : Line) : Line :=
  {| registry := registry l; handed := handed l ++ [(e, a)]; replies := replies l |}.
Definition log_reply (b : bytes) (a : result string ()) (l : Line) : Line :=
  {| registry := registry l; handed := handed l; replies := replies l ++ [(b, a)] |}.
Definition on_registry {E A} (m : M StreamRegistry E A) : M Line E A := zoom registry set_registry m.
(** What a body yields: data, or a frame that is not data; or an error.  After
    the last the body has ended. *)
Abbreviation frames := (list (result string (option bytes))).

Section held.
Context `{Sha256, Base64Standard, !Codec Written}.
Context (stream_document : bytes → result string bytes) (uri_ok : string → bool).
Context (run_message : bytes → string → SseEvent → M StreamRegistry string bytes).
Context (far : Origin → StreamRequest → result string Z).
Notation op := (M Line string).
Definition reply (t : bytes) (i : string) (answer : result string bytes) : op () :=
  match answer with
  | Ok ((_ :: _) as b) =>
      sent ← attempt (on_registry (send stream_document uri_ok far t i b));
      modify (log_reply b sent)
  | _ => mret ()
  end.
Definition deliver (t : bytes) (i : string) (event : SseEvent) : op () :=
  _ ← on_registry (modify count_message);
  answer ← attempt (on_registry (run_message t i event));
  _ ← modify (log_handed event answer);
  reply t i answer.
Fixpoint deliver_all (t : bytes) (i : string) (events : list SseEvent) : op () :=
  match events with
  | [] => mret ()
  | e :: events => _ ← deliver t i e; deliver_all t i events
  end.
(** The read loop, with the framer's buffer. *)
Fixpoint read_frames (t : bytes) (i : string) (body : frames) (buffer : string) : op () :=
  match body with
  | [] => mret ()
  | Err _ :: _ => fail "reading the stream"
  | Ok None :: body => read_frames t i body buffer
  | Ok (Some chunk) :: body =>
      let '(events, buffer) := push chunk buffer in
      events ← lift events;
      _ ← deliver_all t i events;
      read_frames t i body buffer
  end.
(** [dial]: the status of the answer to the held request, and its body. *)
Definition connect_once (dial : Origin → StreamRequest → result string (Z * frames)) (r : StreamRecord) : op () :=
  o ← lift (parse (origin r));
  q ← on_registry (request stream_document uri_ok OPEN r []);
  '(status, body) ← lift (dial o q);
  _ ← ensure (success status) "the service refused the stream";
  _ ← on_registry (modify (note (record_id r) note_connected));
  read_frames (tenant r) (id r) body "".
(** [supervise], for as many dials as are given: the waits between them. *)
Fixpoint supervise (dials : list (Origin → StreamRequest → result string (Z * frames))) (r : StreamRecord)
    (failures : nat) (l : Line) : list Z * Line :=
  match dials with
  | [] => ([], l)
  | dial :: dials =>
      let '(ended, l) := connect_once dial r l in
      let '(wait, failures, reg) := supervised (record_id r) failures ended (registry l) in
      let '(waits, l) := supervise dials r failures (set_registry reg l) in
      (wait :: waits, l)
  end.
End held.

(** ** One held connection: what reaches the guest, what goes back, when it redials *)
From S2P Require Import Concrete FramerProps.

Section held.
Context `{Sha256, Base64Standard, !Codec Written}.
Context (stream_document : bytes → result string bytes) (uri_ok : string → bool).
Context (run_message : bytes → string → SseEvent → M StreamRegistry string bytes).
Context (far : Origin → StreamRequest → result string Z).
Notation deliver := (deliver stream_document uri_ok run_message far).
Notation deliver_all := (deliver_all stream_document uri_ok run_message far).
Notation read_frames := (read_frames stream_document uri_ok run_message far).
Notation connect_once := (connect_once stream_document uri_ok run_message far).
Notation supervise := (supervise stream_document uri_ok run_message far).
(** What goes back for an answer: its bytes, if it has any. *)
Definition worth (a : result string bytes) : option bytes := match a with Ok ((_ :: _) as b) => Some b | _ => None end.
(** The data of a body up to its first error, and whether it has none. *)
Fixpoint chunks (body : frames) : list bytes :=
  match body with
  | Ok (Some c) :: body => c :: chunks body
  | Ok None :: body => chunks body
  | _ => []
  end.
Definition unbroken (body : frames) : Prop := Forall is_ok body.
(** [l'] has handed [evs] more, and replied to what was answered. *)
Inductive served (evs : list SseEvent) (l l' : Line) : Prop :=
  served_with (more : list (SseEvent * result string bytes)) (back : list (bytes * result string ())) :
    handed l' = handed l ++ more → replies l' = replies l ++ back →
    more.*1 = evs → back.*1 = omap worth more.*2 → served evs l l'.
Lemma served_none l l' : handed l' = handed l → replies l' = replies l → served [] l l'.
Proof. intros E1 E2. by exists [] []; rewrite ?app_nil_r. Qed.
Lemma served_trans e1 e2 l l1 l2 : served e1 l l1 → served e2 l1 l2 → served (e1 ++ e2) l l2.
Proof.
  intros [m1 b1 H1 R1 E1 A1] [m2 b2 H2 R2 E2 A2]. exists (m1 ++ m2) (b1 ++ b2).
  - by rewrite H2, H1, app_assoc.
  - by rewrite R2, R1, app_assoc.
  - by rewrite fmap_app, E1, E2.
  - by rewrite !fmap_app, omap_app, A1, A2.
Qed.
Lemma deliver_served t i e l : ∃ l', deliver t i e l = (Ok (), l') ∧ served [e] l l'.
Proof.
  unfold deliver, reply, on_registry, zoom. unfold_m. cbn [modify].
  destruct (run_message t i e _) as [[[|x b]|err] s]; cbn.
  - eexists. split; [reflexivity|]. by exists [(e, Ok [])] []; cbn; rewrite ?app_nil_r.
  - destruct (send _ _ _ _ _ _) as [r s']; cbn. eexists. split; [reflexivity|]. by exists [(e, Ok (x :: b))] [(x :: b, r)].
  - eexists. split; [reflexivity|]. by exists [(e, Err err)] []; cbn; rewrite ?app_nil_r.
Qed.
Lemma deliver_all_served t i evs l : ∃ l', deliver_all t i evs l = (Ok (), l') ∧ served evs l l'.
Proof.
  revert l. induction evs as [|e evs IH]; intros l; [exists l; split; [done|by apply served_none]|].
  destruct (deliver_served t i e l) as (l1 & E1 & S1), (IH l1) as (l2 & E2 & S2). exists l2. split.
  - cbn [Held.deliver_all]. unfold_m. by rewrite E1.
  - by apply (served_trans [e] evs l l1 l2).
Qed.
(** Why a chunk ends a connection that had [rest] buffered: it is not UTF-8 on its
    own, it makes the buffer too long, or it completes a block that is no event. *)
Definition unacceptable (rest : string) (c : bytes) : Prop :=
  valid_utf8 (bytes_str c) = false ∨ MAX_MESSAGE * 2 < strlen (norm (rest +:+ bytes_str c)) ∨
  ∀ evs rest', ¬ drains (norm (rest +:+ bytes_str c)) evs rest'.
Lemma push_Err c rest x rest' : push c rest = (Err x, rest') → unacceptable rest c.
Proof.
  intros E. unfold unacceptable. destruct (valid_utf8 (bytes_str c)) eqn:Hv; [|by left]. right.
  destruct (Z.le_gt_cases (strlen (norm (rest +:+ bytes_str c))) (MAX_MESSAGE * 2)) as [Hl|Hl]; [|by left]. right.
  intros evs r Hd. assert (push c rest = (Ok evs, r)) by (by apply push_Ok). congruence.
Qed.
(** How far a body was read, and how its reading ended: to its end, to its first
    error, or to the first chunk that cannot be accepted. *)
Inductive read_to (body : frames) (rest : string) : nat → result string () → Prop :=
  | read_all : unbroken body → read_to body rest (length (chunks body)) (Ok ())
  | read_broken : ¬ unbroken body → read_to body rest (length (chunks body)) (Err "reading the stream")
  | read_refused n c x : chunks body !! n = Some c → unacceptable rest c → read_to body rest n (Err x).
Lemma read_frames_served t i body buf l r l' : read_frames t i body buf l = (r, l') →
  ∃ n evs rest, feed (take n (chunks body)) buf = (Ok evs, rest) ∧ served evs l l' ∧ read_to body rest n r.
Proof.
  revert buf l. induction body as [|[[c|]|e] body IH]; intros buf l E; cbn [Held.read_frames] in E.
  - injection E as <- <-. exists 0%nat, [], buf. split_and!; [done|by apply served_none|]. by apply (read_all []); constructor.
  - destruct (push c buf) as [[evs|x] buf'] eqn:Ep; cycle 1.
    { apply mbind_inv in E as [(a & l1 & [=] & _)|(e & [=] & ->)]; subst.
      exists 0%nat, [], buf. split_and!; [done|by apply served_none|]. by eapply read_refused, push_Err. }
    apply mbind_inv in E as [(a & l1 & [= <- <-] & E)|(e & [=] & _)].
    destruct (deliver_all_served t i evs l) as (l2 & E2 & S2).
    apply mbind_inv in E as [(u & l3 & E3 & E)|(e & E3 & ->)]; rewrite E2 in E3; [|done]. injection E3 as _ <-.
    destruct (IH buf' l2 E) as (n & evs' & rest & Hf & S3 & Hr). exists (S n), (evs ++ evs'), rest. split_and!.
    + cbn [chunks take feed]. unfold_m. rewrite Ep, Hf. done.
    + by eapply served_trans.
    + destruct Hr as [Hu|Hu|n d x Hd Hx].
      * apply (read_all (Ok (Some c) :: body)). by constructor.
      * apply (read_broken (Ok (Some c) :: body)). by intros [_ ?]%Forall_cons.
      * by eapply read_refused.
  - destruct (IH buf l E) as (n & evs & rest & Hf & S & Hr). exists n, evs, rest. split_and!; [done..|].
    destruct Hr as [Hu|Hu|n d x Hd Hx].
    + apply (read_all (Ok None :: body)). by constructor.
    + apply (read_broken (Ok None :: body)). by intros [_ ?]%Forall_cons.
    + by eapply read_refused.
  - injection E as <- <-. exists 0%nat, [], buf. split_and!; [done|by apply served_none|].
    apply (read_broken (Err e :: body)). by intros [? _]%Forall_cons.
Qed.
Lemma open_uri r b s q s' : request stream_document uri_ok OPEN r b s = (Ok q, s') →
  sq_uri q = origin r +:+ "/escrow/stream?id=" +:+ wire_id r.
Proof.
  unfold request. rewrite decide_True by done. unfold_m. unfold ensure, check, lift. cbn [get].
  destruct (attests s); [destruct (stream_document _)|]; cbn; try done; destruct (uri_ok _); by intros [= <- _].
Qed.
(** Between two dials it waits a second at least and five minutes at most, and is
    not counted as connected. *)
Lemma redial_waits dials r n l : Forall (λ w, 1 ≤ w ≤ 300) (supervise dials r n l).1.
Proof.
  revert n l. induction dials as [|dial dials IH]; intros n l; cbn [Held.supervise]; [constructor|].
  destruct (connect_once dial r l) as [ended l1]. destruct (supervised (record_id r) n ended (registry l1)) as [[w n'] reg] eqn:E.
  specialize (IH n' (set_registry reg l1)). destruct (supervise dials r n' _) as [ws l2]. constructor; [|done].
  unfold supervised in E. destruct ended; injection E as <- _ _; [by cbn|].
  match goal with |- context [BACKOFF !! ?k] => destruct (lookup_lt_is_Some_2 BACKOFF k) as [w Hw]; [cbn; lia|] end.
  rewrite Hw. cbn [from_option id].
  assert (Forall (λ w, 1 ≤ w ≤ 300) BACKOFF) as Hb by (repeat constructor; lia). by eapply Forall_lookup_1 in Hb.
Qed.
Lemma waits_disconnected dial dials r n l :
  ∃ st, live (registry (supervise (dials ++ [dial]) r n l).2) !! record_id r = Some st ∧ connected st = false.
Proof.
  revert n l. induction dials as [|d dials IH]; intros n l; cbn [Held.supervise app].
  - destruct (connect_once dial r l) as [[u|e] l1]; cbn; unfold note, set_live; cbn; rewrite lookup_partial_alter_eq; by eexists.
  - destruct (connect_once d r l) as [ended l1]. destruct (supervised _ n ended _) as [[w n'] reg].
    specialize (IH n' (set_registry reg l1)). by destruct (supervise _ r n' _) as [ws l2].
Qed.
End held.

(** ** A concrete connection *)
Module HeldWitness.
#[local] Instance sha : Sha256 := λ b, take 32 (b ++ replicate 32 Byte.x00).
#[local] Instance base64 : Base64Standard := hex_decode.
#[local] Instance written : Codec Written := {| to_vec _ := []; from_slice _ := None |}.
Definition record : StreamRecord :=
  {| version := 1; tenant := replicate 16 Byte.x01; id := "s"; origin := "https://service.example:443"; generation := 0 |}.
Definition started : Line :=
  {| registry := {| zfs := genesis 10 100 [] []; records := {[ record_id record := record ]}; live := ∅; changed := false;
                    attests := false; messages := 0; generations := 0 |};
     handed := []; replies := [] |}.
(** Three events, one cut in two; the guest answers the first, fails at the
    second and has nothing to say to the third; then the connection breaks. *)
Definition body1 : frames :=
  [Ok (Some (str_bytes "data: 2a")); Ok None; Ok (Some ([Byte.x0a; Byte.x0a] ++ str_bytes "data: 2b" ++ [Byte.x0a; Byte.x0a]));
   Ok (Some (str_bytes "id: 3" ++ [Byte.x0a] ++ str_bytes "data: 2c" ++ [Byte.x0a; Byte.x0a])); Err "reset"].
Definition answers (_ : bytes) (_ : string) (e : SseEvent) : M StreamRegistry string bytes :=
  match ev_data e with
  | [Byte.x2a] => mret [Byte.x0f]
  | [Byte.x2b] => fail "the guest trapped"
  | _ => mret []
  end.
Definition dial_breaks (_ : Origin) (_ : StreamRequest) : result string (Z * frames) := Ok (200, body1).
Definition broken : result string () * Line :=
  connect_once (λ _, Ok []) (λ _, true) answers (λ _ _, Ok 200) dial_breaks record started.
(** Connections that were up count as failures when they break: nothing but a
    clean close makes the waits short again. *)
Example backoff_never_recovers :
  let s := supervise (λ _, Ok []) (λ _, true) answers (λ _ _, Ok 200) (replicate 6 dial_breaks) record 0 started in
  s.1 = [1; 2; 5; 15; 60; 300] ∧ (connects <$> live (registry s.2) !! record_id record) = Some 6.
Proof. by vm_compute. Qed.
End HeldWitness.
