(* ===== verification/Acme.v ===== *)
(** * Certificates: serve/acme.rs, serve/tls.rs

    The serving identity and the slot it is taken from, the sealed cache in the
    object store that keeps the ACME account and the certificate, and the
    settings an order starts with.  rustls, the PEM parser, AES-GCM and the
    store are parameters; rustls-acme's state machine, which calls the cache, is
    not modelled.  Error texts are abbreviated. *)
From S2P Require Import Prelude Text Http Backend Anchor Boot.

(** AES-256-GCM: key, nonce, associated data, text. *)
Class Aead := {
  aead_seal : bytes → bytes → bytes → bytes → option bytes;
  aead_open : bytes → bytes → bytes → bytes → option bytes }.
Class Pem := parse_many : bytes → option (list bytes).
(** A server's configuration for a chain, leaf first, and a private key. *)
Class Rustls := { ServerConfig : Type; with_single_cert : list bytes → bytes → option ServerConfig }.
(** The store and the entropy that the cache uses. *)
Class CacheWorld (D : Type) := {
  get_blob : string → M D StoreError bytes;
  put_blob : PutBlobInput → M D StoreError ();
  fill : nat → M D string bytes }.

(** ** The serving identity *)
Section identity.
Context `{Rustls, Pem}.
Record TlsConfig := { presents : ServerConfig; session_storage : bool; send_tls13_tickets : Z; alpn_protocols : list string }.
Record TlsIdentity := { certificate_der : bytes; config : TlsConfig }.
Definition from_chain (chain : list bytes) (key : bytes) : result string TlsIdentity :=
  leaf ← ok_or (head chain) "certificate chain is empty";
  c ← ok_or (with_single_cert chain key) "building the TLS configuration";
  Ok {| certificate_der := leaf;
        config := {| presents := c; session_storage := false; send_tls13_tickets := 0; alpn_protocols := ["h2"; "http/1.1"] |} |}.
Definition pem_blocks (pem : bytes) : result string (list bytes) := ok_or (parse_many pem) "ACME blob is not valid PEM".
Definition identity_from_pem (pem : bytes) : result string TlsIdentity :=
  blocks ← pem_blocks pem;
  match blocks with
  | [] => Err "ACME blob is empty"
  | key :: chain =>
      _ ← check (negb (bool_decide (chain = []))) "ACME blob has no certificate after the private key";
      from_chain chain key
  end.
Definition leaf_from_pem (pem : bytes) : result string bytes :=
  blocks ← pem_blocks pem;
  match blocks with
  | [] => Err "ACME blob has no private key block"
  | _ :: rest => ok_or (head rest) "ACME blob has no certificate after the private key"
  end.
(** [CertificateSlot]: what it holds. *)
Definition leaf (slot : option TlsIdentity) : option bytes := certificate_der <$> slot.
End identity.

Inductive TlsMode := TlsOff | TlsAcme.
Definition tls_mode_parse (s : string) : result string TlsMode :=
  let s := to_ascii_lowercase (trim s) in
  if decide (s ∈ ["off"; "none"; "plaintext"]) then Ok TlsOff
  else if decide (s ∈ ["self-signed"; "selfsigned"]) then Err "this runtime serves ACME-issued certificates only"
  else if decide (s ∈ ["acme"; "letsencrypt"]) then Ok TlsAcme
  else Err "expected one of off, acme".

(** ** The sealed cache *)
Definition NONCE_LEN : nat := 12.
Definition runtime_seal_key `{Hkdf} (master uuid : bytes) : option bytes := hkdf master uuid INFO_RUNTIME_SEAL 32.
(** What the key of an object is a digest of. *)
Definition cache_scope (scope : list string) (directory_url : string) : bytes :=
  str_bytes directory_url ++ concat ((λ item, Byte.x00 :: str_bytes item) <$> scope).
Definition cache_key `{Blake3} (prefix kind : string) (scope : list string) (directory_url : string) : string :=
  prefix +:+ "acme/" +:+ kind +:+ "-" +:+ hex_encode (take 16 (blake3 (cache_scope scope directory_url))).
Section cache.
Context `{Rustls, Pem, Blake3, Aead, CacheWorld D}.
Context (prefix : string) (seal_key : bytes).
(** The world and the certificate slot. *)
Record Cache := { world : D; certificate : option TlsIdentity }.
Definition set_world (d : D) (c : Cache) : Cache := {| world := d; certificate := certificate c |}.
Definition set_certificate (i : TlsIdentity) (c : Cache) : Cache := {| world := world c; certificate := Some i |}.
Notation op := (M Cache string).
Definition on_world {E A} (m : M D E A) : M Cache E A := zoom world set_world m.
Definition seal (object_key : string) (plaintext : bytes) : op bytes :=
  nonce ← on_world (fill NONCE_LEN);
  b ← unwrap (aead_seal seal_key nonce (str_bytes object_key) plaintext) "sealing the ACME cache entry";
  mret (nonce ++ b).
Definition unseal (object_key : string) (sealed : bytes) : result string bytes :=
  _ ← check (Z.of_nat NONCE_LEN <? len sealed) "sealed ACME entry is too short to contain a nonce";
  ok_or (aead_open seal_key (take NONCE_LEN sealed) (str_bytes object_key) (drop NONCE_LEN sealed))
    "the sealed ACME entry did not authenticate".
Definition load (key : string) : op (option bytes) :=
  r ← attempt (on_world (get_blob key));
  match r with
  | Ok b => plaintext ← lift (unseal key b); mret (Some plaintext)
  | Err SE_NotFound => mret None
  | Err _ => fail "reading the cache"
  end.
Definition store (key : string) (plaintext : bytes) : op () :=
  sealed ← seal key plaintext;
  r ← attempt (on_world (put_blob (put_input_new key sealed)));
  match r with Ok _ => mret () | Err _ => fail "writing the cache" end.
(** What is not an identity leaves the slot as it was. *)
Definition publish_leaf (pem : bytes) : op () :=
  match identity_from_pem pem with Ok i => modify (set_certificate i) | Err _ => mret () end.
Definition load_cert (domains : list string) (directory_url : string) : op (option bytes) :=
  loaded ← load (cache_key prefix "cert" domains directory_url);
  _ ← match loaded with Some pem => publish_leaf pem | None => mret () end;
  mret loaded.
Definition store_cert (domains : list string) (directory_url : string) (cert : bytes) : op () :=
  _ ← publish_leaf cert;
  store (cache_key prefix "cert" domains directory_url) cert.
Definition load_account (contact : list string) (directory_url : string) : op (option bytes) :=
  load (cache_key prefix "account" contact directory_url).
Definition store_account (contact : list string) (directory_url : string) (account : bytes) : op () :=
  store (cache_key prefix "account" contact directory_url) account.
End cache.
Arguments Cache {_} _.

(** ** Starting *)
Record AcmeConfig := {
  domains : list string; contacts : list string; directory : option string; directory_ca : option bytes; acme_prefix : string }.
(** What the ACME client is told: [None] for a directory is Let's Encrypt's, for
    roots the public ones. *)
Record Order := { ord_domains : list string; ord_contact : list string; ord_directory : option string; ord_roots : option (list bytes) }.
Definition start `{Pem} (root_ok : bytes → bool) (c : AcmeConfig) : result string Order :=
  _ ← check (negb (bool_decide (domains c = []))) "ACME needs at least one --acme-domain";
  roots ← match directory_ca c with
    | None => Ok None
    | Some pem =>
        blocks ← pem_blocks pem;
        _ ← check (forallb root_ok blocks) "the ACME directory's trust root is not a usable certificate";
        _ ← check (negb (bool_decide (blocks = []))) "the ACME directory trust root contains no certificates";
        Ok (Some blocks)
    end;
  Ok {| ord_domains := domains c; ord_contact := (λ c, "mailto:" +:+ c) <$> contacts c;
        ord_directory := directory c; ord_roots := roots |}.
