(* ===== verification/AcmeProps.v ===== *)
(** * Certificates: what the cache gives back, what its objects are called *)
From S2P Require Import Prelude Concrete Text Http Backend Anchor Boot Acme.

(** AES-GCM opens exactly what it sealed: under a key, a nonce and associated
    data, a text has one sealed form, longer by the tag. *)
Class AeadLaws `{Aead} := {
  aead_opens k n a p c : aead_open k n a c = Some p ↔ aead_seal k n a p = Some c;
  aead_length k n a p c : aead_seal k n a p = Some c → length c = (length p + 16)%nat }.

(** ** The name of an object *)
Section names.
Context `{Blake3}.
Definition no_nul (s : string) : Prop := Byte.x00 ∉ str_bytes s.
(** What follows a text in a scope: nothing, or a NUL. *)
Definition bounded (x : bytes) : Prop := match x with [] => True | c :: _ => c = Byte.x00 end.
Lemma split_bounded (a b x y : bytes) : Byte.x00 ∉ a → Byte.x00 ∉ b → bounded x → bounded y →
  a ++ x = b ++ y → a = b ∧ x = y.
Proof.
  revert b. induction a as [|c a IH]; intros [|d b] Ha Hb Hx Hy E; cbn in E; [done|subst; cbn in Hx; set_solver..|].
  injection E as -> E. destruct (IH b) as [-> ->]; set_solver.
Qed.
Definition items (scope : list string) : bytes := concat ((λ item, Byte.x00 :: str_bytes item) <$> scope).
Lemma items_bounded scope : bounded (items scope).
Proof. by destruct scope. Qed.
Lemma cache_scope_inj url url' scope scope' : no_nul url → no_nul url' → Forall no_nul scope → Forall no_nul scope' →
  cache_scope scope url = cache_scope scope' url' → url = url' ∧ scope = scope'.
Proof.
  intros Hu Hu' Hs. revert url url' scope' Hu Hu'. induction Hs as [|s scope Hn _ IH]; intros url url' scope' Hu Hu' Hs' E;
    unfold cache_scope in E; fold (items scope') in E; apply split_bounded in E as [E1 E2]; try done; try apply items_bounded;
    apply (inj str_bytes) in E1; (split; [done|]); destruct Hs' as [|s' scope' Hn' Hs']; try done.
  injection E2 as E2. by destruct (IH s s' scope' Hn Hn' Hs') as [-> ->].
Qed.
(** The digests in the names do not tell two scopes apart. *)
Definition confused (x y : bytes) : Prop := x ≠ y ∧ take 16 (blake3 x) = take 16 (blake3 y).
(** An object is a certificate's or an account's, of one list of names at one
    directory: nothing else is kept under its name, unless half of BLAKE3's
    digest confuses two scopes. *)
Lemma cache_keys_apart prefix kind kind' scope scope' url url' :
  kind ∈ ["cert"; "account"] → kind' ∈ ["cert"; "account"] →
  no_nul url → no_nul url' → Forall no_nul scope → Forall no_nul scope' →
  cache_key prefix kind scope url = cache_key prefix kind' scope' url' →
  kind = kind' ∧ (scope = scope' ∧ url = url' ∨ confused (cache_scope scope url) (cache_scope scope' url')).
Proof.
  intros Hk Hk' Hu Hu' Hs Hs' E. unfold cache_key in E. apply (inj (String.append prefix)), (inj (String.append "acme/")) in E.
  assert (kind = kind') as <-.
  { revert Hk Hk'. rewrite !elem_of_cons, !elem_of_nil. intros [-> | [-> | []]] [-> | [-> | []]]; done. }
  split; [done|]. apply (inj (String.append kind)), (inj (String.append "-")), (inj hex_encode) in E.
  destruct (decide (cache_scope scope url = cache_scope scope' url')) as [Es|]; [left|by right].
  by destruct (cache_scope_inj url url' scope scope') as [-> ->].
Qed.
End names.

(** ** The serving identity *)
Section identity.
Context `{Rustls, Pem}.
(** An identity's leaf is the one its configuration presents, and a session
    cannot be resumed: the leaf is the certificate of every connection served
    with it. *)
Definition paired (pem : bytes) (i : TlsIdentity) : Prop := ∃ key chain,
  parse_many pem = Some (key :: certificate_der i :: chain) ∧
  with_single_cert (certificate_der i :: chain) key = Some (presents (config i)) ∧
  session_storage (config i) = false ∧ send_tls13_tickets (config i) = 0.
Lemma identity_paired pem i : identity_from_pem pem = Ok i → paired pem i.
Proof.
  unfold identity_from_pem, pem_blocks, from_chain. intros E. apply bind_Ok in E as (blocks & Eb%ok_or_Ok & E).
  destruct blocks as [|key [|l chain]]; try done. cbn [negb bool_decide check mbind result_bind head ok_or] in E.
  destruct (with_single_cert (l :: chain) key) as [c|] eqn:Ec; [|done]. injection E as <-. by exists key, chain.
Qed.
Lemma leaf_is_served pem i l : identity_from_pem pem = Ok i → leaf_from_pem pem = Ok l → certificate_der i = l.
Proof.
  intros (key & chain & Ep & _)%identity_paired. unfold leaf_from_pem, pem_blocks. rewrite Ep. by intros [= <-].
Qed.
End identity.

(** ** The cache *)
Section cache.
Context `{Rustls, Pem, Blake3, AeadLaws, CacheWorld D}.
Context (prefix : string) (seal_key : bytes).
Notation unseal := (unseal seal_key).
Notation load := (load seal_key).
Lemma unseal_spec key sealed p : unseal key sealed = Ok p ↔
  (NONCE_LEN < length sealed)%nat ∧ aead_seal seal_key (take NONCE_LEN sealed) (str_bytes key) p = Some (drop NONCE_LEN sealed).
Proof.
  unfold Acme.unseal. rewrite <- aead_opens. destruct (Z.ltb_spec (Z.of_nat NONCE_LEN) (len sealed)) as [Hl|Hl];
    cbn [check mbind result_bind]; unfold len in Hl.
  - rewrite ok_or_Ok. intuition lia.
  - split; [done|lia].
Qed.
(** What [load] finds, whatever the store is: nothing, where the store says that
    there is nothing; or what was sealed for that very object. *)
Definition sealed_for (key : string) (p b : bytes) : Prop := ∃ nonce c,
  length nonce = NONCE_LEN ∧ b = nonce ++ c ∧ aead_seal seal_key nonce (str_bytes key) p = Some c.
Lemma load_opens key c r c' : load key c = (r, c') →
  certificate c' = certificate c ∧
  match r with
  | Ok None => get_blob key (world c) = (Err SE_NotFound, world c')
  | Ok (Some p) => ∃ b, get_blob key (world c) = (Ok b, world c') ∧ sealed_for key p b
  | Err _ => True
  end.
Proof.
  unfold Acme.load, on_world, attempt, zoom. unfold_m. destruct (get_blob key (world c)) as [[b|e] d]; cbn.
  - destruct (unseal key b) as [p|] eqn:Eu; intros [= <- <-]; cbn; [|done]. split; [done|]. exists b. split; [done|].
    apply unseal_spec in Eu as [Hl Es]. exists (take NONCE_LEN b), (drop NONCE_LEN b).
    rewrite length_take, take_drop. split_and!; [lia|done|done].
  - destruct e; intros [= <- <-]; done.
Qed.
Lemma publish_leaf_slot pem (c : Cache D) : publish_leaf pem c =
  (Ok tt, match identity_from_pem pem with Ok i => set_certificate i c | Err _ => c end).
Proof. unfold publish_leaf. by destruct (identity_from_pem pem). Qed.
(** C30: a cached certificate is this enclave's own.  Whatever the parent has
    done to the store, a certificate and its key are taken from it only if the
    object is their sealed form under this filesystem's key and for that very
    object, so for those names at that directory; "no certificate" is what the
    store says of the object and nothing else; and the slot is then given, if
    anything, the identity whose leaf is the one that its configuration presents,
    on connections that are never resumed. *)
Theorem cached_certificate_is_own names url c r c' : load_cert prefix seal_key names url c = (r, c') →
  let key := cache_key prefix "cert" names url in
  match r with
  | Ok None => get_blob key (world c) = (Err SE_NotFound, world c') ∧ certificate c' = certificate c
  | Ok (Some pem) =>
      (∃ b, get_blob key (world c) = (Ok b, world c') ∧ sealed_for key pem b) ∧
      (certificate c' = certificate c ∨ ∃ i, certificate c' = Some i ∧ paired pem i)
  | Err _ => certificate c' = certificate c
  end.
Proof.
  unfold load_cert. intros E. cbn zeta.
  apply mbind_inv in E as [(loaded & c1 & E1 & E)|(e & E1 & ->)]; apply load_opens in E1 as [Hc Hl]; [|done].
  destruct loaded as [pem|]; cycle 1.
  { unfold_m. injection E as <- <-. by split. }
  apply mbind_inv in E as [(u & c2 & E2 & E)|(e & E2 & ->)]; rewrite publish_leaf_slot in E2; [|done].
  injection E2 as _ <-. injection E as <- <-. destruct Hl as (b & Hg & Hs).
  destruct (identity_from_pem pem) as [i|] eqn:Ei; cbn; (split; [by exists b|]); [right|by left].
  exists i. split; [done|by apply identity_paired].
Qed.
(** What [store] puts under a name is what [load] takes for it. *)
Lemma stored_opens key p c c' : (∀ d nonce d', fill NONCE_LEN d = (Ok nonce, d') → length nonce = NONCE_LEN) →
  store seal_key key p c = (Ok tt, c') →
  ∃ b d, put_blob (put_input_new key b) d = (Ok tt, world c') ∧ certificate c' = certificate c ∧ unseal key b = Ok p.
Proof.
  intros Hn E. unfold store, seal in E. apply mbind_inv in E as [(b & c1 & E1 & E)|(e & _ & [=])].
  apply mbind_inv in E1 as [(nonce & c2 & E2 & E1)|(e & _ & [=])]. apply zoom_inv in E2 as (d2 & E2 & ->).
  apply mbind_inv in E1 as [(x & c3 & E3 & E1)|(e & _ & [=])]. apply unwrap_inv in E3 as [-> E3]. injection E1 as <- <-.
  destruct (aead_seal _ _ _ _) as [x'|] eqn:Es; [|done]. injection E3 as ->.
  apply Hn in E2 as Hl. exists (nonce ++ x'). revert E. unfold on_world, attempt, zoom. unfold_m.
  destruct (put_blob _ _) as [[[]|e] d] eqn:Ep; cbn; intros [= <-]. exists d2. split_and!; [done..|].
  apply unseal_spec. apply aead_length in Es as Hx. rewrite length_app, take_app_length', drop_app_length' by done. split; [lia|done].
Qed.
End cache.

(** ** A concrete cache *)
Module AcmeWitness.
#[local] Instance toy_blake3 : Blake3 := Concrete.digest.
(** A stand-in for AES-GCM: the text, and a checksum of everything. *)
Definition tag (k n a p : bytes) : bytes :=
  be_bytes 16 (foldl (λ h x, (h * 257 + byteZ x) mod 2 ^ 64) 0 (k ++ n ++ a ++ p)).
#[local] Instance toy_aead : Aead := {|
  aead_seal k n a p := Some (p ++ tag k n a p);
  aead_open k n a c := let p := take (length c - 16) c in if decide (c = p ++ tag k n a p) then Some p else None |}.
#[local] Instance toy_aead_laws : AeadLaws.
Proof.
  assert (∀ k n a p, length (tag k n a p) = 16%nat) as Ht by (intros k n a p; apply be_bytes_length).
  split; unfold aead_open, aead_seal, toy_aead; cbv zeta.
  - intros k n a p c. split.
    + destruct (decide _) as [E|]; [|done]. intros [= <-]. by f_equal.
    + intros [= <-]. assert (take (length (p ++ tag k n a p) - 16) (p ++ tag k n a p) = p) as ->.
      { apply take_app_length'. rewrite length_app, Ht. lia. }
      by rewrite decide_True.
  - intros k n a p c [= <-]. by rewrite length_app, Ht.
Qed.
(** Two blocks: a byte each. *)
#[local] Instance toy_pem : Pem := λ b, Some ((λ x, [x]) <$> b).
#[local] Instance toy_rustls : Rustls := {| ServerConfig := list bytes * bytes; with_single_cert chain key := Some (chain, key) |}.
#[local] Instance toy_world : CacheWorld (gmap string bytes) := {|
  get_blob k := λ d, (match d !! k with Some b => Ok b | None => Err SE_NotFound end, d);
  put_blob i := λ d, (Ok tt, <[pi_key i := pi_body i]> d);
  fill n := λ d, (Ok (replicate n Byte.x07), d) |}.
Definition names : list string := ["enclave.example"].
Definition url : string := "https://acme.example/directory".
Definition key : bytes := replicate 32 Byte.x0a.
Definition cold : Cache (gmap string bytes) := {| world := ∅; certificate := None |}.
Definition pem : bytes := [Byte.x01; Byte.x02; Byte.x03].
Definition stored : Cache (gmap string bytes) := (store_cert "p/" key names url pem cold).2.
Definition rebooted : Cache (gmap string bytes) := {| world := world stored; certificate := None |}.
Definition loaded : result string (option bytes) * Cache (gmap string bytes) := load_cert "p/" key names url rebooted.
Lemma cached_certificate_is_own_witness :
  loaded.1 = Ok (Some pem) ∧ leaf (certificate loaded.2) = Some [Byte.x02] ∧
  ∃ b, get_blob (cache_key "p/" "cert" names url) (world rebooted) = (Ok b, world loaded.2) ∧
    sealed_for key (cache_key "p/" "cert" names url) pem b.
Proof.
  split; [by vm_compute|]. split; [by vm_compute|].
  assert (load_cert "p/" key names url rebooted = (Ok (Some pem), loaded.2)) as E by (vm_compute; reflexivity).
  destruct (cached_certificate_is_own "p/" key names url rebooted (Ok (Some pem)) loaded.2 E) as [Hb _]. exact Hb.
Defined.
(** The parent puts the account in the certificate's place, or an old object of
    another directory: refused. *)
Example moved_object_refused :
  let accounts := (store_account "p/" key ["ops@example"] url pem cold).2 in
  let b := default [] (world accounts !! cache_key "p/" "account" ["ops@example"] url) in
  (load_cert "p/" key names url {| world := {[ cache_key "p/" "cert" names url := b ]}; certificate := None |}).1
    = Err "the sealed ACME entry did not authenticate".
Proof. by vm_compute. Qed.
End AcmeWitness.
