(* ===== verification/Nbd.v ===== *)
(** * The parent's disk: zfs.rs, [bring_up_disk] and [nbd_attach]

    The handshake with the parent's NBD server and what the kernel is told.  The
    parent is a script of bytes; the host's calls that can fail, and the polls
    of the device's start, are arguments.  The threads that copy between the
    socket and the kernel are not modelled. *)
From S2P Require Import Prelude.

Definition PARENT_CID : Z := 3.
Definition NBD_PORT : Z := 10809.
Definition NBDMAGIC : Z := 0x4e42444d41474943.
Definition IHAVEOPT : Z := 0x49484156454f5054.
(** The connection: what the parent sends, what it was sent; what the kernel was
    told, each call with its number. *)
Record Link := { incoming : bytes; outgoing : bytes; ioctls : list (Z * Z) }.
Definition read_exact (n : nat) : M Link string bytes := λ l,
  if decide (n ≤ length (incoming l))%nat
  then (Ok (take n (incoming l)), {| incoming := drop n (incoming l); outgoing := outgoing l; ioctls := ioctls l |})
  else (Err "failed to fill whole buffer", {| incoming := []; outgoing := outgoing l; ioctls := ioctls l |}).
Definition write_all (b : bytes) : M Link string () :=
  modify (λ l, {| incoming := incoming l; outgoing := outgoing l ++ b; ioctls := ioctls l |}).

Section attach.
(** The connection over vsock, the socket pair with the kernel's end, the device
    node, and the calls the kernel takes. *)
Context (vsock_connect : Z → Z → result string ()) (socketpair : result string Z) (open_device : result string ())
  (accepts : Z → Z → bool).
(** Whether the device has started, at each poll. *)
Context (polls : list bool).
Definition ioctl (n arg : Z) : M Link string () :=
  _ ← ensure (accepts n arg) "ioctl";
  modify (λ l, {| incoming := incoming l; outgoing := outgoing l; ioctls := ioctls l ++ [(n, arg)] |}).
(** The server's size and flags. *)
Definition handshake : M Link string (Z * Z) :=
  hello ← read_exact 18;
  _ ← ensure (bool_decide (take 8 hello = be_bytes 8 NBDMAGIC) && bool_decide (take 8 (drop 8 hello) = be_bytes 8 IHAVEOPT))
    "the parent's NBD server does not speak fixed-newstyle";
  let no_zeroes := Z.land (be_word (drop 16 hello)) 2 in
  _ ← write_all (be_bytes 4 (Z.lor 1 no_zeroes));
  _ ← write_all (be_bytes 8 IHAVEOPT ++ be_bytes 4 1 ++ be_bytes 4 0);
  reply ← read_exact 10;
  let size := be_word (take 8 reply) in
  let flags := be_word (drop 8 reply) in
  _ ← (if no_zeroes =? 0 then _ ← read_exact 124; mret () else mret ());
  mret (size, flags).
Definition nbd_attach (port : Z) : M Link string Z :=
  _ ← lift (vsock_connect PARENT_CID port);
  '(size, flags) ← handshake;
  kernel_end ← lift socketpair;
  _ ← lift open_device;
  _ ← ioctl 1 4096;
  _ ← ioctl 7 (size / 4096);
  _ ← ioctl 10 flags;
  _ ← ioctl 0 kernel_end;
  _ ← ensure (existsb (λ b, b) (take 100 polls)) "/dev/nbd0 did not start within 5s of NBD_DO_IT";
  mret size.
(** A module that is loaded already is loaded. *)
Inductive insmod_result := Loaded | Already | InsmodFailed.
Definition insmod (r : insmod_result) : M Link string () :=
  match r with Loaded | Already => mret () | InsmodFailed => fail "loading a module" end.
Definition bring_up_disk (spl zfs : insmod_result) : M Link string Z :=
  _ ← insmod spl; _ ← insmod zfs;
  size ← nbd_attach NBD_PORT;
  mret (size / 512).
End attach.

(** ** The parent's disk: agreement with an NBD server *)
(** ** The protocol *)
(** A server of the newstyle protocol, for its default export: its greeting, what
    a client says, and its answer to a client that chose the export; the zeroes
    are left out when both sides said so. *)
Record Server := { gflags : Z; size : Z; tflags : Z }.
Definition server_wf (v : Server) : Prop := 0 ≤ gflags v < 2 ^ 16 ∧ 0 ≤ size v < 2 ^ 64 ∧ 0 ≤ tflags v < 2 ^ 16.
Definition greeting (v : Server) : bytes := be_bytes 8 NBDMAGIC ++ be_bytes 8 IHAVEOPT ++ be_bytes 2 (gflags v).
Definition offers_no_zeroes (v : Server) : bool := Z.testbit (gflags v) 1.
Definition client_flags (v : Server) : Z := if offers_no_zeroes v then 3 else 1.
Definition client (v : Server) : bytes := be_bytes 4 (client_flags v) ++ be_bytes 8 IHAVEOPT ++ be_bytes 4 1 ++ be_bytes 4 0.
(** [pad]: what takes the zeroes' place. *)
Definition export (v : Server) (pad : bytes) : bytes := be_bytes 8 (size v) ++ be_bytes 2 (tflags v) ++ pad.
Definition padding (v : Server) (pad : bytes) : Prop := length pad = if offers_no_zeroes v then 0%nat else 124%nat.

(** ** Reading *)
Lemma read_exact_app n b rest o k : length b = n →
  read_exact n {| incoming := b ++ rest; outgoing := o; ioctls := k |} = (Ok b, {| incoming := rest; outgoing := o; ioctls := k |}).
Proof.
  intros <-. unfold read_exact. cbn [incoming]. rewrite decide_True by (rewrite length_app; lia).
  by rewrite take_app_length, drop_app_length.
Qed.
Lemma land_two n : Z.land n 2 = if Z.testbit n 1 then 2 else 0.
Proof.
  apply Z.bits_inj'. intros i Hi. rewrite Z.land_spec. change 2 with (2 ^ 1) at 1. rewrite Z.pow2_bits_eqb by lia.
  destruct (Z.eqb_spec 1 i) as [<-|Hne].
  - by destruct (Z.testbit n 1).
  - rewrite andb_false_r. destruct (Z.testbit n 1); [|by rewrite Z.bits_0].
    change 2 with (2 ^ 1). rewrite Z.pow2_bits_false by lia. done.
Qed.
Lemma be_word_small n z : 0 ≤ z < 256 ^ Z.of_nat n → be_word (be_bytes n z) = z.
Proof. intros Hz. by rewrite be_word_bytes, Z.mod_small. Qed.
Lemma take_be n z l : take n (be_bytes n z ++ l) = be_bytes n z.
Proof. apply take_app_length'. by rewrite be_bytes_length. Qed.
Lemma drop_be n z l : drop n (be_bytes n z ++ l) = l.
Proof. apply drop_app_length'. by rewrite be_bytes_length. Qed.
Lemma greeting_read v : take 8 (greeting v) = be_bytes 8 NBDMAGIC ∧ take 8 (drop 8 (greeting v)) = be_bytes 8 IHAVEOPT ∧
  drop 16 (greeting v) = be_bytes 2 (gflags v) ∧ length (greeting v) = 18%nat.
Proof.
  unfold greeting. change (drop 16 ?b) with (drop (8 + 8) b). rewrite <- drop_drop, take_be, !drop_be, take_be.
  by rewrite !length_app, !be_bytes_length.
Qed.
Lemma handshake_agrees v pad rest o k : server_wf v → padding v pad →
  handshake {| incoming := greeting v ++ export v pad ++ rest; outgoing := o; ioctls := k |} =
    (Ok (size v, tflags v), {| incoming := rest; outgoing := o ++ client v; ioctls := k |}).
Proof.
  intros (Hg & Hs & Ht) Hp. destruct (greeting_read v) as (E1 & E2 & E3 & E4). unfold handshake. unfold_m.
  rewrite read_exact_app by done. rewrite E1, E2, E3, !bool_decide_eq_true_2 by done.
  cbn [andb]. unfold ensure, check, lift. rewrite be_word_small by (cbn; lia). rewrite land_two. unfold write_all, modify.
  unfold export. rewrite <- !app_assoc, (app_assoc (be_bytes 8 (size v))).
  cbn [incoming outgoing ioctls]. rewrite read_exact_app by (by rewrite length_app, !be_bytes_length).
  rewrite take_be, drop_be, !be_word_small by (cbn; lia).
  unfold padding in Hp. unfold client, client_flags, offers_no_zeroes in *. destruct (Z.testbit (gflags v) 1); cbn [Z.eqb Z.lor].
  - apply length_zero_iff_nil in Hp as ->. cbn [app]. by rewrite <- !app_assoc.
  - rewrite read_exact_app by done. by rewrite <- !app_assoc.
Qed.
Lemma read_exact_inv n l b l' : read_exact n l = (Ok b, l') →
  length b = n ∧ incoming l = b ++ incoming l' ∧ outgoing l' = outgoing l ∧ ioctls l' = ioctls l.
Proof.
  unfold read_exact. destruct (decide _); [|done]. intros [= <- <-]. cbn. rewrite length_take, take_drop. split_and!; lia || done.
Qed.
Lemma word_bytes n b : length b = n → be_bytes n (be_word b) = b ∧ 0 ≤ be_word b < 256 ^ Z.of_nat n.
Proof. intros <-. split; [apply be_bytes_word|apply be_word_range]. Qed.
(** What a handshake accepts came from a server of the protocol. *)
Lemma handshake_server l n f l' : handshake l = (Ok (n, f), l') →
  ∃ v pad, server_wf v ∧ padding v pad ∧ n = size v ∧ f = tflags v ∧
    incoming l = greeting v ++ export v pad ++ incoming l' ∧ outgoing l' = outgoing l ++ client v ∧ ioctls l' = ioctls l.
Proof.
  intros E. assert (∃ v pad rest, server_wf v ∧ padding v pad ∧ incoming l = greeting v ++ export v pad ++ rest)
    as (v & pad & rest & Hv & Hp & Hi).
  2: { destruct l as [i o k]. cbn [incoming] in Hi. subst i. rewrite (handshake_agrees v pad rest o k Hv Hp) in E.
       injection E as <- <- <-. exists v, pad. by split_and!. }
  unfold handshake in E. apply mbind_inv in E as [(hello & l1 & E1 & E)|(e & _ & [=])].
  apply read_exact_inv in E1 as (L1 & I1 & _). apply mbind_inv in E as [(u & l2 & E2 & E)|(e & _ & [=])].
  apply ensure_inv in E2 as [-> E2]. destruct (bool_decide_reflect (take 8 hello = be_bytes 8 NBDMAGIC)) as [M1|]; [|done].
  destruct (bool_decide_reflect (take 8 (drop 8 hello) = be_bytes 8 IHAVEOPT)) as [M2|]; [|done]. clear E2.
  apply mbind_inv in E as [(u2 & l3 & E3 & E)|(e & _ & [=])]. apply modify_inv in E3 as ->.
  apply mbind_inv in E as [(u3 & l4 & E4 & E)|(e & _ & [=])]. apply modify_inv in E4 as ->.
  apply mbind_inv in E as [(reply & l5 & E5 & E)|(e & _ & [=])]. apply read_exact_inv in E5 as (L5 & I5 & _).
  cbn [incoming] in I5.
  assert (∃ pad : bytes, length pad = (if Z.land (be_word (drop 16 hello)) 2 =? 0 then 124%nat else 0%nat) ∧ incoming l5 = pad ++ incoming l') as (pad & Lp & Ip).
  { apply mbind_inv in E as [(u6 & l6 & E6 & E)|(e & _ & [=])]. injection E as _ _ <-. destruct (_ =? 0).
    - apply mbind_inv in E6 as [(z & l7 & E7 & E6)|(e & _ & [=])]. injection E6 as _ <-. apply read_exact_inv in E7 as (L7 & I7 & _). by exists z.
    - injection E6 as _ <-. by exists []. }
  destruct (word_bytes 2 (drop 16 hello)) as [W1 R1]; [rewrite length_drop; lia|].
  destruct (word_bytes 8 (take 8 reply)) as [W2 R2]; [rewrite length_take; lia|].
  destruct (word_bytes 2 (drop 8 reply)) as [W3 R3]; [rewrite length_drop; lia|].
  exists {| gflags := be_word (drop 16 hello); size := be_word (take 8 reply); tflags := be_word (drop 8 reply) |}, pad, (incoming l').
  split_and!; [split_and!; cbn in *; lia..| |].
  - unfold padding, offers_no_zeroes. cbn [gflags]. rewrite Lp, land_two. by destruct (Z.testbit _ 1).
  - unfold greeting, export. cbn [gflags size tflags]. rewrite W1, W2, W3, <- M1, <- M2, I1, I5, Ip.
    assert (take 8 hello ++ take 8 (drop 8 hello) ++ drop 16 hello = hello) as ->.
    { change 16%nat with (8 + 8)%nat. by rewrite <- drop_drop, take_drop, take_drop. }
    by rewrite (app_assoc (take 8 reply)), take_drop, <- app_assoc.
Qed.

(** ** The device *)
Section attach.
Context (vsock_connect : Z → Z → result string ()) (socketpair : result string Z) (open_device : result string ())
  (accepts : Z → Z → bool) (polls : list bool).
Notation attach := (bring_up_disk vsock_connect socketpair open_device accepts polls).
(** C31: the disk is the one the parent's server exports.  When the disk is up,
    what the parent sent so far is a greeting and an export of one server of the
    protocol, not a byte more or less, and it was sent exactly what a client of
    that server says; the kernel was told the server's size in whole blocks and
    the server's own flags, so that what is flushed reaches the parent, before
    its socket, and the device has started; and every region of sectors that is
    block-aligned and fits the size that is returned fits the device. *)
Theorem disk_is_the_exported spl zfs i n l' :
  attach spl zfs {| incoming := i; outgoing := []; ioctls := [] |} = (Ok n, l') →
  ∃ v pad fd, server_wf v ∧ padding v pad ∧ i = greeting v ++ export v pad ++ incoming l' ∧ outgoing l' = client v ∧
    ioctls l' = [(1, 4096); (7, size v / 4096); (10, tflags v); (0, fd)] ∧ socketpair = Ok fd ∧ true ∈ take 100 polls ∧
    n = size v / 512 ∧
    ∀ off count, (8 | off) → (8 | count) → off + count ≤ n → (off + count) * 512 ≤ size v / 4096 * 4096.
Proof.
  unfold bring_up_disk, nbd_attach, ioctl. intros E.
  apply mbind_inv in E as [(u & l1 & E1 & E)|(e & _ & [=])]. assert (l1 = {| incoming := i; outgoing := []; ioctls := [] |}) as -> by (by destruct spl; injection E1).
  apply mbind_inv in E as [(u2 & l2 & E2 & E)|(e & _ & [=])]. assert (l2 = {| incoming := i; outgoing := []; ioctls := [] |}) as -> by (by destruct zfs; injection E2).
  clear E1 E2. apply mbind_inv in E as [(n' & l3 & E & E3)|(e & _ & [=])]. injection E3 as <- <-.
  apply mbind_inv in E as [(u4 & l4 & E4 & E)|(e & _ & [=])]. apply lift_inv in E4 as [_ ->].
  apply mbind_inv in E as [([s f] & l5 & E5 & E)|(e & _ & [=])].
  apply handshake_server in E5 as (v & pad & Hv & Hp & -> & -> & Hi & Ho & Hk). cbn [incoming outgoing ioctls app] in Hi, Ho, Hk.
  apply mbind_inv in E as [(fd & l6 & E6 & E)|(e & _ & [=])]. apply lift_inv in E6 as [Hfd ->].
  apply mbind_inv in E as [(u7 & l7 & E7 & E)|(e & _ & [=])]. apply lift_inv in E7 as [_ ->].
  revert E. unfold_m. unfold ensure, check, lift. do 4 (destruct (accepts _ _); [|done]). unfold modify. cbn [incoming outgoing ioctls].
  destruct (existsb _ _) eqn:Ep; [|done]. intros [= <- <-]. exists v, pad, fd. cbn [incoming outgoing ioctls]. rewrite Hk.
  split_and!; try done.
  - apply existsb_exists in Ep as (b & Hb%list_elem_of_In & Hbt). by destruct b.
  - intros off count [a ->] [b ->] Hle. pose proof (Z.div_mod (size v) 512) as D1. pose proof (Z.div_mod (size v) 4096) as D2.
    pose proof (Z.mod_pos_bound (size v) 512). pose proof (Z.mod_pos_bound (size v) 4096).
    assert ((a + b) * 4096 ≤ size v) by lia. assert (a + b ≤ size v / 4096) by (apply Z.div_le_lower_bound; lia). lia.
Qed.
End attach.

(** ** A concrete parent *)
Module NbdWitness.
Definition parent : Server := {| gflags := 3; size := 10 * 4096 + 512; tflags := 5 |}.
Definition script : bytes := greeting parent ++ export parent [] ++ [Byte.x67].
Definition attached : result string Z * Link :=
  bring_up_disk (λ _ _, Ok ()) (Ok 9) (Ok ()) (λ _ _, true) [false; false; true] Loaded Already
    {| incoming := script; outgoing := []; ioctls := [] |}.
Lemma disk_is_the_exported_witness :
  attached.1 = Ok 81 ∧ ioctls attached.2 = [(1, 4096); (7, 10); (10, 5); (0, 9)] ∧
  ∃ v pad, script = greeting v ++ export v pad ++ [Byte.x67] ∧ outgoing attached.2 = client v.
Proof.
  split; [by vm_compute|]. split; [by vm_compute|].
  assert (attached = (Ok 81, attached.2)) as E by (by vm_compute).
  destruct (disk_is_the_exported _ _ _ _ _ _ _ _ _ _ E) as (v & pad & fd & _ & _ & Hi & Ho & _).
  exists v, pad. by split.
Defined.
(** The greeting's own flag for the fixed protocol is not looked at. *)
Example not_fixed_is_accepted : Z.testbit 2 0 = false ∧
  (handshake {| incoming := greeting {| gflags := 2; size := 4096; tflags := 1 |} ++ be_bytes 8 4096 ++ be_bytes 2 1; outgoing := []; ioctls := [] |}).1
    = Ok (4096, 1).
Proof. by vm_compute. Qed.
End NbdWitness.
