(* ===== verification/Start.v ===== *)
(** * Starting: main.rs

    The settings as the start reads them, the self-check, and the order in which
    the parts are started, up to the moment the listener takes over.  clap, the
    network's forwarder and the accept loop are not modelled: the command line is
    a record, a production build's own settings those of [Testing::production]. *)
From S2P Require Import Prelude Text Http Backend Attestation Anchor Policy Attest Nsm Ber Keys Boot Notify Settings Sandbox Acme.

(** ** Settings *)
Definition GUEST_OBJECT : string := "guest/guest.wasm".
Definition GUEST_LOG_STREAM : string := "guest".
Definition KMS_ENVIRONMENT : string := "production".
Definition DEFAULT_PTP_DEVICE : string := "/dev/ptp0".
(** What only a testing build can set. *)
Record Testing := {
  master_key_source : MasterKeySourceKind; t_master_key : option string; receipt_trust : ReceiptTrust;
  clock_source : ClockSource; ptp_device : string; random_source : RandomSource; t_access_key_id : option string;
  t_secret_access_key : option string; acme_directory : option string; t_acme_ca : option bytes;
  acme_contacts : list string; guest_log_endpoint : option string; push_endpoint : option string }.
Definition production : Testing :=
  {| master_key_source := KmsKind; t_master_key := None; receipt_trust := Required; clock_source := Clock_ptp;
     ptp_device := DEFAULT_PTP_DEVICE; random_source := Random_nsm; t_access_key_id := None; t_secret_access_key := None;
     acme_directory := None; t_acme_ca := None; acme_contacts := []; guest_log_endpoint := None; push_endpoint := None |}.
Record Cli := {
  cli_roots_bucket : string; cli_bucket_prefix : string; cli_fs_id : string; cli_min_root_seq : option Z;
  root_retention_secs : Z; region : string; cli_kms_key_id : option string; master_key_parameter : option string;
  tls_domains : list string; webauthn_rp_id : option string; webauthn_allowed_origins : list string;
  push_app_id : option string; guest_log_group : option string; self_check : bool; testing : Testing;
  guest_args : list string }.
(** Empty is unset. *)
Definition nonempty (value : option string) : option string :=
  v ← value; let v := trim v in if decide (v = "") then None else Some v.
Record NotifySettings := { ns_app_id : string; ns_endpoint : option string }.
Definition notify_settings (c : Cli) : result string (option NotifySettings) :=
  match nonempty (push_app_id c), nonempty (push_endpoint (testing c)) with
  | None, None => Ok None
  | None, Some _ => Err "--push-endpoint was given without --push-app-id"
  | Some app_id, endpoint =>
      _ ← check (valid_app_id app_id) "--push-app-id must be the application's id, 1-64 letters and digits";
      Ok (Some {| ns_app_id := app_id; ns_endpoint := endpoint |})
  end.
Record CloudWatchConfig := { log_group : string; log_stream : string; cw_region : string; cw_endpoint : option string }.
Definition guest_log_config (c : Cli) : option CloudWatchConfig :=
  (λ g, {| log_group := g; log_stream := GUEST_LOG_STREAM; cw_region := region c; cw_endpoint := guest_log_endpoint (testing c) |})
    <$> nonempty (guest_log_group c).
Definition mount_config (c : Cli) : result text_error MountConfig :=
  id ← parse_fs_id (cli_fs_id c);
  Ok {| roots_bucket := cli_roots_bucket c; bucket_prefix := cli_bucket_prefix c; fs_id := id;
        min_root_seq := cli_min_root_seq c; root_retention := root_retention_secs c |}.
Definition master_key_config (c : Cli) : result text_error MasterKeyConfig :=
  id ← parse_fs_id (cli_fs_id c);
  Ok {| mk_kind := master_key_source (testing c); master_key := t_master_key (testing c); kms_key_id := cli_kms_key_id c;
        mk_parameter := master_key_parameter c; mk_environment := KMS_ENVIRONMENT; mk_fs_id := id;
        access_key_id := t_access_key_id (testing c); secret_access_key := t_secret_access_key (testing c) |}.
Definition acme_config (c : Cli) : AcmeConfig :=
  {| domains := tls_domains c; contacts := acme_contacts (testing c); directory := acme_directory (testing c);
     directory_ca := t_acme_ca (testing c); acme_prefix := cli_bucket_prefix c |}.
(** The relying party that assertions are checked for, and its origins. *)
Record RelyingParty := { rp_id : string; rp_origin : string; allowed_origins : list string }.
Definition authentication (c : Cli) : result string (option RelyingParty) :=
  let allowed := filter (λ o, o ≠ "") (trim <$> webauthn_allowed_origins c) in
  match nonempty (webauthn_rp_id c) with
  | Some id => Ok (Some {| rp_id := id; rp_origin := "https://" +:+ id; allowed_origins := allowed |})
  | None =>
      _ ← check (bool_decide (allowed = [])) "--webauthn-allowed-origin was given without --webauthn-rp-id";
      Ok None
  end.
(** [u8::try_from(code).unwrap_or(1)]. *)
Definition process_exit_code (code : Z) : Z := if (0 <=? code) && (code <? 256) then code else 1.
(** flag.rs *)
Definition parse_bool_flag (s : string) : result string bool :=
  let s := to_ascii_lowercase (trim s) in
  if decide (s ∈ ["1"; "true"; "yes"; "on"]) then Ok true
  else if decide (s ∈ [""; "0"; "false"; "no"; "off"]) then Ok false
  else Err "expected a boolean (1/0, true/false, yes/no, on/off)".

(** ** The self-check *)
Section check.
Context `{Clocks D}.
(** Readings of a clock, none before the one it follows. *)
Fixpoint clock_check (n : nat) (c : TrustedClock) (previous : option Z) : M D string () :=
  match n with
  | O => mret ()
  | S n =>
      now ← clock_now c;
      _ ← ensure (match previous with Some p => p <=? now | None => true end) "clock went backwards";
      clock_check n c (Some now)
  end.
Definition count (x : byte) (b : bytes) : Z := Z.of_nat (length (filter (λ y, y = x) b)).
(** The highest count of a byte. *)
Definition peak (b : bytes) : Z := foldr (λ x m, Z.max (count x b) m) 0 b.
Definition entropy_check `{Nsm D} : M D string () :=
  first ← get_random 64;
  second ← get_random 64;
  _ ← ensure (negb (forallb (λ x, bool_decide (x = Byte.x00)) first)) "entropy source returned all zeros";
  _ ← ensure (negb (forallb (λ x, bool_decide (Some x = head first)) first)) "entropy source returned a constant byte";
  _ ← ensure (negb (bool_decide (first = second))) "two draws returned identical bytes";
  bulk ← get_random 4096;
  ensure (peak bulk <=? 80) "byte histogram peaks; the source looks stuck".
End check.

(** ** The order of the parts *)
Section start.
Context `{Blake3, Ed25519, !Ed25519Seed, Hkdf, Roots B, Host D, Nsm D, Aws D, JsonText, Cms, RecipientCrypto, Base64Encode}.
Context `{X509, Coset, Base64Standard, !Codec Value, Sha256, !Sha384, !Pem} (AWS_NITRO_ROOT_G1_PEM : bytes).
(** [RecipientKey::generate]; what the kernel draws, and whether it logs an import. *)
Context (generate : M D string RecipientKey) (guid : Z) (log : bool).
(** The object at [GUEST_OBJECT], as [fetch_guest] reads it; whether a root can be
    trusted; what the log stream's probe says: it is not asked, it answers, it
    refuses for good, or it may answer later. *)
Context (fetch_guest : string → M (World B) anchor_error bytes) (root_ok : bytes → bool).
Inductive log_probe := No_client | Opened | Definitive (why : string) | Unreachable.
Context (probe : CloudWatchConfig → log_probe).
Notation op := (M (Machine B D) anchor_error).
Definition hoist_text {A} (r : result text_error A) : op A :=
  lift (map_err (λ e, match e with Keys.Refused why => Bail why | Panicked => Bail "panicked" end) r).
(** What is handed to [serve_component]. *)
Record Started := {
  component : bytes; source : KeySource; booted : Booted; settings : list (string * string); order : Order;
  relying_party : option RelyingParty; shipped : bool; notify : option NotifySettings }.
(** Guest output goes beyond the console unless nothing is configured or no
    client could be built; a destination that refuses stops the start. *)
Definition guest_logs (c : Cli) : result string bool :=
  match guest_log_config c with
  | None => Ok false
  | Some config =>
      match probe config with
      | No_client => Ok false
      | Opened | Unreachable => Ok true
      | Definitive _ => Err "guest logging is configured but that destination refused us"
      end
  end.
(** [boot(.., &keys, ..)]: every secret is of the source given. *)
Definition boot_with (keys : KeySource) (c : MountConfig) (b : BootConfig) : op Booted :=
  let keys := source_of generate keys in boot AWS_NITRO_ROOT_G1_PEM guid log c b.
(** [run], from the network's being up to the listener: the key source is chosen,
    not asked, before the guest is measured. *)
Definition start_up (c : Cli) : op Started :=
  keys ← hoist_text (k ← master_key_config c; open_key_source k);
  mount ← hoist_text (mount_config c);
  component ← Boot.on_world (fetch_guest GUEST_OBJECT);
  _ ← on_device (measure_guest component);
  booted ← boot_with keys mount {| bc_trust := receipt_trust (testing c); bc_disk := Parent |};
  env ← hoist (from_guest component);
  acme ← hoist (start root_ok (acme_config c));
  rp ← hoist (authentication c);
  logs ← hoist (guest_logs c);
  notify ← hoist (notify_settings c);
  mret {| component := component; source := keys; booted := booted; settings := env; order := acme;
          relying_party := rp; shipped := logs; notify := notify |}.
End start.
