(* ===== verification/StartProps.v ===== *)
(** * Starting: what is served is what was measured, and nothing chose otherwise *)
From S2P Require Import Prelude Text Http Backend Attestation Anchor Policy Attest Nsm NsmProps Ber Keys Boot Notify Settings SettingsProps Sandbox Acme Start.

(** Follows a run that succeeded to its end. *)
Ltac to_the_end E :=
  repeat match type of E with
  | (_ ≫= _) _ = (Ok _, _) => apply mbind_inv in E as [(? & ? & _ & E)|(? & _ & [=])]
  | (match ?x with (_, _) => _ end) _ = (Ok _, _) => destruct x
  | (let _ := _ in _) _ = _ => cbv zeta in E
  end.
Section start.
Context `{Blake3, Ed25519, !Ed25519Seed, Hkdf, Roots B, Host D, Nsm D, !NsmLaws D, Aws D, JsonText, Cms, RecipientCrypto, Base64Encode}.
Context `{X509, Coset, Base64Standard, !Codec Value, Sha256, !Sha384, !Pem} (AWS_NITRO_ROOT_G1_PEM : bytes).
Context (generate : M D string RecipientKey) (guid : Z) (log : bool).
Context (fetch_guest : string → M (World B) anchor_error bytes) (root_ok : bytes → bool) (probe : CloudWatchConfig → log_probe).
Notation boot := (boot AWS_NITRO_ROOT_G1_PEM guid log).
Notation boot_with := (boot_with AWS_NITRO_ROOT_G1_PEM generate guid log).
Notation start_up := (start_up AWS_NITRO_ROOT_G1_PEM generate guid log fetch_guest root_ok probe).
Lemma on_device_Ok {A} (m : M D string A) s a (s' : Machine B D) : on_device m s = (Ok a, s') →
  ∃ d, m (device s) = (Ok a, d) ∧ s' = set_device d s.
Proof.
  unfold on_device. intros (d & E & ->)%zoom_inv. exists d. destruct (m (device s)) as [[x|e] d0]; [by injection E as -> ->|done].
Qed.
Lemma hoisted_Ok {A} (r : result string A) (s s' : Machine B D) a : hoist r s = (Ok a, s') → r = Ok a ∧ s' = s.
Proof. unfold hoist. intros [E ->]%lift_inv. by destruct r; [injection E as ->|]. Qed.
Lemma hoist_text_Ok {A} (r : result text_error A) (s s' : Machine B D) a : hoist_text r s = (Ok a, s') → r = Ok a ∧ s' = s.
Proof. unfold hoist_text. intros [E ->]%lift_inv. by destruct r; [injection E as ->|]. Qed.
Lemma maybe_get_device key (s s' : Machine B D) o : maybe_get key s = (Ok o, s') → device s' = device s.
Proof.
  unfold maybe_get. intros E. apply mbind_inv in E as [(r & s1 & E1 & E)|(e & _ & [=])].
  apply zoom_inv in E1 as (w & _ & ->). by destruct r as [b|[]]; injection E as _ <-.
Qed.
Lemma trusted_now_device (s s' : Machine B D) now : trusted_now s = (Ok now, s') → device s' = device s.
Proof. unfold trusted_now, Boot.on_world. by intros (w & _ & ->)%zoom_inv. Qed.
(** A boot reads the pair it is of, and then asks the key source, once. *)
Lemma boot_asks `{!MasterKeySource D} c b s bt s' : boot c b s = (Ok bt, s') →
  ∃ d sealed d', pair_read (device s) = (Ok (booted_pair bt), d) ∧
    (mint d = (Ok (master_secret bt, sealed), d') ∨ open_key sealed d = (Ok (master_secret bt), d')).
Proof.
  unfold Boot.boot. intros E. apply mbind_inv in E as [(p & s1 & E1 & E)|(e & _ & [=])].
  apply on_device_Ok in E1 as (d & E1 & ->). apply mbind_inv in E as [(r & s2 & Er%maybe_get_device & E)|(e & _ & [=])].
  apply mbind_inv in E as [(k & s3 & Ek%maybe_get_device & E)|(e & _ & [=])]. rewrite Er in Ek. cbn in Ek.
  destruct r as [r|], k as [k|]; try done; [unfold resume in E|unfold run_genesis in E].
  - apply mbind_inv in E as [(m & s4 & E4 & E)|(e & _ & [=])]. apply on_device_Ok in E4 as (d4 & E4 & _). rewrite Ek in E4.
    to_the_end E. injection E as <- _. cbn. exists d, k, d4. auto.
  - apply mbind_inv in E as [(now & s4 & E4%trusted_now_device & E)|(e & _ & [=])].
    apply mbind_inv in E as [([m sealed] & s5 & E5 & E)|(e & _ & [=])]. apply on_device_Ok in E5 as (d5 & E5 & _). rewrite E4, Ek in E5.
    to_the_end E. injection E as <- _. cbn. exists d, sealed, d5. auto.
Qed.
Lemma kms_source c k s : master_key_config c = Ok k → open_key_source k = Ok s → master_key_source (testing c) = KmsKind →
  t_master_key (testing c) = None ∧ ∃ q, s = KmsSource q ∧ cli_kms_key_id c = Some (kc_key_id q) ∧ Ok (kc_fs_id q) = parse_fs_id (cli_fs_id c).
Proof.
  unfold master_key_config. intros Ek Es Hk. apply bind_Ok in Ek as (id & Ei & [= <-]). unfold open_key_source in Es.
  cbn [mk_kind Keys.master_key Keys.kms_key_id mk_parameter] in Es. rewrite Hk in Es.
  apply bind_Ok in Es as (u & Eu%check_Ok & Es). apply bind_Ok in Es as (q & Eq & Es). apply bind_Ok in Es as (p & _ & [= <-]).
  split; [by apply bool_decide_eq_true in Eu|]. eexists. split_and!; [reflexivity| |by rewrite Ei].
  destruct (cli_kms_key_id c); [by injection Eq as ->|done].
Qed.
Lemma order_of c o : start root_ok (acme_config c) = Ok o → ord_domains o = tls_domains c ∧ tls_domains c ≠ [] ∧
  ord_directory o = acme_directory (testing c) ∧ (t_acme_ca (testing c) = None → ord_roots o = None).
Proof.
  unfold start. intros E. apply bind_Ok in E as (u & Eu%check_Ok & E). apply bind_Ok in E as (roots & Er & [= <-]). cbn in *.
  split_and!; try done; [intros Hd; by rewrite Hd in Eu|]. intros Hn. rewrite Hn in Er. by injection Er as <-.
Qed.
(** C11: what is served is what was measured, under what the image decided.  A
    start that reaches the listener serves the bytes it fetched.  It measured
    them into the register and locked it, and only then booted, from the device
    as that left it and with the key source it opened; the boot was of the pair
    whose guest is those bytes, and the guest's environment is that of the same
    bytes.  With the settings of a production build the source is KMS, under the
    key that was named and for the filesystem that is mounted: the secret that
    the state was loaded with is one that KMS made or decrypted for this device
    once the pair had been read; certificates come from the public directory
    under the public roots, and wakes go to the push service's own address. *)
Theorem starts_what_was_measured c s st s' : start_up c s = (Ok st, s') →
  (∃ w v d m, fetch_guest GUEST_OBJECT (Boot.world s) = (Ok (component st), w) ∧
    measure_guest (component st) (device s) = (Ok v, d) ∧ mount_config c = Ok m ∧
    boot_with (source st) m {| bc_trust := receipt_trust (testing c); bc_disk := Parent |} {| Boot.world := w; device := d |} =
      (Ok (booted st), s') ∧
    pcr16 (booted_pair (booted st)) = guest_pcr (component st) ∧
    (testing c = production → ∃ q d1 sealed d2,
      source st = KmsSource q ∧ cli_kms_key_id c = Some (kc_key_id q) ∧ kc_fs_id q = fs_id m ∧
      pair_read d = (Ok (booted_pair (booted st)), d1) ∧
      (kms_mint generate q d1 = (Ok (master_secret (booted st), sealed), d2) ∨
       kms_open generate q sealed d1 = (Ok (master_secret (booted st)), d2)))) ∧
  from_guest (component st) = Ok (settings st) ∧ well_formed (settings st) ∧
  (testing c = production →
    ord_domains (order st) ≠ [] ∧ ord_directory (order st) = None ∧ ord_roots (order st) = None ∧
    ∀ n, notify st = Some n → ns_endpoint n = None ∧ valid_app_id (ns_app_id n) = true).
Proof.
  unfold Start.start_up. intros E.
  apply mbind_inv in E as [(k & s1 & E1 & E)|(e & _ & [=])]. apply hoist_text_Ok in E1 as [Ek ->].
  apply mbind_inv in E as [(m & s2 & E2 & E)|(e & _ & [=])]. apply hoist_text_Ok in E2 as [Em ->].
  apply mbind_inv in E as [(g & s3 & E3 & E)|(e & _ & [=])]. unfold Boot.on_world in E3. apply zoom_inv in E3 as (w & E3 & ->).
  apply mbind_inv in E as [(v & s4 & E4 & E)|(e & _ & [=])]. apply on_device_Ok in E4 as (d & E4 & ->).
  apply mbind_inv in E as [(bt & s5 & E5 & E)|(e & _ & [=])].
  apply mbind_inv in E as [(env & s6 & E6 & E)|(e & _ & [=])]. apply hoisted_Ok in E6 as [E6 ->].
  apply mbind_inv in E as [(o & s7 & E7 & E)|(e & _ & [=])]. apply hoisted_Ok in E7 as [E7 ->].
  apply mbind_inv in E as [(rp & s8 & E8 & E)|(e & _ & [=])]. apply hoisted_Ok in E8 as [E8 ->].
  apply mbind_inv in E as [(l & s9 & E9 & E)|(e & _ & [=])]. apply hoisted_Ok in E9 as [E9 ->].
  apply mbind_inv in E as [(n & s10 & E10 & E)|(e & _ & [=])]. apply hoisted_Ok in E10 as [E10 ->]. injection E as <- <-.
  cbn [component source booted settings order notify].
  split_and!; [|done|by eapply settings_are_well_formed|].
  - destruct (boot_asks _ _ _ _ _ E5) as (d1 & sealed & d2 & Hp & Ha). exists w, v, d, m. split_and!; [done..| |].
    + apply measure_Ok in E4 as (-> & p & d0 & Ep & Hl & Hv). apply pair_read_Ok in Hp as (d6 & q & Eq & Hs & _ & _ & ->).
      rewrite <- Hv. f_equal. by eapply locked_stays.
    + intros Ht. apply bind_Ok in Ek as (kc & Ek1 & Ek2).
      destruct (kms_source c kc k Ek1 Ek2) as (_ & q & -> & Hk & Hq); [by rewrite Ht|]. exists q, d1, sealed, d2.
      split_and!; try done. unfold mount_config in Em. rewrite <- Hq in Em. by injection Em as <-.
  - intros Ht. apply order_of in E7 as (-> & Hd & -> & Hr). rewrite Ht in *. split_and!; try done; [by apply Hr|].
    intros ns Hn. unfold notify_settings in E10. rewrite Ht in E10. destruct (nonempty (push_app_id c)) as [a|]; cbn in E10; [|by injection E10 as <-].
    destruct (valid_app_id a) eqn:Ha; [|done]. cbn in E10. injection E10 as <-. injection Hn as <-. by cbn.
Qed.
End start.

(** ** Starting: the property at a concrete start

    An enclave with a fresh register measures its guest and makes a filesystem. *)
From S2P Require Import Concrete BackendProps AttestationWitness Storage AnchorProps MemoryRoots BootProps KeysProps.

Module StartWitness.
#[local] Existing Instances AttestationWitness.value_codec AttestationWitness.x509 AttestationWitness.coset
  AttestationWitness.base64 BootWitness.sha BootWitness.toy_blake3 BootWitness.toy_ed25519 BootWitness.toy_seed BootWitness.toy_hkdf
  BootWitness.roots1 BootWitness.enclave_host KeysWitness.toy_encode KeysWitness.toy_cms KeysWitness.toy_recipient.
Abbreviation Enclave := BootWitness.Enclave.
#[local] Instance sha384_ : Sha384 := λ b, take 48 (BootWitness.poly b ++ BootWitness.poly (Byte.x01 :: b)).
#[local] Instance pem : Pem := λ b, Some [b].
Definition with_register (p : Pcr) (d : Enclave) : Enclave :=
  {| BootWitness.secret := BootWitness.secret d; BootWitness.guest_register := p |}.
(** A register that can be extended until it is locked. *)
#[local] Instance live_nsm : Nsm Enclave := {|
  get_random n := fail "no entropy";
  attest r := λ d, (Ok (BootWitness.signed d r), d);
  describe_pcr i := λ d, (Ok (if i =? 0 then {| Nsm.locked := true; value := replicate 48 Byte.x10 |} else BootWitness.guest_register d), d);
  extend_pcr _ b := λ d, let p := BootWitness.guest_register d in
    if Nsm.locked p then (Err "the PCR is read-only", d)
    else let v := sha384 (value p ++ b) in (Ok v, with_register {| Nsm.locked := false; value := v |} d);
  lock_pcr _ := λ d, (Ok (), with_register {| Nsm.locked := true; value := value (BootWitness.guest_register d) |} d) |}.
#[local] Instance live_laws : NsmLaws Enclave.
Proof.
  refine {| since d d' := Nsm.locked (BootWitness.guest_register d) = true → BootWitness.guest_register d' = BootWitness.guest_register d |}.
  - done.
  - intros d d' d'' H1 H2 Hl. rewrite H2; [by apply H1|by rewrite H1].
  - by intros i d r d' [= _ <-].
  - intros i b d r d' E Hl. cbn in E. rewrite Hl in E. by injection E as _ <-.
  - intros i d r d' [= _ <-] Hl. cbn. destruct (BootWitness.guest_register d). cbn in *. by subst.
  - by intros q d r d' [= _ <-].
  - by intros n d r d' [= _ <-].
  - intros i p q d d1 d2 d3 [= <- <-] Hl Hs [= <- _]. destruct (i =? 0); [done|]. by apply Hs.
Defined.

Definition guest : bytes := with_settings_section empty_guest two_settings.
(** A key whose policy releases it to the runtime's image with that guest, and
    a service that makes and decrypts secrets for whoever asks. *)
Definition pins : Json :=
  JObject [("StringEqualsIgnoreCase", JObject [("kms:RecipientAttestation:PCR0", JString KeysWitness.hex_10);
                                               ("kms:RecipientAttestation:PCR16", JString (hex_encode (guest_pcr guest)))])].
Definition policy_doc : Json :=
  JObject [("Version", JString "2012-10-17");
    ("Statement", JArray [
      JObject [("Effect", JString "Allow"); ("Principal", JString "*"); ("Action", JString "kms:DescribeKey"); ("Resource", JString "*")];
      JObject [("Effect", JString "Allow"); ("Principal", JString "*"); ("Action", JArray [JString "kms:Decrypt"; JString "kms:GenerateDataKey"]);
               ("Resource", JString "*"); ("Condition", pins)]])].
#[local] Instance policy_json : JsonText := λ s, if decide (s = "policy") then Some policy_doc else None.
Definition answer_for (plain : bytes) : option bytes := Some (Byte.x04 :: Zbyte (len plain) :: plain).
#[local] Instance enclave_aws : Aws Enclave := {|
  describe_key _ := mret (Some KeysWitness.meta);
  get_key_policy _ := mret (Some "policy");
  list_grants _ := mret ([], false);
  generate_data_key _ n _ _ := d ← get; mret (Some (BootWitness.secret d), answer_for (BootWitness.secret d));
  decrypt ct _ _ _ := mret (answer_for ct);
  get_parameter _ := mret None;
  put_parameter _ _ _ := mret tt |}.
Definition generate : M Enclave string RecipientKey := mret ([Byte.x05] : bytes).
Definition cli : Cli :=
  {| cli_roots_bucket := "roots"; cli_bucket_prefix := "p/"; cli_fs_id := "0f0f0f0f0f0f0f0f0f0f0f0f0f0f0f0f"; cli_min_root_seq := None;
     root_retention_secs := 2000; region := "eu-west-1"; cli_kms_key_id := Some "key"; master_key_parameter := Some "parameter";
     tls_domains := ["enclave.example"]; webauthn_rp_id := Some "enclave.example"; webauthn_allowed_origins := [""];
     push_app_id := Some " app1 "; guest_log_group := Some ""; self_check := false; testing := production; guest_args := [] |}.
Definition machine : Machine Shared Enclave :=
  {| Boot.world := BootWitness.world_of BootWitness.fresh_store None Byte.x07;
     device := with_register {| Nsm.locked := false; value := PCR_ZERO |} (BootWitness.enclave Byte.x0a) |}.
Abbreviation started :=
  (start_up BootWitness.root_pem generate 77 true (λ _ w, (Ok guest, w)) (λ _, true) (λ _, Unreachable) cli machine).
Lemma started_ok : is_ok started.1 = true.
Proof. vm_compute. reflexivity. Qed.
Lemma starts_what_was_measured_witness : ∃ st,
  started.1 = Ok st ∧ component st = guest ∧ pcr16 (booted_pair (booted st)) = guest_pcr guest ∧
  ∃ q d1 sealed d2, source st = KmsSource q ∧ kc_key_id q = "key" ∧ kc_fs_id q = replicate 16 Byte.x0f ∧
    (kms_mint generate q d1 = (Ok (master_secret (booted st), sealed), d2) ∨
     kms_open generate q sealed d1 = (Ok (master_secret (booted st)), d2)).
Proof.
  pose proof started_ok as Hok. destruct started as [[st|e] s] eqn:E; [clear Hok|done].
  destruct (starts_what_was_measured BootWitness.root_pem generate 77 true (λ _ w, (Ok guest, w)) (λ _, true) (λ _, Unreachable) cli machine st s E)
    as ((w & v & d & m & Hw & _ & Hm & _ & Hp & Hk) & _).
  injection Hw as Hc _. exists st. rewrite <- Hc in Hp. split_and!; [reflexivity|done|exact Hp|].
  destruct (Hk eq_refl) as (q & d1 & sealed & d2 & Hq & Hid & Hi & _ & Ha). exists q, d1, sealed, d2. split_and!; [exact Hq| | |exact Ha].
  - by injection Hid.
  - rewrite Hi. assert (mount_config cli = Ok m → fs_id m = replicate 16 Byte.x0f) as Hf; [|by apply Hf].
    vm_compute. by intros [= <-].
Defined.
End StartWitness.
