(* ===== verification/Worker.v ===== *)
(** * One run of a task: the worker of tasks.rs and [run_background] of serve/http.rs

    [TaskQueue::run] spawns a worker for each task that is due: it runs the guest
    once, reports to the queue, and delivers or drops what the run staged.  The
    guest is a parameter as in Serve: what it writes, what it raises and what it
    answers; the queue is that of Tasks.  One worker's run is one sequence here;
    the steps of several are interleaved in [TasksFacts.sys_step]. *)
From S2P Require Import Prelude Text Http Notify Storage Serve Tasks.

Record Work := { work_queue : TaskQueue; work_notifier : option Notifier }.
Definition set_queue (q : TaskQueue) (w : Work) : Work := {| work_queue := q; work_notifier := work_notifier w |}.
Definition on_notifier (f : Notifier → Notifier) (w : Work) : Work :=
  {| work_queue := work_queue w; work_notifier := f <$> work_notifier w |}.
Definition on_queue {E A} (m : M TaskQueue E A) : M Work E A := zoom work_queue set_queue m.

(** A run of the guest in the background: it may read its tasks' state and count
    its devices, which changes nothing; [Tasks.context] and [Notify.context]
    refuse it the rest. *)
Record BackgroundRun := {
  br_instantiates : bool;
  br_edits : list ((string * string) * option bytes);  (** files of its own directory *)
  br_wakes : list (string * option string);
  br_in_time : bool;
  br_answer : result string bytes }.
Definition MAX_RESULT : Z := 64 * 1024.

Section worker.
Context `{Sha256, !Codec Task}.
Notation op := (M Work string).
Definition edit_files (t : bytes) (es : list ((string * string) * option bytes)) (q : TaskQueue) : TaskQueue :=
  Tasks.set_zfs (foldl (edit t) (zfs q) es) q.
(** The future under the deadline of a task. *)
Definition background_work (g : BackgroundRun) (task : Task) : op (option bytes) :=
  _ ← on_queue (Tasks.on_zfs (existing_tenant_dir (tenant task)));
  _ ← ensure (br_instantiates g) "instantiating the guest";
  _ ← on_queue (modify (edit_files (tenant task) (br_edits g)));
  _ ← modify (on_notifier (stage_all (tenant task) (br_wakes g)));
  _ ← ensure (br_in_time g) "background task deadline exceeded";
  b ← lift (br_answer g);
  _ ← ensure (len b <=? MAX_RESULT) "task result exceeds 64 KiB";
  mret (Some b).
(** [busy]: another call of the tenant holds its slot. *)
Definition run_background (busy : bool) (g : BackgroundRun) (task : Task) : op (option bytes) :=
  if busy then mret None
  else
    began ← on_queue (begin task);
    if began : bool then background_work g task else mret (Some []).
Definition wakes_after (t : bytes) (finished : result string ()) : Notifier → Notifier :=
  match finished with Ok _ => deliver_staged t | Err _ => drop_staged t end.
(** What [run] spawns. *)
Definition worker (busy : bool) (g : BackgroundRun) (now : Z) (task : Task) : op () :=
  result ← attempt (run_background busy g task);
  finished ← attempt (on_queue (finish now task result));
  _ ← modify (on_notifier (wakes_after (tenant task) finished));
  lift finished.
End worker.

(** ** One run of a task: what a report, a crash and a wake say of it *)
From S2P Require Import Concrete ServeProps TasksFacts TasksProps.

Section worker.
Context `{Sha256} `{Codec Task} `{!CodecLaws Task}.
(** The wakes that are on their way. *)
Definition sending (w : Work) : option (list Wake) := queue <$> work_notifier w.
(** The guest's own directory is not that of the runtime's records. *)
Definition own_files (g : BackgroundRun) : Prop := Forall (λ e, e.1.1 ≠ DIR) (br_edits g).

Lemma edit_queue_ok t e q ws : e.1.1 ≠ DIR → is_Some (pools (zfs q) !! t) → queue_ok q ws →
  queue_ok (Tasks.set_zfs (edit t (zfs q) e) q) ws.
Proof.
  intros Hd Hp [[Hd1 Hd2 Hd3 Hd4 Hd5] Hm Hs]. unfold edit. split; [split|done|done]; simpl.
  - by apply storage_ok_put_file.
  - intros u Hu. simpl in *. rewrite lookup_alter. case_decide; [subst; by apply fmap_is_Some, Hd2|by apply Hd2].
  - apply pools_hold_put_file; [done|]. intros c. by apply dir_ok_other.
  - done.
  - intros k c Hc. etrans; [|exact (Hd5 _ _ Hc)]. rewrite file_put_file by done. rewrite decide_False; [done|].
    unfold task_place. by intros [= _ Hx _].
Qed.
Lemma edits_queue_ok t es q ws : Forall (λ e, e.1.1 ≠ DIR) es → is_Some (pools (zfs q) !! t) → queue_ok q ws →
  queue_ok (edit_files t es q) ws.
Proof.
  unfold edit_files. intros Hes. revert q. induction Hes as [|e es He _ IH]; intros q Hp Hq.
  - destruct q. exact Hq.
  - simpl. apply (IH (Tasks.set_zfs (edit t (zfs q) e) q)); [by apply edit_pool|by apply edit_queue_ok].
Qed.

(** What the guest's part leaves: a sound queue with the record [Running], the
    guest's files written if it got that far, and nothing sent. *)
Lemma background_work_spec g task c ws w o w' :
  own_files g → tenant c = tenant task → background_work g task w = (o, w') →
  queue_ok (work_queue w) ((task, Executing) :: ws) →
  tasks (records (work_queue w)) !! task_key task = Some c → status c = Running →
  queue_ok (work_queue w') ((task, Returned o) :: ws) ∧ outcome_ok o ∧
  tasks (records (work_queue w')) !! task_key task = Some c ∧ sending w' = sending w ∧
  (is_ok o = true → imported (tenant c) (zfs (work_queue w')) = true ∧
     is_Some (pools (zfs (work_queue w')) !! tenant c) ∧
     ∀ k x, last_edit (br_edits g) k = Some x → file (zfs (work_queue w')) (PTenant (tenant c) k.1 k.2) = x).
Proof.
  unfold background_work. intros Hown Ht E Hq Hc Hr.
  assert (∀ q p, queue_ok q ((task, Executing) :: ws) → tasks (records q) !! task_key task = Some c →
    p ≠ Ok None → queue_ok q ((task, Returned p) :: ws)) as Hret.
  { intros q p Hq0 Hc0 Hp. eapply queue_ok_phase; [exact Hq0|exact Hc0|]. right. by destruct p as [[]|]; [| |right]. }
  apply mbind_inv in E as [([] & w1 & E1 & E)|(e & E1 & ->)];
    apply zoom_inv in E1 as (q1 & Ez & ->);
    destruct (queue_ok_zfs _ _ _ _ _ (on_disk_existing_tenant_dir (tenant task)) Ez Hq) as (Hq1 & Hr1 & _);
    rewrite <- Hr1 in Hc; [|by split_and!; try apply Hret].
  apply zoom_inv in Ez as (z1 & Ez & Eq1).
  pose proof (disk_slots _ _ (queue_disk _ _ Hq)) as Hsl.
  apply tenant_pool_frame in Ez as (_ & Hpools & _ & _ & _ & Hdir). destruct (Hdir Hsl) as [_ Hthere].
  destruct (Hthere eq_refl) as [Himp Hpool]. rewrite <- Hpools in Hpool.
  assert (zfs q1 = z1) as Hz1 by by rewrite Eq1. clear Eq1. rewrite <- Hz1 in *. clear z1 Hz1.
  apply mbind_inv in E as [(u1 & w1 & E1 & E)|(e & E1 & ->)]; apply ensure_inv in E1 as [-> _]; [|by split_and!; try apply Hret].
  apply mbind_inv in E as [([] & w2 & E2 & E)|(e & E2 & ->)]; [|by apply zoom_inv in E2 as (? & [=] & _)].
  apply zoom_inv in E2 as (q2 & [= <-] & ->).
  assert (queue_ok (edit_files (tenant task) (br_edits g) q1) ((task, Executing) :: ws)) as Hq2 by by apply edits_queue_ok.
  apply mbind_inv in E as [([] & w3 & E3 & E)|(e & [=] & _)]. injection E3 as <-.
  assert (∀ f, (∀ n, queue (f n) = queue n) → sending (on_notifier f (set_queue (edit_files (tenant task) (br_edits g) q1) (set_queue q1 w))) = sending w) as Hsend.
  { intros f Hf. unfold sending. simpl. destruct (work_notifier w); simpl; [by rewrite Hf|done]. }
  pose proof (Hsend _ (stage_all_queue (tenant task) (br_wakes g))) as Hs. clear Hsend.
  apply mbind_inv in E as [(u4 & w4 & E4 & E)|(e & E4 & ->)]; apply ensure_inv in E4 as [-> _]; [|by split_and!; try apply Hret].
  apply mbind_inv in E as [(b & w5 & E5 & E)|(e & E5 & ->)]; apply lift_inv in E5 as [_ ->]; [|by split_and!; try apply Hret].
  apply mbind_inv in E as [(u6 & w6 & E6 & E)|(e & E6 & ->)]; apply ensure_inv in E6 as [-> E6]; [|by split_and!; try apply Hret].
  injection E as <- <-. destruct (Z.leb_spec (len b) MAX_RESULT); [|done].
  split_and!; [by apply Hret|done|done|exact Hs|]. intros _. simpl. rewrite Ht.
  destruct (edits_spec (tenant task) (br_edits g) (zfs q1) ("", "") Hpool) as (Hi1 & Hi2 & _).
  split_and!; [by rewrite Hi1|done|]. intros k x Hx.
  by destruct (edits_spec (tenant task) (br_edits g) (zfs q1) k Hpool) as (_ & _ & Hi3); apply Hi3.
Qed.
(** A report that succeeds: the record and whatever files the tenant's pool had
    are what every restart finds. *)
Lemma finish_keeps q ws now t o c q' z :
  queue_ok q ((t, Returned o) :: ws) → outcome_ok o → tasks (records q) !! task_key t = Some c → status c = Running →
  finish now t o q = (Ok tt, q') → restart (zfs q') z →
  imported (tenant c) (zfs q) = true → is_Some (pools (zfs q) !! tenant c) →
  ∀ d n, d ≠ DIR → file z (PTenant (tenant c) d n) = file (zfs q) (PTenant (tenant c) d n).
Proof.
  intros Hq Ho Hc Hr Hf Hre Hi Hp d n Hd.
  destruct (finish_publishes _ _ _ _ _ _ _ Hq Ho Hc Hr Hf) as (c' & q1 & _ & Hk & Ht & Hid & Hw & Hs & Ha).
  pose proof (disk_slots _ _ (queue_disk _ _ Hq)) as Hsl.
  destruct (write_spec _ _ _ _ Hw Hsl Hid) as (_ & _ & Hws & _ & Hok). destruct (Hok eq_refl) as (_ & [tp Htp] & Hi1).
  rewrite Ht in Htp, Hi1. destruct (anchored_restart _ _ _ _ (proj1 Hs) Ha Hre) as [_ Hkeep].
  destruct (Hkeep Hi1 tp Htp) as (tp' & Htp' & Hcont). transitivity (file (zfs q1) (PTenant (tenant c) d n)).
  - unfold file. by rewrite Htp, Htp'; simpl; rewrite Hcont.
  - apply (writes_file _ _ _ Hws). unfold task_place. set_solver.
Qed.
Lemma begin_running q ws t q1 : queue_ok q ((t, Started) :: ws) → length (tenant t) = 16%nat → begin t q = (Ok true, q1) →
  queue_ok q1 ((t, Executing) :: ws) ∧ ∃ c, tasks (records q1) !! task_key t = Some c ∧ status c = Running ∧ tenant c = tenant t ∧
    ∀ z, restart (zfs q1) z → file z (task_place (tenant t) (task_key t)) = Some (to_vec c).
Proof.
  intros Hq Hlen Hb. split; [exact (begin_queue_ok _ _ _ _ _ Hb Hq)|].
  destruct (worker_record _ _ _ _ Hq) as (c0 & Hc0 & Hok & Hkey & _).
  assert (tenant c0 = tenant t) as Ht by (apply key_inj in Hkey as [? _]; [done|by rewrite Hlen; apply Hok]).
  exists (with_attempts (attempts c0 + 1) (with_status Running c0)). split_and!; [|done|exact Ht|].
  - unfold begin in Hb. inv_bind Hb. inv_pure. rewrite Hc0, (mbind_ok _ _ _ c0 q) in Hb by done.
    destruct (decide (status c0 = Pending)) as [Hst|]; [|by inv_pure].
    inv_bind Hb. apply mbind_inv in Hb as [(u & s1 & [= <- <-] & Hb)|(e & [=] & _)].
    apply mbind_inv in Hb as [(u & s2 & Ha & Hb)|(e & _ & [=])]. injection Hb as <-.
    apply zoom_inv in Ha as (z1 & _ & ->). cbn. rewrite <- Hkey. apply lookup_insert_eq.
  - intros z Hre. destruct (begin_durable _ _ _ _ _ Hq Hb Hre) as (c1 & Hc1 & _ & Hf). rewrite <- Ht. congruence.
Qed.
Lemma drop_sends t n : queue (drop_staged t n) = queue n ∧ staged (drop_staged t n) !! t = None.
Proof. split; [done|]. apply lookup_delete_eq. Qed.

(** A worker whose attempt began, part by part. *)
Lemma worker_run s t ws g now w q1 :
  reachable sys_init sys_step s → serving s = true → sys_workers s ≡ₚ (t, Started) :: ws →
  length (tenant t) = 16%nat → own_files g → work_queue w = sys_queue s → begin t (sys_queue s) = (Ok true, q1) →
  ∃ c w2 x q3, tasks (records q1) !! task_key t = Some c ∧ status c = Running ∧ tenant c = tenant t ∧
    (∀ z, restart (zfs q1) z → file z (task_place (tenant t) (task_key t)) = Some (to_vec c)) ∧
    background_work g t (set_queue q1 w) = ((run_background false g t w).1, w2) ∧
    queue_ok q1 ((t, Executing) :: ws) ∧
    finish now t (run_background false g t w).1 (work_queue w2) = (x, q3) ∧
    worker false g now t w = (x, on_notifier (wakes_after (tenant t) x) (set_queue q3 w2)).
Proof.
  intros [_ Hok]%reachable_sys_ok Hs Hws Hlen Hown Ew Hb. destruct (Hok Hs) as (Hq & _). rewrite Hws in Hq. rewrite <- Ew in *.
  destruct (begin_running _ _ _ _ Hq Hlen Hb) as (Hq1 & c & Hc & Hr & Ht & Hdur).
  destruct (background_work g t (set_queue q1 w)) as [o w2] eqn:Eb.
  assert (run_background false g t w = (o, w2)) as Erun.
  { unfold run_background, on_queue, zoom. unfold_m. by rewrite Hb. }
  destruct (finish now t o (work_queue w2)) as [x q3] eqn:Ef. exists c, w2, x, q3. rewrite Erun. split_and!; try done.
  unfold worker, attempt. unfold_m. rewrite Erun. cbn. unfold on_queue, zoom. by rewrite Ef.
Qed.
(** C25: a task runs on a spent attempt, and its answer, its writes and its wakes
    stand or fall together.  For a worker in any reachable state of the queue,
    whatever its guest writes, raises and answers: before the guest runs, every
    crash finds the record [Running] with the attempt counted; when the report
    succeeds every restart finds the record computed from what the run came to,
    and, if it came to an answer, each file as the guest last wrote it; and when
    it fails nothing was sent and nothing the run raised is left to send. *)
Theorem task_run_durable s t ws g now w r w' q1 :
  reachable sys_init sys_step s → serving s = true → sys_workers s ≡ₚ (t, Started) :: ws →
  length (tenant t) = 16%nat → own_files g → work_queue w = sys_queue s →
  begin t (sys_queue s) = (Ok true, q1) → worker false g now t w = (r, w') →
  let o := (run_background false g t w).1 in
  ∃ c, tasks (records q1) !! task_key t = Some c ∧ status c = Running ∧
    (∀ z, restart (zfs q1) z → file z (task_place (tenant t) (task_key t)) = Some (to_vec c)) ∧
    (r = Ok () → ∀ z, restart (zfs (work_queue w')) z →
       (∃ c', outcome_record now (task_key t) o c = Ok c' ∧
          file z (task_place (tenant t) (task_key t)) = Some (to_vec c')) ∧
       (is_ok o = true → ∀ d n x, d ≠ DIR → last_edit (br_edits g) (d, n) = Some x → file z (PTenant (tenant t) d n) = x)) ∧
    (is_ok r = false → sending w' = sending w ∧
       ∀ n, work_notifier w' = Some n → staged n !! tenant t = None).
Proof.
  intros Hre Hs Hws Hlen Hown Ew Hb E. cbv zeta.
  destruct (worker_run _ _ _ _ now _ _ Hre Hs Hws Hlen Hown Ew Hb) as (c & w2 & x & q3 & Hc & Hr & Ht & Hdur & Eb & Hq1 & Ef & Ewk).
  destruct (background_work_spec g t c ws _ _ w2 Hown Ht Eb Hq1 Hc Hr) as (Hq2 & Ho & Hc2 & Hsend & Hfiles).
  rewrite Ewk in E. injection E as <- <-. exists c. do 3 (split; [done|]). split.
  - intros -> z Hz. cbn in Hz. split; [rewrite <- Ht; by eapply finish_outcome_durable|].
    intros Ho' d n y Hd Hy. destruct (Hfiles Ho') as (Hi & Hp & Hx). rewrite <- Ht.
    rewrite (finish_keeps _ _ _ _ _ _ _ _ Hq2 Ho Hc2 Hr Ef Hz Hi Hp d n Hd). by apply (Hx (d, n)).
  - destruct x as [u|e]; [done|]. intros _. split.
    + transitivity (sending w2); [|exact Hsend]. unfold sending. cbn. by destruct (work_notifier w2).
    + cbn. intros n (m & _ & ->)%fmap_Some. apply drop_sends.
Qed.
(** Whatever the report says, a restart can be made of what it leaves. *)
Lemma worker_recoverable s t ws g now w q1 :
  reachable sys_init sys_step s → serving s = true → sys_workers s ≡ₚ (t, Started) :: ws →
  length (tenant t) = 16%nat → own_files g → work_queue w = sys_queue s → begin t (sys_queue s) = (Ok true, q1) →
  crash_ok (work_queue (worker false g now t w).2).
Proof.
  intros Hre Hs Hws Hlen Hown Ew Hb.
  destruct (worker_run _ _ _ _ now _ _ Hre Hs Hws Hlen Hown Ew Hb) as (c & w2 & x & q3 & Hc & Hr & Ht & _ & Eb & Hq1 & Ef & ->).
  destruct (background_work_spec g t c ws _ _ w2 Hown Ht Eb Hq1 Hc Hr) as (Hq2 & Ho & _).
  exact (proj1 (finish_queue_ok _ _ _ _ _ _ _ Ef Ho Hq2)).
Qed.
End worker.

(** ** A concrete run *)
Module WorkerWitness.
#[local] Existing Instances TasksWitness.sha TasksWitness.task_codec TasksWitness.task_codec_laws.
Definition idle : Notifier := {| queue := []; closed := false; inflight := ∅; staged := ∅; counters := no_counts |}.
Definition dispatched : Work := {| work_queue := TasksWitness.q2; work_notifier := Some idle |}.
Definition writes_one : BackgroundRun :=
  {| br_instantiates := true; br_edits := [(("notes", "a"), Some [Byte.x05])]; br_wakes := [("done", None)]; br_in_time := true;
     br_answer := Ok [Byte.x2b] |}.
Definition ran := worker false writes_one 1234 TasksWitness.task1 dispatched.
Lemma own_one : own_files writes_one.
Proof. repeat constructor. by intros [=]. Qed.
Lemma tenant_id : length (tenant TasksWitness.task1) = 16%nat.
Proof. vm_compute. reflexivity. Qed.
Lemma ran_recoverable : zfs_wf (zfs (work_queue ran.2)).
Proof.
  exact (proj1 (proj1 (worker_recoverable _ TasksWitness.task1 [] writes_one 1234 dispatched TasksWitness.q3 TasksWitness.reach2 eq_refl
    (reflexivity _) tenant_id own_one eq_refl TasksWitness.begin1))).
Qed.
Lemma task_run_durable_witness :
  (wk_category <$> default [] (sending ran.2) = ["done"]) ∧
  file (crash (zfs (work_queue ran.2))) (PTenant TasksWitness.t1 "notes" "a") = Some [Byte.x05] ∧
  ∃ c', file (crash (zfs (work_queue ran.2))) (task_place TasksWitness.t1 (task_key TasksWitness.task1)) = Some (to_vec c').
Proof.
  destruct (task_run_durable _ TasksWitness.task1 [] writes_one 1234 dispatched ran.1 ran.2 TasksWitness.q3 TasksWitness.reach2 eq_refl
    (reflexivity _) tenant_id own_one eq_refl TasksWitness.begin1 (surjective_pairing _)) as (c & _ & _ & _ & Hk & _).
  split; [vm_compute; reflexivity|].
  destruct (Hk ltac:(vm_compute; reflexivity) _ (restart_crash _ ran_recoverable)) as [(c' & _ & Hc') Hf].
  split; [|by exists c'].
  apply Hf; [vm_compute; reflexivity|by intros [=]|vm_compute; reflexivity].
Defined.
(** A worker that finds the tenant busy reports so, and then sends the wakes that
    the call in flight has staged, before that call is anchored. *)
Definition in_flight : Work :=
  {| work_queue := TasksWitness.q2; work_notifier := Some (stage_all TasksWitness.t1 [("moved", None)] idle) |}.
Example busy_worker_sends_early :
  sending in_flight = Some [] ∧
  (wk_category <$> default [] (sending (worker true writes_one 1234 TasksWitness.task1 in_flight).2)) = ["moved"].
Proof. by vm_compute. Qed.
End WorkerWitness.
