(* ===== verification/Passkey.v ===== *)
(** * A passkey in software: auth/authenticator.rs

    The bytes an authenticator answers with.  ECDSA, CBOR, JSON's text and
    base64 are parameters; what panics answers nothing. *)
From S2P Require Import Prelude Text Http Policy Attestation.

Definition UP : Z := 0x01.
Definition UV : Z := 0x04.
Definition AT : Z := 0x40.
(** A P-256 key in PKCS#8: whether it is one, its public point, its signatures. *)
Class Es256 := { is_pkcs8 : bytes → bool; public_point : bytes → bytes; es256_sign : bytes → bytes → bytes }.
Record SoftwareAuthenticator := { key_pkcs8 : bytes; credential_id : bytes; rp_id : string; counter : Z }.

Section authenticator.
Context `{Es256, Sha256, !Codec Value, !Base64}.
Definition restore (rp : string) (credential key : bytes) (n : Z) : result string SoftwareAuthenticator :=
  _ ← check (is_pkcs8 key) "restoring a passkey";
  Ok {| key_pkcs8 := key; credential_id := credential; rp_id := rp; counter := n |}.
Definition cose_key (a : SoftwareAuthenticator) : option bytes :=
  let point := public_point (key_pkcs8 a) in
  if decide (length point = 65%nat ∧ head point = Some Byte.x04) then
    Some (to_vec (Map [(Integer 1, Integer 2); (Integer 3, Integer (-7)); (Integer (-1), Integer 1);
      (Integer (-2), Bytes (slice 1 33 point)); (Integer (-3), Bytes (slice 33 65 point))]))
  else None.
(** With the counter that the data carries. *)
Definition authenticator_data (flags : Z) (attested : bool) (a : SoftwareAuthenticator) : option (bytes * SoftwareAuthenticator) :=
  let n := (counter a + 1) mod 2 ^ 32 in
  let a' := {| key_pkcs8 := key_pkcs8 a; credential_id := credential_id a; rp_id := rp_id a; counter := n |} in
  let data := sha256 (str_bytes (rp_id a)) ++ [Zbyte flags] ++ be_bytes 4 n in
  if attested then
    k ← cose_key a;
    Some (data ++ replicate 16 Byte.x00 ++ be_bytes 2 (len (credential_id a) mod 2 ^ 16) ++ credential_id a ++ k, a')
  else Some (data, a').
Definition quoted (s : string) : string := char_of 34 +:+ s +:+ char_of 34.
(** No character is escaped. *)
Definition client_data (kind challenge origin : string) : bytes :=
  str_bytes ("{" +:+ quoted "type" +:+ ":" +:+ quoted kind +:+ "," +:+ quoted "challenge" +:+ ":" +:+ quoted challenge +:+ "," +:+
             quoted "origin" +:+ ":" +:+ quoted origin +:+ "," +:+ quoted "crossOrigin" +:+ ":false}").
Definition sign (a : SoftwareAuthenticator) (auth_data client_data : bytes) : bytes :=
  es256_sign (key_pkcs8 a) (auth_data ++ sha256 client_data).
Definition answer (a : SoftwareAuthenticator) (response : list (string * Json)) : Json :=
  JObject [("id", JString (b64 (credential_id a))); ("rawId", JString (b64 (credential_id a))); ("type", JString "public-key");
           ("extensions", JObject []); ("response", JObject response)].
Definition register (challenge origin : string) (a : SoftwareAuthenticator) : option (Json * SoftwareAuthenticator) :=
  let client := client_data "webauthn.create" challenge origin in
  '(auth, a) ← authenticator_data (Z.lor (Z.lor UP UV) AT) true a;
  let object := to_vec (Map [(Text "fmt", Text "none"); (Text "attStmt", Map []); (Text "authData", Bytes auth)]) in
  Some (answer a [("attestationObject", JString (b64 object)); ("clientDataJSON", JString (b64 client))], a).
Definition assert_with (challenge origin : string) (flags : Z) (a : SoftwareAuthenticator) : option (Json * SoftwareAuthenticator) :=
  let client := client_data "webauthn.get" challenge origin in
  '(auth, a) ← authenticator_data flags false a;
  Some (answer a [("authenticatorData", JString (b64 auth)); ("clientDataJSON", JString (b64 client));
                  ("signature", JString (b64 (sign a auth client))); ("userHandle", JNull)], a).
Definition assert (challenge origin : string) (a : SoftwareAuthenticator) : option (Json * SoftwareAuthenticator) :=
  assert_with challenge origin (Z.lor UP UV) a.
End authenticator.
