(* ===== verification/Client.v ===== *)
(** * A client of the enclave: bin/passkey-client.rs

    What it requires of a document, one exchange over a connection, and the
    ceremony of an approved request in three exchanges.  The network is a
    script: for each connection what it presents, the nonce drawn for it, the
    time its document is checked, and what it answers to what is written.  The
    files the command line names are their contents; what [--dump-proof] keeps
    is left out. *)
From S2P Require Import Prelude Text Http Logs Policy Pinpoint Attestation Passkey.

(** ** Chunked bodies *)
Definition CRLF : bytes := [Byte.x0d; Byte.x0a].
(** [windows(n).position(..)]: the first place of [p]. *)
Fixpoint find_at (p b : bytes) : option nat :=
  match b with
  | [] => None
  | _ :: t => if decide (take (length p) b = p) then Some O else S <$> find_at p t
  end.
(** [usize::from_str_radix(_, 16)]: digits, a leading + allowed. *)
Fixpoint hex_digits (n : Z) (s : string) : option Z :=
  match s with "" => Some n | String c s => d ← hex_value c; hex_digits (n * 16 + d) s end.
Definition usize_from_hex (s : string) : option Z :=
  let digits := default s (strip_prefix "+" s) in
  if decide (digits = "") then None else n ← hex_digits 0 digits; if n <=? u64_max then Some n else None.
Definition chunk_size (header : bytes) : option Z :=
  usize_from_hex (trim (default "" (head (split_on (Ascii.ascii_of_N 59) (bytes_str (lossy header)))))).
(** A chunk and what follows it, its line's end left out. *)
Fixpoint dechunk_from (fuel : nat) (rest out : bytes) : option bytes :=
  match fuel with
  | O => None
  | S fuel =>
      e ← find_at CRLF rest;
      size ← chunk_size (take e rest);
      let rest := drop (e + 2) rest in
      if size =? 0 then Some out
      else if size + 2 <=? len rest
      then dechunk_from fuel (drop (Z.to_nat size + 2) rest) (out ++ take (Z.to_nat size) rest)
      else None
  end.
(** Every turn takes two bytes at least. *)
Definition dechunk (body : bytes) : option bytes := dechunk_from (S (length body)) body [].

(** ** What is required of a document *)
Record Cli := {
  url : string; cli_rp_id : string; origin : option string; cli_pcr0 : option string; cli_pcr16 : option string;
  cli_guest : option bytes; cli_trust_root : option bytes; cli_allow_untrusted_root : bool; cli_max_age : Z;
  cli_unsigned_emulator : bool }.
Record TrustConfig := {
  root : bytes; tc_allow_untrusted_root : bool; unsigned_emulator : bool; tc_max_age : Z;
  pcr0 : option bytes; pcr16 : option bytes; tc_guest : option bytes }.
Record ConnectionProof := { cp_certificate : bytes; cp_guest : bytes }.
Definition of_hex (s : option string) (e : string) : result string (option bytes) :=
  match s with None => Ok None | Some s => b ← ok_or (hex_decode (trim s)) e; Ok (Some b) end.
Section trust.
Context `{X509, Coset, Base64Standard, !Codec Value, Sha256, !Sha384} (AWS_NITRO_ROOT_G1_PEM : bytes).
Definition trust_from (c : Cli) : result string TrustConfig :=
  let measured := guest_pcr <$> cli_guest c in
  pinned ← of_hex (cli_pcr16 c) "--pcr16 is not hex";
  _ ← match pinned, measured with
      | Some p, Some m => check (bool_decide (m = p)) "--pcr16 and --guest name different guests"
      | _, _ => Ok tt
      end;
  let p16 := match pinned with Some p => Some p | None => measured end in
  _ ← (if cli_unsigned_emulator c then Ok tt
       else _ ← check (bool_decide (is_Some (cli_pcr0 c))) "refusing to talk to an unidentified enclave: pass --pcr0";
            check (bool_decide (is_Some p16)) "refusing to talk to an enclave whose guest is unidentified: pass --pcr16");
  p0 ← of_hex (cli_pcr0 c) "--pcr0 is not hex";
  Ok {| root := default AWS_NITRO_ROOT_G1_PEM (cli_trust_root c); tc_allow_untrusted_root := cli_allow_untrusted_root c;
        unsigned_emulator := cli_unsigned_emulator c; tc_max_age := cli_max_age c * 1000000000;
        pcr0 := p0; pcr16 := p16; tc_guest := cli_guest c |}.
Definition attestation_line (head : string) : option string :=
  l ← find (λ l, starts_with "x-enclave-attestation:" (to_ascii_lowercase l)) (str_lines head);
  '(_, v) ← split_once ":" l;
  Some (trim v).
Definition verified_by (t : TrustConfig) (now : Z) (cose : bytes) : result string Verified :=
  if unsigned_emulator t then d ← parse cose; Ok {| document := d; trust := Unsigned |}
  else verify cose {| trust_root := root t; Attestation.now := now; allow_untrusted_root := tc_allow_untrusted_root t |}.
Definition expected (t : TrustConfig) (nonce presented : bytes) : Expectations :=
  let m := match pcr0 t with Some p => <[0 := p]> ∅ | None => ∅ end in
  {| want_pcrs := match pcr16 t with Some p => <[PCR_GUEST := p]> m | None => m end;
     want_nonce := Some nonce;
     want_user_data := (λ g, serialize (hashes_new presented g)) <$> tc_guest t;
     max_age := Some (tc_max_age t) |}.
Definition connection_proof (head : string) (nonce presented : bytes) (t : TrustConfig) (now : Z) : result string ConnectionProof :=
  encoded ← ok_or (attestation_line head) "the response carried no x-enclave-attestation header";
  cose ← ok_or (base64_decode encoded) "the attestation header is not base64";
  v ← verified_by t now cose;
  u ← ok_or (user_data (document v)) "the document binds no user_data";
  hashes ← parse_hashes u;
  _ ← check (bool_decide (tls_certificate hashes = sha256 presented)) "the document binds a certificate this connection was never served";
  _ ← expect (document v) (expected t nonce presented) now;
  Ok {| cp_certificate := presented; cp_guest := guest hashes |}.
End trust.

(** ** One exchange *)
(** [presents]: the leaf, once the handshake is done. *)
Record Connection := { presents : result string (option bytes); nonce : bytes; checked_at : Z; answers : bytes → bytes }.
(** The connections to come, and what was written on each, with its leaf; the
    file that keeps the passkey. *)
Record Wire := { script : list Connection; sent : list (bytes * bytes); state : option bytes }.
Definition log_sent (x : bytes * bytes) (w : Wire) : Wire := {| script := script w; sent := sent w ++ [x]; state := state w |}.
Class ClientJson := { json_text : Json → string; json_value : string → option Json; usize_text : Z → string }.
Record Saved := { sv_credential_id : string; sv_key_pkcs8 : string; sv_counter : Z }.
Section client.
Context `{X509, Coset, Base64Standard, !Codec Value, Sha256, !Sha384, Es256, !Base64, !ClientJson, !Codec Saved}.
Context (AWS_NITRO_ROOT_G1_PEM : bytes) (server_name_ok : string → bool).
Notation op := (M Wire string).
Definition connect (c : Cli) : op Connection := λ w,
  match script w with
  | [] => (Err "connecting", w)
  | x :: xs => (Ok x, {| script := xs; sent := sent w; state := state w |})
  end.
Definition crlf : string := bytes_str CRLF.
Definition request_text (c : Cli) (method path : string) (hs : list (string * string)) (nonce : bytes) (body : string) : bytes :=
  str_bytes (method +:+ " " +:+ path +:+ " HTTP/1.1" +:+ crlf +:+ "Host: " +:+ cli_rp_id c +:+ crlf +:+ "Connection: close" +:+ crlf +:+
    "x-enclave-nonce: " +:+ b64 nonce +:+ crlf +:+ "Content-Length: " +:+ usize_text (strlen body) +:+ crlf +:+
    foldr String.append "" ((λ h, h.1 +:+ ": " +:+ h.2 +:+ crlf) <$> hs) +:+ crlf +:+ body).
(** A body counts only if it is complete. *)
Definition read_body (head : string) (rest : bytes) : result string bytes :=
  let lower := to_ascii_lowercase head in
  if contains "transfer-encoding: chunked" lower then ok_or (dechunk rest) "the response was cut off before it ended"
  else match list.head (omap (strip_prefix "content-length:") (str_lines lower)) ≫= (λ v, parse_uint u64_max (trim v)) with
       | Some n => if n <=? len rest then Ok (take (Z.to_nat n) rest) else Err "the response was cut off before it ended"
       | None => Ok rest
       end.
Definition request (c : Cli) (method path : string) (hs : list (string * string)) (body : string) (pinned : option bytes) :
    op (Z * bytes * option ConnectionProof) :=
  _ ← ensure (server_name_ok (cli_rp_id c)) "invalid server name";
  x ← connect c;
  leaf ← lift (presents x);
  presented ← unwrap leaf "the server presented no certificate";
  _ ← ensure (match pinned with Some p => bool_decide (presented = p) | None => true end)
        "this connection presents a different certificate than the one the approval was given to; the operation was not sent";
  let text := request_text c method path hs (nonce x) body in
  _ ← modify (log_sent (presented, text));
  let raw := answers x text in
  split ← unwrap (find_at (CRLF ++ CRLF) raw) "no response headers";
  let head := bytes_str (lossy (take split raw)) in
  word ← unwrap (l ← list.head (str_lines head); words l !! 1%nat) "no status line";
  status ← unwrap (parse_uint 65535 word) "invalid digit found in string";
  proof ← match pinned with
    | Some _ => mret None
    | None => t ← lift (trust_from AWS_NITRO_ROOT_G1_PEM c);
              p ← lift (connection_proof head (nonce x) presented t (checked_at x)); mret (Some p)
    end;
  body ← lift (read_body head (drop (split + 4) raw));
  mret (status, lossy body, proof).
Definition post_json (c : Cli) (path : string) (value : Json) (pinned : option bytes) : op (Json * option ConnectionProof) :=
  '(_, body, proof) ← request c "POST" path [("content-type", "application/json")] (json_text value) pinned;
  value ← unwrap (json_value (bytes_str body)) "the answer was not JSON";
  mret (value, proof).

(** ** The ceremonies *)
Definition text_at (v : Json) (path : list string) : option string := as_str (foldl index v path).
Definition challenge_path : list string := ["options"; "publicKey"; "challenge"].
Definition enrol (c : Cli) (o : string) (a : SoftwareAuthenticator) : op SoftwareAuthenticator :=
  '(options, opened) ← post_json c "/auth/register/options" (JObject []) None;
  opened_on ← unwrap opened "an unpinned exchange is always checked";
  challenge ← unwrap (text_at options challenge_path) "registration options carry no challenge";
  '(credential, a) ← unwrap (register challenge o a) "panicked";
  '(verified, _) ← post_json c "/auth/register/verify"
      (JObject [("registration_id", index options "registration_id"); ("credential", credential)]) (Some (cp_certificate opened_on));
  _ ← ensure (bool_decide (is_Some (text_at verified ["tenant_id"]))) "registration was refused";
  mret a.
(** What the challenge is asked for. *)
Definition options_of (a : SoftwareAuthenticator) (method approved : string) : Json :=
  let '(path, query) := match split_once "?" approved with Some (p, q) => (p, JString q) | None => (approved, JNull) end in
  JObject [("credential_id", JString (b64 (credential_id a))); ("method", JString method); ("path", JString path); ("query", query)].
Definition signed (c : Cli) (o : string) (a : SoftwareAuthenticator) (method path body : string) (approved_route : option string) :
    op (Z * bytes * SoftwareAuthenticator) :=
  '(options, opened) ← post_json c "/auth/request/options" (options_of a method (default path approved_route)) None;
  opened_on ← unwrap opened "an unpinned exchange is always checked";
  challenge ← unwrap (text_at options challenge_path) "challenge options carry no challenge";
  '(assertion, a) ← unwrap (assert challenge o a) "panicked";
  id ← unwrap (text_at options ["challenge_id"]) "no challenge id";
  '(granted, _) ← post_json c "/auth/request/verify"
      (JObject [("challenge_id", JString id); ("assertion", JString (b64 (str_bytes (json_text assertion))))])
      (Some (cp_certificate opened_on));
  token ← unwrap (text_at granted ["token"]) "the runtime issued no token";
  '(status, response, _) ← request c method path [("authorization", "Bearer " +:+ token)] body (Some (cp_certificate opened_on));
  mret (status, response, a).

(** ** The commands *)
Definition load (c : Cli) : op SoftwareAuthenticator :=
  w ← get;
  raw ← unwrap (state w) "run enrol first";
  s ← unwrap (from_slice raw) "parsing saved passkey";
  id ← unwrap (b64_decode (sv_credential_id s)) "credential id";
  key ← unwrap (b64_decode (sv_key_pkcs8 s)) "key";
  lift (restore (cli_rp_id c) id key (sv_counter s)).
Definition save (a : SoftwareAuthenticator) : op () :=
  modify (λ w, {| script := script w; sent := sent w;
    state := Some (to_vec {| sv_credential_id := b64 (credential_id a); sv_key_pkcs8 := b64 (key_pkcs8 a); sv_counter := counter a |}) |}).
(** [Enrol] has the passkey that was made for it. *)
Inductive Command :=
  | Enrol (made : SoftwareAuthenticator) | Get (path : string) | Post (path body : string) | Substitute (approved to_ body : string).
Definition run_signed (c : Cli) (o method path body : string) (approved : option string) : op (option (Z * bytes)) :=
  a ← load c;
  '(status, response, a) ← signed c o a method path body approved;
  _ ← save a;
  mret (Some (status, response)).
Definition run (c : Cli) (command : Command) : op (option (Z * bytes)) :=
  let o := default ("https://" +:+ cli_rp_id c) (origin c) in
  match command with
  | Enrol made => a ← enrol c o made; _ ← save a; mret None
  | Get path => run_signed c o "GET" path "" None
  | Post path body => run_signed c o "POST" path body None
  | Substitute approved to_ body => run_signed c o "POST" to_ body (Some approved)
  end.
End client.
