(* ===== verification/ClientProps.v ===== *)
(** * A client of the enclave: what it sends to whom, and which bodies it takes for whole *)
From S2P Require Import Prelude Concrete Text Http Logs Policy Pinpoint Attestation AttestationProps AttestationWitness Passkey Client.

(** ** Chunked bodies *)
Lemma find_at_spec p b e : find_at p b = Some e → take (length p) (drop e b) = p ∧ (e < length b)%nat.
Proof.
  revert e. induction b as [|x b IH]; intros e E; [done|]. cbn [find_at] in E.
  case_decide as Hd; [injection E as <-; cbn [drop]; split; [exact Hd|cbn; lia]|].
  destruct (find_at p b) as [e'|]; [|done]. injection E as <-. destruct (IH e' eq_refl). cbn. split; [done|lia].
Qed.
(** The first place of [p] stays the first, whatever follows. *)
Lemma find_at_app p b t e : p ≠ [] → find_at p b = Some e → find_at p (b ++ t) = Some e.
Proof.
  intros Hp. revert e. induction b as [|x b IH]; intros e E; [done|]. cbn [find_at app] in *.
  case_decide as Hd.
  - injection E as <-. rewrite decide_True; [done|].
    assert (length p ≤ length (x :: b))%nat as Hl by (apply (f_equal length) in Hd; rewrite length_take in Hd; lia).
    change (x :: b ++ t) with ((x :: b) ++ t). by rewrite take_app_le.
  - destruct (find_at p b) as [e'|] eqn:E'; [|done]. injection E as <-. destruct (find_at_spec _ _ _ E') as [Ht Hl].
    rewrite decide_False, (IH e' eq_refl); [reflexivity|intros Ht2]. apply Hd.
    assert (length p + e' ≤ length b)%nat as Hlen.
    { apply (f_equal length) in Ht. rewrite length_take, length_drop in Ht. lia. }
    etrans; [|exact Ht2]. change (x :: b ++ t) with ((x :: b) ++ t). rewrite take_app_le; [done|]. cbn. lia.
Qed.
(** A chunked body: chunks, each after a line that says its length and before
    the two bytes that end it, and the line that says zero. *)
Inductive chunked : bytes → bytes → Prop :=
  | chunked_last h t : find_at CRLF (h ++ CRLF) = Some (length h) → chunk_size h = Some 0 → chunked (h ++ CRLF ++ t) []
  | chunked_chunk h c x y b out : find_at CRLF (h ++ CRLF) = Some (length h) → chunk_size h = Some (len c) → c ≠ [] →
      chunked b out → chunked (h ++ CRLF ++ c ++ [x; y] ++ b) (c ++ out).
Lemma chunk_size_range h n : chunk_size h = Some n → 0 ≤ n ≤ u64_max.
Proof.
  unfold chunk_size, usize_from_hex. intros E. case_decide; [done|].
  assert (∀ s m k, 0 ≤ m → hex_digits m s = Some k → 0 ≤ k) as Hpos.
  { induction s as [|a s IH]; intros m k Hm Hk; cbn in Hk; [by simplify_eq|].
    destruct (hex_value a) as [d|] eqn:Ed; [|done]. cbn in Hk. eapply IH; [|exact Hk].
    unfold hex_value in Ed. repeat case_match; simplify_eq; lia. }
  destruct (hex_digits _ _) as [m|] eqn:Em; [|done]. cbn in E. destruct (Z.leb_spec m u64_max); [|done].
  injection E as <-. split; [by eapply (Hpos _ 0)|done].
Qed.
Lemma find_line h t : find_at CRLF (h ++ CRLF) = Some (length h) →
  find_at CRLF (h ++ CRLF ++ t) = Some (length h) ∧ take (length h) (h ++ CRLF ++ t) = h ∧ drop (length h + 2) (h ++ CRLF ++ t) = t.
Proof.
  intros E. split_and!; [rewrite app_assoc; by apply find_at_app|by rewrite take_app_length|].
  rewrite <- drop_drop, drop_app_length. done.
Qed.
Lemma find_line_inv b e : find_at CRLF b = Some e →
  b = take e b ++ CRLF ++ drop (e + 2) b ∧ length (take e b) = e ∧ find_at CRLF (take e b ++ CRLF) = Some e.
Proof.
  intros E. destruct (find_at_spec _ _ _ E) as [Ht Hl]. cbn [length CRLF] in Ht.
  assert (b = take e b ++ CRLF ++ drop (e + 2) b) as Hb.
  { rewrite <- (take_drop e b) at 1. f_equal. rewrite <- (take_drop 2 (drop e b)) at 1. rewrite drop_drop. by f_equal. }
  split; [exact Hb|]. split; [rewrite length_take; lia|].
  revert b Ht Hl Hb E. induction e as [|e IH]; intros b Ht Hl Hb E; [done|].
  destruct b as [|x b]; [done|]. cbn [find_at] in E. case_decide as Hd; [done|].
  destruct (find_at CRLF b) as [e'|] eqn:E'; [|done]. injection E as ->. cbn [take app find_at].
  assert (find_at CRLF (take e b ++ CRLF) = Some e) as Hrec.
  { apply IH; try done; cbn in Hl; [lia|]. cbn in Hb. by injection Hb. }
  rewrite decide_False; [by rewrite Hrec|]. intros Hx. apply Hd. rewrite <- Hx. cbn [length CRLF].
  destruct e as [|e]; cbn in Ht |- *; [|by destruct b].
  destruct b as [|y b]; [done|]. cbn. by injection Ht as -> _.
Qed.
Lemma dechunk_from_chunked fuel b out acc : (length b < fuel)%nat →
  dechunk_from fuel b acc = Some out ↔ ∃ o, out = acc ++ o ∧ chunked b o.
Proof.
  revert b acc out. induction fuel as [|fuel IH]; intros b acc out Hf; [lia|]. split.
  - cbn [dechunk_from]. intros E. destruct (find_at CRLF b) as [e|] eqn:Ee; [|done]. cbn [mbind option_bind] in E.
    destruct (find_line_inv _ _ Ee) as (Hb & Hlen & Hline).
    destruct (chunk_size (take e b)) as [n|] eqn:En; [|done]. cbn [mbind option_bind] in E.
    destruct (chunk_size_range _ _ En) as [Hn _]. destruct (Z.eqb_spec n 0) as [->|Hn0].
    { injection E as <-. exists []. rewrite app_nil_r. split; [done|]. rewrite Hb. apply chunked_last; [by rewrite Hlen|done]. }
    destruct (Z.leb_spec (n + 2) (len (drop (e + 2) b))) as [Hle|]; [|done]. unfold len in Hle.
    set (r := drop (e + 2) b) in *. apply IH in E as (o & -> & Hc); cycle 1.
    { apply (f_equal length) in Hb. rewrite !length_app in Hb. cbn in Hb. rewrite length_drop. lia. }
    exists (take (Z.to_nat n) r ++ o). rewrite app_assoc. split; [done|].
    destruct (drop (Z.to_nat n) r) as [|x [|y t]] eqn:Et; [apply (f_equal length) in Et; rewrite length_drop in Et; cbn in Et; lia..|].
    assert (r = take (Z.to_nat n) r ++ [x; y] ++ drop (Z.to_nat n + 2) r) as Hr.
    { rewrite <- (take_drop (Z.to_nat n) r) at 1. f_equal. rewrite Et. cbn. rewrite <- drop_drop, Et. done. }
    rewrite Hb, Hr at 1. apply chunked_chunk; [by rewrite Hlen| |by intros Hz; apply (f_equal length) in Hz; rewrite length_take in Hz; cbn in Hz; lia|done].
    rewrite En. f_equal. unfold len. rewrite length_take. lia.
  - intros (o & -> & Hc). destruct Hc as [h t Hh Hs|h c x y b out Hh Hs Hne Hc]; cbn [dechunk_from].
    + destruct (find_line h t Hh) as (-> & Ht & _). cbn [mbind option_bind]. rewrite Ht, Hs. cbn. by rewrite app_nil_r.
    + destruct (find_line h (c ++ [x; y] ++ b) Hh) as (-> & Ht & Hd). cbn [mbind option_bind]. rewrite Ht, Hs, Hd. cbn [mbind option_bind].
      assert (0 < length c)%nat by (destruct c; [done|cbn; lia]).
      destruct (Z.eqb_spec (len c) 0) as [Hz|_]; [unfold len in Hz; lia|].
      rewrite (proj2 (Z.leb_le _ _)); [|unfold len; rewrite !length_app; cbn; lia].
      unfold len. rewrite Nat2Z.id, take_app_length, <- drop_drop, drop_app_length. cbn [drop app].
      rewrite app_assoc. apply IH; [|by exists out].
      clear -Hf. rewrite !length_app in Hf. cbn [length] in Hf. rewrite drop_0. lia.
Qed.
(** The client takes a body for [out] exactly if it is chunks that make [out] and
    their end. *)
Lemma dechunk_chunked b out : dechunk b = Some out ↔ chunked b out.
Proof.
  unfold dechunk. rewrite dechunk_from_chunked by lia. split; [by intros (o & -> & Hc)|by exists out].
Qed.
Lemma chunked_prefix b out : chunked b out → ∀ p o, p `prefix_of` b → chunked p o → o = out.
Proof.
  induction 1 as [h t Hh Hs|h c x y b out Hh Hs Hne Hc IH]; intros p o Hp Hq.
  - destruct (find_line h t Hh) as (Hf & Ht & _). destruct Hq as [h' t' Hh' Hs'|h' c' x' y' b' o' Hh' Hs' Hne' _]; [done|].
    exfalso. destruct Hp as [k Hk]. destruct (find_line h' (c' ++ [x'; y'] ++ b') Hh') as (Hf' & Ht' & _).
    pose proof (find_at_app CRLF _ k (length h') ltac:(done) Hf') as Hf2. rewrite <- Hk in Hf2. rewrite Hf in Hf2. injection Hf2 as Hl.
    assert (h = h') as ->. { rewrite <- Ht, Hk, take_app_le; [by rewrite Hl|]. rewrite length_app. lia. }
    rewrite Hs in Hs'. injection Hs' as Hs'. destruct c'; [done|]. unfold len in Hs'. cbn in Hs'. lia.
  - destruct (find_line h (c ++ [x; y] ++ b) Hh) as (Hf & Ht & Hd). destruct Hp as [k Hk].
    assert (∀ h' r, find_at CRLF (h' ++ CRLF) = Some (length h') → p = h' ++ CRLF ++ r → h' = h ∧ c ++ [x; y] ++ b = r ++ k) as Hhead.
    { intros h' r Hh' ->. destruct (find_line h' r Hh') as (Hf' & Ht' & _).
      pose proof (find_at_app CRLF _ k (length h') ltac:(done) Hf') as Hf2. rewrite <- Hk in Hf2. rewrite Hf in Hf2. injection Hf2 as Hl.
      assert (h = h') as ->. { rewrite <- Ht, Hk, take_app_le; [by rewrite Hl|]. rewrite length_app. lia. }
      split; [done|]. rewrite <- !app_assoc in Hk. by apply app_inv_head, app_inv_head in Hk. }
    destruct Hq as [h' t' Hh' Hs'|h' c' x' y' b' o' Hh' Hs' Hne' Hq].
    + destruct (Hhead h' t' Hh' eq_refl) as [-> _]. rewrite Hs in Hs'. injection Hs' as Hs'. destruct c; [done|]. unfold len in Hs'. cbn in Hs'. lia.
    + destruct (Hhead h' (c' ++ [x'; y'] ++ b') Hh' eq_refl) as [-> Hr]. rewrite Hs in Hs'. injection Hs' as Hs'. unfold len in Hs'.
      rewrite <- app_assoc in Hr. apply app_inj_1 in Hr as [-> Hr]; [|lia]. cbn in Hr. injection Hr as -> -> Hr. f_equal.
      apply (IH b' o'); [by exists k|done].
Qed.
(** C33: a body cut off part-way is not a short body.  A client that takes a body
    for whole takes it for what it says, and takes no beginning of it for
    anything else: whatever of a chunked body arrives before the connection is
    cut is refused, or is the whole of its content. *)
Theorem cut_body_refused b out p o : dechunk b = Some out → p `prefix_of` b → dechunk p = Some o → o = out.
Proof. rewrite !dechunk_chunked. intros Hb Hp Ho. exact (chunked_prefix b out Hb p o Hp Ho). Qed.

(** ** To whom the approval goes *)
Section client.
Context `{X509, Coset, Base64Standard, !Codec Value, Sha256, !Sha384, Es256, !Base64, !ClientJson, !Codec Saved}.
Context (AWS_NITRO_ROOT_G1_PEM : bytes) (server_name_ok : string → bool).
Notation trust_from := (trust_from AWS_NITRO_ROOT_G1_PEM).
Notation request := (request AWS_NITRO_ROOT_G1_PEM server_name_ok).
Notation post_json := (post_json AWS_NITRO_ROOT_G1_PEM server_name_ok).
Notation run := (run AWS_NITRO_ROOT_G1_PEM server_name_ok).
(** A document that vouches, at a time, for the party that shows [leaf] and was
    asked with [n], as the command line requires. *)
Record vouches (c : Cli) (d : AttestationDocument) (n leaf : bytes) (now : Z) : Prop := {
  v_signed : cli_unsigned_emulator c = false → ∃ cose tr,
    verify cose {| trust_root := default AWS_NITRO_ROOT_G1_PEM (cli_trust_root c); Attestation.now := now;
                   allow_untrusted_root := cli_allow_untrusted_root c |} = Ok {| document := d; trust := tr |};
  v_identified : cli_unsigned_emulator c = false → ∃ p0 p16,
    (cli_pcr0 c ≫= λ s, hex_decode (trim s)) = Some p0 ∧ pcr 0 d = Some p0 ∧ pcr PCR_GUEST d = Some p16 ∧
    (∀ s, cli_pcr16 c = Some s → hex_decode (trim s) = Some p16);
  v_guest : ∀ g, cli_guest c = Some g → pcr PCR_GUEST d = Some (guest_pcr g) ∧ user_data d = Some (serialize (hashes_new leaf g));
  v_nonce : Attestation.nonce d = Some n;
  v_leaf : ∃ g, user_data d = Some (serialize {| tls_certificate := sha256 leaf; guest := g |});
  v_age : Z.abs (now - timestamp d) ≤ cli_max_age c * 1000000000 }.
Lemma of_hex_Ok s e o : of_hex s e = Ok o → (s ≫= λ s, hex_decode (trim s)) = o ∧ (is_Some s → is_Some o).
Proof.
  unfold of_hex. destruct s as [s|]; [|by intros [= <-]; split; [|by intros [? [=]]]].
  intros E. apply bind_Ok in E as (b & Eb%ok_or_Ok & [= <-]). split; [done|by eexists].
Qed.
Lemma trust_from_Ok c t : trust_from c = Ok t →
  root t = default AWS_NITRO_ROOT_G1_PEM (cli_trust_root c) ∧ tc_allow_untrusted_root t = cli_allow_untrusted_root c ∧
  unsigned_emulator t = cli_unsigned_emulator c ∧ tc_max_age t = cli_max_age c * 1000000000 ∧ tc_guest t = cli_guest c ∧
  pcr0 t = (cli_pcr0 c ≫= λ s, hex_decode (trim s)) ∧ (∀ g, cli_guest c = Some g → pcr16 t = Some (guest_pcr g)) ∧
  (∀ s, cli_pcr16 c = Some s → is_Some (pcr16 t) ∧ hex_decode (trim s) = pcr16 t) ∧
  (cli_unsigned_emulator c = false → is_Some (pcr0 t) ∧ is_Some (pcr16 t)).
Proof.
  unfold Client.trust_from. intros E. apply bind_Ok in E as (pinned & Ep & E). apply of_hex_Ok in Ep as [Ep Eps].
  apply bind_Ok in E as (u & Eu & E). apply bind_Ok in E as (u2 & Eu2 & E). apply bind_Ok in E as (p0 & E0 & [= <-]).
  apply of_hex_Ok in E0 as [E0 E0s]. cbn [root tc_allow_untrusted_root unsigned_emulator tc_max_age tc_guest pcr0 pcr16]. split_and!; try done.
  - intros g Hg. rewrite Hg in Eu. cbn in Eu. destruct pinned as [p|]; cbn; [|by rewrite Hg]. apply check_Ok, bool_decide_eq_true in Eu. by rewrite Eu.
  - intros s Hs. rewrite Hs in Ep, Eps. destruct (Eps (ex_intro _ _ eq_refl)) as [p ->]. split; [by eexists|done].
  - intros Hu. rewrite Hu in Eu2. apply bind_Ok in Eu2 as (u3 & E3%check_Ok & E4%check_Ok). apply bool_decide_eq_true in E3, E4. split; [by apply E0s|done].
Qed.
Lemma proof_vouches c t head n leaf now p : trust_from c = Ok t → connection_proof head n leaf t now = Ok p →
  cp_certificate p = leaf ∧ ∃ d, vouches c d n leaf now.
Proof.
  intros (Tr & Ta & Tu & Tm & Tg & T0 & Tmg & T16 & Tid)%trust_from_Ok. unfold connection_proof. intros E.
  apply bind_Ok in E as (encoded & _ & E). apply bind_Ok in E as (cose & _ & E). apply bind_Ok in E as (v & Ev & E).
  apply bind_Ok in E as (u & Eu%ok_or_Ok & E). apply bind_Ok in E as (h & Eh & E). apply bind_Ok in E as (x & Ex%check_Ok & E).
  apply bind_Ok in E as ([] & (Hp & Hn & Hu & Ha)%expect_Ok & [= <-]). split; [done|]. exists (document v).
  apply bool_decide_eq_true in Ex. apply hashes_roundtrip in Eh as (-> & _ & _).
  assert (∀ p, pcr16 t = Some p → pcr PCR_GUEST (document v) = Some p) as H16.
  { intros p Hp16. apply Hp. unfold expected. cbn [want_pcrs]. rewrite Hp16. apply lookup_insert_eq. }
  assert (∀ p, pcr0 t = Some p → pcr 0 (document v) = Some p) as H00.
  { intros p Hp0. apply Hp. unfold expected. cbn [want_pcrs]. rewrite Hp0.
    destruct (pcr16 t); [rewrite lookup_insert_ne by done|]; apply lookup_insert_eq. }
  split.
  - intros Hs. unfold verified_by in Ev. rewrite Tu, Hs, Tr, Ta in Ev. destruct v as [d tr]. by exists cose, tr.
  - intros Hs. destruct (Tid Hs) as [[p0 Hp0] [p16 Hp16]]. exists p0, p16. rewrite <- T0. split_and!; [done|by apply H00|by apply H16|].
    intros s Hs16. rewrite <- Hp16. by apply T16.
  - intros g Hg. split; [by apply H16, Tmg|]. apply Hu. unfold expected. cbn [want_user_data]. by rewrite Tg, Hg.
  - by apply Hn.
  - exists (guest h). rewrite Eu, <- Ex. by destruct h.
  - rewrite <- Tm. by apply Ha.
Qed.
(** One exchange: what it wrote, to whom, and what an answer that is accepted
    has shown. *)
Definition shown (c : Cli) (pinned : option bytes) (leaf n : bytes) (pr : option ConnectionProof) : Prop :=
  match pinned with
  | Some p => leaf = p ∧ pr = None
  | None => ∃ p d now, pr = Some p ∧ cp_certificate p = leaf ∧ vouches c d n leaf now
  end.
Lemma request_inv c method path hs body pinned w r w' : request c method path hs body pinned w = (r, w') →
  (sent w' = sent w ∧ is_ok r = false) ∨
  ∃ leaf n, sent w' = sent w ++ [(leaf, request_text c method path hs n body)] ∧ (∀ p, pinned = Some p → leaf = p) ∧
    ∀ st b pr, r = Ok (st, b, pr) → shown c pinned leaf n pr.
Proof.
  unfold Client.request. intros E.
  apply mbind_inv in E as [(u & w1 & E1 & E)|(e & E1 & ->)]; apply ensure_inv in E1 as [-> _]; [|by left].
  apply mbind_inv in E as [(x & w2 & E2 & E)|(e & E2 & ->)]; unfold connect in E2; destruct (script w) as [|y ys]; try done;
    [|injection E2 as <- <-; by left]. injection E2 as <- <-.
  apply mbind_inv in E as [(l & w3 & E3 & E)|(e & E3 & ->)]; apply lift_inv in E3 as [_ ->]; [|by left].
  apply mbind_inv in E as [(leaf & w4 & E4 & E)|(e & E4 & ->)]; apply unwrap_inv in E4 as [-> _]; [|by left].
  apply mbind_inv in E as [(u5 & w5 & E5 & E)|(e & E5 & ->)]; apply ensure_inv in E5 as [-> E5]; [|by left]. cbv zeta in E.
  assert (∀ p, pinned = Some p → leaf = p) as Hpin.
  { intros p ->. symmetry in E5. apply check_Ok in E5. by apply bool_decide_eq_true in E5. }
  apply mbind_inv in E as [(u6 & w6 & E6 & E)|(e & [=] & _)]. injection E6 as _ <-. right. exists leaf, (nonce y).
  assert (sent w' = sent w ++ [(leaf, request_text c method path hs (nonce y) body)] ∧
    ∀ st b pr, r = Ok (st, b, pr) → shown c pinned leaf (nonce y) pr) as [Hs Hr]; [|done].
  apply mbind_inv in E as [(k & w7 & E7 & E)|(e & E7 & ->)]; apply unwrap_inv in E7 as [-> _]; [|done].
  apply mbind_inv in E as [(wd & w8 & E8 & E)|(e & E8 & ->)]; apply unwrap_inv in E8 as [-> _]; [|done].
  apply mbind_inv in E as [(st & w9 & E9 & E)|(e & E9 & ->)]; apply unwrap_inv in E9 as [-> _]; [|done].
  apply mbind_inv in E as [(pr & w10 & E10 & E)|(e & E10 & ->)]; destruct pinned as [p|].
  - injection E10 as <- <-. apply mbind_inv in E as [(b & w11 & E11 & E)|(e & E11 & ->)]; apply lift_inv in E11 as [_ ->]; [|done].
    injection E as <- <-. split; [done|]. intros ??? [= <- <- <-]. split; [by apply Hpin|done].
  - apply mbind_inv in E10 as [(t & w12 & E12 & E13)|(e & _ & [=])]. apply lift_inv in E12 as [Et ->].
    apply mbind_inv in E13 as [(p & w13 & E13 & E14)|(e & _ & [=])]. apply lift_inv in E13 as [Ep ->]. injection E14 as <- <-.
    apply mbind_inv in E as [(b & w11 & E11 & E)|(e & E11 & ->)]; apply lift_inv in E11 as [_ ->]; [|done].
    injection E as <- <-. split; [done|]. intros ??? [= <- <- <-].
    destruct (proof_vouches _ _ _ _ _ _ _ Et Ep) as (Hc & d & Hv). by exists p, d, (checked_at y).
  - done.
  - apply mbind_inv in E10 as [(t & w12 & E12 & E13)|(e' & E12 & _)]; apply lift_inv in E12 as [_ ->]; [|done].
    apply mbind_inv in E13 as [(p & w13 & E13 & E14)|(e' & E13 & _)]; apply lift_inv in E13 as [_ ->]; [|done]. done.
Qed.
Lemma post_json_inv c path v pinned w r w' : post_json c path v pinned w = (r, w') →
  (sent w' = sent w ∧ is_ok r = false) ∨
  ∃ leaf n, sent w' = sent w ++ [(leaf, request_text c "POST" path [("content-type", "application/json")] n (json_text v))] ∧
    (∀ p, pinned = Some p → leaf = p) ∧ ∀ j pr, r = Ok (j, pr) → shown c pinned leaf n pr.
Proof.
  unfold Client.post_json. intros E.
  apply mbind_inv in E as [([[st b] pr] & w1 & E1 & E)|(e & E1 & ->)];
    apply request_inv in E1 as [[Hs Ho]|(leaf & n & Hs & Hp & Hr)]; try done; [|by left|by right; exists leaf, n].
  right. exists leaf, n. apply mbind_inv in E as [(j & w2 & E2 & E)|(e & E2 & ->)]; apply unwrap_inv in E2 as [-> _]; [|done].
  injection E as <- <-. split_and!; [done..|]. intros ? ? [= <- <-]. by eapply Hr.
Qed.
(** The first message of a command, under a nonce. *)
Definition opening (c : Cli) (command : Command) (n m : bytes) : Prop :=
  ∃ path v, m = request_text c "POST" path [("content-type", "application/json")] n (json_text v) ∧
  match command with
  | Enrol _ => v = JObject []
  | Get p => ∃ a, v = options_of a "GET" p
  | Post p _ => ∃ a, v = options_of a "POST" p
  | Substitute approved _ _ => ∃ a, v = options_of a "POST" approved
  end.
(** What was written before a later part of a ceremony: nothing to go on, or an
    opening for which a document vouched. *)
Inductive exchanged (c : Cli) (command : Command) (ok : bool) : list (bytes * bytes) → Prop :=
  | nothing : ok = false → exchanged c command ok []
  | opened leaf n m : opening c command n m → ok = false → exchanged c command ok [(leaf, m)]
  | approved leaf n m d now later : opening c command n m → vouches c d n leaf now → Forall (λ x, x.1 = leaf) later →
      exchanged c command ok ((leaf, m) :: later).
Lemma enrol_inv c o a made w r w' : enrol AWS_NITRO_ROOT_G1_PEM server_name_ok c o a w = (r, w') →
  ∃ new, sent w' = sent w ++ new ∧ exchanged c (Enrol made) (is_ok r) new.
Proof.
  unfold enrol. intros E.
  apply mbind_inv in E as [([j pr] & w1 & E1 & E)|(e & E1 & ->)];
    apply post_json_inv in E1 as [[Hs Ho]|(leaf & n & Hs & _ & Hr)]; try done.
  2: { exists []. rewrite app_nil_r. split; [done|by constructor]. }
  2: { eexists. split; [exact Hs|]. eapply opened; [by do 2 eexists|done]. }
  destruct (Hr _ _ eq_refl) as (p & d & now & -> & Hleaf & Hv).
  assert (∀ later s, Forall (λ x, x.1 = leaf) later → sent s = sent w1 ++ later → ∃ new, sent s = sent w ++ new ∧ exchanged c (Enrol made) (is_ok r) new) as Hlater.
  { intros later s Hl Es. eexists. rewrite Es, Hs, <- app_assoc. split; [done|]. eapply approved; [by do 2 eexists|exact Hv|exact Hl]. }
  apply mbind_inv in E as [(p' & w2 & E2 & E)|(e & E2 & ->)]; apply unwrap_inv in E2 as [-> E2]; [injection E2 as ->|done].
  apply mbind_inv in E as [(ch & w3 & E3 & E)|(e & E3 & ->)]; apply unwrap_inv in E3 as [-> _]; [|by apply (Hlater []); [|rewrite app_nil_r]].
  apply mbind_inv in E as [([cr a'] & w4 & E4 & E)|(e & E4 & ->)]; apply unwrap_inv in E4 as [-> _]; [|by apply (Hlater []); [|rewrite app_nil_r]].
  assert (∀ q r', post_json c "/auth/register/verify" q (Some (cp_certificate p)) w1 = (r', w') →
    ∃ new, sent w' = sent w ++ new ∧ exchanged c (Enrol made) (is_ok r) new) as Hlast.
  { intros q r' [[Hs5 _]|(leaf5 & n5 & Hs5 & Hp5 & _)]%post_json_inv; [by apply (Hlater []); [|rewrite app_nil_r]|].
    eapply Hlater; [|exact Hs5]. repeat constructor. cbn. rewrite <- Hleaf. by apply Hp5. }
  apply mbind_inv in E as [([v pr5] & w5 & E5 & E)|(e & E5 & ->)]; [|by eapply Hlast].
  apply mbind_inv in E as [(u & w6 & E6 & E)|(e & E6 & ->)]; apply ensure_inv in E6 as [-> _]; [|by eapply Hlast].
  injection E as _ <-. by eapply Hlast.
Qed.
Lemma signed_inv c command o a method path body approved_route w r w' :
  (∀ n, opening c command n (request_text c "POST" "/auth/request/options" [("content-type", "application/json")] n
     (json_text (options_of a method (default path approved_route))))) →
  signed AWS_NITRO_ROOT_G1_PEM server_name_ok c o a method path body approved_route w = (r, w') →
  ∃ new, sent w' = sent w ++ new ∧ exchanged c command (is_ok r) new.
Proof.
  intros Hopen. unfold signed. intros E.
  apply mbind_inv in E as [([j pr] & w1 & E1 & E)|(e & E1 & ->)];
    apply post_json_inv in E1 as [[Hs Ho]|(leaf & n & Hs & _ & Hr)]; try done.
  2: { exists []. rewrite app_nil_r. split; [done|by constructor]. }
  2: { eexists. split; [exact Hs|]. by eapply opened. }
  destruct (Hr _ _ eq_refl) as (p & d & now & -> & Hleaf & Hv).
  assert (∀ later s, Forall (λ x, x.1 = leaf) later → sent s = sent w1 ++ later → ∃ new, sent s = sent w ++ new ∧ exchanged c command (is_ok r) new) as Hlater.
  { intros later s Hl Es. eexists. rewrite Es, Hs, <- app_assoc. split; [done|]. by eapply approved. }
  assert (∃ new, sent w1 = sent w ++ new ∧ exchanged c command (is_ok r) new) as Hone by (apply (Hlater []); [constructor|by rewrite app_nil_r]).
  apply mbind_inv in E as [(p' & w2 & E2 & E)|(e & E2 & ->)]; apply unwrap_inv in E2 as [-> E2]; [injection E2 as ->|done].
  apply mbind_inv in E as [(ch & w3 & E3 & E)|(e & E3 & ->)]; apply unwrap_inv in E3 as [-> _]; [|exact Hone].
  apply mbind_inv in E as [([cr a'] & w4 & E4 & E)|(e & E4 & ->)]; apply unwrap_inv in E4 as [-> _]; [|exact Hone].
  apply mbind_inv in E as [(id & w5 & E5 & E)|(e & E5 & ->)]; apply unwrap_inv in E5 as [-> _]; [|exact Hone].
  apply mbind_inv in E as [([g pr6] & w6 & E6 & E)|(e & E6 & ->)];
    apply post_json_inv in E6 as [[Hs6 Ho]|(leaf6 & n6 & Hs6 & Hp6 & _)]; try done.
  2: { apply (Hlater []); [constructor|by rewrite app_nil_r]. }
  2: { eapply Hlater; [|exact Hs6]. repeat constructor. cbn. rewrite <- Hleaf. by apply Hp6. }
  assert (leaf6 = leaf) as -> by (rewrite <- Hleaf; by apply Hp6).
  apply mbind_inv in E as [(tk & w7 & E7 & E)|(e & E7 & ->)]; apply unwrap_inv in E7 as [-> _]; [|by eapply Hlater; [|exact Hs6]; repeat constructor].
  apply mbind_inv in E as [([[st b] pr8] & w8 & E8 & E)|(e & E8 & ->)];
    apply request_inv in E8 as [[Hs8 Ho]|(leaf8 & n8 & Hs8 & Hp8 & _)]; try done.
  - injection E as _ <-. rewrite Hs6, <- app_assoc in Hs8. eapply Hlater; [|exact Hs8]. repeat constructor. cbn. rewrite <- Hleaf. by apply Hp8.
  - rewrite Hs6 in Hs8. eapply Hlater; [|exact Hs8]. by repeat constructor.
  - rewrite Hs6, <- app_assoc in Hs8. eapply Hlater; [|exact Hs8]. repeat constructor. cbn. rewrite <- Hleaf. by apply Hp8.
Qed.
Lemma load_sent c w r w' : load c w = (r, w') → w' = w.
Proof.
  unfold load. intros E. apply mbind_inv in E as [(x & w1 & [= <- <-] & E)|(e & [=] & _)].
  repeat (apply mbind_inv in E as [(? & ? & E0 & E)|(? & E0 & ->)]; apply unwrap_inv in E0 as [-> _]; [|done]).
  by apply lift_inv in E as [_ ->].
Qed.
(** C4: an approval goes only to the enclave that was identified.  Whatever
    connections the network offers and whatever they answer, the first message of
    a command is its opening, which carries neither assertion nor token; every
    later one went to a party that showed, before it was sent, the very
    certificate of the first; and there is a later one, or a result, only if a
    document vouched for that certificate: signed under the trust root, for the
    opening's own nonce, of the age asked for, and with the registers that were
    pinned, without which no document vouches unless the emulator was named. *)
Theorem approval_goes_to_the_identified c command w r w' : run c command w = (r, w') →
  ∃ new, sent w' = sent w ++ new ∧ exchanged c command (is_ok r) new.
Proof.
  assert (∀ o method path body approved_route, (∀ a n, opening c command n (request_text c "POST" "/auth/request/options"
      [("content-type", "application/json")] n (json_text (options_of a method (default path approved_route))))) →
    run_signed AWS_NITRO_ROOT_G1_PEM server_name_ok c o method path body approved_route w = (r, w') →
    ∃ new, sent w' = sent w ++ new ∧ exchanged c command (is_ok r) new) as Hsigned.
  { intros o method path body ar Hopen E. unfold run_signed in E.
    apply mbind_inv in E as [(a & w1 & E1 & E)|(e & E1 & ->)]; apply load_sent in E1 as ->.
    2: { exists []. rewrite app_nil_r. split; [done|by constructor]. }
    apply mbind_inv in E as [([[st b] a'] & w2 & E2 & E)|(e & E2 & ->)];
      apply signed_inv with (command := command) in E2 as (new & Hs & Hx); try apply Hopen; [|by exists new].
    apply mbind_inv in E as [(u & w3 & E3 & E)|(e & [=] & _)]. injection E3 as _ <-. injection E as <- <-. by exists new. }
  unfold Client.run. cbv zeta. intros E. destruct command as [made|p|p b|ap to_ b].
  - apply mbind_inv in E as [(a & w2 & E2 & E)|(e & E2 & ->)]; apply enrol_inv with (made := made) in E2 as (new & Hs & Hx); [|by exists new].
    apply mbind_inv in E as [(u & w3 & E3 & E)|(e & [=] & _)]. injection E3 as _ <-. injection E as <- <-. by exists new.
  - eapply Hsigned; [|exact E]. intros a n. do 2 eexists. split; [done|by exists a].
  - eapply Hsigned; [|exact E]. intros a n. do 2 eexists. split; [done|by exists a].
  - eapply Hsigned; [|exact E]. intros a n. do 2 eexists. split; [done|by exists a].
Qed.
End client.

(** ** A client and an impostor *)
Module ClientWitness.
#[local] Existing Instances AttestationWitness.value_codec AttestationWitness.x509 AttestationWitness.coset Concrete.sha.
#[local] Instance sha384_ : Sha384 := λ b, take 48 b.
#[local] Instance es256 : Es256 := {| is_pkcs8 _ := true; public_point k := k; es256_sign k m := k |}.
#[local] Instance b64url : Base64 := {| b64 := hex_encode; b64_decode := hex_decode |}.
Definition leaf1 : bytes := replicate 32 Byte.x05.
Definition nonce1 : bytes := replicate 20 Byte.x09.
Definition doc1 : AttestationDocument :=
  {| module_id := "i-1"; timestamp_ms := 1000; digest := "SHA384"; pcrs := {[ 0 := [Byte.x2a]; 16 := [Byte.x2b] ]};
     certificate := [Byte.x03]; cabundle := [[Byte.x01]; [Byte.x02]]; public_key := None;
     user_data := Some (serialize {| tls_certificate := sha256 leaf1; guest := replicate 32 Byte.x06 |}); Attestation.nonce := Some nonce1 |}.
(** The document in one letter, and the two answers of the runtime. *)
#[local] Instance b64std : Base64Standard := λ s, if decide (s = "D") then Some (Byte.xd2 :: encode_payload doc1) else None.
#[local] Instance json : ClientJson := {|
  json_text _ := "j";
  json_value s :=
    if decide (s = "O") then Some (JObject [("challenge_id", JString "c");
      ("options", JObject [("publicKey", JObject [("challenge", JString "x")])])])
    else if decide (s = "G") then Some (JObject [("token", JString "t")]) else None;
  usize_text n := pretty n |}.
#[local] Instance saved_codec : Codec Saved := {|
  to_vec s := replicate (Z.to_nat (sv_counter s)) Byte.x00;
  from_slice b := Some {| sv_credential_id := "0a"; sv_key_pkcs8 := "0b"; sv_counter := len b |} |}.
Definition cli1 : Cli :=
  {| url := "https://enclave.test"; cli_rp_id := "enclave.test"; origin := None; cli_pcr0 := Some "2a"; cli_pcr16 := Some "2b";
     cli_guest := None; cli_trust_root := None; cli_allow_untrusted_root := false; cli_max_age := 300; cli_unsigned_emulator := false |}.
Definition answer (hs body : string) : bytes := str_bytes ("HTTP/1.1 200 OK" +:+ crlf +:+ hs +:+ crlf +:+ crlf +:+ body).
Definition meets (leaf : bytes) (reply : bytes) : Connection :=
  {| presents := Ok (Some leaf); Client.nonce := nonce1; checked_at := 50 * 1000000000; answers _ := reply |}.
Definition network : Wire :=
  {| script := [meets leaf1 (answer "X-Enclave-Attestation: D" "O"); meets leaf1 (answer "content-length: 1" "G");
                meets (replicate 32 Byte.x04) (answer "content-length: 1" "!")];
     sent := []; state := Some [] |}.
(** The third connection is someone else's: the token stays. *)
Abbreviation attempt1 := (run [Byte.x01] (λ _, true) cli1 (Get "/counter") network).
Lemma approval_goes_to_the_identified_witness :
  (sent attempt1.2).*1 = [leaf1; leaf1] ∧ ∃ d n now, vouches [Byte.x01] cli1 d n leaf1 now ∧ pcr 0 d = Some [Byte.x2a].
Proof.
  destruct (approval_goes_to_the_identified [Byte.x01] (λ _, true) cli1 (Get "/counter") network attempt1.1 attempt1.2 (surjective_pairing _))
    as (new & Hs & Hx).
  assert ((sent attempt1.2).*1 = [leaf1; leaf1]) as Hl by (vm_compute; reflexivity).
  split; [exact Hl|]. rewrite Hs in Hl. destruct Hx as [_|leaf n m _ _|leaf n m d now later _ Hv _]; [done..|].
  injection Hl as -> _. exists d, n, now. split; [exact Hv|].
  destruct (v_identified _ _ _ _ _ _ Hv eq_refl) as (p0 & p16 & Hp & Hd & _). by injection Hp as <-.
Defined.
(** The assertion was made and sent, and its count is not written down: the next
    command's assertion has the same. *)
Example counter_not_saved : length (sent attempt1.2) = 2%nat ∧ state attempt1.2 = state network.
Proof. by vm_compute. Qed.
Definition body1 : bytes := str_bytes ("2;x" +:+ crlf +:+ "ab" +:+ crlf +:+ "0" +:+ crlf +:+ crlf).
Example cut_off : dechunk (take 9 body1) = None ∧ dechunk (take 10 body1) = None.
Proof. by vm_compute. Qed.
Lemma cut_body_refused_witness : dechunk (take 12 body1) = Some (str_bytes "ab").
Proof.
  destruct (dechunk (take 12 body1)) as [o|] eqn:E; [|by vm_compute in E]. f_equal.
  apply (cut_body_refused body1 (str_bytes "ab") (take 12 body1) o); [by vm_compute|by exists (drop 12 body1); rewrite take_drop|exact E].
Defined.
End ClientWitness.
