(* ===== verification/Verifier.v ===== *)
(** * The verifier's tool: crates/nitro-attestation/src/bin/nitro-attest.rs

    What it fetches or reads, how it takes an answer apart, and what it requires
    of the document before it says OK.  The network is what one connection
    presents and answers; the files named are their contents; what is printed
    is left out. *)
From S2P Require Import Prelude Text Http Logs Policy Pinpoint Egress Attestation Passkey Client.

Definition NONCE_HEADER : string := "x-enclave-nonce".
Definition ATTESTATION_HEADER : string := "x-enclave-attestation".
Record Options := {
  opt_url : option string; opt_document : option bytes; opt_peer_certificate : option bytes; opt_nonce : option string;
  opt_pcr0 : option string; opt_pcr16 : option string; opt_guest : option bytes; opt_measure : option bytes;
  opt_trust_root : option bytes; opt_allow_untrusted_root : bool; opt_unsigned_emulator : bool; opt_max_age : Z }.
Definition given {A} (o : option A) : bool := match o with Some _ => true | None => false end.
(** What the command line lets through. *)
Definition accepted (o : Options) : bool :=
  negb (given (opt_url o) && given (opt_document o)) &&
  (negb (given (opt_peer_certificate o)) || given (opt_document o)) && (negb (given (opt_nonce o)) || given (opt_document o)) &&
  (given (opt_pcr0 o) || given (opt_measure o) || opt_unsigned_emulator o) &&
  (given (opt_pcr16 o) || given (opt_measure o) || given (opt_guest o) || opt_unsigned_emulator o) &&
  negb (given (opt_measure o) && (given (opt_url o) || given (opt_document o))).

(** ** An answer *)
(** [from_utf8]. *)
Definition utf8_size (header : bytes) : option Z :=
  if valid_utf8 (bytes_str header)
  then usize_from_hex (trim (default "" (head (split_on (Ascii.ascii_of_N 59) (bytes_str header))))) else None.
Fixpoint unchunk_from (fuel : nat) (rest out : bytes) : result string bytes :=
  match fuel with
  | O => Err "out of fuel"
  | S fuel =>
      e ← ok_or (find_at CRLF rest) "chunked body ended without a chunk header";
      size ← ok_or (utf8_size (take e rest)) "chunk size is not hex";
      let rest := drop (e + 2) rest in
      if size =? 0 then Ok out
      else
        _ ← check (size <=? len rest) "chunked body is truncated";
        unchunk_from fuel (drop (Z.to_nat size + 2) rest) (out ++ take (Z.to_nat size) rest)
  end.
Definition unchunk (body : bytes) : result string bytes := unchunk_from (S (length body)) body [].
Definition split_url (url : string) : result string (string * Z * string) :=
  rest ← ok_or (strip_prefix "https://" url) "--url must start with https://";
  let '(authority, path) := match split_once "/" rest with Some (a, p) => (a, "/" +:+ p) | None => (rest, "/auth/") end in
  match rsplit_once (Ascii.ascii_of_N 58) authority with
  | Some (h, p) => n ← ok_or (parse_uint 65535 p) "invalid port"; Ok (h, n, path)
  | None => Ok (authority, 443, path)
  end.
Definition split_response (response : bytes) : result string (Z * string * bytes) :=
  split ← ok_or (find_at (CRLF ++ CRLF) response) "response has no header terminator";
  let head := bytes_str (lossy (take split response)) in
  status ← ok_or (l ← list.head (str_lines head); w ← words l !! 1%nat; parse_uint 65535 w) "response has no status code";
  let body := drop (split + 4) response in
  body ← (if contains "transfer-encoding: chunked" (to_ascii_lowercase head) then unchunk body else Ok body);
  Ok (status, head, body).
Definition base64_char (c : Ascii.ascii) : bool :=
  is_ascii_alphanumeric c || is_between 43 43 c || is_between 47 47 c || is_between 61 61 c ||
  (is_ascii_space c && negb (char_code c =? 11)).
Section tool.
Context `{X509, Coset, Base64Standard, !Codec Value, Sha256, !Sha384, !Base64} (AWS_NITRO_ROOT_G1_PEM : bytes).
(** What is all base64 and decodes is decoded; anything else is the document. *)
Definition decode_document (raw : bytes) : bytes :=
  let text := if valid_utf8 (bytes_str raw) then trim (bytes_str raw) else "" in
  if negb (bool_decide (text = "")) && all_chars base64_char text then
    default raw (base64_decode (foldr String.append "" (words text)))
  else raw.
(** One GET: the leaf the server presented and the document of its answer. *)
Definition get_text (host path : string) (nonce : bytes) : bytes :=
  str_bytes ("GET " +:+ path +:+ " HTTP/1.1" +:+ crlf +:+ "Host: " +:+ host +:+ crlf +:+ NONCE_HEADER +:+ ": " +:+ b64 nonce +:+ crlf +:+
    "Connection: close" +:+ crlf +:+ "User-Agent: nitro-attest" +:+ crlf +:+ crlf).
Definition document_line (head : string) : option string :=
  l ← find (λ l, starts_with (ATTESTATION_HEADER +:+ ":") (to_ascii_lowercase l)) (str_lines head);
  '(_, v) ← split_once ":" l;
  Some (trim v).
Record Fetched := { f_document : bytes; f_certificate : bytes }.
(** [serves]: for a host and a port, what is read and what was presented. *)
Definition fetch (serves : string → Z → bytes → result string (bytes * option bytes)) (url : string) (nonce : bytes) : result string Fetched :=
  '(host, port, path) ← split_url url;
  '(response, leaf) ← serves host port (get_text host path nonce);
  certificate ← ok_or leaf "the server presented no certificate";
  '(_, head, _) ← split_response response;
  encoded ← ok_or (document_line head) "no attestation header on the response";
  Ok {| f_document := decode_document (str_bytes encoded); f_certificate := certificate |}.

(** ** What is required *)
Definition expected_guest_register (pinned : option string) (component : option bytes) : result string (option bytes) :=
  let measured := guest_pcr <$> component in
  match pinned with
  | None => Ok measured
  | Some p =>
      p ← ok_or (hex_decode (trim p)) "--pcr16 is not hex";
      _ ← match measured with
          | Some m => check (bool_decide (m = p)) "--pcr16 and --guest name different guests"
          | None => Ok tt
          end;
      Ok (Some p)
  end.
Definition check_binding (user_data server_certificate component : option bytes) : result string () :=
  match user_data with
  | None => check (negb (given server_certificate)) "document carries no user_data, so the TLS certificate is not bound to it"
  | Some u =>
      hashes ← parse_hashes u;
      _ ← match server_certificate with
          | Some der => check (bool_decide (sha256 der = tls_certificate hashes)) "something is terminating TLS in between"
          | None => Ok tt
          end;
      match component with
      | Some b => check (bool_decide (sha256 b = guest hashes)) "the enclave is serving a different guest"
      | None => Ok tt
      end
  end.
Definition expectations (o : Options) (p16 : option bytes) (nonce : bytes) : result string Expectations :=
  n ← (if given (opt_url o) then Ok (Some nonce) else of_hex (opt_nonce o) "--nonce is not hex");
  p0 ← of_hex (opt_pcr0 o) "--pcr0 is not hex";
  let m := match p0 with Some p => <[0 := p]> ∅ | None => ∅ end in
  Ok {| want_pcrs := match p16 with Some p => <[PCR_GUEST := p]> m | None => m end;
        want_nonce := n; want_user_data := None; max_age := Some (opt_max_age o * 1000000000) |}.
Definition verified (o : Options) (now : Z) (d : bytes) : result string Verified :=
  if opt_unsigned_emulator o then d ← parse d; Ok {| document := d; trust := Unsigned |}
  else verify d {| trust_root := default AWS_NITRO_ROOT_G1_PEM (opt_trust_root o); Attestation.now := now;
                   allow_untrusted_root := opt_allow_untrusted_root o |}.
(** The digest and the register of a component, or the document of which it said OK. *)
Inductive outcome := Measured (digest register : bytes) | Approved (v : Verified).
(** The document and the certificate it is to bind. *)
Definition subject_of (serves : string → Z → bytes → result string (bytes * option bytes)) (o : Options) (nonce : bytes) :
    result string (bytes * option bytes) :=
  match opt_url o, opt_document o with
  | Some url, _ => f ← fetch serves url nonce; Ok (f_document f, Some (f_certificate f))
  | None, Some raw => Ok (decode_document raw, opt_peer_certificate o)
  | None, None => Err "pass --url, --document, or --measure"
  end.
Definition run_tool (serves : string → Z → bytes → result string (bytes * option bytes)) (o : Options) (nonce : bytes) (now : Z) :
    result string outcome :=
  match opt_measure o with
  | Some component => Ok (Measured (sha256 component) (guest_pcr component))
  | None =>
      '(d, certificate) ← subject_of serves o nonce;
      p16 ← expected_guest_register (opt_pcr16 o) (opt_guest o);
      v ← verified o now d;
      e ← expectations o p16 nonce;
      _ ← expect (document v) e now;
      _ ← check_binding (user_data (document v)) certificate (opt_guest o);
      Ok (Approved v)
  end.
End tool.
