(* ===== verification/VerifierProps.v ===== *)
(** * The verifier's tool: what its OK means, and what it reads as the client does *)
From S2P Require Import Prelude Concrete Text Http Logs Policy Pinpoint Egress Attestation AttestationProps AttestationWitness Passkey Client ClientProps Verifier.

(** ** Chunked bodies *)
Lemma char_code_byte x : char_code (Ascii.ascii_of_byte x) = byteZ x.
Proof. by destruct x. Qed.
Lemma between_byte lo hi x : is_between lo hi (Ascii.ascii_of_byte x) = within lo hi x.
Proof. unfold is_between, within. by rewrite char_code_byte. Qed.
Lemma bytes_str_cons x t : bytes_str (x :: t) = String (Ascii.ascii_of_byte x) (bytes_str t).
Proof. reflexivity. Qed.
Lemma lossy_utf8 b : valid_utf8 (bytes_str b) = true → lossy b = b.
Proof.
  remember (length b) as n eqn:Hn. revert b Hn. induction n as [n IH] using lt_wf_ind. intros b ->.
  assert (∀ t, (length t < length b)%nat → valid_utf8 (bytes_str t) = true → lossy t = t) as K by (intros t Ht; by eapply IH).
  clear IH. destruct b as [|x t]; [done|]. cbn [length] in K. rewrite bytes_str_cons. cbn [valid_utf8 lossy]. rewrite char_code_byte.
  destruct (byteZ x <? 128); [intros Hv; by rewrite K by (done || lia)|]. destruct (byteZ x <? 194); [done|].
  destruct (byteZ x <? 224); [|destruct (byteZ x <? 240); [|destruct (byteZ x <? 245); [|done]]].
  - destruct t as [|y u]; [done|]. rewrite bytes_str_cons. unfold cont. rewrite between_byte. intros [-> Hv]%andb_true_iff.
    rewrite K; [done|cbn; lia|done].
  - destruct t as [|y [|z u]]; [done|by rewrite bytes_str_cons|]. rewrite !bytes_str_cons. unfold cont. rewrite !between_byte.
    intros [[-> ->]%andb_true_iff Hv]%andb_true_iff. rewrite K; [done|cbn; lia|done].
  - destruct t as [|y [|z [|w u]]]; [done|by rewrite bytes_str_cons|by rewrite !bytes_str_cons|]. rewrite !bytes_str_cons. unfold cont.
    rewrite !between_byte. intros [[[-> ->]%andb_true_iff ->]%andb_true_iff Hv]%andb_true_iff. rewrite K; [done|cbn; lia|done].
Qed.
(** The two readers of chunked bodies agree: what the tool reads the client reads. *)
Lemma unchunk_from_dechunk fuel b acc out : (length b < fuel)%nat → unchunk_from fuel b acc = Ok out → dechunk_from fuel b acc = Some out.
Proof.
  revert b acc. induction fuel as [|fuel IH]; intros b acc Hf E; [done|]. cbn [unchunk_from dechunk_from] in *.
  apply bind_Ok in E as (e & Ee%ok_or_Ok & E). apply bind_Ok in E as (n & En%ok_or_Ok & E). rewrite Ee. cbn [mbind option_bind].
  assert (chunk_size (take e b) = Some n) as Hn.
  { unfold utf8_size in En. destruct (valid_utf8 _) eqn:Hv; [|done]. unfold chunk_size. by rewrite lossy_utf8. }
  rewrite Hn. cbn [mbind option_bind]. destruct (n =? 0) eqn:E0; [by injection E as ->|]. apply Z.eqb_neq in E0.
  destruct (chunk_size_range _ _ Hn) as [Hpos _].
  apply bind_Ok in E as (u & Hle%check_Ok%Z.leb_le & E). unfold len in Hle.
  destruct (Z.leb_spec (n + 2) (len (drop (e + 2) b))) as [Hl|Hl]; unfold len in Hl.
  - apply IH; [|done]. destruct (find_at_spec _ _ _ Ee) as [_ Hb]. rewrite !length_drop in *. lia.
  - rewrite drop_ge in E by lia. by destruct fuel.
Qed.
Lemma unchunk_dechunk b out : unchunk b = Ok out → dechunk b = Some out.
Proof. intros E. apply unchunk_from_dechunk; [lia|exact E]. Qed.

(** ** What OK means *)
Section tool.
Context `{X509, Coset, Base64Standard, !Codec Value, Sha256, !Sha384, !Base64} (AWS_NITRO_ROOT_G1_PEM : bytes).
Notation run_tool := (run_tool AWS_NITRO_ROOT_G1_PEM).
Lemma register_Ok o p16 : expected_guest_register (opt_pcr16 o) (opt_guest o) = Ok p16 →
  (∀ s, opt_pcr16 o = Some s → is_Some p16 ∧ hex_decode (trim s) = p16) ∧ (∀ g, opt_guest o = Some g → p16 = Some (guest_pcr g)).
Proof.
  unfold expected_guest_register. destruct (opt_pcr16 o) as [s|], (opt_guest o) as [g|]; cbn; intros E.
  - apply bind_Ok in E as (p & Ep%ok_or_Ok & E). apply bind_Ok in E as (u & Eu%check_Ok & [= <-]). apply bool_decide_eq_true in Eu as <-.
    split; [intros ? [= <-]; by rewrite Ep|by intros ? [= <-]].
  - apply bind_Ok in E as (p & Ep%ok_or_Ok & [= <-]). split; [intros ? [= <-]; by rewrite Ep|done].
  - injection E as <-. split; [done|by intros ? [= <-]].
  - injection E as <-. by split.
Qed.
Lemma binding_Ok u cert comp x : check_binding u cert comp = Ok x →
  (is_Some cert → is_Some u) ∧
  ∀ b, u = Some b → ∃ h, b = serialize h ∧ (∀ leaf, cert = Some leaf → tls_certificate h = sha256 leaf) ∧
    (∀ c, comp = Some c → guest h = sha256 c).
Proof.
  unfold check_binding. intros E. destruct u as [u|].
  - split; [by eexists|]. intros b [= ->]. apply bind_Ok in E as (h & (-> & _ & _)%hashes_roundtrip & E).
    apply bind_Ok in E as (y & Ey & E). exists h. split_and!; [done| |].
    + intros leaf ->. by apply check_Ok, bool_decide_eq_true in Ey.
    + intros c ->. by apply check_Ok, bool_decide_eq_true in E.
  - split; [|done]. by intros [leaf ->].
Qed.
(** Without a [user_data] and without a certificate the component's digest is
    compared with nothing; its register still is. *)
Example unbound_component b : check_binding None None (Some b) = Ok ().
Proof. reflexivity. Qed.
(** C22: OK means the enclave that was asked for.  When the tool says OK of a
    command line it accepts, the document it read is signed under the trust root
    and carries the pinned register of the runtime and that of the guest, which
    is the one the component measures to if a component was given, unless the
    emulator was named; it is of the age asked for; a document that was fetched
    quotes the nonce of this run and binds the certificate that the very
    connection presented.  Whenever a certificate was at hand the document binds
    something, and whatever a document binds, from wherever it was read, is that
    certificate and the digest of the component that was given. *)
Theorem ok_means_identified serves o n now v : accepted o = true → run_tool serves o n now = Ok (Approved v) →
  ∃ cose cert, subject_of serves o n = Ok (cose, cert) ∧
  (opt_unsigned_emulator o = false →
     verify cose {| trust_root := default AWS_NITRO_ROOT_G1_PEM (opt_trust_root o); Attestation.now := now;
                    allow_untrusted_root := opt_allow_untrusted_root o |} = Ok v ∧
     ∃ p0 p16, (opt_pcr0 o ≫= λ s, hex_decode (trim s)) = Some p0 ∧ pcr 0 (document v) = Some p0 ∧
       pcr PCR_GUEST (document v) = Some p16 ∧ (∀ s, opt_pcr16 o = Some s → hex_decode (trim s) = Some p16)) ∧
  (∀ g, opt_guest o = Some g → pcr PCR_GUEST (document v) = Some (guest_pcr g)) ∧
  (is_Some (opt_url o) → is_Some cert ∧ Attestation.nonce (document v) = Some n) ∧
  (is_Some cert → is_Some (user_data (document v))) ∧
  (∀ u, user_data (document v) = Some u → ∃ h, u = serialize h ∧
     (∀ leaf, cert = Some leaf → tls_certificate h = sha256 leaf) ∧ (∀ b, opt_guest o = Some b → guest h = sha256 b)) ∧
  Z.abs (now - timestamp (document v)) ≤ opt_max_age o * 1000000000.
Proof.
  unfold Verifier.run_tool. intros Ha E. destruct (opt_measure o) eqn:Em; [done|].
  apply bind_Ok in E as ([cose cert] & Es & E). exists cose, cert. split; [done|].
  apply bind_Ok in E as (p16 & [H16 Hg]%register_Ok & E). apply bind_Ok in E as (w & Ew & E). apply bind_Ok in E as (e & Ee & E).
  apply bind_Ok in E as ([] & (Hp & Hn & _ & Hage)%expect_Ok & E). apply bind_Ok in E as (x & Hb & [= ->]).
  unfold expectations in Ee. apply bind_Ok in Ee as (nn & En & Ee). apply bind_Ok in Ee as (p0 & E0 & [= <-]).
  apply of_hex_Ok in E0 as [E0 E0s]. cbn [want_pcrs want_nonce max_age] in Hp, Hn, Hage.
  assert (∀ p, p16 = Some p → pcr PCR_GUEST (document v) = Some p) as K16 by (intros p ->; apply Hp, lookup_insert_eq).
  assert (∀ p, p0 = Some p → pcr 0 (document v) = Some p) as K0.
  { intros p ->. apply Hp. destruct p16; [rewrite lookup_insert_ne by done|]; apply lookup_insert_eq. }
  split_and!.
  - intros Hu. split; [unfold verified in Ew; by rewrite Hu in Ew|]. unfold accepted in Ha. rewrite Em, Hu in Ha. cbn [given] in Ha.
    rewrite !orb_false_r in Ha. rewrite !andb_true_iff in Ha. destruct Ha as (((((_ & _) & _) & Hp0) & Hp16) & _).
    assert (is_Some (opt_pcr0 o)) as Hs0 by (destruct (opt_pcr0 o); [by eexists|done]). destruct (E0s Hs0) as [q0 Hq0].
    assert (is_Some p16) as [q16 Hq16].
    { destruct (opt_pcr16 o) as [s|]; [by apply (H16 s)|]. destruct (opt_guest o) as [g|]; [by rewrite (Hg g)|done]. }
    exists q0, q16. split_and!; [by rewrite E0|by apply K0|by apply K16|]. intros s Hs. rewrite <- Hq16. by apply H16.
  - intros g Hgo. by apply K16, Hg.
  - intros [url Hu]. rewrite Hu in En. cbn in En. injection En as <-. split; [|by apply Hn].
    unfold subject_of in Es. rewrite Hu in Es. apply bind_Ok in Es as (f & _ & [= _ <-]). by eexists.
  - by apply (binding_Ok _ _ _ _ Hb).
  - by apply (binding_Ok _ _ _ _ Hb).
  - by apply Hage.
Qed.
End tool.

(** ** A tool that asks an enclave *)
Module VerifierWitness.
#[local] Existing Instances AttestationWitness.value_codec AttestationWitness.x509 AttestationWitness.coset Concrete.sha
  ClientWitness.sha384_ ClientWitness.b64url ClientWitness.b64std.
Definition serves (host : string) (port : Z) (asked : bytes) : result string (bytes * option bytes) :=
  if decide (host = "enclave.test" ∧ port = 443)
  then Ok (ClientWitness.answer "x-enclave-attestation: D" "", Some ClientWitness.leaf1) else Err "connecting".
Definition asks : Options :=
  {| opt_url := Some "https://enclave.test"; opt_document := None; opt_peer_certificate := None; opt_nonce := None;
     opt_pcr0 := Some "2a"; opt_pcr16 := Some "2b"; opt_guest := None; opt_measure := None; opt_trust_root := None;
     opt_allow_untrusted_root := false; opt_unsigned_emulator := false; opt_max_age := 300 |}.
Abbreviation said := (run_tool [Byte.x01] serves asks ClientWitness.nonce1 (50 * 1000000000)).
Lemma ok_means_identified_witness : ∃ v, said = Ok (Approved v) ∧ Attestation.nonce (document v) = Some ClientWitness.nonce1 ∧
  ∃ p0, pcr 0 (document v) = Some p0.
Proof.
  assert (match said with Ok (Approved _) => true | _ => false end = true) as Hok by (vm_compute; reflexivity).
  destruct said as [[|v]|] eqn:E; [done| |done]. exists v. split; [reflexivity|].
  destruct (ok_means_identified [Byte.x01] serves asks ClientWitness.nonce1 (50 * 1000000000) v ltac:(by vm_compute) E)
    as (cose & cert & _ & Hv & _ & Hn & _ & _ & _).
  split; [apply Hn; by eexists|]. destruct (Hv eq_refl) as (_ & p0 & _ & _ & Hp & _). by exists p0.
Defined.
End VerifierWitness.
